(** * FormValidator: the rule registry and the rule evaluator of
      [src/js/script.js], embedded in Rocq.

    The class [FormValidator] keeps an array of validators, each binding a
    field identifier to an ordered array of rules, and evaluates them either
    for the whole form ([validateForm]) or for one field ([validateField]).
    The embedding follows the script function by function:

    - JavaScript strings are [string]s, one [ascii] per code unit, so the
      values covered are the ones whose code units are below 256;
    - a value that may be [undefined] or [null] is an [option];
    - a call that may throw returns a [Result];
    - the object fields of the class ([validators], [errors]) and the
      document the script reads and writes are threaded through a state
      monad; a state mutated before a throw stays mutated;
    - the selector engine of the browser, [querySelectorAll], is a
      parameter of the methods that call it;
    - every call of a rule's [condition] or [method] is recorded in a call
      log, which is how statements of the form "is never invoked" are read. *)

From Stdlib Require Import String Ascii List Bool Arith ZArith Lia.
Import ListNotations.
Open Scope string_scope.
Open Scope list_scope.

(* ================================================================= *)
(** ** JavaScript values used by the rules *)

Module Js.

Inductive Error := TypeError | SyntaxError | InvalidCharacterError.

Inductive Result (A : Type) :=
| Ok (a : A)
| Throw (e : Error).
Arguments Ok {A} a.
Arguments Throw {A} e.

Definition code (c : ascii) : nat := nat_of_ascii c.

Definition inRange (lo hi : nat) (c : ascii) : bool :=
  Nat.leb lo (code c) && Nat.leb (code c) hi.

Definition isChar (x : ascii) (c : ascii) : bool := Ascii.eqb x c.

(** [s.indexOf(t)]: the least index at which [t] occurs in [s], or -1. *)
Fixpoint indexOfFrom (i : Z) (s t : string) : Z :=
  if String.prefix t s then i
  else match s with
       | EmptyString => (-1)%Z
       | String _ s' => indexOfFrom (i + 1) s' t
       end.

Definition indexOf (s t : string) : Z := indexOfFrom 0 s t.

(** [s.lastIndexOf(t)]: the greatest index at which [t] occurs, or -1. *)
Fixpoint lastIndexOfFrom (i best : Z) (s t : string) : Z :=
  let best' := if String.prefix t s then i else best in
  match s with
  | EmptyString => best'
  | String _ s' => lastIndexOfFrom (i + 1) best' s' t
  end.

Definition lastIndexOf (s t : string) : Z := lastIndexOfFrom 0 (-1) s t.

(** *** Regular expressions

    The literals of the script are all of the form [/^...$/] without the
    multiline flag, so [test] is a match of the whole string.  Matching is
    by derivatives. *)

Inductive regex :=
| Never
| Epsilon
| Class (p : ascii -> bool)
| Seq (r1 r2 : regex)
| Alt (r1 r2 : regex)
| Star (r : regex).

Fixpoint nullable (r : regex) : bool :=
  match r with
  | Never => false
  | Epsilon => true
  | Class _ => false
  | Seq r1 r2 => nullable r1 && nullable r2
  | Alt r1 r2 => nullable r1 || nullable r2
  | Star _ => true
  end.

Fixpoint deriv (c : ascii) (r : regex) : regex :=
  match r with
  | Never => Never
  | Epsilon => Never
  | Class p => if p c then Epsilon else Never
  | Seq r1 r2 =>
      if nullable r1
      then Alt (Seq (deriv c r1) r2) (deriv c r2)
      else Seq (deriv c r1) r2
  | Alt r1 r2 => Alt (deriv c r1) (deriv c r2)
  | Star r1 => Seq (deriv c r1) (Star r1)
  end.

Fixpoint matches (r : regex) (s : string) : bool :=
  match s with
  | EmptyString => nullable r
  | String c s' => matches (deriv c r) s'
  end.

Definition Plus (r : regex) : regex := Seq r (Star r).
Definition Opt (r : regex) : regex := Alt Epsilon r.

Fixpoint Lit (s : string) : regex :=
  match s with
  | EmptyString => Epsilon
  | String c s' => Seq (Class (isChar c)) (Lit s')
  end.

(** [r{n}] and [r{n,n+k}]. *)
Fixpoint Times (n : nat) (r : regex) : regex :=
  match n with
  | O => Epsilon
  | S n' => Seq r (Times n' r)
  end.

Fixpoint UpTo (k : nat) (r : regex) : regex :=
  match k with
  | O => Epsilon
  | S k' => Opt (Seq r (UpTo k' r))
  end.

Definition Between (n m : nat) (r : regex) : regex :=
  Seq (Times n r) (UpTo (m - n) r).

(** Character classes.  [\s] is the white space and line terminators of
    the language; the ones below 256 are listed. *)
Definition digit : ascii -> bool := inRange 48 57.
Definition lower : ascii -> bool := inRange 97 122.
Definition upper : ascii -> bool := inRange 65 90.
Definition letter (c : ascii) : bool := lower c || upper c.
Definition whiteSpace (c : ascii) : bool :=
  inRange 9 13 c || Nat.eqb (code c) 32 || Nat.eqb (code c) 160.

(** [String(v)] for a value that is a string or [undefined]. *)
Definition toString (v : option string) : string :=
  match v with
  | Some s => s
  | None => "undefined"
  end.

(** [re.test(v)] for an anchored literal [re]. *)
Definition test (r : regex) (v : option string) : bool :=
  matches r (toString v).

(** [v.length]; reading a property of [undefined] throws. *)
Definition length (v : option string) : Result nat :=
  match v with
  | Some s => Ok (String.length s)
  | None => Throw TypeError
  end.

(** *** [isNaN]

    [isNaN(v)] converts [v] to a number.  [undefined] converts to NaN; a
    string converts to NaN exactly when it is not a StringNumericLiteral:
    optional white space around nothing, a signed decimal literal,
    [Infinity], or an unsigned binary, octal or hexadecimal integer. *)

Definition decimalDigits : regex := Plus (Class digit).

Definition exponentPart : regex :=
  Seq (Class (fun c => isChar "e" c || isChar "E" c))
      (Seq (Opt (Class (fun c => isChar "+" c || isChar "-" c))) decimalDigits).

Definition strUnsignedDecimalLiteral : regex :=
  Alt (Lit "Infinity")
 (Alt (Seq decimalDigits
        (Seq (Class (isChar "."))
          (Seq (Star (Class digit)) (Opt exponentPart))))
 (Alt (Seq (Class (isChar ".")) (Seq decimalDigits (Opt exponentPart)))
      (Seq decimalDigits (Opt exponentPart)))).

Definition strDecimalLiteral : regex :=
  Seq (Opt (Class (fun c => isChar "+" c || isChar "-" c)))
      strUnsignedDecimalLiteral.

Definition hexDigit (c : ascii) : bool :=
  digit c || inRange 97 102 c || inRange 65 70 c.

Definition nonDecimalIntegerLiteral : regex :=
  Seq (Class (isChar "0"))
 (Alt (Seq (Class (fun c => isChar "b" c || isChar "B" c))
           (Plus (Class (inRange 48 49))))
 (Alt (Seq (Class (fun c => isChar "o" c || isChar "O" c))
           (Plus (Class (inRange 48 55))))
      (Seq (Class (fun c => isChar "x" c || isChar "X" c))
           (Plus (Class hexDigit))))).

Definition stringNumericLiteral : regex :=
  Seq (Star (Class whiteSpace))
 (Seq (Opt (Alt strDecimalLiteral nonDecimalIntegerLiteral))
      (Star (Class whiteSpace))).

Definition isNaN (v : option string) : bool :=
  match v with
  | Some s => negb (matches stringNumericLiteral s)
  | None => true
  end.

End Js.

Export Js.

(* ================================================================= *)
(** ** The document

    The elements of the page are objects the script holds references to
    ([validator.field]) and mutates in place, so the document is a store:
    a list of elements keyed by handle, in tree order, each with a pointer
    to its parent.  An element removed from the tree stays in the store,
    marked as not connected, because a reference to it still reads its
    properties. *)

Module Dom.

Definition handle := nat.

Record Element := mkElement {
  tagName : string;
  elemId : string;
  elemName : string;
  elemType : string;
  value : option string;
  checked : bool;
  classList : list string;
  attributes : list (string * string);
  innerText : string;
  parentElement : option handle;
  isConnected : bool
}.

Definition Document := list (handle * Element).

Definition setClassList (cl : list string) (e : Element) : Element :=
  mkElement (tagName e) (elemId e) (elemName e) (elemType e) (value e)
            (checked e) cl (attributes e) (innerText e)
            (parentElement e) (isConnected e).

Definition setParent (p : option handle) (e : Element) : Element :=
  mkElement (tagName e) (elemId e) (elemName e) (elemType e) (value e)
            (checked e) (classList e) (attributes e) (innerText e)
            p (isConnected e).

Definition setConnected (b : bool) (e : Element) : Element :=
  mkElement (tagName e) (elemId e) (elemName e) (elemType e) (value e)
            (checked e) (classList e) (attributes e) (innerText e)
            (parentElement e) b.

Arguments setClassList : simpl never.
Arguments setParent : simpl never.
Arguments setConnected : simpl never.

Fixpoint deref (d : Document) (h : handle) : option Element :=
  match d with
  | [] => None
  | (h', e) :: d' => if Nat.eqb h' h then Some e else deref d' h
  end.

Fixpoint update (h : handle) (f : Element -> Element) (d : Document)
  : Document :=
  match d with
  | [] => []
  | (h', e) :: d' =>
      if Nat.eqb h' h then (h', f e) :: d' else (h', e) :: update h f d'
  end.

Definition memH (h : handle) (l : list handle) : bool :=
  existsb (Nat.eqb h) l.

(** The handles of [root] and of its descendants.  Parents come before
    their children in the store, so one pass collects them. *)
Fixpoint subtreeFrom (acc : list handle) (root : handle) (d : Document)
  : list handle :=
  match d with
  | [] => acc
  | (h, e) :: d' =>
      let inside :=
        Nat.eqb h root ||
        match parentElement e with
        | Some p => memH p acc
        | None => false
        end in
      subtreeFrom (if inside then acc ++ [h] else acc) root d'
  end.

Definition subtree (d : Document) (root : handle) : list handle :=
  subtreeFrom [] root d.

(** [document.getElementById(id)]: the first connected element, in tree
    order, with that id; [null] when there is none. *)
Fixpoint getElementById (d : Document) (id : string) : option handle :=
  match d with
  | [] => None
  | (h, e) :: d' =>
      if isConnected e && negb (String.eqb id EmptyString)
         && String.eqb (elemId e) id
      then Some h
      else getElementById d' id
  end.

(** The elements a form lists among its controls. *)
Definition listed (e : Element) : bool :=
  existsb (String.eqb (tagName e))
    ["BUTTON"; "FIELDSET"; "INPUT"; "OBJECT"; "OUTPUT"; "SELECT"; "TEXTAREA"]
  && negb (String.eqb (tagName e) "INPUT" && String.eqb (elemType e) "image").

Fixpoint namedItem (inForm : list handle) (key : string) (d : Document)
  : option handle :=
  match d with
  | [] => None
  | (h, e) :: d' =>
      if memH h inForm && listed e && negb (String.eqb key EmptyString)
         && (String.eqb (elemId e) key || String.eqb (elemName e) key)
      then Some h
      else namedItem inForm key d'
  end.

(** [form.elements[key]]: the first listed element of the form whose id or
    name is [key], [undefined] when there is none.  The form is taken to
    have at most one control per key, and [key] not to be an index or a
    property name of the collection. *)
Definition formElements (d : Document) (form : handle) (key : string)
  : option handle :=
  namedItem (tl (subtree d form)) key d.

(** *** [classList]

    A token that is empty or contains ASCII white space makes [add] and
    [remove] throw before anything is changed. *)
Definition asciiWhiteSpace (c : ascii) : bool :=
  existsb (Nat.eqb (code c)) [9; 10; 12; 13; 32].

Fixpoint hasWhiteSpace (s : string) : bool :=
  match s with
  | EmptyString => false
  | String c s' => asciiWhiteSpace c || hasWhiteSpace s'
  end.

Fixpoint checkTokens (tokens : list string) : Result unit :=
  match tokens with
  | [] => Ok tt
  | t :: ts =>
      if String.eqb t EmptyString then Throw SyntaxError
      else if hasWhiteSpace t then Throw InvalidCharacterError
      else checkTokens ts
  end.

Definition hasToken (t : string) (cl : list string) : bool :=
  existsb (String.eqb t) cl.

Fixpoint addTokens (tokens : list string) (cl : list string) : list string :=
  match tokens with
  | [] => cl
  | t :: ts => addTokens ts (if hasToken t cl then cl else cl ++ [t])
  end.

Definition removeToken (t : string) (cl : list string) : list string :=
  filter (fun x => negb (String.eqb x t)) cl.

(** [el.classList.add(...tokens)], [el] possibly [null] or [undefined]. *)
Definition classListAdd (el : option handle) (tokens : list string)
  (d : Document) : Result Document :=
  match el with
  | None => Throw TypeError
  | Some h =>
      match deref d h with
      | None => Throw TypeError
      | Some _ =>
          match checkTokens tokens with
          | Throw e => Throw e
          | Ok _ =>
              Ok (update h (fun e => setClassList
                                       (addTokens tokens (classList e)) e) d)
          end
      end
  end.

(** [el.classList.remove(token)]. *)
Definition classListRemove (el : option handle) (token : string)
  (d : Document) : Result Document :=
  match el with
  | None => Throw TypeError
  | Some h =>
      match deref d h with
      | None => Throw TypeError
      | Some _ =>
          match checkTokens [token] with
          | Throw e => Throw e
          | Ok _ =>
              Ok (update h (fun e => setClassList
                                       (removeToken token (classList e)) e) d)
          end
      end
  end.

(** *** Tree mutation *)

(** [el.remove()]: [el] loses its parent and its subtree leaves the
    document. *)
Definition remove (h : handle) (d : Document) : Document :=
  let sub := subtree d h in
  map (fun he =>
         let e1 := if Nat.eqb (fst he) h
                   then setParent None (snd he) else snd he in
         (fst he, if memH (fst he) sub then setConnected false e1 else e1))
      d.

Definition freshHandle (d : Document) : handle :=
  S (fold_right (fun he m => Nat.max (fst he) m) 0 d).

(** The new element goes right after the last element of the subtree of
    its parent, which makes it the last child in tree order. *)
Fixpoint placeAfter (sub : list handle) (x : handle * Element)
  (d : Document) : Document :=
  match d with
  | [] => [x]
  | he :: d' =>
      if existsb (fun he' => memH (fst he') sub) d'
      then he :: placeAfter sub x d'
      else he :: x :: d'
  end.

(** [target.insertAdjacentElement('beforeend', el)] for an element [el]
    just created: [el] becomes the last child of [target]. *)
Definition insertBeforeEnd (target : handle) (el : Element) (d : Document)
  : Document :=
  match deref d target with
  | None => d
  | Some t =>
      placeAfter (subtree d target)
        (freshHandle d,
         setConnected (isConnected t) (setParent (Some target) el))
        d
  end.

End Dom.

Export Dom.

(* ================================================================= *)
(** ** The data model of the class *)

(** A rule is [{condition?, method, message}].  The two functions are
    closures over the live page: [condition()] reads the document,
    [method(field)] reads the element behind the reference it is given,
    which is [undefined] when the form had no such control.  Either may
    throw; neither writes anything. *)
Definition Condition : Type := Document -> Result bool.

Definition Predicate : Type := Document -> option handle -> Result bool.

Record Rule := mkRule {
  condition : option Condition;
  method : Predicate;
  message : string
}.

(** [{fieldId, rules, field}], as pushed by [addValidator]. *)
Record Validator := mkValidator {
  fieldId : string;
  rules : list Rule;
  field : option handle
}.

(** [{fieldId, message}], as pushed onto [this.errors]. *)
Record ErrorRecord := mkError {
  errorFieldId : string;
  errorMessage : string
}.

(** One entry of the call log: rule [ri] of the validator at index [ei]
    had its condition, or its method, called, with that result. *)
Inductive Call :=
| ConditionCall (ei ri : nat) (res : Result bool)
| MethodCall (ei ri : nat) (res : Result bool).

(** The instance ([this.form], [this.validators], [this.errors], which is
    [undefined] until the first [validateForm]), the document, the lines
    written by [console.warn], and the call log. *)
Record State := mkState {
  form : handle;
  validators : list Validator;
  errors : option (list ErrorRecord);
  document : Document;
  console : list (list string);
  calls : list Call
}.

Definition setValidators (vs : list Validator) (s : State) : State :=
  mkState (form s) vs (errors s) (document s) (console s) (calls s).

Definition setErrors (es : option (list ErrorRecord)) (s : State) : State :=
  mkState (form s) (validators s) es (document s) (console s) (calls s).

Definition setDocument (d : Document) (s : State) : State :=
  mkState (form s) (validators s) (errors s) d (console s) (calls s).

Definition setConsole (c : list (list string)) (s : State) : State :=
  mkState (form s) (validators s) (errors s) (document s) c (calls s).

Definition setCalls (c : list Call) (s : State) : State :=
  mkState (form s) (validators s) (errors s) (document s) (console s) c.

(** *** The monad of the methods

    [Eff S A]: a computation over a state [S] that returns an [A] or
    throws.  The methods that only touch the page run over [Document],
    the others over [State]. *)

Definition Eff (S A : Type) : Type := S -> Result A * S.

Definition M (A : Type) : Type := Eff State A.

Definition ret {S A} (a : A) : Eff S A := fun s => (Ok a, s).

Definition bind {S A B} (m : Eff S A) (k : A -> Eff S B) : Eff S B :=
  fun s =>
    match m s with
    | (Ok a, s') => k a s'
    | (Throw e, s') => (Throw e, s')
    end.

Declare Scope js_scope.
Delimit Scope js_scope with js.
Notation "x <- m ;; k" := (bind m (fun x => k))
  (at level 100, m at next level, right associativity) : js_scope.
Notation "m ;; k" := (bind m (fun _ => k))
  (at level 100, right associativity) : js_scope.
Open Scope js_scope.

Definition lift {S A} (r : Result A) : Eff S A := fun s => (r, s).

Definition reads {S A} (f : S -> A) : Eff S A := fun s => (Ok (f s), s).

Definition modify {S} (f : S -> S) : Eff S unit := fun s => (Ok tt, f s).

(** A mutation of the document that may throw before it changes it. *)
Definition mutate (f : Document -> Result Document) : Eff Document unit :=
  fun d =>
    match f d with
    | Ok d' => (Ok tt, d')
    | Throw e => (Throw e, d)
    end.

(** Running a method of the page inside a method of the class. *)
Definition onDocument {A} (m : Eff Document A) : M A :=
  fun s => let (r, d) := m (document s) in (r, setDocument d s).

Definition record (c : Call) : M unit :=
  modify (fun s => setCalls (calls s ++ [c]) s).

(* ================================================================= *)
(** ** The methods of [FormValidator] *)

(** [el.tagName === 'INPUT' ? el.parentElement : el]. *)
Definition labelOrSelf (el : option handle) (d : Document)
  : Result (option handle) :=
  match el with
  | None => Throw TypeError
  | Some h =>
      match deref d h with
      | None => Throw TypeError
      | Some e =>
          Ok (if String.eqb (tagName e) "INPUT" then parentElement e
              else Some h)
      end
  end.

Definition showValid (formElement : option handle) : Eff Document unit :=
  mutate (classListRemove formElement "error") ;;
  formElement <- (fun d => (labelOrSelf formElement d, d)) ;;
  mutate (classListRemove formElement "valid") ;;
  mutate (classListRemove formElement "not-valid") ;;
  mutate (classListAdd formElement ["valid"]).

Definition addValidator (element : string) (rules : list Rule) : M unit :=
  modify (fun s =>
    setValidators
      (validators s ++
       [mkValidator element rules
                    (formElements (document s) (form s) element)])
      s).

(** [this.errors.push(e)]. *)
Definition pushError (e : ErrorRecord) : M unit :=
  fun s =>
    match errors s with
    | None => (Throw TypeError, s)
    | Some es => (Ok tt, setErrors (Some (es ++ [e])) s)
    end.

(** [rule.condition && !rule.condition()]: a rule without a condition
    calls nothing. *)
Definition conditionNotMet (ei ri : nat) (r : Rule) : M bool :=
  match condition r with
  | None => ret false
  | Some c =>
      res <- reads (fun s => c (document s)) ;;
      record (ConditionCall ei ri res) ;;
      b <- lift res ;;
      ret (negb b)
  end.

(** [rule.method(field)]. *)
Definition callMethod (ei ri : nat) (r : Rule) (fld : option handle)
  : M bool :=
  res <- reads (fun s => method r (document s) fld) ;;
  record (MethodCall ei ri res) ;;
  lift res.

(** How the body of a [for] loop over the rules ends: it falls through or
    [continue]s to the next rule, or it [break]s out of the loop. *)
Inductive Flow := Continue | Break.

(** The body of the inner loop of [validateForm], for rule [rulesIndex]. *)
Definition formRule (ei : nat) (element : Validator) (rulesIndex : nat)
  (r : Rule) : M Flow :=
  skip <- conditionNotMet ei rulesIndex r ;;
  if skip then ret Continue
  else
    ok <- callMethod ei rulesIndex r (field element) ;;
    if negb ok
    then (pushError (mkError (fieldId element) (message r)) ;;
          ret Break)
    else (onDocument (showValid (field element)) ;;
          ret Continue).

(** The inner loop, from rule [rulesIndex] on; [rs] is what is left of
    [element.rules]. *)
Fixpoint formRules (ei : nat) (element : Validator) (rulesIndex : nat)
  (rs : list Rule) : M unit :=
  match rs with
  | [] => ret tt
  | r :: rest =>
      flow <- formRule ei element rulesIndex r ;;
      match flow with
      | Continue => formRules ei element (S rulesIndex) rest
      | Break => ret tt
      end
  end.

(** The outer loop, from validator [elementIndex] on. *)
Fixpoint formValidators (elementIndex : nat) (vs : list Validator) : M unit :=
  match vs with
  | [] => ret tt
  | element :: rest =>
      formRules elementIndex element 0 (rules element) ;;
      formValidators (S elementIndex) rest
  end.

Definition validateForm : M bool :=
  modify (setErrors (Some [])) ;;
  vs <- reads validators ;;
  formValidators 0 vs ;;
  es <- reads errors ;;
  match es with
  | None => lift (Throw TypeError)
  | Some es => ret (Nat.eqb (List.length es) 0)
  end.

(** [this.validators.find(v => v.fieldId === fieldId)], with the index of
    the validator found. *)
Fixpoint findValidator (fieldId' : string) (i : nat) (vs : list Validator)
  : option (nat * Validator) :=
  match vs with
  | [] => None
  | v :: rest =>
      if String.eqb (fieldId v) fieldId' then Some (i, v)
      else findValidator fieldId' (S i) rest
  end.

Section Selectors.

(** The selector engine of the browser: [scope.querySelectorAll(sel)],
    with [scope = None] for the document.  It may throw on a selector it
    does not parse. *)
Variable querySelectorAll :
  Document -> option handle -> string -> Result (list handle).

(** [document.querySelectorAll(sel).forEach(el => el.remove())]. *)
Definition removeAll (sel : string) : Eff Document unit :=
  mutate (fun d =>
    match querySelectorAll d None sel with
    | Throw e => Throw e
    | Ok els => Ok (fold_left (fun d' h => remove h d') els d)
    end).

Definition removeHints : Eff Document unit := removeAll ".hint".

(** The class [`${fieldId}-hint`]. *)
Definition hintClass (fieldId' : string) : string :=
  (fieldId' ++ "-hint")%string.

Definition removeHint (fieldId' : string) : Eff Document unit :=
  removeAll ("." ++ hintClass fieldId')%string.

(** The element [showHint] creates and fills before it inserts it. *)
Definition hintElement (tag : string) (fieldId' text : string) : Element :=
  mkElement tag EmptyString EmptyString EmptyString None false
            ["hint"; hintClass fieldId']
            [("role", "status"); ("aria-live", "polite");
             ("style", "display:block")]
            text None false.

Definition showHint (fieldId' : string) (error : Rule) : Eff Document unit :=
  element <- reads (fun d => getElementById d fieldId') ;;
  mutate (classListAdd element ["error"]) ;;
  element <- (fun d => (labelOrSelf element d, d)) ;;
  mutate (classListRemove element "valid") ;;
  mutate (classListAdd element ["not-valid"]) ;;
  tag <- reads (fun d =>
           match element with
           | Some h =>
               match deref d h with
               | Some e => if String.eqb (tagName e) "FIELDSET"
                           then "P" else "SPAN"
               | None => "SPAN"
               end
           | None => "SPAN"
           end) ;;
  lift (checkTokens ["hint"; hintClass fieldId']) ;;
  match element with
  | Some h =>
      modify (insertBeforeEnd h (hintElement tag fieldId' (message error)))
  | None => lift (Throw TypeError)
  end.

(** The body of the loop of [validateField], for rule [rulesIndex]. *)
Definition fieldRule (fieldId' : string) (ei : nat) (validator : Validator)
  (rulesIndex : nat) (r : Rule) : M Flow :=
  skip <- conditionNotMet ei rulesIndex r ;;
  if skip then ret Continue
  else
    ok <- callMethod ei rulesIndex r (field validator) ;;
    if negb ok
    then (onDocument (removeHint fieldId') ;;
          onDocument (showHint fieldId' r) ;;
          ret Break)
    else (onDocument (showValid (field validator)) ;;
          onDocument (removeHint fieldId') ;;
          ret Continue).

(** The loop of [validateField], from rule [rulesIndex] on. *)
Fixpoint fieldRules (fieldId' : string) (ei : nat) (validator : Validator)
  (rulesIndex : nat) (rs : list Rule) : M unit :=
  match rs with
  | [] => ret tt
  | r :: rest =>
      flow <- fieldRule fieldId' ei validator rulesIndex r ;;
      match flow with
      | Continue => fieldRules fieldId' ei validator (S rulesIndex) rest
      | Break => ret tt
      end
  end.

Definition validateField (fieldId' : string) : M unit :=
  found <- reads (fun s => findValidator fieldId' 0 (validators s)) ;;
  match found with
  | None =>
      modify (fun s =>
        setConsole
          (console s ++ [["No validator found for field with id:"; fieldId']])
          s)
  | Some (ei, validator) =>
      fieldRules fieldId' ei validator 0 (rules validator)
  end.

End Selectors.

(** [showHints]: one hint for each record of [this.errors], made as
    [showHint] makes it.  Before the first [validateForm], [this.errors]
    is [undefined] and reading its length throws. *)
Definition showHintsBody (error : ErrorRecord) : Eff Document unit :=
  formElement <- reads (fun d => getElementById d (errorFieldId error)) ;;
  mutate (classListAdd formElement ["error"]) ;;
  formElement <- (fun d => (labelOrSelf formElement d, d)) ;;
  mutate (classListRemove formElement "valid") ;;
  mutate (classListAdd formElement ["not-valid"]) ;;
  messageWrapper <- reads (fun d =>
           match formElement with
           | Some h =>
               match deref d h with
               | Some e => if String.eqb (tagName e) "FIELDSET"
                           then "P" else "SPAN"
               | None => "SPAN"
               end
           | None => "SPAN"
           end) ;;
  lift (checkTokens ["hint"; hintClass (errorFieldId error)]) ;;
  match formElement with
  | Some h =>
      modify (insertBeforeEnd h
                (hintElement messageWrapper (errorFieldId error)
                             (errorMessage error)))
  | None => lift (Throw TypeError)
  end.

Fixpoint showHintsLoop (es : list ErrorRecord) : Eff Document unit :=
  match es with
  | [] => ret tt
  | error :: rest => showHintsBody error ;; showHintsLoop rest
  end.

Definition showHints : M unit :=
  fun s =>
    match errors s with
    | None => (Throw TypeError, s)
    | Some es => onDocument (showHintsLoop es) s
    end.

(* ================================================================= *)
(** ** The listener of the activity checkboxes, [addRegFormEventListeners]

    Each checkbox of [#activities-box] gets a [change] listener that
    walks the same list of checkboxes, [activitiesCheckboxes], and
    disables or enables the ones in the time slot of the checkbox that
    was clicked.  [el.dataset.dayAndTime] is the attribute
    [data-day-and-time], [undefined] when the element has none. *)

Definition setAttributes (a : list (string * string)) (e : Element)
  : Element :=
  mkElement (tagName e) (elemId e) (elemName e) (elemType e) (value e)
            (checked e) (classList e) a (innerText e)
            (parentElement e) (isConnected e).

Arguments setAttributes : simpl never.

Fixpoint getAttribute (name : string) (attrs : list (string * string))
  : option string :=
  match attrs with
  | [] => None
  | (n, v) :: rest =>
      if String.eqb n name then Some v else getAttribute name rest
  end.

Fixpoint putAttribute (name val : string) (attrs : list (string * string))
  : list (string * string) :=
  match attrs with
  | [] => [(name, val)]
  | (n, v) :: rest =>
      if String.eqb n name then (n, val) :: rest
      else (n, v) :: putAttribute name val rest
  end.

Definition dropAttribute (name : string) (attrs : list (string * string))
  : list (string * string) :=
  filter (fun nv => negb (String.eqb (fst nv) name)) attrs.

(** [el.setAttribute(name, val)] and [el.removeAttribute(name)]. *)
Definition setAttribute (el : option handle) (name val : string)
  (d : Document) : Result Document :=
  match el with
  | None => Throw TypeError
  | Some h =>
      match deref d h with
      | None => Throw TypeError
      | Some _ =>
          Ok (update h (fun e => setAttributes
                                   (putAttribute name val (attributes e)) e) d)
      end
  end.

Definition removeAttribute (el : option handle) (name : string)
  (d : Document) : Result Document :=
  match el with
  | None => Throw TypeError
  | Some h =>
      match deref d h with
      | None => Throw TypeError
      | Some _ =>
          Ok (update h (fun e => setAttributes
                                   (dropAttribute name (attributes e)) e) d)
      end
  end.

(** [a.dataset.dayAndTime === c.dataset.dayAndTime] *)
Definition sameDayAndTime (a c : Element) : bool :=
  match getAttribute "data-day-and-time" (attributes a),
        getAttribute "data-day-and-time" (attributes c) with
  | Some x, Some y => String.eqb x y
  | None, None => true
  | _, _ => false
  end.

(** The body of the inner [forEach], for the checkbox [activity].  The
    two checkboxes are elements of the list the script holds, so they are
    in the store; for a handle that is not, the body throws. *)
Definition conflictBody (clickedCheckbox activity : handle)
  : Eff Document unit :=
  fun d =>
    match deref d activity, deref d clickedCheckbox with
    | Some a, Some c =>
        if negb (Nat.eqb activity clickedCheckbox) && sameDayAndTime a c
        then
          if negb (checked c)
          then (mutate (removeAttribute (Some activity) "disabled") ;;
                mutate (classListRemove (parentElement a) "disabled")) d
          else (mutate (setAttribute (Some activity) "disabled" EmptyString) ;;
                mutate (classListAdd (parentElement a) ["disabled"])) d
        else (Ok tt, d)
    | _, _ => (Throw TypeError, d)
    end.

Fixpoint forEach {A : Type} (f : A -> Eff Document unit) (l : list A)
  : Eff Document unit :=
  match l with
  | [] => ret tt
  | x :: rest => f x ;; forEach f rest
  end.

(** The listener, for a [change] event whose target is
    [clickedCheckbox]. *)
Definition onActivityChange (activitiesCheckboxes : list handle)
  (clickedCheckbox : handle) : Eff Document unit :=
  forEach (conflictBody clickedCheckbox) activitiesCheckboxes.

(* ================================================================= *)
(** ** The rule set of the registration form, [addRegFormValidationRules] *)

Definition andThen {A B} (r : Result A) (k : A -> Result B) : Result B :=
  match r with
  | Ok a => k a
  | Throw e => Throw e
  end.

(** [field.value]: reading a property of [undefined] throws. *)
Definition fieldValue (d : Document) (fld : option handle)
  : Result (option string) :=
  match fld with
  | None => Throw TypeError
  | Some h =>
      match deref d h with
      | None => Throw TypeError
      | Some e => Ok (value e)
      end
  end.

(** The receiver of [field.value.indexOf(...)]. *)
Definition receiver (v : option string) : Result string :=
  match v with
  | Some s => Ok s
  | None => Throw TypeError
  end.

(** [/^[a-zA-Z\-.'\s]+$/] *)
Definition nameRegex : regex :=
  Plus (Class (fun c => letter c || isChar "-" c || isChar "." c
                        || isChar "'" c || whiteSpace c)).

(** [/^[^@]+@[^@.]+\.[a-z]+$/i] *)
Definition emailRegex : regex :=
  Seq (Plus (Class (fun c => negb (isChar "@" c))))
 (Seq (Class (isChar "@"))
 (Seq (Plus (Class (fun c => negb (isChar "@" c || isChar "." c))))
 (Seq (Class (isChar "."))
      (Plus (Class letter))))).

(** [/^\d{13,16}$/] *)
Definition ccNumRegex : regex := Between 13 16 (Class digit).

(** The shapes of the methods of the rule set: [field => p(field.value.length)],
    [field => p(field.value)] with string methods called on the value,
    [field => re.test(field.value)] and [field => !isNaN(field.value)]. *)
Definition valueLength (p : nat -> bool) : Predicate :=
  fun d fld =>
    andThen (fieldValue d fld) (fun v =>
    andThen (Js.length v) (fun n => Ok (p n))).

Definition valueString (p : string -> bool) : Predicate :=
  fun d fld =>
    andThen (fieldValue d fld) (fun v =>
    andThen (receiver v) (fun s => Ok (p s))).

Definition valueTest (r : regex) : Predicate :=
  fun d fld => andThen (fieldValue d fld) (fun v => Ok (test r v)).

Definition valueIsNumber : Predicate :=
  fun d fld => andThen (fieldValue d fld) (fun v => Ok (negb (isNaN v))).

(** [() => document.getElementById('payment').value === 'credit-card'] *)
Definition creditCardSelected : Condition :=
  fun d =>
    andThen (fieldValue d (getElementById d "payment")) (fun v =>
      Ok (match v with
          | Some s => String.eqb s "credit-card"
          | None => false
          end)).

Definition nameRules : list Rule :=
  [ mkRule None (valueLength (fun n => Nat.ltb 0 n)) "Name is required";
    mkRule None (valueLength (fun n => Nat.leb 3 n))
      "Name must be at least 3 characters long";
    mkRule None (valueTest nameRegex)
      "Name should only contain letters, spaces, hyphens, periods, and apostrophes" ].

Definition emailRules : list Rule :=
  [ mkRule None (valueLength (fun n => Nat.ltb 0 n)) "Email is required";
    mkRule None (valueString (fun s => Z.ltb (-1) (indexOf s "@")))
      "Enter the 'at' symbol in the email address.";
    mkRule None (valueString (fun s => negb (Z.eqb (indexOf s "@") 0)))
      "The 'at' symbol should not appear at the beginning.";
    mkRule None (valueString (fun s => Z.ltb (-1) (indexOf s ".")))
      "Enter the 'dot' symbol in the email address.";
    mkRule None (valueString (fun s => Z.ltb (indexOf s "@") (indexOf s ".")))
      "The 'at' symbol must be before the 'dot' symbol.";
    mkRule None
      (valueString (fun s => Z.eqb (indexOf s "@") (lastIndexOf s "@")))
      "The 'at' symbol should only appear once.";
    mkRule None (valueTest emailRegex)
      "Email address must be formatted correctly" ].

Definition ccNumRules : list Rule :=
  [ mkRule (Some creditCardSelected) (valueLength (fun n => Nat.ltb 0 n))
      "Credit card number is required";
    mkRule (Some creditCardSelected) valueIsNumber
      "Credit card number must be a number";
    mkRule (Some creditCardSelected) (valueTest ccNumRegex)
      "Credit card number must be between 13 - 16 digits" ].

Definition zipRules : list Rule :=
  [ mkRule (Some creditCardSelected) (valueLength (fun n => Nat.ltb 0 n))
      "Zip code is required";
    mkRule (Some creditCardSelected) valueIsNumber
      "Zip code must be a number";
    mkRule (Some creditCardSelected) (valueLength (fun n => Nat.eqb n 5))
      "Zip code must be 5 digits" ].

Definition cvvRules : list Rule :=
  [ mkRule (Some creditCardSelected) (valueLength (fun n => Nat.ltb 0 n))
      "CVV is required";
    mkRule (Some creditCardSelected) valueIsNumber
      "CVV must be a number";
    mkRule (Some creditCardSelected) (valueLength (fun n => Nat.eqb n 3))
      "CVV must be 3 digits" ].

(** The selector [#activities input[type="checkbox"]:checked]. *)
Definition quote : string := String (ascii_of_nat 34) EmptyString.

Definition checkedActivities : string :=
  ("#activities input[type=" ++ quote ++ "checkbox" ++ quote
   ++ "]:checked")%string.

Section RegForm.

Variable querySelectorAll :
  Document -> option handle -> string -> Result (list handle).

(** [field.querySelectorAll(checkedActivities).length > 0] *)
Definition activityChecked : Predicate :=
  fun d fld =>
    match fld with
    | None => Throw TypeError
    | Some h =>
        match deref d h with
        | None => Throw TypeError
        | Some _ =>
            andThen
              (querySelectorAll d (Some h) checkedActivities)
              (fun els => Ok (Nat.ltb 0 (List.length els)))
        end
    end.

Definition activitiesRules : list Rule :=
  [ mkRule None activityChecked "Choose at least one activity" ].

Definition addRegFormValidationRules : M unit :=
  addValidator "name" nameRules ;;
  addValidator "email" emailRules ;;
  addValidator "activities" activitiesRules ;;
  addValidator "cc-num" ccNumRules ;;
  addValidator "zip" zipRules ;;
  addValidator "cvv" cvvRules.

End RegForm.

(* ================================================================= *)
(** ** A selector engine and a page to run the class on

    [selectAll] answers the two kinds of selector the script builds: a
    class selector [.c] for an identifier [c], and the selector of the
    checked activities.  It throws on any other string. *)

Module Page.

Definition identChar (c : ascii) : bool :=
  letter c || digit c || isChar "_" c || isChar "-" c.

Fixpoint allChars (p : ascii -> bool) (s : string) : bool :=
  match s with
  | EmptyString => true
  | String c s' => p c && allChars p s'
  end.

Definition cssIdent (s : string) : bool :=
  match s with
  | EmptyString => false
  | String c s' =>
      allChars identChar s &&
      (letter c || isChar "_" c ||
       (isChar "-" c &&
        match s' with
        | EmptyString => false
        | String c' _ => letter c' || isChar "_" c' || isChar "-" c'
        end))
  end.

Definition inScope (d : Document) (scope : option handle)
  (he : handle * Element) : bool :=
  match scope with
  | None => isConnected (snd he)
  | Some root => memH (fst he) (tl (subtree d root))
  end.

Definition underId (d : Document) (id : string) (h : handle) : bool :=
  existsb (fun he => String.eqb (elemId (snd he)) id
                     && memH h (tl (subtree d (fst he)))) d.

Definition selectAll (d : Document) (scope : option handle) (sel : string)
  : Result (list handle) :=
  if String.eqb sel checkedActivities then
    Ok (map fst (filter (fun he =>
          inScope d scope he
          && String.eqb (tagName (snd he)) "INPUT"
          && String.eqb (elemType (snd he)) "checkbox"
          && checked (snd he)
          && underId d "activities" (fst he)) d))
  else
    match sel with
    | String "." cls =>
        if cssIdent cls
        then Ok (map fst (filter (fun he =>
                   inScope d scope he && hasToken cls (classList (snd he))) d))
        else Throw SyntaxError
    | _ => Throw SyntaxError
    end.

Definition node (tag id name type : string) (v : option string)
  (chk : bool) (parent : option handle) : Element :=
  mkElement tag id name type v chk [] [] EmptyString parent true.

(** The controls of the registration form: every input inside its label,
    the activities in a fieldset, the payment method in a select. *)
Definition page (name email : string) (activity : bool)
  (payment ccNum zip cvv : string) : Document :=
  [ (1, node "FORM" EmptyString EmptyString EmptyString None false None);
    (2, node "LABEL" EmptyString EmptyString EmptyString None false (Some 1));
    (3, node "INPUT" "name" "user-name" "text" (Some name) false (Some 2));
    (4, node "LABEL" EmptyString EmptyString EmptyString None false (Some 1));
    (5, node "INPUT" "email" "user-email" "email" (Some email) false (Some 4));
    (6, node "FIELDSET" "activities" EmptyString EmptyString None false (Some 1));
    (7, node "DIV" "activities-box" EmptyString EmptyString None false (Some 6));
    (8, node "LABEL" EmptyString EmptyString EmptyString None false (Some 7));
    (9, node "INPUT" EmptyString "js-libs" "checkbox" (Some "on") activity (Some 8));
    (10, node "SELECT" "payment" "user-payment" EmptyString (Some payment) false (Some 1));
    (11, node "LABEL" EmptyString EmptyString EmptyString None false (Some 1));
    (12, node "INPUT" "cc-num" "user-cc-num" "text" (Some ccNum) false (Some 11));
    (13, node "LABEL" EmptyString EmptyString EmptyString None false (Some 1));
    (14, node "INPUT" "zip" "user-zip" "text" (Some zip) false (Some 13));
    (15, node "LABEL" EmptyString EmptyString EmptyString None false (Some 1));
    (16, node "INPUT" "cvv" "user-cvv" "text" (Some cvv) false (Some 15)) ].

(** [new FormValidator(form)] on a document. *)
Definition newFormValidator (formHandle : handle) (d : Document) : State :=
  mkState formHandle [] None d [] [].

(** The instance the script builds: constructor, then the rule set. *)
Definition regFormValidator (d : Document) : State :=
  snd (addRegFormValidationRules selectAll (newFormValidator 1 d)).

(** A form about to be submitted: a name of two letters, the address
    [a.b@@c.com], no activity, payment by PayPal, no card data. *)
Definition submitted : State :=
  regFormValidator
    (page "Al" "a.b@@c.com" false "paypal" EmptyString EmptyString EmptyString).

(** An instance with the rules of [name] registered twice, on a form
    with no name. *)
Definition registeredTwice : State :=
  snd ((addValidator "name" nameRules ;; addValidator "name" nameRules)
         (newFormValidator 1
            (page EmptyString "ab@c.de" true "paypal"
                  EmptyString EmptyString EmptyString))).

(** An instance with two validators for [name] that differ, the rules
    of [name] and then the rules of [email], registered after a
    validator for [email], on a form with no name. *)
Definition registeredApart : State :=
  snd ((addValidator "email" emailRules ;;
        addValidator "name" nameRules ;;
        addValidator "name" emailRules)
         (newFormValidator 1
            (page EmptyString "ab@c.de" true "paypal"
                  EmptyString EmptyString EmptyString))).

End Page.

(* ================================================================= *)
(** ** Notions the statements are written with *)

(** The two loops over the rules have one shape: gate on the condition,
    call the method, then do what the loop does on a failure or on a
    pass.  [formRule] and [fieldRule] are the two instances. *)
Definition ruleBody (ei : nat) (fld : option handle)
  (onFail onPass : Rule -> M Flow) (ri : nat) (r : Rule) : M Flow :=
  skip <- conditionNotMet ei ri r ;;
  if skip then ret Continue
  else
    ok <- callMethod ei ri r fld ;;
    if negb ok then onFail r else onPass r.

Fixpoint rulesLoop (ei : nat) (fld : option handle)
  (onFail onPass : Rule -> M Flow) (ri : nat) (rs : list Rule) : M unit :=
  match rs with
  | [] => ret tt
  | r :: rest =>
      flow <- ruleBody ei fld onFail onPass ri r ;;
      match flow with
      | Continue => rulesLoop ei fld onFail onPass (S ri) rest
      | Break => ret tt
      end
  end.

Definition formOnFail (element : Validator) (r : Rule) : M Flow :=
  pushError (mkError (fieldId element) (message r)) ;; ret Break.

Definition formOnPass (element : Validator) (r : Rule) : M Flow :=
  onDocument (showValid (field element)) ;; ret Continue.

Definition fieldOnFail
  (qsa : Document -> option handle -> string -> Result (list handle))
  (fieldId' : string) (r : Rule) : M Flow :=
  onDocument (removeHint qsa fieldId') ;;
  onDocument (showHint fieldId' r) ;;
  ret Break.

Definition fieldOnPass
  (qsa : Document -> option handle -> string -> Result (list handle))
  (fieldId' : string) (validator : Validator) (r : Rule) : M Flow :=
  onDocument (showValid (field validator)) ;;
  onDocument (removeHint qsa fieldId') ;;
  ret Continue.

(** The calls of a loop in which every rule is skipped on its condition. *)
Fixpoint skipCalls (ei ri : nat) (rs : list Rule) : list Call :=
  match rs with
  | [] => []
  | _ :: rest => ConditionCall ei ri (Ok false) :: skipCalls ei (S ri) rest
  end.

Definition callValidator (c : Call) : nat :=
  match c with
  | ConditionCall ei _ _ => ei
  | MethodCall ei _ _ => ei
  end.

Definition callRule (c : Call) : nat :=
  match c with
  | ConditionCall _ ri _ => ri
  | MethodCall _ ri _ => ri
  end.

(** [this.validators[ei].rules[ri]]. *)
Definition ruleAt (vs : list Validator) (ei ri : nat) : option Rule :=
  match nth_error vs ei with
  | Some v => nth_error (rules v) ri
  | None => None
  end.

(** A call log respects the gating: a method is called only for a rule
    without a condition, or right after the condition of that very rule
    returned true. *)
Definition gated (vs : list Validator) (cs : list Call) : Prop :=
  forall before ei ri res after,
    cs = before ++ MethodCall ei ri res :: after ->
    exists r,
      ruleAt vs ei ri = Some r /\
      (condition r = None \/
       exists before', before = before' ++ [ConditionCall ei ri (Ok true)]).

(** The error records a call log accounts for: one per method call that
    returned false, for the validator and the rule of that call. *)
Fixpoint failures (vs : list Validator) (cs : list Call)
  : list ErrorRecord :=
  match cs with
  | [] => []
  | MethodCall ei ri (Ok false) :: cs' =>
      match nth_error vs ei with
      | Some v =>
          match nth_error (rules v) ri with
          | Some r => mkError (fieldId v) (message r) :: failures vs cs'
          | None => failures vs cs'
          end
      | None => failures vs cs'
      end
  | _ :: cs' => failures vs cs'
  end.

(** [Subseq l1 l2]: [l1] is [l2] with some elements left out, the order
    kept. *)
Inductive Subseq {A : Type} : list A -> list A -> Prop :=
| Subseq_nil : Subseq [] []
| Subseq_skip : forall x l1 l2, Subseq l1 l2 -> Subseq l1 (x :: l2)
| Subseq_take : forall x l1 l2, Subseq l1 l2 -> Subseq (x :: l1) (x :: l2).

(** The condition of [r] does not hold the rule back in document [d]:
    there is none, or it returns true. *)
Definition conditionHolds (r : Rule) (d : Document) : Prop :=
  match condition r with
  | None => True
  | Some c => c d = Ok true
  end.

(** The rule has a condition and it returns false in [d]. *)
Definition gatedOff (r : Rule) (d : Document) : Prop :=
  exists c, condition r = Some c /\ c d = Ok false.

(** The predicate of [r] fails on the field, the condition let through. *)
Definition predicateFails (r : Rule) (fld : option handle) (d : Document)
  : Prop :=
  conditionHolds r d /\ method r d fld = Ok false.

(** No rule of the list fails on the field: each one is gated off, or
    passes and the field is shown valid; [d'] is the document after the
    last of them. *)
Inductive noFailure (fld : option handle)
  : Document -> list Rule -> Document -> Prop :=
| noFailure_nil : forall d, noFailure fld d [] d
| noFailure_skip : forall d r rs d',
    gatedOff r d ->
    noFailure fld d rs d' ->
    noFailure fld d (r :: rs) d'
| noFailure_pass : forall d r rs d1 d',
    conditionHolds r d ->
    method r d fld = Ok true ->
    showValid fld d = (Ok tt, d1) ->
    noFailure fld d1 rs d' ->
    noFailure fld d (r :: rs) d'.

(** Two documents that differ in the class lists of their elements only. *)
Definition noClasses (d : Document) : Document :=
  map (fun he => (fst he, setClassList [] (snd he))) d.

Definition sameButClasses (d d' : Document) : Prop :=
  noClasses d = noClasses d'.

(** [showValid] can run on the field: the reference is to an element of
    the store and, when that is an [<input>], its parent is one too. *)
Definition presentable (d : Document) (fld : option handle) : Prop :=
  exists h e,
    fld = Some h /\ deref d h = Some e /\
    (tagName e = "INPUT" ->
     exists p pe, parentElement e = Some p /\ deref d p = Some pe).

(** The state a pass of [validateForm] is compared with: the same
    instance, nothing logged, [this.errors] never assigned. *)
Definition pristine (s : State) : State :=
  mkState (form s) (validators s) None (document s) [] [].

(** The calls one visit of rule [ri] can log: the method alone when the
    rule has no condition; the condition alone when it did not return
    true; the condition, true, and then the method. *)
Inductive block (ei ri : nat) (r : Rule) : list Call -> Prop :=
| block_plain : forall res,
    condition r = None ->
    block ei ri r [MethodCall ei ri res]
| block_closed : forall c res,
    condition r = Some c -> res <> Ok true ->
    block ei ri r [ConditionCall ei ri res]
| block_open : forall c res,
    condition r = Some c ->
    block ei ri r [ConditionCall ei ri (Ok true); MethodCall ei ri res].

(** The calls a loop over the rules [rs], numbered from [ri], can log:
    one block per rule visited, in order, up to where the loop ended. *)
Inductive blocks (ei : nat) : nat -> list Rule -> list Call -> Prop :=
| blocks_end : forall ri rs, blocks ei ri rs []
| blocks_visit : forall ri r rs cs1 cs2,
    block ei ri r cs1 ->
    blocks ei (S ri) rs cs2 ->
    blocks ei ri (r :: rs) (cs1 ++ cs2).

(** The calls a pass over the validators [vs], numbered from [ei], can
    log. *)
Inductive passLog : nat -> list Validator -> list Call -> Prop :=
| passLog_end : forall ei vs, passLog ei vs []
| passLog_visit : forall ei v vs cs1 cs2,
    blocks ei 0 (rules v) cs1 ->
    passLog (S ei) vs cs2 ->
    passLog ei (v :: vs) (cs1 ++ cs2).

(** The condition call a visit logs before it calls the method. *)
Definition conditionCalls (ei ri : nat) (r : Rule) : list Call :=
  match condition r with
  | None => []
  | Some _ => [ConditionCall ei ri (Ok true)]
  end.

(** The document as it is when a pass of [validateForm] on [s] reaches
    the validator registered right after [pre]. *)
Definition documentAt (s : State) (pre : list Validator) : Document :=
  document (snd (formValidators 0 pre (setErrors (Some []) s))).

(** The records of an error list that are about field [f]. *)
Definition errorsFor (f : string) (es : list ErrorRecord)
  : list ErrorRecord :=
  filter (fun e => String.eqb (errorFieldId e) f) es.

(** Two states with the same document whose error lists, past [es0] and
    [et0], are the same. *)
Definition alike (es0 et0 : list ErrorRecord) (s t : State) : Prop :=
  document s = document t /\
  exists es, errors s = Some (es0 ++ es) /\ errors t = Some (et0 ++ es).

(** A computation that does not look at the registry: with another list
    of validators in the state it does the same and leaves that list. *)
Definition registryBlind (vs : list Validator) {A} (m : M A) : Prop :=
  forall s,
    m (setValidators vs s) = (fst (m s), setValidators vs (snd (m s))).

(** The rule returns on the field in document [d]: neither its
    condition nor its method throws. *)
Definition returns (r : Rule) (fld : option handle) (d : Document) : Prop :=
  (forall c, condition r = Some c -> exists b, c d = Ok b) /\
  exists b, method r d fld = Ok b.

(** A state in which a pass of [validateForm] cannot throw: every
    validator is bound to a field [showValid] can run on, and its rules
    return on the page as it is and with other class lists. *)
Definition wellBehaved (vs : list Validator) (d : Document) : Prop :=
  Forall (fun v =>
            presentable d (field v) /\
            forall d', sameButClasses d d' ->
                       Forall (fun r => returns r (field v) d') (rules v))
         vs.

Arguments callMethod : simpl never.
Arguments conditionNotMet : simpl never.

Ltac injpair :=
  repeat match goal with
  | H : (_, _) = (_, _) |- _ => injection H as <- <-
  | H : Ok _ = Ok _ |- _ => injection H as <-
  | H : Ok _ = Throw _ |- _ => discriminate H
  | H : Throw _ = Ok _ |- _ => discriminate H
  end.

(* ================================================================= *)
(** ** Notions the further properties are written with *)

(** [showValid] can run on the field, as a test. *)
Definition presentableb (d : Document) (fld : option handle) : bool :=
  match fld with
  | None => false
  | Some h =>
      match deref d h with
      | None => false
      | Some e =>
          if String.eqb (tagName e) "INPUT"
          then match parentElement e with
               | None => false
               | Some p => match deref d p with
                           | None => false
                           | Some _ => true
                           end
               end
          else true
      end
  end.

(** What [showValid] makes of the class list of element [x], for the
    field [h] and the element [t] that stands for it (itself, or its
    parent when it is an [<input>]). *)
Definition shownValid (h t x : handle) (cl : list string) : list string :=
  let cl1 := if Nat.eqb h x then removeToken "error" cl else cl in
  if Nat.eqb t x
  then addTokens ["valid"]
         (removeToken "not-valid" (removeToken "valid" cl1))
  else cl1.

(** The rules of a validator do not read class lists: on two documents
    that differ in class lists only, conditions and methods return the
    same. *)
Definition classBlind (v : Validator) : Prop :=
  forall d d',
    sameButClasses d d' ->
    Forall (fun r =>
              (forall c, condition r = Some c -> c d = c d') /\
              method r d (field v) = method r d' (field v))
           (rules v).

(** Two states whose documents differ in class lists only and whose error
    lists, past [es0] and [et0], are the same. *)
Definition akin (es0 et0 : list ErrorRecord) (s t : State) : Prop :=
  sameButClasses (document s) (document t) /\
  exists es, errors s = Some (es0 ++ es) /\ errors t = Some (et0 ++ es).

(** Evaluating rule [r] on the field in document [d] throws [e]: its
    condition does, or its method does, or the method returns true and
    [showValid] throws on the field. *)
Definition ruleThrows (r : Rule) (fld : option handle) (d : Document)
  (e : Error) : Prop :=
  (exists c, condition r = Some c /\ c d = Throw e) \/
  (conditionHolds r d /\ method r d fld = Throw e) \/
  (conditionHolds r d /\ method r d fld = Ok true /\
   fst (showValid fld d) = Throw e).

(** A computation that neither reads nor writes [this.errors]: it runs
    the same whatever the list is, and leaves it in place. *)
Definition errorsBlind {A : Type} (m : M A) : Prop :=
  forall es s, m (setErrors es s) = (fst (m s), setErrors es (snd (m s))).

(** More forms and instances to run the class on. *)
Module Forms.

(** The submitted form with a validator registered for [title], an
    identifier the form has no control for: [form.elements['title']] is
    undefined. *)
Definition untitled : State :=
  setValidators [mkValidator "name" nameRules (Some 3);
                 mkValidator "title" nameRules None;
                 mkValidator "email" emailRules (Some 5)]
                Page.submitted.

(** An instance whose validator is registered under the [name] of the
    name input, [user-name], on a form with no name typed in. *)
Definition byName : State :=
  snd (addValidator "user-name" nameRules
         (Page.newFormValidator 1
            (Page.page EmptyString "ab@c.de" true "paypal"
                       EmptyString EmptyString EmptyString))).

(** The same instance on a page whose markup comes with a hint for
    that identifier, the last child of the label of the name input. *)
Definition byNameHinted : State :=
  setDocument
    (insertBeforeEnd 2
       (hintElement "SPAN" "user-name" "Please tell us your name")
       (document byName))
    byName.

(** The submitted form with one validator, registered under an
    identifier that starts with a digit. *)
Definition digitId : State :=
  setValidators [mkValidator "2fa" nameRules (Some 3)] Page.submitted.

(** A form filled in for payment by card. *)
Definition byCard : Document :=
  Page.page "Alice" "alice@example.com" true "credit-card"
            "4111111111111111" "-1234" "1.5".

(** The activities of a form: two workshops on Tuesday morning, the
    first of them just checked, and one on Wednesday. *)
Definition activity (slot : string) (chk : bool) (parent : handle)
  : Element :=
  mkElement "INPUT" EmptyString "activity" "checkbox" (Some "on") chk []
            [("data-day-and-time", slot); ("data-cost", "100")]
            EmptyString (Some parent) true.

Definition activities : Document :=
  [ (1, Page.node "FIELDSET" "activities" EmptyString EmptyString None false
                  None);
    (2, Page.node "DIV" "activities-box" EmptyString EmptyString None false
                  (Some 1));
    (3, Page.node "LABEL" EmptyString EmptyString EmptyString None false
                  (Some 2));
    (4, activity "Tuesday 9am-12pm" true 3);
    (5, Page.node "LABEL" EmptyString EmptyString EmptyString None false
                  (Some 2));
    (6, activity "Tuesday 9am-12pm" false 5);
    (7, Page.node "LABEL" EmptyString EmptyString EmptyString None false
                  (Some 2));
    (8, activity "Wednesday 9am-12pm" false 7) ].

End Forms.

(** The hints on display for field [id]: the connected elements with the
    class [id-hint], in tree order.  It is what a selector engine returns
    for the selector of [removeHint]. *)
Definition shownHint (cls : string) (he : handle * Element) : bool :=
  isConnected (snd he) && hasToken cls (classList (snd he)).

Definition hintsShown (d : Document) (id : string) : list handle :=
  map fst (filter (shownHint (hintClass id)) d).

(** What [showHint] makes of the class list of element [x], for the
    field [h] and the element [t] that stands for it. *)
Definition shownInvalid (h t x : handle) (cl : list string) : list string :=
  let cl1 := if Nat.eqb h x then addTokens ["error"] cl else cl in
  if Nat.eqb t x
  then addTokens ["not-valid"] (removeToken "valid" cl1)
  else cl1.

(** [d'] is [d] with some elements taken out of the tree: the same
    entries with the same ids and class lists, none connected that was
    not. *)
Definition detached (d d' : Document) : Prop :=
  Forall2 (fun he he' =>
             fst he = fst he' /\
             elemId (snd he) = elemId (snd he') /\
             classList (snd he) = classList (snd he') /\
             (isConnected (snd he') = true -> isConnected (snd he) = true))
          d d'.

(** The selector engine answers the selector of [removeHint] for field
    [id] as the specification of [querySelectorAll] has it: the connected
    elements with that class, in tree order. *)
Definition selectsHints
  (qsa : Document -> option handle -> string -> Result (list handle))
  (id : string) : Prop :=
  forall d, qsa d None ("." ++ hintClass id)%string = Ok (hintsShown d id).

(** The last predicate called in a log: the index of its rule, and what
    it returned. *)
Fixpoint lastMethod (cs : list Call) : option (nat * Result bool) :=
  match cs with
  | [] => None
  | c :: cs' =>
      match lastMethod cs' with
      | Some x => Some x
      | None =>
          match c with
          | MethodCall _ ri res => Some (ri, res)
          | ConditionCall _ _ _ => None
          end
      end
  end.

(** The store holds the tree of a page, in tree order: no handle names
    two entries, the parent of an element is an entry before it, and the
    parent of a connected element is connected. *)
Definition wellFormed (d : Document) : Prop :=
  NoDup (map fst d) /\
  forall l1 k e l2 p,
    d = l1 ++ (k, e) :: l2 ->
    parentElement e = Some p ->
    exists pe,
      In (p, pe) l1 /\ (isConnected e = true -> isConnected pe = true).

(** The same as a test, going through the store with the entries seen
    so far. *)
Fixpoint treeOrderb (seen d : Document) : bool :=
  match d with
  | [] => true
  | (k, e) :: d' =>
      negb (memH k (map fst seen))
      && match parentElement e with
         | None => true
         | Some p =>
             match deref seen p with
             | Some pe => implb (isConnected e) (isConnected pe)
             | None => false
             end
         end
      && treeOrderb (seen ++ [(k, e)]) d'
  end.

Definition wellFormedb (d : Document) : bool := treeOrderb [] d.

(** [n] is the one hint on display for field [id] in [d], with the
    message of rule [r]: an element of the document, and the only one
    connected with the class of the hints of the field. *)
Definition oneHint (d : Document) (id : string) (r : Rule) (n : handle)
  : Prop :=
  exists hint,
    deref d n = Some hint /\
    innerText hint = message r /\
    classList hint = ["hint"; hintClass id] /\
    isConnected hint = true /\
    hintsShown d id = [n].


(** The strings a regular expression denotes.  [matches] decides it. *)
Inductive Lang : regex -> string -> Prop :=
| LangEpsilon : Lang Epsilon EmptyString
| LangClass : forall p c, p c = true -> Lang (Class p) (String c EmptyString)
| LangSeq : forall r1 r2 s1 s2,
    Lang r1 s1 -> Lang r2 s2 -> Lang (Seq r1 r2) (s1 ++ s2)
| LangAltL : forall r1 r2 s, Lang r1 s -> Lang (Alt r1 r2) s
| LangAltR : forall r1 r2 s, Lang r2 s -> Lang (Alt r1 r2) s
| LangStarNil : forall r, Lang (Star r) EmptyString
| LangStarApp : forall r s1 s2,
    Lang r s1 -> Lang (Star r) s2 -> Lang (Star r) (s1 ++ s2).

(** The verdict of a list of unconditional rules on a field: the message
    of the first rule whose method returns false, if the methods before
    it return true and none throws. *)
Fixpoint firstFailure (rs : list Rule) (d : Document) (fld : option handle)
  : Result (option string) :=
  match rs with
  | [] => Ok None
  | r :: rest =>
      match method r d fld with
      | Ok true => firstFailure rest d fld
      | Ok false => Ok (Some (message r))
      | Throw e => Throw e
      end
  end.

(** The rules of a validator accept the field in document [d]: none of
    them fails, each one being skipped on its condition or passing. *)
Definition accepts (rs : list Rule) (fld : option handle) (d : Document)
  : Prop :=
  exists d', noFailure fld d rs d'.

(** They reject it with message [m]: [m] is the message of the first
    rule that fails. *)
Definition rejectsWith (rs : list Rule) (fld : option handle) (d : Document)
  (m : string) : Prop :=
  exists before rk after dk,
    rs = before ++ rk :: after /\
    noFailure fld d before dk /\
    predicateFails rk fld dk /\
    message rk = m.

(** The characters of [[a-zA-Z\-.'\s]]. *)
Definition nameChar (c : ascii) : bool :=
  letter c || isChar "-" c || isChar "." c || isChar "'" c || whiteSpace c.

(** Rule [r] reads on the field what [showValid] does not change, and
    its condition holds: on every document that differs from [d0] in
    class lists only, its method returns what it returns in [d0]. *)
Definition steady (fld : option handle) (d0 : Document) (r : Rule) : Prop :=
  forall d, sameButClasses d0 d ->
            method r d fld = method r d0 fld /\ conditionHolds r d.

(** The characters of [[^@.]]. *)
Definition plainChar (c : ascii) : bool :=
  negb (isChar "@" c || isChar "." c).

(** The method of rule [r] reads nothing but the value of the field. *)
Definition valueOnly (r : Rule) : Prop :=
  forall d d' x, fieldValue d x = fieldValue d' x ->
                 method r d x = method r d' x.

(** The checkbox [a] is in the time slot of the clicked checkbox [c],
    and is not [c]. *)
Definition clash (d : Document) (c a : handle) : bool :=
  negb (Nat.eqb a c) &&
  match deref d a, deref d c with
  | Some ae, Some ce => sameDayAndTime ae ce
  | _, _ => false
  end.

(** [x] is the parent of [a]. *)
Definition parentIs (d : Document) (a x : handle) : bool :=
  match deref d a with
  | Some e => match parentElement e with
              | Some p => Nat.eqb p x
              | None => false
              end
  | None => false
  end.

(** What the listener makes of the attributes of a checkbox in the time
    slot of the clicked one, and of the class list of its parent. *)
Definition toggled (on : bool) (attrs : list (string * string))
  : list (string * string) :=
  if on then putAttribute "disabled" EmptyString attrs
  else dropAttribute "disabled" attrs.

Definition toggledClass (on : bool) (cl : list string) : list string :=
  if on then addTokens ["disabled"] cl else removeToken "disabled" cl.

(** The checkboxes the listener acts on when [c] was clicked, and their
    parents. *)
Definition conflicting (d : Document) (boxes : list handle) (c x : handle)
  : bool :=
  memH x boxes && clash d c x.

Definition conflictParent (d : Document) (boxes : list handle) (c x : handle)
  : bool :=
  existsb (fun a => clash d c a && parentIs d a x) boxes.

(** What the listener makes of element [x]. *)
Definition afterChange (d : Document) (boxes : list handle) (c : handle)
  (on : bool) (x : handle) (ex : Element) : Element :=
  setAttributes
    (if conflicting d boxes c x then toggled on (attributes ex)
     else attributes ex)
    (setClassList
       (if conflictParent d boxes c x then toggledClass on (classList ex)
        else classList ex)
       ex).

(** The field shows as valid in [d]: the element that stands for it has
    the class [valid]. *)
Definition markedValid (fld : option handle) (d : Document) : Prop :=
  exists t et,
    labelOrSelf fld d = Ok (Some t) /\
    deref d t = Some et /\
    hasToken "valid" (classList et) = true.

(** From [d] to [d'] class lists have changed only, and no element has
    lost the class [valid]. *)
Definition keepsValid (d d' : Document) : Prop :=
  sameButClasses d d' /\
  forall x ex,
    deref d x = Some ex ->
    hasToken "valid" (classList ex) = true ->
    exists ex', deref d' x = Some ex' /\
                hasToken "valid" (classList ex') = true.

(* ================================================================= *)
(** ** Facts about the document *)

Lemma sameButClasses_refl : forall d, sameButClasses d d.
Proof. reflexivity. Qed.

Lemma sameButClasses_trans : forall d1 d2 d3,
  sameButClasses d1 d2 -> sameButClasses d2 d3 -> sameButClasses d1 d3.
Proof. unfold sameButClasses; intros; congruence. Qed.

Lemma sameButClasses_sym : forall d1 d2,
  sameButClasses d1 d2 -> sameButClasses d2 d1.
Proof. unfold sameButClasses; intros; congruence. Qed.

Lemma noClasses_cons : forall h1 e1 d h2 e2 d',
  noClasses ((h1, e1) :: d) = noClasses ((h2, e2) :: d') ->
  h1 = h2 /\ setClassList [] e1 = setClassList [] e2 /\
  noClasses d = noClasses d'.
Proof.
  intros h1 e1 d h2 e2 d'; simpl.
  generalize (setClassList [] e1), (setClassList [] e2); intros x y H.
  injection H; auto.
Qed.

Lemma update_sameButClasses : forall h cl d,
  sameButClasses d (update h (fun e => setClassList (cl e) e) d).
Proof.
  intros h cl d; unfold sameButClasses.
  induction d as [|[h' e] d IH]; simpl; [reflexivity|].
  destruct (Nat.eqb h' h); simpl.
  - reflexivity.
  - now rewrite IH.
Qed.

Lemma classListRemove_same : forall el t d d',
  classListRemove el t d = Ok d' -> sameButClasses d d'.
Proof.
  unfold classListRemove; intros el t d d' H.
  destruct el as [h|]; [|discriminate].
  destruct (deref d h); [|discriminate].
  destruct (checkTokens [t]); [|discriminate].
  injection H as <-.
  apply (update_sameButClasses h (fun e => removeToken t (classList e))).
Qed.

Lemma classListAdd_same : forall el ts d d',
  classListAdd el ts d = Ok d' -> sameButClasses d d'.
Proof.
  unfold classListAdd; intros el ts d d' H.
  destruct el as [h|]; [|discriminate].
  destruct (deref d h); [|discriminate].
  destruct (checkTokens ts); [|discriminate].
  injection H as <-.
  apply (update_sameButClasses h (fun e => addTokens ts (classList e))).
Qed.

Lemma deref_same : forall d d' h e,
  sameButClasses d d' -> deref d h = Some e ->
  exists e', deref d' h = Some e' /\ setClassList [] e' = setClassList [] e.
Proof.
  unfold sameButClasses.
  induction d as [|[h1 e1] d IH]; intros [|[h2 e2] d'] h e Hs Hd;
    try discriminate.
  apply noClasses_cons in Hs; destruct Hs as (<- & He & Hrest).
  simpl in *; destruct (Nat.eqb h1 h).
  - injection Hd as <-. exists e2; split; [reflexivity | now symmetry].
  - eauto.
Qed.

Lemma deref_same_none : forall d d' h,
  sameButClasses d d' -> deref d h = None -> deref d' h = None.
Proof.
  unfold sameButClasses.
  induction d as [|[h1 e1] d IH]; intros [|[h2 e2] d'] h Hs Hd;
    try discriminate; [reflexivity|].
  apply noClasses_cons in Hs; destruct Hs as (<- & He & Hrest).
  simpl in *; destruct (Nat.eqb h1 h); [discriminate | eauto].
Qed.

Lemma noClasses_fields : forall e e',
  setClassList [] e' = setClassList [] e ->
  tagName e' = tagName e /\ elemId e' = elemId e /\ value e' = value e /\
  parentElement e' = parentElement e /\ isConnected e' = isConnected e.
Proof.
  intros [] [] H; simpl in *; injection H; intros; subst; auto.
Qed.

Lemma getElementById_same : forall d d' id,
  sameButClasses d d' -> getElementById d id = getElementById d' id.
Proof.
  unfold sameButClasses.
  induction d as [|[h1 e1] d IH]; intros [|[h2 e2] d'] id Hs;
    try discriminate; [reflexivity|].
  apply noClasses_cons in Hs; destruct Hs as (<- & He & Hrest).
  simpl.
  destruct (noClasses_fields _ _ He) as (_ & -> & _ & _ & ->).
  destruct (_ && _); [reflexivity | auto].
Qed.

Lemma fieldValue_same : forall d d' fld,
  sameButClasses d d' -> fieldValue d fld = fieldValue d' fld.
Proof.
  intros d d' [h|] Hs; simpl; [|reflexivity].
  destruct (deref d h) as [e|] eqn:Hd.
  - destruct (deref_same _ _ _ _ Hs Hd) as (e' & -> & He).
    now destruct (noClasses_fields _ _ He) as (_ & _ & -> & _).
  - now rewrite (deref_same_none _ _ _ Hs Hd).
Qed.

Lemma presentable_same : forall d d' fld,
  sameButClasses d d' -> presentable d fld -> presentable d' fld.
Proof.
  intros d d' fld Hs (h & e & -> & Hd & Hp).
  destruct (deref_same _ _ _ _ Hs Hd) as (e' & Hd' & He).
  destruct (noClasses_fields _ _ He) as (Ht & _ & _ & Hpar & _).
  exists h, e'; repeat split; auto.
  rewrite Ht, Hpar; intros Hin.
  destruct (Hp Hin) as (p & pe & -> & Hdp).
  destruct (deref_same _ _ _ _ Hs Hdp) as (pe' & Hdp' & _).
  eauto.
Qed.

(* ================================================================= *)
(** ** Facts about [showValid] *)

Lemma mutate_same : forall f,
  (forall d d', f d = Ok d' -> sameButClasses d d') ->
  forall d r d', mutate f d = (r, d') -> sameButClasses d d'.
Proof.
  unfold mutate; intros f Hf d r d' H.
  destruct (f d) eqn:E; injpair; [eauto | reflexivity].
Qed.

Lemma bind_same : forall A B (m : Eff Document A) (k : A -> Eff Document B),
  (forall d r d', m d = (r, d') -> sameButClasses d d') ->
  (forall a d r d', k a d = (r, d') -> sameButClasses d d') ->
  forall d r d', bind m k d = (r, d') -> sameButClasses d d'.
Proof.
  unfold bind; intros A B m k Hm Hk d r d' H.
  destruct (m d) as [[a|e] d1] eqn:E.
  - eapply sameButClasses_trans; eauto.
  - injpair; eauto.
Qed.

(** [showValid] changes class lists and nothing else, also when it
    throws half way. *)
Lemma showValid_same : forall fld d r d',
  showValid fld d = (r, d') -> sameButClasses d d'.
Proof.
  intros fld; unfold showValid.
  apply bind_same; [apply mutate_same, classListRemove_same|intros _].
  apply bind_same; [intros d r d' H; injpair; reflexivity|intros el].
  apply bind_same; [apply mutate_same, classListRemove_same|intros _].
  apply bind_same; [apply mutate_same, classListRemove_same|intros _].
  apply mutate_same, classListAdd_same.
Qed.

Lemma classListRemove_ok : forall h e t d,
  deref d h = Some e -> checkTokens [t] = Ok tt ->
  exists d', classListRemove (Some h) t d = Ok d'.
Proof.
  intros h e t d Hd Ht; unfold classListRemove; rewrite Hd, Ht; eauto.
Qed.

Lemma classListAdd_ok : forall h e ts d,
  deref d h = Some e -> checkTokens ts = Ok tt ->
  exists d', classListAdd (Some h) ts d = Ok d'.
Proof.
  intros h e ts d Hd Ht; unfold classListAdd; rewrite Hd, Ht; eauto.
Qed.

(** On a field it can run on, [showValid] returns. *)
Lemma showValid_ok : forall fld d,
  presentable d fld -> exists d', showValid fld d = (Ok tt, d').
Proof.
  intros fld d (h & e & -> & Hd & Hp).
  unfold showValid, bind, mutate.
  destruct (classListRemove_ok h e "error" d Hd eq_refl) as (d1 & E1).
  rewrite E1.
  pose proof (classListRemove_same _ _ _ _ E1) as S1.
  destruct (deref_same _ _ _ _ S1 Hd) as (e1 & Hd1 & He1).
  destruct (noClasses_fields _ _ He1) as (Ht & _ & _ & Hpar & _).
  unfold labelOrSelf; rewrite Hd1, Ht, Hpar.
  assert (exists t te, (if String.eqb (tagName e) "INPUT"
                        then parentElement e else Some h) = Some t
                       /\ deref d1 t = Some te) as (t & te & -> & Hdt).
  { destruct (String.eqb (tagName e) "INPUT") eqn:Et.
    - apply String.eqb_eq in Et.
      destruct (Hp Et) as (p & pe & -> & Hdp).
      destruct (deref_same _ _ _ _ S1 Hdp) as (pe' & ? & _); eauto.
    - eauto. }
  destruct (classListRemove_ok t te "valid" d1 Hdt eq_refl) as (d2 & E2).
  rewrite E2.
  destruct (deref_same _ _ _ _ (classListRemove_same _ _ _ _ E2) Hdt)
    as (te2 & Hd2 & _).
  destruct (classListRemove_ok t te2 "not-valid" d2 Hd2 eq_refl) as (d3 & E3).
  rewrite E3.
  destruct (deref_same _ _ _ _ (classListRemove_same _ _ _ _ E3) Hd2)
    as (te3 & Hd3 & _).
  destruct (classListAdd_ok t te3 ["valid"] d3 Hd3 eq_refl) as (d4 & E4).
  rewrite E4; eauto.
Qed.

(* ================================================================= *)
(** ** Facts about the loops over the rules *)

Lemma bind_ext : forall S A B (m : Eff S A) (k k' : A -> Eff S B) s,
  (forall a s', k a s' = k' a s') -> bind m k s = bind m k' s.
Proof.
  intros S A B m k k' s H; unfold bind.
  destruct (m s) as [[a|e] s1]; auto.
Qed.

Lemma formRule_body : forall ei v ri r,
  formRule ei v ri r = ruleBody ei (field v) (formOnFail v) (formOnPass v) ri r.
Proof. reflexivity. Qed.

Lemma formRules_loop : forall rs ei v ri s,
  formRules ei v ri rs s
  = rulesLoop ei (field v) (formOnFail v) (formOnPass v) ri rs s.
Proof.
  induction rs as [|r rs IH]; intros ei v ri s; simpl; [reflexivity|].
  rewrite formRule_body.
  apply bind_ext; intros [|] s'; [apply IH | reflexivity].
Qed.

Lemma callMethod_run : forall ei ri r fld s,
  callMethod ei ri r fld s
  = (method r (document s) fld,
     setCalls (calls s ++ [MethodCall ei ri (method r (document s) fld)]) s).
Proof. reflexivity. Qed.

Lemma conditionNotMet_none : forall ei ri r s,
  condition r = None -> conditionNotMet ei ri r s = (Ok false, s).
Proof. intros ei ri r s H; unfold conditionNotMet; now rewrite H. Qed.

Lemma conditionNotMet_some : forall ei ri r c s,
  condition r = Some c ->
  conditionNotMet ei ri r s
  = (match c (document s) with
     | Ok b => Ok (negb b)
     | Throw e => Throw e
     end,
     setCalls (calls s ++ [ConditionCall ei ri (c (document s))]) s).
Proof.
  intros ei ri r c s H; unfold conditionNotMet; rewrite H.
  unfold bind, reads, record, modify, lift, ret.
  now destruct (c (document s)).
Qed.

(** The body of the loops, case by case. *)
Lemma methodStep_run : forall ei fld (onFail onPass : Rule -> M Flow) ri r s,
  bind (callMethod ei ri r fld)
       (fun ok => if negb ok then onFail r else onPass r) s
  = let res := method r (document s) fld in
    let s' := setCalls (calls s ++ [MethodCall ei ri res]) s in
    match res with
    | Ok true => onPass r s'
    | Ok false => onFail r s'
    | Throw e => (Throw e, s')
    end.
Proof.
  intros; unfold bind; rewrite callMethod_run.
  now destruct (method r (document s) fld) as [[|]|e].
Qed.

Lemma ruleBody_run : forall ei fld (onFail onPass : Rule -> M Flow) ri r s,
  ruleBody ei fld onFail onPass ri r s
  = match condition r with
    | None =>
        bind (callMethod ei ri r fld)
             (fun ok => if negb ok then onFail r else onPass r) s
    | Some c =>
        let s' := setCalls (calls s ++ [ConditionCall ei ri (c (document s))]) s in
        match c (document s) with
        | Ok true =>
            bind (callMethod ei ri r fld)
                 (fun ok => if negb ok then onFail r else onPass r) s'
        | Ok false => (Ok Continue, s')
        | Throw e => (Throw e, s')
        end
    end.
Proof.
  intros; unfold ruleBody; unfold bind at 1.
  destruct (condition r) as [c|] eqn:Hc.
  - rewrite (conditionNotMet_some _ _ _ _ _ Hc).
    now destruct (c (document s)) as [[|]|e].
  - now rewrite (conditionNotMet_none _ _ _ _ Hc).
Qed.

Section Loop.

Variables (ei : nat) (fld : option handle) (onFail onPass : Rule -> M Flow).

(** One visit logs one block, whatever the two continuations do, as long
    as they leave the call log alone. *)
Hypothesis onFail_calls : forall r s, calls (snd (onFail r s)) = calls s.
Hypothesis onPass_calls : forall r s, calls (snd (onPass r s)) = calls s.

Lemma afterMethod_calls : forall ri r s0 s1 cs,
  calls s1 = calls s0 ++ cs ->
  calls (snd (bind (callMethod ei ri r fld)
                (fun ok => if negb ok then onFail r else onPass r) s1))
  = calls s0 ++ cs ++ [MethodCall ei ri (method r (document s1) fld)].
Proof.
  intros ri r s0 s1 cs H; unfold bind; rewrite callMethod_run.
  rewrite app_assoc, <- H.
  destruct (method r (document s1) fld) as [[|]|e]; cbv beta iota delta [negb].
  - now rewrite onPass_calls.
  - now rewrite onFail_calls.
  - reflexivity.
Qed.

Lemma ruleBody_log : forall ri r s,
  exists cs,
    calls (snd (ruleBody ei fld onFail onPass ri r s)) = calls s ++ cs /\
    block ei ri r cs.
Proof.
  intros ri r s; unfold ruleBody; unfold bind at 1.
  destruct (condition r) as [c|] eqn:Hc.
  - rewrite (conditionNotMet_some _ _ _ _ _ Hc).
    destruct (c (document s)) as [[|]|e] eqn:Hcd; cbv beta iota delta [negb].
    + eexists; split; [apply afterMethod_calls; reflexivity|].
      eapply block_open; eauto.
    + exists [ConditionCall ei ri (Ok false)]; split; [reflexivity|].
      eapply block_closed; eauto; discriminate.
    + exists [ConditionCall ei ri (Throw e)]; split; [reflexivity|].
      eapply block_closed; eauto; discriminate.
  - rewrite (conditionNotMet_none _ _ _ _ Hc); cbv beta iota.
    eexists; split.
    + rewrite (afterMethod_calls ri r s s []); [reflexivity|].
      now rewrite app_nil_r.
    + eapply block_plain; eauto.
Qed.

Lemma rulesLoop_log : forall rs ri s,
  exists cs,
    calls (snd (rulesLoop ei fld onFail onPass ri rs s)) = calls s ++ cs /\
    blocks ei ri rs cs.
Proof.
  induction rs as [|r rs IH]; intros ri s; simpl.
  - exists []; split; [now rewrite app_nil_r | constructor].
  - destruct (ruleBody_log ri r s) as (cs1 & H1 & B1).
    unfold bind at 1.
    destruct (ruleBody ei fld onFail onPass ri r s) as [[[|]|e] s1];
      simpl in H1.
    + destruct (IH (S ri) s1) as (cs2 & H2 & B2).
      exists (cs1 ++ cs2); split; [|now constructor].
      now rewrite H2, H1, app_assoc.
    + exists (cs1 ++ []); split; [now rewrite app_nil_r|].
      constructor; [assumption | constructor].
    + exists (cs1 ++ []); split; [now rewrite app_nil_r|].
      constructor; [assumption | constructor].
Qed.

(** A component of the state that the continuations and the call log
    leave alone is left alone by the loop. *)
Section Keeps.

Variables (T : Type) (p : State -> T).
Hypothesis p_calls : forall c s, p (setCalls c s) = p s.
Hypothesis onFail_keeps : forall r s, p (snd (onFail r s)) = p s.
Hypothesis onPass_keeps : forall r s, p (snd (onPass r s)) = p s.

Lemma afterMethod_keeps : forall ri r s1,
  p (snd (bind (callMethod ei ri r fld)
            (fun ok => if negb ok then onFail r else onPass r) s1))
  = p s1.
Proof.
  intros ri r s1; unfold bind; rewrite callMethod_run.
  destruct (method r (document s1) fld) as [[|]|e]; cbv beta iota delta [negb].
  - now rewrite onPass_keeps, p_calls.
  - now rewrite onFail_keeps, p_calls.
  - apply p_calls.
Qed.

Lemma ruleBody_keeps : forall ri r s,
  p (snd (ruleBody ei fld onFail onPass ri r s)) = p s.
Proof.
  intros ri r s; unfold ruleBody; unfold bind at 1.
  destruct (condition r) as [c|] eqn:Hc.
  - rewrite (conditionNotMet_some _ _ _ _ _ Hc).
    destruct (c (document s)) as [[|]|e]; cbv beta iota delta [negb].
    + now rewrite afterMethod_keeps, p_calls.
    + apply p_calls.
    + apply p_calls.
  - rewrite (conditionNotMet_none _ _ _ _ Hc); cbv beta iota.
    apply afterMethod_keeps.
Qed.

Lemma rulesLoop_keeps : forall rs ri s,
  p (snd (rulesLoop ei fld onFail onPass ri rs s)) = p s.
Proof.
  induction rs as [|r rs IH]; intros ri s; simpl; [reflexivity|].
  pose proof (ruleBody_keeps ri r s) as H.
  unfold bind at 1.
  destruct (ruleBody ei fld onFail onPass ri r s) as [[[|]|e] s1];
    simpl in *; auto.
  now rewrite IH.
Qed.

End Keeps.

End Loop.

(* ================================================================= *)
(** ** What the shape of a call log implies *)

Lemma block_bounds : forall ei ri r cs,
  block ei ri r cs ->
  Forall (fun c => callValidator c = ei /\ callRule c = ri) cs.
Proof. intros ei ri r cs []; repeat constructor. Qed.

Lemma blocks_bounds : forall ei ri rs cs,
  blocks ei ri rs cs ->
  Forall (fun c => callValidator c = ei /\
                   ri <= callRule c /\ callRule c < ri + List.length rs) cs.
Proof.
  induction 1 as [|ri r rs cs1 cs2 B1 _ IH]; [constructor|].
  apply Forall_app; split.
  - eapply Forall_impl; [|apply (block_bounds _ _ _ _ B1)].
    simpl; intros c (-> & ->); lia.
  - eapply Forall_impl; [|apply IH].
    simpl; intros c (-> & ? & ?); lia.
Qed.

Lemma passLog_bounds : forall ei vs cs,
  passLog ei vs cs ->
  Forall (fun c => ei <= callValidator c /\
                   callValidator c < ei + List.length vs) cs.
Proof.
  induction 1 as [|ei v vs cs1 cs2 B1 _ IH]; [constructor|].
  apply Forall_app; split.
  - eapply Forall_impl; [|apply (blocks_bounds _ _ _ _ B1)].
    simpl; intros c (-> & _); lia.
  - eapply Forall_impl; [|apply IH].
    simpl; intros c (? & ?); lia.
Qed.

Lemma gated_nil : forall vs, gated vs [].
Proof. intros vs [|? ?] ? ? ? ? H; discriminate H. Qed.

Lemma gated_app : forall vs a b, gated vs a -> gated vs b -> gated vs (a ++ b).
Proof.
  intros vs a b Ha Hb before ei ri res after H.
  apply app_eq_app in H; destruct H as (l & [(H1 & H2) | (H1 & H2)]).
  - destruct l as [|x l]; simpl in H2.
    + rewrite app_nil_r in H1; subst a.
      destruct (Hb [] ei ri res after (eq_sym H2)) as (r & Hr & [Hn | (b' & Hb')]).
      * exists r; auto.
      * destruct b'; discriminate Hb'.
    + injection H2 as <- H2. eapply Ha; eassumption.
  - destruct (Hb l ei ri res after H2) as (r & Hr & [Hn | (b' & Hb')]).
    + exists r; auto.
    + exists r; split; [assumption | right].
      exists (a ++ b'); now rewrite H1, Hb', app_assoc.
Qed.

Lemma gated_block : forall vs ei ri r cs,
  ruleAt vs ei ri = Some r -> block ei ri r cs -> gated vs cs.
Proof.
  intros vs ei ri r cs Hr B before ei' ri' res' after H.
  destruct B as [res Hn | c res Hc Hres | c res Hc].
  - destruct before as [|? [|? ?]]; try discriminate H.
    injection H as <- <- <- <-. exists r; auto.
  - destruct before as [|? [|? ?]]; discriminate H.
  - destruct before as [|x [|y [|? ?]]]; try discriminate H.
    injection H as <- <- <- <- <-.
    exists r; split; [assumption | right]. now exists [].
Qed.

Lemma gated_blocks : forall vs ei ri rs cs,
  blocks ei ri rs cs ->
  (forall j r, nth_error rs j = Some r -> ruleAt vs ei (ri + j) = Some r) ->
  gated vs cs.
Proof.
  induction 1 as [|ri r rs cs1 cs2 B1 _ IH]; intros Hat; [apply gated_nil|].
  apply gated_app.
  - eapply gated_block; [|eassumption].
    rewrite <- (Nat.add_0_r ri); now apply Hat.
  - apply IH; intros j r' Hj.
    replace (S ri + j) with (ri + S j) by lia. now apply Hat.
Qed.

Lemma gated_passLog : forall vs ei vs' cs,
  passLog ei vs' cs ->
  (forall j v, nth_error vs' j = Some v -> nth_error vs (ei + j) = Some v) ->
  gated vs cs.
Proof.
  induction 1 as [|ei v vs' cs1 cs2 B1 _ IH]; intros Hat; [apply gated_nil|].
  apply gated_app.
  - eapply gated_blocks; [eassumption|].
    intros j r Hj; unfold ruleAt.
    rewrite <- (Nat.add_0_r ei), (Hat 0 v eq_refl); exact Hj.
  - apply IH; intros j v' Hj.
    replace (S ei + j) with (ei + S j) by lia. now apply Hat.
Qed.

(** A rule whose condition returned false has no method call in the log
    of the loop. *)
Lemma skipped_block : forall ei ri r cs res,
  block ei ri r cs ->
  In (ConditionCall ei ri (Ok false)) cs -> ~ In (MethodCall ei ri res) cs.
Proof.
  intros ei ri r cs res [res' Hn | c res' Hc Hres | c res' Hc] Hin Hm;
    simpl in *.
  - destruct Hin as [Hin|[]]; discriminate Hin.
  - destruct Hm as [Hm|[]]; discriminate Hm.
  - destruct Hin as [Hin|[Hin|[]]]; discriminate Hin.
Qed.

Lemma skipped_blocks : forall ei ri rs cs,
  blocks ei ri rs cs ->
  forall rj res,
    In (ConditionCall ei rj (Ok false)) cs -> ~ In (MethodCall ei rj res) cs.
Proof.
  induction 1 as [|ri r rs cs1 cs2 B1 B2 IH]; intros rj res Hin Hm;
    [destruct Hin|].
  pose proof (block_bounds _ _ _ _ B1) as F1.
  pose proof (blocks_bounds _ _ _ _ B2) as F2.
  rewrite Forall_forall in F1, F2.
  apply in_app_or in Hin; apply in_app_or in Hm.
  destruct Hin as [Hin|Hin], Hm as [Hm|Hm].
  - pose proof (F1 _ Hin) as (_ & E); simpl in E; subst rj.
    eapply skipped_block; eassumption.
  - pose proof (F1 _ Hin) as (_ & E); pose proof (F2 _ Hm) as (_ & L & _).
    simpl in *; lia.
  - pose proof (F1 _ Hm) as (_ & E); pose proof (F2 _ Hin) as (_ & L & _).
    simpl in *; lia.
  - eapply IH; eassumption.
Qed.

Lemma skipped_passLog : forall ei vs cs,
  passLog ei vs cs ->
  forall ej rj res,
    In (ConditionCall ej rj (Ok false)) cs -> ~ In (MethodCall ej rj res) cs.
Proof.
  induction 1 as [|ei v vs cs1 cs2 B1 B2 IH]; intros ej rj res Hin Hm;
    [destruct Hin|].
  pose proof (blocks_bounds _ _ _ _ B1) as F1.
  pose proof (passLog_bounds _ _ _ B2) as F2.
  rewrite Forall_forall in F1, F2.
  apply in_app_or in Hin; apply in_app_or in Hm.
  destruct Hin as [Hin|Hin], Hm as [Hm|Hm].
  - pose proof (F1 _ Hin) as (E & _); simpl in E; subst ej.
    eapply skipped_blocks; eassumption.
  - pose proof (F1 _ Hin) as (E & _); pose proof (F2 _ Hm) as (L & _).
    simpl in *; lia.
  - pose proof (F1 _ Hm) as (E & _); pose proof (F2 _ Hin) as (L & _).
    simpl in *; lia.
  - eapply IH; eassumption.
Qed.

(* ================================================================= *)
(** ** Facts about [validateForm] *)

Lemma onDocument_run : forall A (m : Eff Document A) s,
  onDocument m s
  = (fst (m (document s)), setDocument (snd (m (document s))) s).
Proof. intros A m s; unfold onDocument; now destruct (m (document s)). Qed.

Lemma formOnPass_run : forall v r s,
  formOnPass v r s
  = (match fst (showValid (field v) (document s)) with
     | Ok _ => Ok Continue
     | Throw e => Throw e
     end,
     setDocument (snd (showValid (field v) (document s))) s).
Proof.
  intros v r s; unfold formOnPass, bind; rewrite onDocument_run.
  now destruct (fst (showValid (field v) (document s))).
Qed.

Lemma formOnFail_run : forall v r s es0,
  errors s = Some es0 ->
  formOnFail v r s
  = (Ok Break, setErrors (Some (es0 ++ [mkError (fieldId v) (message r)])) s).
Proof.
  intros v r s es0 H; unfold formOnFail, bind, pushError; now rewrite H.
Qed.

Lemma formOnFail_calls : forall v r s, calls (snd (formOnFail v r s)) = calls s.
Proof.
  intros v r s; unfold formOnFail, bind, pushError.
  now destruct (errors s).
Qed.

Lemma formOnPass_calls : forall v r s, calls (snd (formOnPass v r s)) = calls s.
Proof. intros; now rewrite formOnPass_run. Qed.

(** The calls of one validator's loop. *)
Lemma formRules_log : forall rs ei v ri s,
  exists cs,
    calls (snd (formRules ei v ri rs s)) = calls s ++ cs /\
    blocks ei ri rs cs.
Proof.
  intros rs ei v ri s; rewrite formRules_loop.
  apply rulesLoop_log; [apply formOnFail_calls | apply formOnPass_calls].
Qed.

(** What the loop of one validator leaves alone: the instance but for
    [this.errors], the console, and the document but for class lists. *)
Lemma formRules_keeps : forall (T : Type) (p : State -> T),
  (forall c s, p (setCalls c s) = p s) ->
  (forall es s, p (setErrors es s) = p s) ->
  (forall d s, sameButClasses (document s) d -> p (setDocument d s) = p s) ->
  forall rs ei v ri s, p (snd (formRules ei v ri rs s)) = p s.
Proof.
  intros T p Hc He Hd rs ei v ri s; rewrite formRules_loop.
  apply rulesLoop_keeps; [assumption| |].
  - intros r s1; unfold formOnFail, bind, pushError.
    destruct (errors s1); simpl; [apply He | reflexivity].
  - intros r s1; rewrite formOnPass_run; simpl.
    apply Hd. eapply showValid_same. apply surjective_pairing.
Qed.

Lemma formRules_validators : forall rs ei v ri s,
  validators (snd (formRules ei v ri rs s)) = validators s.
Proof. intros; apply (formRules_keeps _ validators); reflexivity. Qed.

Lemma formRules_document : forall rs ei v ri s,
  sameButClasses (document s) (document (snd (formRules ei v ri rs s))).
Proof.
  intros; unfold sameButClasses.
  symmetry; apply (formRules_keeps _ (fun s => noClasses (document s)));
    try reflexivity.
  intros d s1 H; simpl; now symmetry.
Qed.

Lemma formValidators_app : forall vs1 vs2 i s,
  formValidators i (vs1 ++ vs2) s
  = bind (formValidators i vs1)
         (fun _ => formValidators (i + List.length vs1) vs2) s.
Proof.
  induction vs1 as [|v vs1 IH]; intros vs2 i s; simpl.
  - unfold bind, ret. now rewrite Nat.add_0_r.
  - unfold bind.
    destruct (formRules i v 0 (rules v) s) as [[[]|e] s1]; [|reflexivity].
    rewrite IH; unfold bind.
    now replace (i + S (List.length vs1)) with (S i + List.length vs1) by lia.
Qed.

Lemma formValidators_keeps : forall (T : Type) (p : State -> T),
  (forall c s, p (setCalls c s) = p s) ->
  (forall es s, p (setErrors es s) = p s) ->
  (forall d s, sameButClasses (document s) d -> p (setDocument d s) = p s) ->
  forall vs i s, p (snd (formValidators i vs s)) = p s.
Proof.
  intros T p Hc He Hd.
  induction vs as [|v vs IH]; intros i s; simpl; [reflexivity|].
  pose proof (formRules_keeps T p Hc He Hd (rules v) i v 0 s) as H.
  unfold bind.
  destruct (formRules i v 0 (rules v) s) as [[[]|e] s1]; simpl in *; auto.
  now rewrite IH.
Qed.

Lemma formValidators_document : forall vs i s,
  sameButClasses (document s) (document (snd (formValidators i vs s))).
Proof.
  intros; unfold sameButClasses.
  symmetry; apply (formValidators_keeps _ (fun s => noClasses (document s)));
    try reflexivity.
  intros d s1 H; simpl; now symmetry.
Qed.

Lemma formValidators_log : forall vs i s,
  exists cs,
    calls (snd (formValidators i vs s)) = calls s ++ cs /\
    passLog i vs cs.
Proof.
  induction vs as [|v vs IH]; intros i s; simpl.
  - exists []; split; [now rewrite app_nil_r | constructor].
  - destruct (formRules_log (rules v) i v 0 s) as (cs1 & H1 & B1).
    unfold bind.
    destruct (formRules i v 0 (rules v) s) as [[[]|e] s1]; simpl in H1.
    + destruct (IH (S i) s1) as (cs2 & H2 & B2).
      exists (cs1 ++ cs2); split; [|now constructor].
      now rewrite H2, H1, app_assoc.
    + exists (cs1 ++ []); split; [now rewrite app_nil_r|].
      constructor; [assumption | constructor].
Qed.

Lemma failures_app : forall vs a b,
  failures vs (a ++ b) = failures vs a ++ failures vs b.
Proof.
  intros vs a b; induction a as [|c a IH]; simpl; [reflexivity|].
  destruct c as [? ? ?|ei ri [[|]|?]]; auto.
  destruct (nth_error vs ei) as [v|]; auto.
  destruct (nth_error (rules v) ri); auto.
  simpl; now rewrite IH.
Qed.

(** One visit: the records pushed are the ones its calls account for,
    and there is one exactly when the loop breaks. *)
Lemma formRule_errors : forall ei v ri r s es0,
  errors s = Some es0 ->
  exists cs es,
    calls (snd (formRule ei v ri r s)) = calls s ++ cs /\
    errors (snd (formRule ei v ri r s)) = Some (es0 ++ es) /\
    (forall vs, nth_error vs ei = Some v -> nth_error (rules v) ri = Some r ->
                failures vs cs = es) /\
    (es = [] /\ fst (formRule ei v ri r s) <> Ok Break \/
     es = [mkError (fieldId v) (message r)] /\
     fst (formRule ei v ri r s) = Ok Break).
Proof.
  intros ei v ri r s es0 He.
  assert (Hm : forall s1 cs0,
    errors s1 = Some es0 -> calls s1 = calls s ++ cs0 ->
    (forall vs, failures vs cs0 = []) ->
    let out := bind (callMethod ei ri r (field v))
                 (fun ok => if negb ok then formOnFail v r
                            else formOnPass v r) s1 in
    exists cs es,
      calls (snd out) = calls s ++ cs /\
      errors (snd out) = Some (es0 ++ es) /\
      (forall vs, nth_error vs ei = Some v ->
                  nth_error (rules v) ri = Some r -> failures vs cs = es) /\
      (es = [] /\ fst out <> Ok Break \/
       es = [mkError (fieldId v) (message r)] /\ fst out = Ok Break)).
  { intros s1 cs0 He1 Hc1 Hf1 out; subst out.
    rewrite methodStep_run.
    destruct (method r (document s1) (field v)) as [[|]|e]; cbv zeta.
    - rewrite formOnPass_run; simpl.
      exists (cs0 ++ [MethodCall ei ri (Ok true)]), [].
      rewrite Hc1, app_assoc, app_nil_r; repeat split; auto.
      + intros vs _ _; rewrite failures_app, Hf1; reflexivity.
      + left; split; [reflexivity|].
        destruct (fst (showValid (field v) (document s1))); discriminate.
    - erewrite formOnFail_run by exact He1; simpl.
      exists (cs0 ++ [MethodCall ei ri (Ok false)]),
             [mkError (fieldId v) (message r)].
      rewrite Hc1, app_assoc; repeat split; auto.
      intros vs Hv Hr; rewrite failures_app, Hf1; simpl.
      now rewrite Hv, Hr.
    - simpl.
      exists (cs0 ++ [MethodCall ei ri (Throw e)]), [].
      rewrite Hc1, app_assoc, app_nil_r; repeat split; auto.
      + intros vs _ _; rewrite failures_app, Hf1; reflexivity.
      + left; split; [reflexivity | discriminate]. }
  rewrite formRule_body, ruleBody_run.
  destruct (condition r) as [c|] eqn:Hc.
  - destruct (c (document s)) as [[|]|e] eqn:Hcd; cbv zeta.
    + apply (Hm _ [ConditionCall ei ri (Ok true)]); auto.
    + exists [ConditionCall ei ri (Ok false)], []; simpl.
      rewrite app_nil_r; repeat split; auto.
      left; split; [reflexivity | discriminate].
    + exists [ConditionCall ei ri (Throw e)], []; simpl.
      rewrite app_nil_r; repeat split; auto.
      left; split; [reflexivity | discriminate].
  - apply (Hm s []); auto. now rewrite app_nil_r.
Qed.

Lemma formRules_errors : forall rs ei v ri s es0,
  errors s = Some es0 ->
  exists cs es,
    calls (snd (formRules ei v ri rs s)) = calls s ++ cs /\
    errors (snd (formRules ei v ri rs s)) = Some (es0 ++ es) /\
    (forall vs, nth_error vs ei = Some v ->
       (forall j r, nth_error rs j = Some r ->
                    nth_error (rules v) (ri + j) = Some r) ->
       failures vs cs = es) /\
    (es = [] \/
     exists r, In r rs /\ es = [mkError (fieldId v) (message r)]).
Proof.
  induction rs as [|r rs IH]; intros ei v ri s es0 He; simpl.
  - exists [], []; rewrite !app_nil_r; auto.
  - destruct (formRule_errors ei v ri r s es0 He)
      as (cs1 & es1 & Hc1 & He1 & Hf1 & Hcase).
    unfold bind.
    destruct (formRule ei v ri r s) as [[[|]|e] s1]; simpl in *.
    + destruct Hcase as [(-> & _) | (_ & D)]; [|discriminate D].
      rewrite app_nil_r in He1.
      destruct (IH ei v (S ri) s1 es0 He1)
        as (cs2 & es2 & Hc2 & He2 & Hf2 & Hcase2).
      exists (cs1 ++ cs2), es2; repeat split.
      * now rewrite Hc2, Hc1, app_assoc.
      * assumption.
      * intros vs Hv Hat; rewrite failures_app.
        rewrite (Hf1 vs Hv), (Hf2 vs Hv); [reflexivity| |].
        -- intros j r' Hj.
           replace (S ri + j) with (ri + S j) by lia; now apply Hat.
        -- rewrite <- (Nat.add_0_r ri); now apply Hat.
      * destruct Hcase2 as [-> | (r' & Hin & ->)]; [now left | right].
        exists r'; auto.
    + destruct Hcase as [(_ & D) | (-> & _)]; [now elim D|].
      exists cs1, [mkError (fieldId v) (message r)]; repeat split; auto.
      * intros vs Hv Hat; apply Hf1; [assumption|].
        rewrite <- (Nat.add_0_r ri); now apply Hat.
      * right; exists r; auto.
    + destruct Hcase as [(-> & _) | (_ & D)]; [|discriminate D].
      exists cs1, []; repeat split; auto.
      intros vs Hv Hat; apply Hf1; [assumption|].
      rewrite <- (Nat.add_0_r ri); now apply Hat.
Qed.

Lemma formValidators_errors : forall vs' i s es0,
  errors s = Some es0 ->
  exists cs es,
    calls (snd (formValidators i vs' s)) = calls s ++ cs /\
    errors (snd (formValidators i vs' s)) = Some (es0 ++ es) /\
    (forall vs,
       (forall j v, nth_error vs' j = Some v -> nth_error vs (i + j) = Some v) ->
       failures vs cs = es) /\
    Subseq (map errorFieldId es) (map fieldId vs').
Proof.
  induction vs' as [|v vs' IH]; intros i s es0 He; simpl.
  - exists [], []; rewrite !app_nil_r; repeat split; auto. constructor.
  - destruct (formRules_errors (rules v) i v 0 s es0 He)
      as (cs1 & es1 & Hc1 & He1 & Hf1 & Hcase).
    assert (Hsub : forall l, Subseq l (map fieldId vs') ->
              Subseq (map errorFieldId es1 ++ l) (fieldId v :: map fieldId vs')).
    { intros l Hl; destruct Hcase as [-> | (r & _ & ->)]; simpl;
        now constructor. }
    assert (Hnil : Subseq (@nil string) (map fieldId vs')).
    { clear; induction vs'; simpl; now constructor. }
    unfold bind.
    destruct (formRules i v 0 (rules v) s) as [[[]|e] s1]; simpl in *.
    + destruct (IH (S i) s1 (es0 ++ es1) He1)
        as (cs2 & es2 & Hc2 & He2 & Hf2 & Hs2).
      exists (cs1 ++ cs2), (es1 ++ es2); repeat split.
      * now rewrite Hc2, Hc1, app_assoc.
      * now rewrite He2, app_assoc.
      * intros vs Hat; rewrite failures_app.
        rewrite (Hf1 vs), (Hf2 vs); [reflexivity| | |].
        -- intros j v' Hj.
           replace (S i + j) with (i + S j) by lia; now apply Hat.
        -- rewrite <- (Nat.add_0_r i); now apply Hat.
        -- intros j r Hj; exact Hj.
      * rewrite map_app; now apply Hsub.
    + exists cs1, es1; repeat split; auto.
      * intros vs Hat; apply Hf1; [|intros j r Hj; exact Hj].
        rewrite <- (Nat.add_0_r i); now apply Hat.
      * rewrite <- (app_nil_r (map errorFieldId es1)); now apply Hsub.
Qed.

(** [validateForm], its three steps spelled out. *)
Lemma validateForm_run : forall s,
  validateForm s
  = let out := formValidators 0 (validators s) (setErrors (Some []) s) in
    match fst out with
    | Ok _ =>
        match errors (snd out) with
        | Some es => (Ok (Nat.eqb (List.length es) 0), snd out)
        | None => (Throw TypeError, snd out)
        end
    | Throw e => (Throw e, snd out)
    end.
Proof.
  intros s; unfold validateForm, bind, modify, reads; simpl.
  destruct (formValidators 0 (validators s) (setErrors (Some []) s))
    as [[[]|e] s1]; simpl; [|reflexivity].
  now destruct (errors s1).
Qed.

(** *** The pass as a function of the registry and the page

    The loops take two states that are [alike] to two such states, with
    the same outcome: what [this.errors] held before has no part in what
    a pass appends. *)

Lemma alike_setCalls : forall es0 et0 s t c c',
  alike es0 et0 s t -> alike es0 et0 (setCalls c s) (setCalls c' t).
Proof. intros es0 et0 s t c c' H; exact H. Qed.

Lemma formRule_alike : forall es0 et0 ei v ri r s t,
  alike es0 et0 s t ->
  fst (formRule ei v ri r s) = fst (formRule ei v ri r t) /\
  alike es0 et0 (snd (formRule ei v ri r s)) (snd (formRule ei v ri r t)).
Proof.
  intros es0 et0 ei v ri r s t H.
  assert (Hm : forall s1 t1, alike es0 et0 s1 t1 ->
    let f := bind (callMethod ei ri r (field v))
               (fun ok => if negb ok then formOnFail v r else formOnPass v r) in
    fst (f s1) = fst (f t1) /\ alike es0 et0 (snd (f s1)) (snd (f t1))).
  { intros s1 t1 (Hd & es & Hs & Ht) f; subst f.
    rewrite !methodStep_run; cbv zeta; rewrite <- Hd.
    destruct (method r (document s1) (field v)) as [[|]|e].
    - rewrite !formOnPass_run; simpl; rewrite <- Hd.
      split; [reflexivity|]. split; [reflexivity|]. exists es; auto.
    - rewrite (formOnFail_run v r _ (es0 ++ es)) by exact Hs.
      rewrite (formOnFail_run v r _ (et0 ++ es)) by exact Ht.
      simpl; split; [reflexivity|]. split; [assumption|].
      exists (es ++ [mkError (fieldId v) (message r)]).
      now rewrite !app_assoc.
    - simpl; split; [reflexivity|]. split; [assumption|]. exists es; auto. }
  rewrite !formRule_body, !ruleBody_run.
  pose proof H as (Hd & _); rewrite <- Hd.
  destruct (condition r) as [c|]; [|now apply Hm].
  destruct (c (document s)) as [[|]|e]; cbv zeta.
  - apply Hm. now apply alike_setCalls.
  - split; [reflexivity | now apply alike_setCalls].
  - split; [reflexivity | now apply alike_setCalls].
Qed.

Lemma formRules_alike : forall es0 et0 rs ei v ri s t,
  alike es0 et0 s t ->
  fst (formRules ei v ri rs s) = fst (formRules ei v ri rs t) /\
  alike es0 et0 (snd (formRules ei v ri rs s)) (snd (formRules ei v ri rs t)).
Proof.
  induction rs as [|r rs IH]; intros ei v ri s t H; simpl; [auto|].
  destruct (formRule_alike es0 et0 ei v ri r s t H) as (Hf & Ha).
  unfold bind.
  destruct (formRule ei v ri r s) as [rs1 s1], (formRule ei v ri r t) as [rt1 t1].
  simpl in Hf, Ha; subst rt1.
  destruct rs1 as [[|]|e]; simpl; auto.
Qed.

Lemma formValidators_alike : forall es0 et0 vs i s t,
  alike es0 et0 s t ->
  fst (formValidators i vs s) = fst (formValidators i vs t) /\
  alike es0 et0 (snd (formValidators i vs s)) (snd (formValidators i vs t)).
Proof.
  induction vs as [|v vs IH]; intros i s t H; simpl; [auto|].
  destruct (formRules_alike es0 et0 (rules v) i v 0 s t H) as (Hf & Ha).
  unfold bind.
  destruct (formRules i v 0 (rules v) s) as [rs1 s1],
           (formRules i v 0 (rules v) t) as [rt1 t1].
  simpl in Hf, Ha; subst rt1.
  destruct rs1 as [[]|e]; simpl; auto.
Qed.

(** The outcome and the error list of a pass are those of a pass of a
    new instance with the same registry on the same page. *)
Lemma validateForm_alike : forall s t,
  validators s = validators t -> document s = document t ->
  fst (validateForm s) = fst (validateForm t) /\
  errors (snd (validateForm s)) = errors (snd (validateForm t)) /\
  document (snd (validateForm s)) = document (snd (validateForm t)).
Proof.
  intros s t Hv Hd.
  assert (H0 : alike [] [] (setErrors (Some []) s) (setErrors (Some []) t)).
  { split; [exact Hd|]. exists []; auto. }
  destruct (formValidators_alike [] [] (validators s) 0 _ _ H0)
    as (Hf & Hdoc & es & Hes & Het).
  rewrite !validateForm_run; cbv zeta; rewrite <- Hv, <- Hf.
  destruct (formValidators 0 (validators s) (setErrors (Some []) s))
    as [r1 s1] eqn:E1.
  destruct (formValidators 0 (validators s) (setErrors (Some []) t))
    as [r2 t1] eqn:E2.
  simpl in *.
  destruct r1 as [[]|e]; rewrite ?Hes, ?Het; simpl; rewrite ?Hes, ?Het; auto.
Qed.

(** The error list of a pass is what the calls of that pass account
    for. *)
Lemma validateForm_failures : forall s,
  exists cs,
    calls (snd (validateForm s)) = calls s ++ cs /\
    errors (snd (validateForm s)) = Some (failures (validators s) cs) /\
    passLog 0 (validators s) cs.
Proof.
  intros s.
  destruct (formValidators_errors (validators s) 0 (setErrors (Some []) s) [])
    as (cs & es & Hc & He & Hf & _); [reflexivity|].
  destruct (formValidators_log (validators s) 0 (setErrors (Some []) s))
    as (cs' & Hc' & Hlog).
  assert (cs' = cs) as ->.
  { rewrite Hc in Hc'. now apply app_inv_head in Hc'. }
  rewrite <- (Hf (validators s)) in He by (intros j v Hj; exact Hj).
  exists cs; rewrite validateForm_run; cbv zeta.
  destruct (formValidators 0 (validators s) (setErrors (Some []) s))
    as [[[]|e] s1]; simpl in *; [rewrite He|]; auto.
Qed.

Lemma validateForm_validators : forall s,
  validators (snd (validateForm s)) = validators s.
Proof.
  intros s; rewrite validateForm_run; cbv zeta.
  pose proof (formValidators_keeps _ validators
                (fun _ _ => eq_refl) (fun _ _ => eq_refl)
                (fun _ _ _ => eq_refl)
                (validators s) 0 (setErrors (Some []) s)) as H.
  destruct (formValidators 0 (validators s) (setErrors (Some []) s))
    as [[[]|e] s1]; simpl in *; [destruct (errors s1)|]; exact H.
Qed.

(** *** The visits of one rule, outcome by outcome *)

Lemma formRule_skip : forall ei v ri r s,
  gatedOff r (document s) ->
  formRule ei v ri r s
  = (Ok Continue, setCalls (calls s ++ [ConditionCall ei ri (Ok false)]) s).
Proof.
  intros ei v ri r s (c & Hc & Hcd).
  now rewrite formRule_body, ruleBody_run, Hc, Hcd.
Qed.

Lemma conditionHolds_run : forall ei fld (onFail onPass : Rule -> M Flow) ri r s,
  conditionHolds r (document s) ->
  ruleBody ei fld onFail onPass ri r s
  = bind (callMethod ei ri r fld)
         (fun ok => if negb ok then onFail r else onPass r)
         (setCalls (calls s ++ conditionCalls ei ri r) s).
Proof.
  intros ei fld onFail onPass ri r s H.
  rewrite ruleBody_run; unfold conditionHolds, conditionCalls in *.
  destruct (condition r) as [c|].
  - now rewrite H.
  - rewrite app_nil_r. now destruct s.
Qed.

Lemma formRule_pass : forall ei v ri r s d1,
  conditionHolds r (document s) ->
  method r (document s) (field v) = Ok true ->
  showValid (field v) (document s) = (Ok tt, d1) ->
  formRule ei v ri r s
  = (Ok Continue,
     setDocument d1
       (setCalls (calls s ++ conditionCalls ei ri r
                  ++ [MethodCall ei ri (Ok true)]) s)).
Proof.
  intros ei v ri r s d1 Hc Hm Hs.
  rewrite formRule_body, conditionHolds_run, methodStep_run by assumption.
  simpl; rewrite Hm, formOnPass_run; simpl; rewrite Hs; simpl.
  now rewrite app_assoc.
Qed.

Lemma formRule_fail : forall ei v ri r s es0,
  predicateFails r (field v) (document s) ->
  errors s = Some es0 ->
  formRule ei v ri r s
  = (Ok Break,
     setErrors (Some (es0 ++ [mkError (fieldId v) (message r)]))
       (setCalls (calls s ++ conditionCalls ei ri r
                  ++ [MethodCall ei ri (Ok false)]) s)).
Proof.
  intros ei v ri r s es0 (Hc & Hm) He.
  rewrite formRule_body, conditionHolds_run, methodStep_run by assumption.
  simpl; rewrite Hm.
  rewrite (formOnFail_run v r _ es0) by exact He.
  now rewrite app_assoc.
Qed.

Lemma conditionCalls_bounds : forall ei ri r,
  Forall (fun c => callValidator c = ei /\ callRule c = ri)
         (conditionCalls ei ri r).
Proof.
  intros; unfold conditionCalls; destruct (condition r); repeat constructor.
Qed.

(** The loop of a validator whose first failing rule is [rk]: it stops
    there, having pushed the record of [rk] and called nothing past it. *)
Lemma formRules_first_failure : forall fld d before dk,
  noFailure fld d before dk ->
  forall ei v ri rk after s es0,
    field v = fld -> document s = d -> errors s = Some es0 ->
    predicateFails rk fld dk ->
    exists cs,
      formRules ei v ri (before ++ rk :: after) s
      = (Ok tt,
         mkState (form s) (validators s)
                 (Some (es0 ++ [mkError (fieldId v) (message rk)]))
                 dk (console s) (calls s ++ cs)) /\
      Forall (fun c => callValidator c = ei /\
                       callRule c <= ri + List.length before) cs.
Proof.
  induction 1 as [d | d r rs d' Hg _ IH | d r rs d1 d' Hc Hm Hs _ IH];
    intros ei v ri rk after s es0 Hf Hd He Hk; subst fld d; simpl.
  - unfold bind; rewrite (formRule_fail ei v ri rk s es0 Hk He); simpl.
    eexists; split; [reflexivity|].
    apply Forall_app; split.
    + eapply Forall_impl; [|apply conditionCalls_bounds].
      simpl; intros c (-> & ->); split; [reflexivity | lia].
    + repeat constructor; simpl; lia.
  - unfold bind; rewrite (formRule_skip ei v ri r s Hg).
    destruct (IH ei v (S ri) rk after
                 (setCalls (calls s ++ [ConditionCall ei ri (Ok false)]) s)
                 es0 eq_refl eq_refl He Hk) as (cs & -> & Hb).
    simpl; rewrite <- app_assoc.
    eexists; split; [reflexivity|].
    constructor; [simpl; split; [reflexivity | lia]|].
    eapply Forall_impl; [|exact Hb]. simpl; intros c (? & ?); split; [auto|lia].
  - unfold bind; rewrite (formRule_pass ei v ri r s d1 Hc Hm Hs).
    destruct (IH ei v (S ri) rk after
                 (setDocument d1
                    (setCalls (calls s ++ conditionCalls ei ri r
                               ++ [MethodCall ei ri (Ok true)]) s))
                 es0 eq_refl eq_refl He Hk) as (cs & -> & Hb).
    simpl; rewrite <- !app_assoc.
    eexists; split; [reflexivity|].
    apply Forall_app; split.
    + eapply Forall_impl; [|apply conditionCalls_bounds].
      simpl; intros c (-> & ->); split; [reflexivity | lia].
    + constructor; [simpl; split; [reflexivity | lia]|].
      eapply Forall_impl; [|exact Hb].
      simpl; intros c (? & ?); split; [auto|lia].
Qed.

(** The loop of a validator none of whose rules fails: it runs to the
    end and pushes nothing. *)
Lemma formRules_no_failure : forall fld d rs d',
  noFailure fld d rs d' ->
  forall ei v ri s,
    field v = fld -> document s = d ->
    exists cs,
      formRules ei v ri rs s
      = (Ok tt,
         mkState (form s) (validators s) (errors s) d' (console s)
                 (calls s ++ cs)).
Proof.
  induction 1 as [d | d r rs d' Hg _ IH | d r rs d1 d' Hc Hm Hs _ IH];
    intros ei v ri s Hf Hd; subst fld d; simpl.
  - exists []; rewrite app_nil_r; now destruct s.
  - unfold bind; rewrite (formRule_skip ei v ri r s Hg).
    destruct (IH ei v (S ri)
                 (setCalls (calls s ++ [ConditionCall ei ri (Ok false)]) s)
                 eq_refl eq_refl) as (cs & ->).
    simpl; rewrite <- app_assoc. eexists; reflexivity.
  - unfold bind; rewrite (formRule_pass ei v ri r s d1 Hc Hm Hs).
    destruct (IH ei v (S ri)
                 (setDocument d1
                    (setCalls (calls s ++ conditionCalls ei ri r
                               ++ [MethodCall ei ri (Ok true)]) s))
                 eq_refl eq_refl) as (cs & ->).
    simpl; rewrite <- !app_assoc. eexists; reflexivity.
Qed.

(** *** A pass, cut at one validator *)

Lemma Subseq_In : forall (A : Type) (l1 l2 : list A) x,
  Subseq l1 l2 -> In x l1 -> In x l2.
Proof.
  induction 1 as [|y l1 l2 _ IH|y l1 l2 _ IH]; simpl; intuition.
Qed.

Lemma Subseq_nil_l : forall (A : Type) (l : list A), Subseq [] l.
Proof. induction l; now constructor. Qed.

(** No record comes from validators registered under other names. *)
Lemma filter_others : forall f (vs : list Validator) (es : list ErrorRecord),
  Subseq (map errorFieldId es) (map fieldId vs) ->
  (forall u, In u vs -> fieldId u <> f) ->
  filter (fun e => String.eqb (errorFieldId e) f) es = [].
Proof.
  intros f vs es Hs Hne.
  induction es as [|e es IH]; simpl; [reflexivity|].
  destruct (String.eqb (errorFieldId e) f) eqn:E.
  - apply String.eqb_eq in E.
    assert (Hin : In (errorFieldId e) (map fieldId vs)).
    { eapply Subseq_In; [exact Hs | now left]. }
    apply in_map_iff in Hin; destruct Hin as (u & Hu & Hin).
    elim (Hne u Hin); congruence.
  - apply IH. clear -Hs. simpl in Hs.
    remember (errorFieldId e :: map errorFieldId es) as l1 eqn:E1.
    remember (map fieldId vs) as l2 eqn:E2; clear E2.
    induction Hs as [|y l1 l2 _ IH|y l1 l2 H _]; try discriminate.
    + constructor; auto.
    + injection E1 as -> ->. now constructor.
Qed.

Lemma formValidators_split : forall pre v post i s es0,
  errors s = Some es0 ->
  let s1 := snd (formValidators i pre s) in
  let s2 := snd (formRules (i + List.length pre) v 0 (rules v) s1) in
  let out := formValidators i (pre ++ v :: post) s in
  exists es1 es2 es3 cs1 cs2 cs3,
    errors s1 = Some (es0 ++ es1) /\
    calls s1 = calls s ++ cs1 /\
    errors (snd out) = Some (es0 ++ es1 ++ es2 ++ es3) /\
    calls (snd out) = calls s ++ cs1 ++ cs2 ++ cs3 /\
    Subseq (map errorFieldId es1) (map fieldId pre) /\
    Subseq (map errorFieldId es3) (map fieldId post) /\
    Forall (fun c => callValidator c < i + List.length pre) cs1 /\
    Forall (fun c => i + List.length pre < callValidator c) cs3 /\
    (fst (formValidators i pre s) = Ok tt ->
     errors s2 = Some ((es0 ++ es1) ++ es2) /\
     calls s2 = (calls s ++ cs1) ++ cs2) /\
    (fst (formValidators i pre s) <> Ok tt -> es2 = [] /\ cs2 = []) /\
    (fst out = Ok tt ->
     fst (formValidators i pre s) = Ok tt /\
     fst (formRules (i + List.length pre) v 0 (rules v) s1) = Ok tt).
Proof.
  intros pre v post i s es0 He; cbv zeta.
  destruct (formValidators_errors pre i s es0 He)
    as (cs1 & es1 & Hc1 & He1 & _ & Hs1).
  destruct (formValidators_log pre i s) as (cs1' & Hc1' & L1).
  assert (cs1' = cs1) as ->
    by (rewrite Hc1 in Hc1'; now apply app_inv_head in Hc1').
  assert (B1 : Forall (fun c => callValidator c < i + List.length pre) cs1).
  { eapply Forall_impl; [|apply (passLog_bounds _ _ _ L1)].
    simpl; intros c (_ & ?); assumption. }
  rewrite formValidators_app; unfold bind.
  destruct (formValidators i pre s) as [r1 s1]; simpl in He1, Hc1 |- *.
  destruct r1 as [[]|e].
  - (* the validators before [v] have all been run *)
    destruct (formRules_errors (rules v) (i + List.length pre) v 0 s1
                (es0 ++ es1) He1) as (cs2 & es2 & Hc2 & He2 & _ & _).
    unfold bind.
    destruct (formRules (i + List.length pre) v 0 (rules v) s1)
      as [r2 s2]; simpl in He2, Hc2 |- *.
    destruct r2 as [[]|e].
    + destruct (formValidators_errors post (S (i + List.length pre)) s2
                  ((es0 ++ es1) ++ es2) He2) as (cs3 & es3 & Hc3 & He3 & _ & Hs3).
      destruct (formValidators_log post (S (i + List.length pre)) s2)
        as (cs3' & Hc3' & L3).
      assert (cs3' = cs3) as ->
        by (rewrite Hc3 in Hc3'; now apply app_inv_head in Hc3').
      exists es1, es2, es3, cs1, cs2, cs3.
      repeat split; auto; try (exfalso; congruence).
      * now rewrite He3, <- !app_assoc.
      * now rewrite Hc3, Hc2, Hc1, <- !app_assoc.
      * eapply Forall_impl; [|apply (passLog_bounds _ _ _ L3)].
        simpl; intros c (? & _); lia.
      * now rewrite Hc1 in Hc2.
    + exists es1, es2, [], cs1, cs2, [].
      rewrite !app_nil_r; simpl.
      repeat split; auto; try (exfalso; congruence);
        try apply Subseq_nil_l.
      * now rewrite He2, <- !app_assoc.
      * now rewrite Hc2, Hc1, <- !app_assoc.
      * now rewrite Hc1 in Hc2.
  - exists es1, [], [], cs1, [], [].
    rewrite !app_nil_r; simpl.
    repeat split; auto; try (exfalso; congruence); apply Subseq_nil_l.
Qed.

Lemma errorsFor_app : forall f es1 es2,
  errorsFor f (es1 ++ es2) = errorsFor f es1 ++ errorsFor f es2.
Proof. intros; apply filter_app. Qed.

(* ================================================================= *)
(** ** Facts about [validateField] *)

Section FieldFacts.

Variable qsa : Document -> option handle -> string -> Result (list handle).

Lemma fieldRule_body : forall id ei v ri r,
  fieldRule qsa id ei v ri r
  = ruleBody ei (field v) (fieldOnFail qsa id) (fieldOnPass qsa id v) ri r.
Proof. reflexivity. Qed.

Lemma fieldRules_loop : forall rs id ei v ri s,
  fieldRules qsa id ei v ri rs s
  = rulesLoop ei (field v) (fieldOnFail qsa id) (fieldOnPass qsa id v) ri rs s.
Proof.
  induction rs as [|r rs IH]; intros id ei v ri s; simpl; [reflexivity|].
  rewrite fieldRule_body.
  apply bind_ext; intros [|] s'; [apply IH | reflexivity].
Qed.

(** What the two continuations of [validateField] do, they do to the
    document. *)
Lemma fieldOnFail_run : forall id r s,
  exists res d,
    fieldOnFail qsa id r s = (res, setDocument d s).
Proof.
  intros id r s; unfold fieldOnFail, bind; rewrite onDocument_run.
  destruct (fst (removeHint qsa id (document s))).
  - rewrite onDocument_run; simpl.
    destruct (fst (showHint id r _)); eexists; eexists; reflexivity.
  - eexists; eexists; reflexivity.
Qed.

Lemma fieldOnPass_run : forall id v r s,
  exists res d,
    fieldOnPass qsa id v r s = (res, setDocument d s).
Proof.
  intros id v r s; unfold fieldOnPass, bind; rewrite onDocument_run.
  destruct (fst (showValid (field v) (document s))).
  - rewrite onDocument_run; simpl.
    destruct (fst (removeHint qsa id _)); eexists; eexists; reflexivity.
  - eexists; eexists; reflexivity.
Qed.

Lemma fieldRules_keeps : forall (T : Type) (p : State -> T),
  (forall c s, p (setCalls c s) = p s) ->
  (forall d s, p (setDocument d s) = p s) ->
  forall rs id ei v ri s, p (snd (fieldRules qsa id ei v ri rs s)) = p s.
Proof.
  intros T p Hc Hd rs id ei v ri s; rewrite fieldRules_loop.
  apply rulesLoop_keeps; [assumption| |].
  - intros r s1; destruct (fieldOnFail_run id r s1) as (res & d & ->).
    apply Hd.
  - intros r s1; destruct (fieldOnPass_run id v r s1) as (res & d & ->).
    apply Hd.
Qed.

Lemma fieldRules_log : forall rs id ei v ri s,
  exists cs,
    calls (snd (fieldRules qsa id ei v ri rs s)) = calls s ++ cs /\
    blocks ei ri rs cs.
Proof.
  intros rs id ei v ri s; rewrite fieldRules_loop.
  apply rulesLoop_log; intros r s1.
  - now destruct (fieldOnFail_run id r s1) as (res & d & ->).
  - now destruct (fieldOnPass_run id v r s1) as (res & d & ->).
Qed.

Lemma fieldRule_skip : forall id ei v ri r s,
  gatedOff r (document s) ->
  fieldRule qsa id ei v ri r s
  = (Ok Continue, setCalls (calls s ++ [ConditionCall ei ri (Ok false)]) s).
Proof.
  intros id ei v ri r s (c & Hc & Hcd).
  now rewrite fieldRule_body, ruleBody_run, Hc, Hcd.
Qed.

Lemma blind_ret : forall vs A (a : A), registryBlind vs (ret a).
Proof. intros vs A a s; reflexivity. Qed.

Lemma blind_bind : forall vs A B (m : M A) (k : A -> M B),
  registryBlind vs m -> (forall a, registryBlind vs (k a)) ->
  registryBlind vs (bind m k).
Proof.
  intros vs A B m k Hm Hk s; unfold bind; rewrite Hm.
  destruct (m s) as [[a|e] s1]; simpl; [apply Hk | reflexivity].
Qed.

Lemma blind_onDocument : forall vs A (m : Eff Document A),
  registryBlind vs (onDocument m).
Proof. intros vs A m s; now rewrite !onDocument_run. Qed.

Lemma blind_callMethod : forall vs ei ri r fld,
  registryBlind vs (callMethod ei ri r fld).
Proof. intros vs ei ri r fld s; now rewrite !callMethod_run. Qed.

Lemma blind_conditionNotMet : forall vs ei ri r,
  registryBlind vs (conditionNotMet ei ri r).
Proof.
  intros vs ei ri r s; destruct (condition r) as [c|] eqn:Hc.
  - now rewrite !(conditionNotMet_some _ _ _ _ _ Hc).
  - now rewrite !(conditionNotMet_none _ _ _ _ Hc).
Qed.

(** The loop of [validateField] does not look at the registry. *)
Lemma fieldRules_setValidators : forall vs rs id ei v ri,
  registryBlind vs (fieldRules qsa id ei v ri rs).
Proof.
  intros vs; induction rs as [|r rs IH]; intros id ei v ri; simpl;
    [apply blind_ret|].
  apply blind_bind.
  - unfold fieldRule.
    apply blind_bind; [apply blind_conditionNotMet|].
    intros [|]; [apply blind_ret|].
    apply blind_bind; [apply blind_callMethod|].
    intros [|]; cbv beta iota delta [negb];
      repeat (apply blind_bind; [apply blind_onDocument | intros _]);
      apply blind_ret.
  - intros [|]; [apply IH | apply blind_ret].
Qed.

Lemma findValidator_none : forall id vs i,
  findValidator id i vs = None <-> (forall v, In v vs -> fieldId v <> id).
Proof.
  intros id; induction vs as [|v vs IH]; intros i; simpl.
  - split; [intros _ v [] | reflexivity].
  - destruct (String.eqb (fieldId v) id) eqn:E.
    + apply String.eqb_eq in E. split; [discriminate|].
      intros H; elim (H v); auto.
    + apply String.eqb_neq in E. rewrite IH. split.
      * intros H u [<-|Hu]; auto.
      * intros H u Hu; apply H; auto.
Qed.

Lemma findValidator_first : forall id pre v post i,
  (forall u, In u pre -> fieldId u <> id) -> fieldId v = id ->
  findValidator id i (pre ++ v :: post) = Some (i + List.length pre, v).
Proof.
  intros id; induction pre as [|u pre IH]; intros v post i Hpre Hv; simpl.
  - rewrite Hv, String.eqb_refl. now rewrite Nat.add_0_r.
  - destruct (String.eqb (fieldId u) id) eqn:E.
    + apply String.eqb_eq in E. elim (Hpre u); simpl; auto.
    + rewrite IH; [|intros w Hw; apply Hpre; simpl; auto | assumption].
      f_equal; f_equal; lia.
Qed.

Lemma findValidator_some : forall id vs i ei v,
  findValidator id i vs = Some (ei, v) ->
  exists pre post,
    vs = pre ++ v :: post /\ ei = i + List.length pre /\ fieldId v = id /\
    (forall u, In u pre -> fieldId u <> id).
Proof.
  intros id; induction vs as [|u vs IH]; intros i ei v H; simpl in H;
    [discriminate|].
  destruct (String.eqb (fieldId u) id) eqn:E.
  - injection H as <- <-. apply String.eqb_eq in E.
    exists [], vs; simpl; repeat split; auto; try lia; intros ? [].
  - destruct (IH _ _ _ H) as (pre & post & -> & -> & Hv & Hpre).
    apply String.eqb_neq in E.
    exists (u :: pre), post; simpl; repeat split; auto; try lia.
    intros w [<-|Hw]; auto.
Qed.

Lemma validateField_run : forall id s,
  validateField qsa id s
  = match findValidator id 0 (validators s) with
    | None =>
        (Ok tt,
         setConsole
           (console s ++ [["No validator found for field with id:"; id]]) s)
    | Some (ei, v) => fieldRules qsa id ei v 0 (rules v) s
    end.
Proof.
  intros id s; unfold validateField, bind, reads, modify.
  now destruct (findValidator id 0 (validators s)) as [[ei v]|].
Qed.

(** The calls of [validateField]. *)
Lemma validateField_log : forall id s,
  exists cs,
    calls (snd (validateField qsa id s)) = calls s ++ cs /\
    gated (validators s) cs /\
    (forall ej rj res,
       In (ConditionCall ej rj (Ok false)) cs ->
       ~ In (MethodCall ej rj res) cs).
Proof.
  intros id s; rewrite validateField_run.
  destruct (findValidator id 0 (validators s)) as [[ei v]|] eqn:E.
  - destruct (fieldRules_log (rules v) id ei v 0 s) as (cs & Hc & B).
    exists cs; split; [assumption|].
    apply findValidator_some in E.
    destruct E as (pre & post & Hvs & -> & _ & _); simpl in *.
    split.
    + eapply gated_blocks; [eassumption|].
      intros j r Hj; unfold ruleAt; rewrite Hvs.
      rewrite nth_error_app2, Nat.sub_diag by lia. exact Hj.
    + intros ej rj res Hin Hm.
      pose proof (blocks_bounds _ _ _ _ B) as F; rewrite Forall_forall in F.
      destruct (F _ Hin) as (Hej & _); simpl in Hej; subst ej.
      eapply skipped_blocks; eassumption.
  - exists []; simpl; rewrite app_nil_r; repeat split.
    + apply gated_nil.
    + intros ej rj res [].
Qed.

End FieldFacts.

(* ================================================================= *)
(** ** Validators whose rules are all skipped, validators that fail *)

Lemma formRules_all_gated : forall rs ei v ri s,
  Forall (fun r => gatedOff r (document s)) rs ->
  formRules ei v ri rs s
  = (Ok tt, setCalls (calls s ++ skipCalls ei ri rs) s).
Proof.
  induction rs as [|r rs IH]; intros ei v ri s H; simpl.
  - rewrite app_nil_r; now destruct s.
  - inversion H as [|? ? Hr Hrs]; subst.
    unfold bind; rewrite (formRule_skip ei v ri r s Hr).
    rewrite IH by exact Hrs; simpl. now rewrite <- app_assoc.
Qed.

Lemma fieldRules_all_gated : forall qsa rs id ei v ri s,
  Forall (fun r => gatedOff r (document s)) rs ->
  fieldRules qsa id ei v ri rs s
  = (Ok tt, setCalls (calls s ++ skipCalls ei ri rs) s).
Proof.
  intros qsa; induction rs as [|r rs IH]; intros id ei v ri s H; simpl.
  - rewrite app_nil_r; now destruct s.
  - inversion H as [|? ? Hr Hrs]; subst.
    unfold bind; rewrite (fieldRule_skip qsa id ei v ri r s Hr).
    rewrite IH by exact Hrs; simpl. now rewrite <- app_assoc.
Qed.

Lemma skipCalls_no_method : forall ei ri rs ej rj res,
  ~ In (MethodCall ej rj res) (skipCalls ei ri rs).
Proof.
  intros ei ri rs; revert ri.
  induction rs as [|r rs IH]; intros ri ej rj res; simpl; [tauto|].
  intros [H|H]; [discriminate H | eapply IH; eassumption].
Qed.

(** A run of the outer loop over [pre ++ v :: post] that reaches [v],
    when [v] has a first failing rule [rk]. *)
Lemma formValidators_first_failure :
  forall pre v post i s es0 before rk after dk,
    errors s = Some es0 ->
    rules v = before ++ rk :: after ->
    fst (formValidators i pre s) = Ok tt ->
    noFailure (field v) (document (snd (formValidators i pre s))) before dk ->
    predicateFails rk (field v) dk ->
    exists es1 es3 cs1 cs2 cs3,
      errors (snd (formValidators i pre s)) = Some (es0 ++ es1) /\
      errors (snd (formValidators i (pre ++ v :: post) s))
      = Some (es0 ++ es1 ++ [mkError (fieldId v) (message rk)] ++ es3) /\
      calls (snd (formValidators i (pre ++ v :: post) s))
      = calls s ++ cs1 ++ cs2 ++ cs3 /\
      Subseq (map errorFieldId es1) (map fieldId pre) /\
      Subseq (map errorFieldId es3) (map fieldId post) /\
      Forall (fun c => callValidator c < i + List.length pre) cs1 /\
      Forall (fun c => callValidator c = i + List.length pre /\
                       callRule c <= List.length before) cs2 /\
      Forall (fun c => i + List.length pre < callValidator c) cs3.
Proof.
  intros pre v post i s es0 before rk after dk He Hr Hpre Hnf Hk.
  destruct (formValidators_split pre v post i s es0 He)
    as (es1 & es2 & es3 & cs1 & cs2 & cs3 & He1 & Hc1 & Hes & Hcs & Hs1 & Hs3
        & B1 & B3 & Hreach & _ & _).
  destruct (Hreach Hpre) as (He2 & Hc2).
  destruct (formRules_first_failure (field v) _ before dk Hnf
              (i + List.length pre) v 0 rk after
              (snd (formValidators i pre s)) (es0 ++ es1)
              eq_refl eq_refl He1 Hk)
    as (cs & Hrules & Bcs).
  rewrite <- Hr in Hrules; rewrite Hrules in He2, Hc2; simpl in He2, Hc2.
  injection He2 as He2; apply app_inv_head in He2; subst es2.
  rewrite Hc1 in Hc2; apply app_inv_head in Hc2; subst cs2.
  exists es1, es3, cs1, cs, cs3; repeat split; auto.
Qed.

Lemma formValidators_prefix_ok : forall pre rest i s,
  fst (formValidators i (pre ++ rest) s) = Ok tt ->
  fst (formValidators i pre s) = Ok tt.
Proof.
  intros pre rest i s; rewrite formValidators_app; unfold bind.
  destruct (formValidators i pre s) as [[[]|e] s1]; simpl; auto.
Qed.

Lemma validateForm_ok : forall s b s',
  validateForm s = (Ok b, s') ->
  fst (formValidators 0 (validators s) (setErrors (Some []) s)) = Ok tt /\
  s' = snd (formValidators 0 (validators s) (setErrors (Some []) s)) /\
  exists es, errors s' = Some es /\ b = Nat.eqb (List.length es) 0.
Proof.
  intros s b s' H; rewrite validateForm_run in H; cbv zeta in H.
  destruct (formValidators 0 (validators s) (setErrors (Some []) s))
    as [[[]|e] s1]; simpl in *; [|discriminate H].
  destruct (errors s1) as [es|] eqn:E; [|discriminate H].
  injection H as <- <-; repeat split; eauto.
Qed.

(** A pass that returns, seen from a validator with a first failing
    rule: one record for its field, nothing of it called past that rule. *)
Lemma validateForm_first_failure :
  forall s pre v post before rk after dk b s',
    validators s = pre ++ v :: post ->
    rules v = before ++ rk :: after ->
    (forall u, In u (pre ++ post) -> fieldId u <> fieldId v) ->
    noFailure (field v) (documentAt s pre) before dk ->
    predicateFails rk (field v) dk ->
    validateForm s = (Ok b, s') ->
    b = false /\
    exists es cs,
      errors s' = Some es /\
      errorsFor (fieldId v) es = [mkError (fieldId v) (message rk)] /\
      calls s' = calls s ++ cs /\
      forall c, In c cs -> callValidator c = List.length pre ->
                callRule c <= List.length before.
Proof.
  intros s pre v post before rk after dk b s' Hv Hr Huniq Hnf Hk Hrun.
  apply validateForm_ok in Hrun.
  destruct Hrun as (Hok & -> & es & Hes & ->); rewrite Hv in *.
  destruct (formValidators_first_failure pre v post 0
              (setErrors (Some []) s) [] before rk after dk
              eq_refl Hr (formValidators_prefix_ok _ _ _ _ Hok) Hnf Hk)
    as (es1 & es3 & cs1 & cs2 & cs3 & _ & He & Hc & Hs1 & Hs3 & B1 & B2 & B3).
  rewrite He in Hes; injection Hes as <-; simpl.
  split; [now destruct es1|].
  exists (es1 ++ mkError (fieldId v) (message rk) :: es3), (cs1 ++ cs2 ++ cs3).
  repeat split; auto.
  - rewrite errorsFor_app; simpl.
    unfold errorsFor in *; rewrite String.eqb_refl.
    rewrite (filter_others _ pre), (filter_others _ post); auto.
    + intros u Hu; apply Huniq, in_or_app; now right.
    + intros u Hu; apply Huniq, in_or_app; now left.
  - intros c Hin Hei.
    rewrite Forall_forall in B1, B2, B3; simpl in B1, B2, B3.
    apply in_app_or in Hin; destruct Hin as [Hin|Hin];
      [apply B1 in Hin; lia|].
    apply in_app_or in Hin; destruct Hin as [Hin|Hin];
      [apply B2 in Hin; lia | apply B3 in Hin; lia].
Qed.

(** *** Rules that read the value of the field only *)

Lemma creditCardSelected_same : forall d d',
  sameButClasses d d' -> creditCardSelected d = creditCardSelected d'.
Proof.
  intros d d' H; unfold creditCardSelected.
  now rewrite (getElementById_same d d' _ H), (fieldValue_same d d' _ H).
Qed.

Lemma ccNumRules_gated : forall d,
  creditCardSelected d = Ok false ->
  Forall (fun r => gatedOff r d) ccNumRules.
Proof.
  intros d H; repeat constructor; exists creditCardSelected; auto.
Qed.

(** Rules that pass on every document that differs from [d] in class
    lists only do not fail on a field [showValid] can run on. *)
Lemma noFailure_of_passing : forall fld rs d,
  presentable d fld ->
  (forall d', sameButClasses d d' ->
     Forall (fun r => conditionHolds r d' /\ method r d' fld = Ok true) rs) ->
  exists d', noFailure fld d rs d' /\ sameButClasses d d'.
Proof.
  intros fld; induction rs as [|r rs IH]; intros d Hp Hall.
  - exists d; split; [constructor | reflexivity].
  - pose proof (Hall d (sameButClasses_refl d)) as H0.
    inversion H0 as [|? ? (Hc & Hm) _]; subst.
    destruct (showValid_ok fld d Hp) as (d1 & Hs).
    pose proof (showValid_same _ _ _ _ Hs) as S1.
    destruct (IH d1 (presentable_same _ _ _ S1 Hp)) as (d' & Hnf & S2).
    + intros d2 S12.
      pose proof (Hall d2 (sameButClasses_trans _ _ _ S1 S12)) as H2.
      now inversion H2.
    + exists d'; split.
      * eapply noFailure_pass; eauto.
      * eapply sameButClasses_trans; eauto.
Qed.

(** A pass seen from a validator all of whose rules are held back by
    their conditions, on the page as it is and with other class lists:
    no record for its field, no predicate of it called. *)
Lemma validateForm_all_gated : forall s pre v post,
  validators s = pre ++ v :: post ->
  (forall u, In u (pre ++ post) -> fieldId u <> fieldId v) ->
  (forall d', sameButClasses (document s) d' ->
              Forall (fun r => gatedOff r d') (rules v)) ->
  exists es cs,
    errors (snd (validateForm s)) = Some es /\
    errorsFor (fieldId v) es = [] /\
    calls (snd (validateForm s)) = calls s ++ cs /\
    forall ri res, ~ In (MethodCall (List.length pre) ri res) cs.
Proof.
  intros s pre v post Hvs Hu Hg.
  set (s0 := setErrors (Some []) s).
  destruct (formValidators_split pre v post 0 s0 [] eq_refl)
    as (es1 & es2 & es3 & cs1 & cs2 & cs3 & He1 & Hc1 & Hes & Hcs & Hs1
        & Hs3 & B1 & B3 & Hreach & Hnot & _).
  simpl in He1, Hc1, Hes, Hcs, B1, B3, Hreach, Hnot.
  assert (Hcase : es2 = [] /\
            forall ri res, ~ In (MethodCall (List.length pre) ri res) cs2).
  { destruct (fst (formValidators 0 pre s0)) as [[]|err] eqn:E1.
    - destruct (Hreach eq_refl) as (He2 & Hc2).
      rewrite formRules_all_gated in He2, Hc2
        by apply Hg, (formValidators_document pre 0 s0).
      simpl in He2, Hc2.
      rewrite He1 in He2; injection He2 as He2.
      rewrite <- (app_nil_r es1) in He2 at 1.
      apply app_inv_head in He2; subst es2.
      rewrite Hc1 in Hc2; apply app_inv_head in Hc2; subst cs2.
      split; [reflexivity|]. intros ri res; apply skipCalls_no_method.
    - destruct Hnot as (-> & ->); [discriminate|].
      split; [reflexivity | intros ri res []]. }
  destruct Hcase as (-> & Hcs2).
  exists (es1 ++ es3), (cs1 ++ cs2 ++ cs3).
  assert (Herr : errors (snd (validateForm s)) = Some (es1 ++ es3) /\
                 calls (snd (validateForm s)) = calls s ++ cs1 ++ cs2 ++ cs3).
  { rewrite validateForm_run; cbv zeta; rewrite Hvs; fold s0.
    destruct (formValidators 0 (pre ++ v :: post) s0) as [[[]|err] s3];
      simpl in *; [rewrite Hes|]; auto. }
  destruct Herr as (Herr & Hcalls); repeat split; auto.
  - rewrite errorsFor_app; unfold errorsFor.
    rewrite (filter_others _ pre), (filter_others _ post); auto.
    + intros u Hin; apply Hu, in_or_app; now right.
    + intros u Hin; apply Hu, in_or_app; now left.
  - intros ri res Hin.
    rewrite Forall_forall in B1, B3.
    apply in_app_or in Hin; destruct Hin as [Hin|Hin];
      [apply B1 in Hin; simpl in Hin; lia|].
    apply in_app_or in Hin; destruct Hin as [Hin|Hin];
      [eapply Hcs2; eassumption | apply B3 in Hin; simpl in Hin; lia].
Qed.

(** *** When a pass returns *)

Lemma formRules_returns : forall rs ei v ri s es0,
  errors s = Some es0 ->
  presentable (document s) (field v) ->
  (forall d', sameButClasses (document s) d' ->
              Forall (fun r => returns r (field v) d') rs) ->
  fst (formRules ei v ri rs s) = Ok tt.
Proof.
  induction rs as [|r rs IH]; intros ei v ri s es0 He Hp Hall; simpl;
    [reflexivity|].
  pose proof (Hall _ (sameButClasses_refl _)) as H0.
  inversion H0 as [|? ? (Hc & b & Hm) _]; subst.
  assert (Hrest : forall s1, sameButClasses (document s) (document s1) ->
            forall d', sameButClasses (document s1) d' ->
                       Forall (fun r => returns r (field v) d') rs).
  { intros s1 S1 d' S2.
    pose proof (Hall d' (sameButClasses_trans _ _ _ S1 S2)) as H.
    now inversion H. }
  assert (Hm' : forall s1, document s1 = document s ->
            errors s1 = Some es0 ->
            fst (bind (bind (callMethod ei ri r (field v))
                        (fun ok => if negb ok then formOnFail v r
                                   else formOnPass v r))
                   (fun flow => match flow with
                                | Continue => formRules ei v (S ri) rs
                                | Break => ret tt
                                end) s1) = Ok tt).
  { intros s1 Hd He1; unfold bind at 1; rewrite methodStep_run; cbv zeta.
    rewrite Hd, Hm; destruct b.
    - rewrite formOnPass_run; simpl; rewrite Hd.
      destruct (showValid_ok _ _ Hp) as (d1 & Hs); rewrite Hs; simpl.
      pose proof (showValid_same _ _ _ _ Hs) as S1.
      eapply IH; simpl; eauto using presentable_same.
      apply (Hrest (setDocument d1 s1)); exact S1.
    - rewrite (formOnFail_run v r _ es0) by exact He1. reflexivity. }
  unfold bind at 1; rewrite formRule_body, ruleBody_run.
  destruct (condition r) as [c|] eqn:Ec.
  - destruct (Hc c eq_refl) as (bc & Hbc); rewrite Hbc; destruct bc; cbv zeta.
    + apply (Hm' (setCalls _ s)); auto.
    + eapply IH; simpl; eauto. apply Hrest; reflexivity.
  - apply (Hm' s); auto.
Qed.

Lemma wellBehaved_same : forall vs d d',
  sameButClasses d d' -> wellBehaved vs d -> wellBehaved vs d'.
Proof.
  intros vs d d' S H; unfold wellBehaved in *.
  eapply Forall_impl; [|exact H].
  intros v (Hp & Hall); split; [eauto using presentable_same|].
  intros d2 S2; apply Hall; eauto using sameButClasses_trans.
Qed.

Lemma formValidators_returns : forall vs i s es0,
  errors s = Some es0 ->
  wellBehaved vs (document s) ->
  fst (formValidators i vs s) = Ok tt.
Proof.
  induction vs as [|v vs IH]; intros i s es0 He Hw; simpl; [reflexivity|].
  inversion Hw as [|? ? (Hp & Hall) Hrest]; subst.
  pose proof (formRules_returns (rules v) i v 0 s es0 He Hp Hall) as H1.
  destruct (formRules_errors (rules v) i v 0 s es0 He)
    as (_ & es & _ & He1 & _).
  pose proof (formRules_document (rules v) i v 0 s) as S1.
  unfold bind.
  destruct (formRules i v 0 (rules v) s) as [r1 s1]; simpl in *; subst r1.
  eapply IH; [exact He1|]. eapply wellBehaved_same; eassumption.
Qed.

Lemma validateForm_returns : forall s,
  wellBehaved (validators s) (document s) ->
  exists b, validateForm s = (Ok b, snd (validateForm s)).
Proof.
  intros s Hw; rewrite validateForm_run; cbv zeta.
  pose proof (formValidators_returns (validators s) 0
                (setErrors (Some []) s) [] eq_refl Hw) as H.
  destruct (formValidators_errors (validators s) 0
              (setErrors (Some []) s) [] eq_refl) as (_ & es & _ & He & _).
  destruct (formValidators 0 (validators s) (setErrors (Some []) s))
    as [r1 s1]; simpl in *; subst r1; rewrite He; simpl.
  eexists; reflexivity.
Qed.

(* ================================================================= *)
(** ** [validateField] on the first validator registered for a field *)

Section FirstMatch.

Variable qsa : Document -> option handle -> string -> Result (list handle).

Lemma fieldOnFail_doc : forall id r s,
  fieldOnFail qsa id r s
  = (match fst (bind (removeHint qsa id) (fun _ => showHint id r)
                     (document s)) with
     | Ok _ => Ok Break
     | Throw e => Throw e
     end,
     setDocument (snd (bind (removeHint qsa id) (fun _ => showHint id r)
                            (document s))) s).
Proof.
  intros id r s; unfold fieldOnFail, bind; rewrite onDocument_run.
  destruct (removeHint qsa id (document s)) as [[[]|e] d1]; simpl;
    [|reflexivity].
  rewrite onDocument_run; simpl.
  destruct (showHint id r d1) as [[[]|e] d2]; reflexivity.
Qed.

Lemma fieldOnPass_doc : forall id v r s,
  fieldOnPass qsa id v r s
  = (match fst (bind (showValid (field v)) (fun _ => removeHint qsa id)
                     (document s)) with
     | Ok _ => Ok Continue
     | Throw e => Throw e
     end,
     setDocument (snd (bind (showValid (field v))
                            (fun _ => removeHint qsa id) (document s))) s).
Proof.
  intros id v r s; unfold fieldOnPass, bind; rewrite onDocument_run.
  destruct (showValid (field v) (document s)) as [[[]|e] d1]; simpl;
    [|reflexivity].
  rewrite onDocument_run; simpl.
  destruct (removeHint qsa id d1) as [[[]|e] d2]; reflexivity.
Qed.

(** The loop of [validateField] up to the first rule let through. *)
Lemma fieldRules_reach : forall before id ei v ri rk after s,
  Forall (fun r => gatedOff r (document s)) before ->
  conditionHolds rk (document s) ->
  fieldRules qsa id ei v ri (before ++ rk :: after) s
  = bind (bind (callMethod ei (ri + List.length before) rk (field v))
               (fun ok => if negb ok then fieldOnFail qsa id rk
                          else fieldOnPass qsa id v rk))
         (fun flow =>
            match flow with
            | Continue =>
                fieldRules qsa id ei v (S (ri + List.length before)) after
            | Break => ret tt
            end)
         (setCalls (calls s ++ skipCalls ei ri before
                    ++ conditionCalls ei (ri + List.length before) rk) s).
Proof.
  induction before as [|r before IH]; intros id ei v ri rk after s Hg Hc.
  - cbn [app List.length skipCalls]; rewrite Nat.add_0_r.
    cbn [fieldRules]; unfold bind at 1.
    rewrite fieldRule_body, conditionHolds_run by exact Hc.
    reflexivity.
  - inversion Hg as [|? ? Hr Hrs]; subst.
    cbn [app fieldRules]; unfold bind at 1.
    rewrite (fieldRule_skip qsa id ei v ri r s Hr).
    rewrite IH by assumption.
    cbn [calls setCalls List.length skipCalls].
    replace (S ri + List.length before) with (ri + S (List.length before))
      by lia.
    rewrite <- app_assoc; reflexivity.
Qed.

(** The first rule let through fails. *)
Lemma validateField_fails : forall id s pre v post before rk after,
  validators s = pre ++ v :: post ->
  (forall u, In u pre -> fieldId u <> id) ->
  fieldId v = id ->
  rules v = before ++ rk :: after ->
  Forall (fun r => gatedOff r (document s)) before ->
  predicateFails rk (field v) (document s) ->
  validateField qsa id s
  = (match fst (bind (removeHint qsa id) (fun _ => showHint id rk)
                     (document s)) with
     | Ok _ => Ok tt
     | Throw e => Throw e
     end,
     setDocument
       (snd (bind (removeHint qsa id) (fun _ => showHint id rk)
                  (document s)))
       (setCalls (calls s ++ skipCalls (List.length pre) 0 before
                  ++ conditionCalls (List.length pre) (List.length before) rk
                  ++ [MethodCall (List.length pre) (List.length before)
                                 (Ok false)]) s)).
Proof.
  intros id s pre v post before rk after Hvs Hpre Hid Hr Hg (Hc & Hm).
  rewrite validateField_run, Hvs.
  rewrite (findValidator_first id pre v post 0 Hpre Hid); simpl.
  rewrite Hr, fieldRules_reach by assumption.
  unfold bind at 1; rewrite methodStep_run; cbv zeta.
  cbn [document setCalls]; rewrite Hm.
  rewrite fieldOnFail_doc; cbn [document setCalls calls].
  rewrite <- !app_assoc.
  destruct (bind (removeHint qsa id) (fun _ => showHint id rk) (document s))
    as [[[]|e] d1]; reflexivity.
Qed.

End FirstMatch.

(* ================================================================= *)
(** ** The properties of the evaluator *)

(** C1 (short-circuit).  Take a validator [v], the only one registered for
    its field, with rules [before ++ rk :: after], where no rule of
    [before] fails (each is skipped on its condition, or passes) and [rk]
    is let through by its condition and its predicate fails.  Then a
    pass of [validateForm] that returns has exactly one error record for
    that field, carrying the message of [rk], and the pass calls the
    predicate of no rule of [v] after [rk]. *)
Theorem short_circuit :
  forall s pre v post before rk after dk b s',
    validators s = pre ++ v :: post ->
    rules v = before ++ rk :: after ->
    (forall u, In u (pre ++ post) -> fieldId u <> fieldId v) ->
    noFailure (field v) (documentAt s pre) before dk ->
    predicateFails rk (field v) dk ->
    validateForm s = (Ok b, s') ->
    exists es cs,
      errors s' = Some es /\
      errorsFor (fieldId v) es = [mkError (fieldId v) (message rk)] /\
      calls s' = calls s ++ cs /\
      forall j res, List.length before < j ->
                    ~ In (MethodCall (List.length pre) j res) cs.
Proof.
  intros s pre v post before rk after dk b s' Hv Hr Hu Hnf Hk Hrun.
  destruct (validateForm_first_failure _ _ _ _ _ _ _ _ _ _
              Hv Hr Hu Hnf Hk Hrun) as (_ & es & cs & He & Hf & Hc & Hb).
  exists es, cs; repeat split; auto.
  intros j res Hj Hin.
  specialize (Hb _ Hin eq_refl); simpl in Hb; lia.
Qed.

(** C2 (condition gating).  In both loops a rule whose condition returns
    false is passed over: its predicate is not called, nothing is pushed
    or shown, and the loop goes on with the next rule.  Over a whole pass
    of [validateForm] or [validateField], a predicate is called only for
    a rule without a condition or right after the condition of that rule
    returned true, and never for a rule whose condition returned false in
    that pass. *)
Theorem condition_gating :
  forall qsa : Document -> option handle -> string -> Result (list handle),
    (forall ei v ri r rest s,
       gatedOff r (document s) ->
       formRules ei v ri (r :: rest) s
       = formRules ei v (S ri) rest
           (setCalls (calls s ++ [ConditionCall ei ri (Ok false)]) s)) /\
    (forall id ei v ri r rest s,
       gatedOff r (document s) ->
       fieldRules qsa id ei v ri (r :: rest) s
       = fieldRules qsa id ei v (S ri) rest
           (setCalls (calls s ++ [ConditionCall ei ri (Ok false)]) s)) /\
    (forall s, exists cs,
       calls (snd (validateForm s)) = calls s ++ cs /\
       gated (validators s) cs /\
       forall ei ri res,
         In (ConditionCall ei ri (Ok false)) cs ->
         ~ In (MethodCall ei ri res) cs) /\
    (forall id s, exists cs,
       calls (snd (validateField qsa id s)) = calls s ++ cs /\
       gated (validators s) cs /\
       forall ei ri res,
         In (ConditionCall ei ri (Ok false)) cs ->
         ~ In (MethodCall ei ri res) cs).
Proof.
  intros qsa; repeat split.
  - intros ei v ri r rest s Hg; simpl; unfold bind.
    now rewrite (formRule_skip ei v ri r s Hg).
  - intros id ei v ri r rest s Hg; simpl; unfold bind.
    now rewrite (fieldRule_skip qsa id ei v ri r s Hg).
  - intros s.
    destruct (validateForm_failures s) as (cs & Hc & _ & L).
    exists cs; repeat split; [assumption| |].
    + eapply gated_passLog; [eassumption|]. intros j v Hj; exact Hj.
    + eapply skipped_passLog; eassumption.
  - intros id s; apply validateField_log.
Qed.

(** C3 (result shape).  When [validateForm] returns, it returns true
    exactly when the error list it built is empty, and the fields of the
    error records appear in the order in which their validators were
    registered: they are the registered identifiers with some left out.
    And it does return when no rule throws and every validator is bound
    to a field of the page. *)
Theorem result_shape :
  (forall s b s',
     validateForm s = (Ok b, s') ->
     exists es,
       errors s' = Some es /\
       (b = true <-> es = []) /\
       Subseq (map errorFieldId es) (map fieldId (validators s))) /\
  (forall s,
     wellBehaved (validators s) (document s) ->
     exists b, validateForm s = (Ok b, snd (validateForm s))).
Proof.
  split; [|apply validateForm_returns].
  intros s b s' H; apply validateForm_ok in H.
  destruct H as (_ & -> & es & Hes & ->).
  destruct (formValidators_errors (validators s) 0 (setErrors (Some []) s) []
              eq_refl) as (cs & es' & _ & He & _ & Hs).
  rewrite He in Hes; injection Hes as <-; simpl.
  exists es'; repeat split; auto.
  - destruct es'; [reflexivity | discriminate].
  - now intros ->.
Qed.

(** C4 (a field whose rules are all skipped).  When every rule of a
    validator is held back by its condition, either loop runs to its end
    having called conditions only: no record is pushed and the document,
    so the presentation of the field, is left as it was.  For the rules
    of [cc-num], on a page whose payment select holds something else than
    [credit-card]: all three conditions return false, whatever the field
    holds; a pass of [validateForm] has no record for [cc-num] and calls no
    predicate of it; a registry with that validator alone is valid; and
    [validateField] leaves the page as it was. *)
Theorem skipped_field_is_valid :
  forall qsa : Document -> option handle -> string -> Result (list handle),
    (forall ei v s,
       Forall (fun r => gatedOff r (document s)) (rules v) ->
       formRules ei v 0 (rules v) s
       = (Ok tt, setCalls (calls s ++ skipCalls ei 0 (rules v)) s) /\
       fieldRules qsa (fieldId v) ei v 0 (rules v) s
       = (Ok tt, setCalls (calls s ++ skipCalls ei 0 (rules v)) s)) /\
    (forall s p e pre fld post,
       getElementById (document s) "payment" = Some p ->
       deref (document s) p = Some e ->
       value e <> Some "credit-card" ->
       validators s = pre ++ mkValidator "cc-num" ccNumRules fld :: post ->
       (forall u, In u (pre ++ post) -> fieldId u <> "cc-num") ->
       Forall (fun r => gatedOff r (document s)) ccNumRules /\
       (exists es cs,
          errors (snd (validateForm s)) = Some es /\
          errorsFor "cc-num" es = [] /\
          calls (snd (validateForm s)) = calls s ++ cs /\
          forall ri res, ~ In (MethodCall (List.length pre) ri res) cs) /\
       (pre = [] -> post = [] -> fst (validateForm s) = Ok true) /\
       validateField qsa "cc-num" s
       = (Ok tt,
          setCalls (calls s ++ skipCalls (List.length pre) 0 ccNumRules) s)).
Proof.
  intros qsa; split.
  - intros ei v s H; split;
      [now apply formRules_all_gated | now apply fieldRules_all_gated].
  - intros s p e pre fld post Hp He Hv Hvs Hu.
    assert (Hsel : creditCardSelected (document s) = Ok false).
    { unfold creditCardSelected; rewrite Hp; simpl; rewrite He; simpl.
      destruct (value e) as [m|]; [|reflexivity].
      destruct (String.eqb m "credit-card") eqn:E; [|reflexivity].
      apply String.eqb_eq in E; subst m; now elim Hv. }
    assert (Hstable : forall d', sameButClasses (document s) d' ->
                        Forall (fun r => gatedOff r d') ccNumRules).
    { intros d' S1; apply ccNumRules_gated.
      now rewrite <- (creditCardSelected_same _ _ S1). }
    repeat split.
    + now apply ccNumRules_gated.
    + apply (validateForm_all_gated s pre _ post Hvs Hu Hstable).
    + intros -> ->.
      rewrite validateForm_run; cbv zeta; rewrite Hvs.
      cbn [formValidators app rules]; unfold bind.
      rewrite formRules_all_gated by now apply ccNumRules_gated.
      reflexivity.
    + rewrite validateField_run, Hvs.
      rewrite (findValidator_first "cc-num" pre _ post 0);
        [|intros u Hin; apply Hu, in_or_app; now left | reflexivity].
      cbn [rules Nat.add]; apply fieldRules_all_gated, ccNumRules_gated, Hsel.
Qed.

(** C5 (unknown field).  When no validator is registered for the
    identifier, [validateField] returns without throwing, having written
    one warning to the console and done nothing else: [this.errors], the
    document, so the state and the feedback of every field, the registry
    and the call log are as they were; no rule was evaluated. *)
Theorem unknown_field_safe :
  forall (qsa : Document -> option handle -> string -> Result (list handle))
         id s,
    (forall v, In v (validators s) -> fieldId v <> id) ->
    validateField qsa id s
    = (Ok tt,
       setConsole
         (console s ++ [["No validator found for field with id:"; id]]) s).
Proof.
  intros qsa id s H; rewrite validateField_run.
  apply (findValidator_none id (validators s) 0) in H. now rewrite H.
Qed.

Lemma emailRules_before_dot : forall fld d,
  fieldValue d fld = Ok (Some "a.b@@c.com") ->
  Forall (fun r => conditionHolds r d /\ method r d fld = Ok true)
         (firstn 4 emailRules) /\
  predicateFails (nth 4 emailRules (mkRule None (fun _ _ => Ok true)
                                      EmptyString)) fld d.
Proof.
  intros fld d H; split.
  - repeat constructor; simpl;
      unfold valueLength, valueString; rewrite H; reflexivity.
  - split; [exact I|]. simpl; unfold valueString; rewrite H; reflexivity.
Qed.

(** C6, as the script has it (Scenario C).  For the email field holding
    [a.b@@c.com], a pass of [validateForm] that returns has exactly one
    error record for that field, and its message is the one of the rule
    "the at symbol must be before the dot symbol": the first dot of the
    value comes before its first at.  The rule "the at symbol should only
    appear once" and the format rule after it are not reached. *)
Theorem email_double_at :
  forall s pre fld post b s',
    validators s = pre ++ mkValidator "email" emailRules fld :: post ->
    (forall u, In u (pre ++ post) -> fieldId u <> "email") ->
    fieldValue (document s) fld = Ok (Some "a.b@@c.com") ->
    presentable (document s) fld ->
    validateForm s = (Ok b, s') ->
    exists es cs,
      errors s' = Some es /\
      errorsFor "email" es
      = [mkError "email" "The 'at' symbol must be before the 'dot' symbol."] /\
      calls s' = calls s ++ cs /\
      forall j res, 4 < j -> ~ In (MethodCall (List.length pre) j res) cs.
Proof.
  intros s pre fld post b s' Hvs Hu Hval Hp Hrun.
  pose proof (formValidators_document pre 0 (setErrors (Some []) s)) as S1.
  change (sameButClasses (document s) (documentAt s pre)) in S1.
  destruct (noFailure_of_passing fld (firstn 4 emailRules)
              (documentAt s pre) (presentable_same _ _ _ S1 Hp))
    as (dk & Hnf & Sk).
  { intros d' S2; apply emailRules_before_dot.
    now rewrite <- (fieldValue_same _ _ fld (sameButClasses_trans _ _ _ S1 S2)). }
  assert (Hk : fieldValue dk fld = Ok (Some "a.b@@c.com"))
    by now rewrite <- (fieldValue_same _ _ fld (sameButClasses_trans _ _ _ S1 Sk)).
  destruct (validateForm_first_failure s pre
              (mkValidator "email" emailRules fld) post
              (firstn 4 emailRules) _ (skipn 5 emailRules) dk b s'
              Hvs eq_refl Hu Hnf (proj2 (emailRules_before_dot fld dk Hk)) Hrun)
    as (_ & es & cs & He & Hf & Hc & Hb).
  exists es, cs; repeat split; auto.
  intros j res Hj Hin.
  specialize (Hb _ Hin eq_refl); simpl in Hb; lia.
Qed.

(** C7 (registry).  [addValidator] never throws and always appends one
    validator with the identifier and the rules it was given, whatever is
    registered already and also for an empty list of rules.  After two
    registrations of an identifier that was not registered, the registry
    holds two validators for it and the lookup of [validateField] finds
    the first.  The lookup tells an identifier that is not registered,
    for which it finds nothing, from one registered with no rules, for
    which it finds the validator. *)
Theorem registry_semantics :
  (forall id rs s,
     addValidator id rs s
     = (Ok tt,
        setValidators
          (validators s
           ++ [mkValidator id rs (formElements (document s) (form s) id)])
          s)) /\
  (forall id rs1 rs2 s,
     (forall v, In v (validators s) -> fieldId v <> id) ->
     let s2 := snd (addValidator id rs2 (snd (addValidator id rs1 s))) in
     List.length (validators s2) = 2 + List.length (validators s) /\
     List.length (filter (fun v => String.eqb (fieldId v) id) (validators s2))
     = 2 /\
     exists fld,
       findValidator id 0 (validators s2)
       = Some (List.length (validators s), mkValidator id rs1 fld)) /\
  (forall id s,
     (forall v, In v (validators s) -> fieldId v <> id) ->
     findValidator id 0 (validators s) = None /\
     exists fld,
       findValidator id 0 (validators (snd (addValidator id [] s)))
       = Some (List.length (validators s), mkValidator id [] fld)).
Proof.
  split; [reflexivity | split].
  - intros id rs1 rs2 s H; simpl; split; [|split].
    + rewrite !length_app; simpl; lia.
    + rewrite !filter_app; simpl; rewrite String.eqb_refl.
      assert (E : filter (fun v => String.eqb (fieldId v) id) (validators s)
                  = []).
      { induction (validators s) as [|u l IH]; simpl; [reflexivity|].
        destruct (String.eqb (fieldId u) id) eqn:Eu.
        - apply String.eqb_eq in Eu. elim (H u); simpl; auto.
        - apply IH; intros w Hw; apply H; simpl; auto. }
      now rewrite E.
    + exists (formElements (document s) (form s) id).
      rewrite <- app_assoc; simpl.
      now rewrite (findValidator_first id (validators s)
                     (mkValidator id rs1 _) _ 0 H eq_refl).
  - intros id s H; split; [now apply findValidator_none|]; simpl.
    exists (formElements (document s) (form s) id).
    now rewrite (findValidator_first id (validators s)
                   (mkValidator id [] _) _ 0 H eq_refl).
Qed.

(** C8 (supersession).  Run [validateForm], let the page change in any
    way, run it again.  The second pass returns what a first pass of a
    new instance with the same registry returns on the new page, with the
    same error list, and every record of that list comes from a predicate
    that failed in the second pass: nothing of the list of the first pass
    is left. *)
Theorem supersession :
  forall s d2,
    let s2 := setDocument d2 (snd (validateForm s)) in
    let fresh := mkState (form s) (validators s) None d2 [] [] in
    fst (validateForm s2) = fst (validateForm fresh) /\
    errors (snd (validateForm s2)) = errors (snd (validateForm fresh)) /\
    exists cs,
      calls (snd (validateForm s2)) = calls s2 ++ cs /\
      errors (snd (validateForm s2)) = Some (failures (validators s) cs).
Proof.
  intros s d2 s2 fresh.
  assert (Hv : validators s2 = validators s)
    by apply validateForm_validators.
  destruct (validateForm_alike s2 fresh Hv eq_refl) as (Hf & He & _).
  repeat split; auto.
  destruct (validateForm_failures s2) as (cs & Hc & Hes & _).
  exists cs; split; [assumption|]. now rewrite <- Hv.
Qed.

(** C9 (the registry is not written).  Whatever the registry and the
    page, and whether the pass returns or throws, the list of validators
    after [validateForm] is the list before it, so every validator has
    the identifier, the rules and the field reference it had; the form
    the instance is bound to is the same too. *)
Theorem registry_unchanged :
  forall s,
    validators (snd (validateForm s)) = validators s /\
    form (snd (validateForm s)) = form s.
Proof.
  intros s; split; [apply validateForm_validators|].
  rewrite validateForm_run; cbv zeta.
  pose proof (formValidators_keeps _ form
                (fun _ _ => eq_refl) (fun _ _ => eq_refl)
                (fun _ _ _ => eq_refl)
                (validators s) 0 (setErrors (Some []) s)) as H.
  destruct (formValidators 0 (validators s) (setErrors (Some []) s))
    as [[[]|e] s1]; simpl in *; [destruct (errors s1)|]; exact H.
Qed.

(** C10 (an identifier registered twice).  [validateForm] runs every
    validator of the registry, by position: when two validators [v1] and
    [v2] are registered for one field, in that order, and each has a
    first failing rule, a pass that returns has two error records for
    that field, the one of [v1] and then the one of [v2].
    [validateField] runs the first validator registered for the
    identifier and no other.  With [v] the first validator of the
    registry whose field is [id], at position [length pre]: the call is
    the loop over the rules of [v], numbered by that position; every
    call it logs is a call of a rule of [v] at that position, so no rule
    of a validator registered later is called; when the first rule of
    [v] let through fails, the call logs that rule as failed and leaves
    the document as [removeHint] and then [showHint] with that rule's
    message leave it.  What is registered after [v] changes neither what
    the call returns nor the state it leaves. *)
Theorem duplicate_registration :
  forall qsa : Document -> option handle -> string -> Result (list handle),
    (forall s pre v1 mid v2 post before1 r1 after1 d1 before2 r2 after2 d2
            b s',
       validators s = pre ++ v1 :: mid ++ v2 :: post ->
       fieldId v1 = fieldId v2 ->
       (forall u, In u (pre ++ mid ++ post) -> fieldId u <> fieldId v1) ->
       rules v1 = before1 ++ r1 :: after1 ->
       noFailure (field v1) (documentAt s pre) before1 d1 ->
       predicateFails r1 (field v1) d1 ->
       rules v2 = before2 ++ r2 :: after2 ->
       noFailure (field v2) (documentAt s (pre ++ v1 :: mid)) before2 d2 ->
       predicateFails r2 (field v2) d2 ->
       validateForm s = (Ok b, s') ->
       exists es,
         errors s' = Some es /\
         errorsFor (fieldId v1) es
         = [mkError (fieldId v1) (message r1);
            mkError (fieldId v1) (message r2)]) /\
    (forall id s pre v post,
       validators s = pre ++ v :: post ->
       (forall u, In u pre -> fieldId u <> id) ->
       fieldId v = id ->
       validateField qsa id s
       = fieldRules qsa id (List.length pre) v 0 (rules v) s /\
       (exists cs,
          calls (snd (validateField qsa id s)) = calls s ++ cs /\
          blocks (List.length pre) 0 (rules v) cs /\
          Forall (fun c => callValidator c = List.length pre) cs) /\
       (forall before rk after,
          rules v = before ++ rk :: after ->
          Forall (fun r => gatedOff r (document s)) before ->
          predicateFails rk (field v) (document s) ->
          validateField qsa id s
          = (match fst (bind (removeHint qsa id) (fun _ => showHint id rk)
                             (document s)) with
             | Ok _ => Ok tt
             | Throw e => Throw e
             end,
             setDocument
               (snd (bind (removeHint qsa id) (fun _ => showHint id rk)
                          (document s)))
               (setCalls
                  (calls s ++ skipCalls (List.length pre) 0 before
                   ++ conditionCalls (List.length pre) (List.length before) rk
                   ++ [MethodCall (List.length pre) (List.length before)
                                  (Ok false)]) s)))) /\
    (forall id s pre v post post',
       (forall u, In u pre -> fieldId u <> id) ->
       fieldId v = id ->
       validateField qsa id (setValidators (pre ++ v :: post) s)
       = (fst (validateField qsa id (setValidators (pre ++ v :: post') s)),
          setValidators (pre ++ v :: post)
            (snd (validateField qsa id (setValidators (pre ++ v :: post') s))))).
Proof.
  intros qsa; split; [|split].
  - intros s pre v1 mid v2 post before1 r1 after1 d1 before2 r2 after2 d2
           b s' Hvs Hid Hu Hr1 Hn1 Hk1 Hr2 Hn2 Hk2 Hrun.
    apply validateForm_ok in Hrun.
    destruct Hrun as (Hok & -> & es & Hes & _).
    assert (Hvs' : validators s = (pre ++ v1 :: mid) ++ v2 :: post)
      by now rewrite Hvs, <- app_assoc.
    rewrite Hvs' in Hok, Hes |- *.
    set (s0 := setErrors (Some []) s) in *.
    pose proof (formValidators_prefix_ok _ _ _ _ Hok) as Hok1.
    destruct (formValidators_first_failure (pre ++ v1 :: mid) v2 post 0 s0 []
                before2 r2 after2 d2 eq_refl Hr2 Hok1 Hn2 Hk2)
      as (esA & es3 & _ & _ & _ & HeA & He & _ & _ & Hs3 & _).
    destruct (formValidators_first_failure pre v1 mid 0 s0 []
                before1 r1 after1 d1 eq_refl Hr1
                (formValidators_prefix_ok _ _ _ _ Hok1) Hn1 Hk1)
      as (es1 & esm & _ & _ & _ & _ & HeB & _ & Hs1 & Hsm & _).
    rewrite HeB in HeA; injection HeA as <-.
    clear Hes; rewrite He.
    eexists; split; [reflexivity|]; simpl.
    rewrite !errorsFor_app; simpl.
    unfold errorsFor; rewrite <- Hid, !String.eqb_refl.
    rewrite (filter_others _ pre), (filter_others _ mid),
            (filter_others _ post); auto.
    + intros u Hin; apply Hu; repeat (apply in_or_app; right); assumption.
    + intros u Hin; apply Hu.
      apply in_or_app; right; apply in_or_app; now left.
    + intros u Hin; apply Hu, in_or_app; now left.
  - intros id s pre v post Hvs Hpre Hv.
    assert (Hrun : validateField qsa id s
                   = fieldRules qsa id (List.length pre) v 0 (rules v) s).
    { rewrite validateField_run, Hvs.
      now rewrite (findValidator_first id pre v post 0 Hpre Hv). }
    split; [exact Hrun|]; split.
    + rewrite Hrun.
      destruct (fieldRules_log qsa (rules v) id (List.length pre) v 0 s)
        as (cs & Hc & B).
      exists cs; split; [exact Hc|]; split; [exact B|].
      eapply Forall_impl; [|apply (blocks_bounds _ _ _ _ B)].
      now intros c (Hc1 & _).
    + intros before rk after Hr Hg Hk.
      exact (validateField_fails qsa id s pre v post before rk after
               Hvs Hpre Hv Hr Hg Hk).
  - intros id s pre v post post' Hpre Hv.
    rewrite !validateField_run; simpl.
    rewrite !(findValidator_first id pre v _ 0 Hpre Hv).
    change (setValidators (pre ++ v :: post) s)
      with (setValidators (pre ++ v :: post)
              (setValidators (pre ++ v :: post') s)) at 1.
    rewrite fieldRules_setValidators. reflexivity.
Qed.

(* ================================================================= *)
(** ** The properties on the registration form *)

(** Two ways to check a hypothesis by evaluation without printing the
    rules of a state: the outcome of a run, and the identifiers of a
    list of validators. *)
Lemma run_outcome : forall (A : Type) (m : M A) (s : State) (a : A),
  fst (m s) = Ok a -> m s = (Ok a, snd (m s)).
Proof. intros A m s a H; destruct (m s); simpl in *; now subst. Qed.

Lemma other_ids : forall id vs,
  forallb (fun u => negb (String.eqb (fieldId u) id)) vs = true ->
  forall u, In u vs -> fieldId u <> id.
Proof.
  intros id vs H u Hin; rewrite forallb_forall in H.
  specialize (H u Hin); apply Bool.negb_true_iff in H.
  now apply String.eqb_neq.
Qed.

(** The validators of [name] and [email] on the submitted form make a
    registry on which a pass returns. *)
Example name_email_returns :
  let s := setValidators [mkValidator "name" nameRules (Some 3);
                          mkValidator "email" emailRules (Some 5)]
                         Page.submitted in
  exists b, validateForm s = (Ok b, snd (validateForm s)).
Proof.
  apply validateForm_returns.
  assert (Hval : forall d' h v,
            fieldValue (document Page.submitted) (Some h) = Ok (Some v) ->
            sameButClasses (document Page.submitted) d' ->
            fieldValue d' (Some h) = Ok (Some v)).
  { intros d' h v H S1. now rewrite <- (fieldValue_same _ _ _ S1). }
  constructor; [split | constructor; [split | constructor]].
  - exists 3, (Page.node "INPUT" "name" "user-name" "text" (Some "Al") false
                         (Some 2)).
    split; [reflexivity | split; [reflexivity|]].
    intros _; exists 2, (Page.node "LABEL" EmptyString EmptyString
                                   EmptyString None false (Some 1)).
    split; reflexivity.
  - intros d' S1.
    pose proof (Hval d' 3 "Al" eq_refl S1) as H.
    cbn [rules field]; unfold nameRules, handle in *.
    repeat (constructor;
            [split; [intros c Hc; discriminate Hc
                    |cbv beta iota delta [method valueLength valueTest];
                     rewrite H; eexists; reflexivity]|]).
    constructor.
  - exists 5, (Page.node "INPUT" "email" "user-email" "email"
                         (Some "a.b@@c.com") false (Some 4)).
    split; [reflexivity | split; [reflexivity|]].
    intros _; exists 4, (Page.node "LABEL" EmptyString EmptyString
                                   EmptyString None false (Some 1)).
    split; reflexivity.
  - intros d' S1.
    pose proof (Hval d' 5 "a.b@@c.com" eq_refl S1) as H.
    cbn [rules field]; unfold emailRules, handle in *.
    repeat (constructor;
            [split; [intros c Hc; discriminate Hc
                    |cbv beta iota
                         delta [method valueLength valueString valueTest];
                     rewrite H; eexists; reflexivity]|]).
    constructor.
Qed.

(** C1 on the submitted form: the name [Al] passes "is required" and
    fails "at least 3 characters"; the pattern rule is not called. *)
Lemma short_circuit_witness :
  exists es cs,
    errors (snd (validateForm Page.submitted)) = Some es /\
    errorsFor "name" es
    = [mkError "name" "Name must be at least 3 characters long"] /\
    calls (snd (validateForm Page.submitted))
    = calls Page.submitted ++ cs /\
    forall j res, 1 < j -> ~ In (MethodCall 0 j res) cs.
Proof.
  apply (short_circuit Page.submitted []
           (mkValidator "name" nameRules (Some 3))
           (tl (validators Page.submitted))
           (firstn 1 nameRules)
           (nth 1 nameRules (mkRule None (fun _ _ => Ok true) EmptyString))
           (skipn 2 nameRules)
           (snd (showValid (Some 3) (document Page.submitted)))
           false (snd (validateForm Page.submitted))).
  - reflexivity.
  - reflexivity.
  - apply other_ids; vm_compute; reflexivity.
  - eapply noFailure_pass;
      [exact I | reflexivity | reflexivity | apply noFailure_nil].
  - split; [exact I | reflexivity].
  - apply run_outcome; vm_compute; reflexivity.
Defined.

(** C2 on the submitted form: payment is by PayPal, so the first rule of
    [cc-num] is passed over. *)
Lemma condition_gating_witness :
  formRules 3 (mkValidator "cc-num" ccNumRules (Some 12)) 0 ccNumRules
    Page.submitted
  = formRules 3 (mkValidator "cc-num" ccNumRules (Some 12)) 1
      (tl ccNumRules)
      (setCalls (calls Page.submitted ++ [ConditionCall 3 0 (Ok false)])
                Page.submitted).
Proof.
  apply (proj1 (condition_gating Page.selectAll) 3
           (mkValidator "cc-num" ccNumRules (Some 12)) 0
           (hd (mkRule None (fun _ _ => Ok true) EmptyString) ccNumRules)
           (tl ccNumRules) Page.submitted).
  exists creditCardSelected; split; reflexivity.
Defined.

(** C3 on the submitted form: three records, for [name], [email] and
    [activities], in that order, and the form is not valid. *)
Lemma result_shape_witness :
  exists es,
    errors (snd (validateForm Page.submitted)) = Some es /\
    (false = true <-> es = []) /\
    Subseq (map errorFieldId es) (map fieldId (validators Page.submitted)).
Proof.
  apply (proj1 result_shape Page.submitted false
           (snd (validateForm Page.submitted))).
  apply run_outcome; vm_compute; reflexivity.
Defined.

Example submitted_errors :
  validateForm Page.submitted
  = (Ok false, snd (validateForm Page.submitted)) /\
  map errorFieldId
      (match errors (snd (validateForm Page.submitted)) with
       | Some es => es
       | None => []
       end)
  = ["name"; "email"; "activities"].
Proof.
  split; [apply run_outcome|]; vm_compute; reflexivity.
Qed.

(** C4 on the submitted form: payment is by PayPal and the card number is
    empty; [cc-num] has no record and none of its predicates is called. *)
Lemma skipped_field_is_valid_witness :
  Forall (fun r => gatedOff r (document Page.submitted)) ccNumRules /\
  (exists es cs,
     errors (snd (validateForm Page.submitted)) = Some es /\
     errorsFor "cc-num" es = [] /\
     calls (snd (validateForm Page.submitted))
     = calls Page.submitted ++ cs /\
     forall ri res, ~ In (MethodCall 3 ri res) cs) /\
  (firstn 3 (validators Page.submitted) = [] ->
   skipn 4 (validators Page.submitted) = [] ->
   fst (validateForm Page.submitted) = Ok true) /\
  validateField Page.selectAll "cc-num" Page.submitted
  = (Ok tt,
     setCalls (calls Page.submitted ++ skipCalls 3 0 ccNumRules)
              Page.submitted).
Proof.
  apply (proj2 (skipped_field_is_valid Page.selectAll) Page.submitted 10
           (Page.node "SELECT" "payment" "user-payment" EmptyString
                      (Some "paypal") false (Some 1))
           (firstn 3 (validators Page.submitted)) (Some 12)
           (skipn 4 (validators Page.submitted))).
  - reflexivity.
  - reflexivity.
  - discriminate.
  - reflexivity.
  - apply other_ids; vm_compute; reflexivity.
Defined.

(** C5 on the submitted form: no validator is registered for [title]. *)
Lemma unknown_field_safe_witness :
  validateField Page.selectAll "title" Page.submitted
  = (Ok tt,
     setConsole
       (console Page.submitted
        ++ [["No validator found for field with id:"; "title"]])
       Page.submitted).
Proof.
  apply (unknown_field_safe Page.selectAll "title" Page.submitted).
  apply other_ids; vm_compute; reflexivity.
Defined.

(** C6 as the specification has it fails on the submitted form: the
    record for [email] is not the one of "should only appear once". *)
Lemma email_double_at_counterexample :
  ~ (exists es,
       errors (snd (validateForm Page.submitted)) = Some es /\
       errorsFor "email" es
       = [mkError "email" "The 'at' symbol should only appear once."]).
Proof.
  intros (es & He & Hf).
  vm_compute in He; injection He as <-.
  vm_compute in Hf; discriminate Hf.
Qed.

(** C6 as the script has it, on the submitted form. *)
Lemma email_double_at_witness :
  exists es cs,
    errors (snd (validateForm Page.submitted)) = Some es /\
    errorsFor "email" es
    = [mkError "email" "The 'at' symbol must be before the 'dot' symbol."] /\
    calls (snd (validateForm Page.submitted))
    = calls Page.submitted ++ cs /\
    forall j res, 4 < j -> ~ In (MethodCall 1 j res) cs.
Proof.
  apply (email_double_at Page.submitted
           (firstn 1 (validators Page.submitted)) (Some 5)
           (skipn 2 (validators Page.submitted))
           false (snd (validateForm Page.submitted))).
  - reflexivity.
  - apply other_ids; vm_compute; reflexivity.
  - reflexivity.
  - exists 5, (Page.node "INPUT" "email" "user-email" "email"
                         (Some "a.b@@c.com") false (Some 4)).
    split; [reflexivity | split; [reflexivity|]].
    intros _; exists 4, (Page.node "LABEL" EmptyString EmptyString EmptyString
                                   None false (Some 1)).
    split; reflexivity.
  - apply run_outcome; vm_compute; reflexivity.
Defined.

(** The message of the specification is the one reported when the first
    dot comes after the first at, as in [ab@@c.com]. *)
Example email_only_once :
  fst (formRules 1 (mkValidator "email" emailRules (Some 5)) 0 emailRules
         (setErrors (Some [])
            (Page.regFormValidator
               (Page.page "Al" "ab@@c.com" false "paypal"
                          EmptyString EmptyString EmptyString))))
  = Ok tt /\
  errors
    (snd (formRules 1 (mkValidator "email" emailRules (Some 5)) 0 emailRules
            (setErrors (Some [])
               (Page.regFormValidator
                  (Page.page "Al" "ab@@c.com" false "paypal"
                             EmptyString EmptyString EmptyString)))))
  = Some [mkError "email" "The 'at' symbol should only appear once."].
Proof. split; vm_compute; reflexivity. Qed.

(** C7 on a new instance: [name] registered twice. *)
Lemma registry_semantics_witness :
  let s := Page.newFormValidator 1 (document Page.submitted) in
  let s2 := snd (addValidator "name" [] (snd (addValidator "name" nameRules s))) in
  List.length (validators s2) = 2 + List.length (validators s) /\
  List.length (filter (fun v => String.eqb (fieldId v) "name") (validators s2))
  = 2 /\
  exists fld,
    findValidator "name" 0 (validators s2)
    = Some (List.length (validators s), mkValidator "name" nameRules fld).
Proof.
  apply (proj1 (proj2 registry_semantics) "name" nameRules []
           (Page.newFormValidator 1 (document Page.submitted))).
  intros v [].
Defined.

(** C10 on two instances with no name typed.  With the rules of [name]
    registered twice, [validateForm] leaves two records for [name].
    With the rules of [name] and then the rules of [email] registered
    for [name], after a validator for [email], [validateField] runs the
    validator at position 1 only: every call it logs is a call of that
    validator, and its first rule is logged as failed and its message
    shown, not the one of the validator registered after it; and the
    call does the same with nothing registered after that validator. *)
Lemma duplicate_registration_witness :
  (exists es,
     errors (snd (validateForm Page.registeredTwice)) = Some es /\
     errorsFor "name" es
     = [mkError "name" "Name is required";
        mkError "name" "Name is required"]) /\
  (validateField Page.selectAll "name" Page.registeredApart
   = fieldRules Page.selectAll "name" 1
       (mkValidator "name" nameRules (Some 3)) 0 nameRules
       Page.registeredApart /\
   (exists cs,
      calls (snd (validateField Page.selectAll "name" Page.registeredApart))
      = calls Page.registeredApart ++ cs /\
      blocks 1 0 nameRules cs /\
      Forall (fun c => callValidator c = 1) cs)) /\
  validateField Page.selectAll "name" Page.registeredApart
  = (match fst (bind (removeHint Page.selectAll "name")
                     (fun _ => showHint "name"
                                 (mkRule None
                                    (valueLength (fun n => Nat.ltb 0 n))
                                    "Name is required"))
                     (document Page.registeredApart)) with
     | Ok _ => Ok tt
     | Throw e => Throw e
     end,
     setDocument
       (snd (bind (removeHint Page.selectAll "name")
                  (fun _ => showHint "name"
                              (mkRule None
                                 (valueLength (fun n => Nat.ltb 0 n))
                                 "Name is required"))
                  (document Page.registeredApart)))
       (setCalls (calls Page.registeredApart ++ [MethodCall 1 0 (Ok false)])
          Page.registeredApart)) /\
  validateField Page.selectAll "name"
    (setValidators
       ([mkValidator "email" emailRules (Some 5)]
        ++ mkValidator "name" nameRules (Some 3)
        :: [mkValidator "name" emailRules (Some 3)])
       Page.registeredApart)
  = (fst (validateField Page.selectAll "name"
            (setValidators
               ([mkValidator "email" emailRules (Some 5)]
                ++ mkValidator "name" nameRules (Some 3) :: [])
               Page.registeredApart)),
     setValidators
       ([mkValidator "email" emailRules (Some 5)]
        ++ mkValidator "name" nameRules (Some 3)
        :: [mkValidator "name" emailRules (Some 3)])
       (snd (validateField Page.selectAll "name"
               (setValidators
                  ([mkValidator "email" emailRules (Some 5)]
                   ++ mkValidator "name" nameRules (Some 3) :: [])
                  Page.registeredApart)))).
Proof.
  split; [|split; [|split]].
  - apply (proj1 (duplicate_registration Page.selectAll)
             Page.registeredTwice []
             (mkValidator "name" nameRules (Some 3)) []
             (mkValidator "name" nameRules (Some 3)) []
             [] (hd (mkRule None (fun _ _ => Ok true) EmptyString) nameRules)
             (tl nameRules) (document Page.registeredTwice)
             [] (hd (mkRule None (fun _ _ => Ok true) EmptyString) nameRules)
             (tl nameRules) (document Page.registeredTwice)
             false (snd (validateForm Page.registeredTwice))).
    + reflexivity.
    + reflexivity.
    + intros u [].
    + reflexivity.
    + apply noFailure_nil.
    + split; [exact I | reflexivity].
    + reflexivity.
    + apply noFailure_nil.
    + split; [exact I | reflexivity].
    + apply run_outcome; vm_compute; reflexivity.
  - destruct (proj1 (proj2 (duplicate_registration Page.selectAll))
                "name" Page.registeredApart
                [mkValidator "email" emailRules (Some 5)]
                (mkValidator "name" nameRules (Some 3))
                [mkValidator "name" emailRules (Some 3)])
      as (Hrun & Hlog & _).
    + reflexivity.
    + apply other_ids; reflexivity.
    + reflexivity.
    + split; [exact Hrun | exact Hlog].
  - apply (proj2 (proj2
             (proj1 (proj2 (duplicate_registration Page.selectAll))
                "name" Page.registeredApart
                [mkValidator "email" emailRules (Some 5)]
                (mkValidator "name" nameRules (Some 3))
                [mkValidator "name" emailRules (Some 3)]
                ltac:(reflexivity) ltac:(apply other_ids; reflexivity)
                ltac:(reflexivity)))
             [] (hd (mkRule None (fun _ _ => Ok true) EmptyString) nameRules)
             (tl nameRules)).
    + reflexivity.
    + constructor.
    + split; [exact I | reflexivity].
  - apply (proj2 (proj2 (duplicate_registration Page.selectAll))
             "name" Page.registeredApart
             [mkValidator "email" emailRules (Some 5)]
             (mkValidator "name" nameRules (Some 3))
             [mkValidator "name" emailRules (Some 3)] []).
    + apply other_ids; reflexivity.
    + reflexivity.
Defined.

(** [validateField] on these instances shows one hint, the one of the
    first validator. *)
Example duplicate_registration_field :
  fst (validateField Page.selectAll "name" Page.registeredTwice) = Ok tt /\
  calls (snd (validateField Page.selectAll "name" Page.registeredTwice))
  = [MethodCall 0 0 (Ok false)] /\
  fst (validateField Page.selectAll "name" Page.registeredApart) = Ok tt /\
  calls (snd (validateField Page.selectAll "name" Page.registeredApart))
  = [MethodCall 1 0 (Ok false)] /\
  map (fun he => innerText (snd he))
    (filter (fun he => hasToken "hint" (classList (snd he)))
       (document (snd (validateField Page.selectAll "name"
                         Page.registeredApart))))
  = ["Name is required"].
Proof. repeat split; vm_compute; reflexivity. Qed.

(* ================================================================= *)
(** ** More about [showValid] *)

Lemma deref_update : forall h f d x,
  deref (update h f d) x
  = if Nat.eqb h x then option_map f (deref d h) else deref d x.
Proof.
  intros h f d x; induction d as [|[h' e] d IH]; simpl.
  - now destruct (Nat.eqb h x).
  - destruct (Nat.eqb h' h) eqn:E1; simpl.
    + apply Nat.eqb_eq in E1; subst h'.
      rewrite (Nat.eqb_sym h x).
      now destruct (Nat.eqb x h) eqn:E2; rewrite (Nat.eqb_sym h x) in *;
        rewrite ?E2.
    + destruct (Nat.eqb h' x) eqn:E2.
      * apply Nat.eqb_eq in E2; subst h'.
        rewrite (Nat.eqb_sym h x), E1. reflexivity.
      * exact IH.
Qed.

Lemma classListRemove_run : forall h t d d',
  classListRemove (Some h) t d = Ok d' ->
  deref d h <> None /\
  d' = update h (fun e => setClassList (removeToken t (classList e)) e) d.
Proof.
  unfold classListRemove; intros h t d d' H.
  destruct (deref d h); [|discriminate].
  destruct (checkTokens [t]); [|discriminate].
  injection H as <-; split; [discriminate | reflexivity].
Qed.

Lemma classListAdd_run : forall h ts d d',
  classListAdd (Some h) ts d = Ok d' ->
  deref d h <> None /\
  d' = update h (fun e => setClassList (addTokens ts (classList e)) e) d.
Proof.
  unfold classListAdd; intros h ts d d' H.
  destruct (deref d h); [|discriminate].
  destruct (checkTokens ts); [|discriminate].
  injection H as <-; split; [discriminate | reflexivity].
Qed.

(** Where [showValid] returns, element by element. *)
Lemma showValid_deref : forall h d d',
  showValid (Some h) d = (Ok tt, d') ->
  exists e t,
    deref d h = Some e /\
    Some t = (if String.eqb (tagName e) "INPUT" then parentElement e
              else Some h) /\
    deref d t <> None /\
    forall x,
      deref d' x
      = option_map (fun ex => setClassList (shownValid h t x (classList ex)) ex)
                   (deref d x).
Proof.
  intros h d d' H; unfold showValid, bind, mutate in H.
  destruct (classListRemove (Some h) "error" d) as [d1|] eqn:E1;
    [|discriminate H].
  apply classListRemove_run in E1; destruct E1 as (Hh & ->).
  destruct (deref d h) as [e|] eqn:Hd; [clear Hh | now elim Hh].
  unfold labelOrSelf in H; rewrite deref_update, Nat.eqb_refl, Hd in H.
  cbn [option_map] in H.
  replace (tagName (setClassList (removeToken "error" (classList e)) e))
    with (tagName e) in H by now destruct e.
  replace (parentElement (setClassList (removeToken "error" (classList e)) e))
    with (parentElement e) in H by now destruct e.
  set (d1 := update h _ d) in H.
  destruct (if String.eqb (tagName e) "INPUT" then parentElement e
            else Some h) as [t|] eqn:Et; [|discriminate H].
  destruct (classListRemove (Some t) "valid" d1) as [d2|] eqn:E2;
    [|discriminate H].
  apply classListRemove_run in E2; destruct E2 as (Ht & ->).
  destruct (classListRemove (Some t) "not-valid" _) as [d3|] eqn:E3;
    [|discriminate H].
  apply classListRemove_run in E3; destruct E3 as (_ & ->).
  destruct (classListAdd (Some t) ["valid"] _) as [d4|] eqn:E4;
    [|discriminate H].
  apply classListAdd_run in E4; destruct E4 as (_ & ->).
  injection H as <-.
  exists e, t; repeat split; auto.
  - subst d1; rewrite deref_update in Ht.
    destruct (Nat.eqb h t) eqn:Eht.
    + apply Nat.eqb_eq in Eht; subst t; rewrite Hd; discriminate.
    + exact Ht.
  - intros x; rewrite !deref_update; subst d1; rewrite !deref_update.
    unfold shownValid.
    destruct (Nat.eqb t x) eqn:Etx.
    + apply Nat.eqb_eq in Etx; subst x.
      rewrite ?Nat.eqb_refl.
      destruct (Nat.eqb h t) eqn:Eht.
      * apply Nat.eqb_eq in Eht; subst t. rewrite ?Nat.eqb_refl, Hd.
        now destruct e.
      * rewrite ?Eht.
        destruct (deref d t) as [te|]; [now destruct te | reflexivity].
    + destruct (Nat.eqb h x) eqn:Ehx.
      * apply Nat.eqb_eq in Ehx; subst x. now rewrite Hd.
      * now destruct (deref d x) as [[]|].
Qed.

Lemma hasToken_removeToken : forall t u cl,
  hasToken t (removeToken u cl) = hasToken t cl && negb (String.eqb t u).
Proof.
  intros t u cl; unfold hasToken, removeToken.
  induction cl as [|c cl IH]; simpl; [reflexivity|].
  destruct (String.eqb c u) eqn:Ecu; simpl.
  - apply String.eqb_eq in Ecu; subst c.
    rewrite IH. destruct (String.eqb t u); simpl; [|reflexivity].
    now rewrite Bool.andb_false_r.
  - rewrite IH. destruct (String.eqb t c) eqn:Etc; simpl; [|reflexivity].
    apply String.eqb_eq in Etc; subst c. now rewrite Ecu.
Qed.

Lemma hasToken_app : forall t cl1 cl2,
  hasToken t (cl1 ++ cl2) = hasToken t cl1 || hasToken t cl2.
Proof. intros; apply existsb_app. Qed.

Lemma hasToken_addToken : forall t u cl,
  hasToken t (addTokens [u] cl) = hasToken t cl || String.eqb t u.
Proof.
  intros t u cl; simpl.
  destruct (hasToken u cl) eqn:Eu.
  - destruct (String.eqb t u) eqn:Etu; [|now rewrite Bool.orb_false_r].
    apply String.eqb_eq in Etu; subst t. now rewrite Eu.
  - rewrite hasToken_app; simpl. now rewrite Bool.orb_false_r.
Qed.

Lemma hasToken_shownValid : forall h t x tok cl,
  hasToken tok (shownValid h t x cl)
  = (Nat.eqb t x && String.eqb tok "valid")
    || (hasToken tok cl
        && negb (Nat.eqb t x && String.eqb tok "not-valid")
        && negb (Nat.eqb h x && String.eqb tok "error")).
Proof.
  intros h t x tok cl; unfold shownValid.
  destruct (Nat.eqb t x), (Nat.eqb h x);
    rewrite ?hasToken_addToken, ?hasToken_removeToken;
    (destruct (String.eqb tok "valid") eqn:E1;
     [apply String.eqb_eq in E1; subst tok;
      destruct (hasToken "valid" cl); reflexivity|]);
    (destruct (String.eqb tok "not-valid") eqn:E2;
     [apply String.eqb_eq in E2; subst tok;
      destruct (hasToken "not-valid" cl); reflexivity|]);
    destruct (String.eqb tok "error"), (hasToken tok cl); reflexivity.
Qed.

(** X1.  Where [showValid] returns, it has changed class lists only, and
    of those exactly this: the element that stands for the field (the
    field itself, or its parent when the field is an [<input>]) has the
    class [valid] and not the class [not-valid], the field has not the
    class [error], and every other class of every element is as it
    was. *)
Theorem showValid_marks :
  forall h d d',
    showValid (Some h) d = (Ok tt, d') ->
    exists t,
      labelOrSelf (Some h) d = Ok (Some t) /\
      sameButClasses d d' /\
      forall x ex',
        deref d' x = Some ex' ->
        exists ex,
          deref d x = Some ex /\
          forall tok,
            hasToken tok (classList ex')
            = (Nat.eqb t x && String.eqb tok "valid")
              || (hasToken tok (classList ex)
                  && negb (Nat.eqb t x && String.eqb tok "not-valid")
                  && negb (Nat.eqb h x && String.eqb tok "error")).
Proof.
  intros h d d' H.
  destruct (showValid_deref h d d' H) as (e & t & Hd & Ht & _ & Hx).
  exists t; split; [|split].
  - unfold labelOrSelf; now rewrite Hd, Ht.
  - eapply showValid_same; eassumption.
  - intros x ex' Hx'; rewrite Hx in Hx'.
    destruct (deref d x) as [ex|]; [|discriminate Hx'].
    injection Hx' as <-. exists ex; split; [reflexivity|].
    intros tok.
    replace (classList (setClassList (shownValid h t x (classList ex)) ex))
      with (shownValid h t x (classList ex)) by now destruct ex.
    apply hasToken_shownValid.
Qed.

Lemma showValid_marks_witness :
  exists t,
    labelOrSelf (Some 3) (document Page.submitted) = Ok (Some t) /\
    sameButClasses (document Page.submitted)
      (snd (showValid (Some 3) (document Page.submitted))) /\
    forall x ex',
      deref (snd (showValid (Some 3) (document Page.submitted))) x = Some ex' ->
      exists ex,
        deref (document Page.submitted) x = Some ex /\
        forall tok,
          hasToken tok (classList ex')
          = (Nat.eqb t x && String.eqb tok "valid")
            || (hasToken tok (classList ex)
                && negb (Nat.eqb t x && String.eqb tok "not-valid")
                && negb (Nat.eqb 3 x && String.eqb tok "error")).
Proof.
  apply (showValid_marks 3 (document Page.submitted)
           (snd (showValid (Some 3) (document Page.submitted)))).
  vm_compute; reflexivity.
Defined.

Lemma presentableb_spec : forall d fld,
  presentableb d fld = true <-> presentable d fld.
Proof.
  intros d fld; unfold presentableb, presentable; split.
  - destruct fld as [h|]; [|discriminate].
    destruct (deref d h) as [e|] eqn:Hd; [|discriminate].
    intros H; exists h, e; repeat split; auto.
    intros Hin; apply String.eqb_eq in Hin; rewrite Hin in H.
    destruct (parentElement e) as [p|]; [|discriminate].
    destruct (deref d p) as [pe|] eqn:Hp; [|discriminate]. eauto.
  - intros (h & e & -> & Hd & Hp); rewrite Hd.
    destruct (String.eqb (tagName e) "INPUT") eqn:Et; [|reflexivity].
    apply String.eqb_eq in Et.
    destruct (Hp Et) as (p & pe & -> & ->). reflexivity.
Qed.

(** The outcome of [showValid] is read off the tree. *)
Lemma showValid_outcome : forall fld d,
  fst (showValid fld d)
  = if presentableb d fld then Ok tt else Throw TypeError.
Proof.
  intros fld d.
  destruct (presentableb d fld) eqn:E.
  - apply presentableb_spec, showValid_ok in E.
    destruct E as (d' & ->); reflexivity.
  - unfold presentableb in E.
    unfold showValid, bind, mutate.
    destruct fld as [h|]; [|reflexivity]; simpl.
    destruct (deref d h) as [e|] eqn:Hd; [|reflexivity]; simpl.
    unfold labelOrSelf; rewrite deref_update, Nat.eqb_refl, Hd; simpl.
    replace (tagName (setClassList (removeToken "error" (classList e)) e))
      with (tagName e) by now destruct e.
    replace (parentElement (setClassList (removeToken "error" (classList e)) e))
      with (parentElement e) by now destruct e.
    destruct (String.eqb (tagName e) "INPUT"); [|discriminate E].
    destruct (parentElement e) as [p|]; [|reflexivity].
    unfold classListRemove at 1; rewrite deref_update.
    destruct (Nat.eqb h p) eqn:Ehp.
    + apply Nat.eqb_eq in Ehp; subst p. rewrite Hd in E; discriminate E.
    + destruct (deref d p); [discriminate E | reflexivity].
Qed.

(** X2.  [showValid] returns exactly on a field it can run on: a
    reference to an element of the store which, when it is an [<input>],
    has a parent in the store.  On anything else (an [undefined] field, an
    input without a parent) it throws a [TypeError]. *)
Theorem showValid_returns_iff :
  forall fld d,
    (presentable d fld <-> exists d', showValid fld d = (Ok tt, d')) /\
    (~ presentable d fld -> fst (showValid fld d) = Throw TypeError) /\
    showValid None d = (Throw TypeError, d).
Proof.
  intros fld d; split; [split|split].
  - apply showValid_ok.
  - intros (d' & H).
    apply presentableb_spec.
    pose proof (showValid_outcome fld d) as Ho; rewrite H in Ho; simpl in Ho.
    destruct (presentableb d fld); [reflexivity | discriminate Ho].
  - intros Hn; rewrite showValid_outcome.
    destruct (presentableb d fld) eqn:E; [|reflexivity].
    elim Hn; now apply presentableb_spec.
  - reflexivity.
Qed.

Lemma showValid_returns_iff_witness :
  (presentable (document Page.submitted) (Some 3) <->
   exists d', showValid (Some 3) (document Page.submitted) = (Ok tt, d')) /\
  (~ presentable (document Page.submitted) (Some 3) ->
   fst (showValid (Some 3) (document Page.submitted)) = Throw TypeError) /\
  showValid None (document Page.submitted)
  = (Throw TypeError, document Page.submitted).
Proof.
  exact (showValid_returns_iff (Some 3) (document Page.submitted)).
Defined.

(* ================================================================= *)
(** ** Passes on pages that differ in class lists *)

Lemma presentableb_same : forall d d' fld,
  sameButClasses d d' -> presentableb d fld = presentableb d' fld.
Proof.
  intros d d' fld S.
  destruct (presentableb d fld) eqn:E1, (presentableb d' fld) eqn:E2; auto.
  - apply presentableb_spec in E1.
    apply (presentable_same _ _ _ S), presentableb_spec in E1. congruence.
  - apply presentableb_spec in E2.
    apply (presentable_same _ _ _ (sameButClasses_sym _ _ S)),
      presentableb_spec in E2. congruence.
Qed.

Lemma formRule_akin : forall es0 et0 ei v ri r s t,
  akin es0 et0 s t ->
  (forall c, condition r = Some c -> c (document s) = c (document t)) ->
  method r (document s) (field v) = method r (document t) (field v) ->
  fst (formRule ei v ri r s) = fst (formRule ei v ri r t) /\
  akin es0 et0 (snd (formRule ei v ri r s)) (snd (formRule ei v ri r t)).
Proof.
  intros es0 et0 ei v ri r s t (S & es & Hs & Ht) Hc Hm.
  assert (Hstep : forall s1 t1,
    document s1 = document s -> document t1 = document t ->
    errors s1 = Some (es0 ++ es) -> errors t1 = Some (et0 ++ es) ->
    let f := bind (callMethod ei ri r (field v))
               (fun ok => if negb ok then formOnFail v r else formOnPass v r) in
    fst (f s1) = fst (f t1) /\ akin es0 et0 (snd (f s1)) (snd (f t1))).
  { intros s1 t1 Ds Dt Es Et f; subst f.
    rewrite !methodStep_run; cbv zeta; rewrite Ds, Dt, <- Hm.
    destruct (method r (document s) (field v)) as [[|]|e].
    - rewrite !formOnPass_run; simpl; rewrite Ds, Dt.
      rewrite !showValid_outcome, <- (presentableb_same _ _ _ S).
      split; [reflexivity|]. split.
      + eapply sameButClasses_trans;
          [apply sameButClasses_sym; eapply showValid_same;
           apply surjective_pairing|].
        eapply sameButClasses_trans; [exact S|].
        eapply showValid_same; apply surjective_pairing.
      + exists es; auto.
    - rewrite (formOnFail_run v r _ (es0 ++ es)) by exact Es.
      rewrite (formOnFail_run v r _ (et0 ++ es)) by exact Et.
      simpl; split; [reflexivity|].
      split; [change (sameButClasses (document s1) (document t1));
              now rewrite Ds, Dt|].
      exists (es ++ [mkError (fieldId v) (message r)]).
      now rewrite !app_assoc.
    - simpl; split; [reflexivity|].
      split; [change (sameButClasses (document s1) (document t1));
              now rewrite Ds, Dt|].
      exists es; auto. }
  rewrite !formRule_body, !ruleBody_run.
  destruct (condition r) as [c|]; [|now apply Hstep].
  rewrite <- (Hc c eq_refl).
  destruct (c (document s)) as [[|]|e]; cbv zeta.
  - now apply Hstep.
  - split; [reflexivity|]. split; [exact S | exists es; auto].
  - split; [reflexivity|]. split; [exact S | exists es; auto].
Qed.

Lemma formRules_akin : forall es0 et0 rs ei v ri s t,
  akin es0 et0 s t ->
  (forall d d', sameButClasses d d' ->
     Forall (fun r =>
               (forall c, condition r = Some c -> c d = c d') /\
               method r d (field v) = method r d' (field v)) rs) ->
  fst (formRules ei v ri rs s) = fst (formRules ei v ri rs t) /\
  akin es0 et0 (snd (formRules ei v ri rs s)) (snd (formRules ei v ri rs t)).
Proof.
  induction rs as [|r rs IH]; intros ei v ri s t H Hb; simpl; [auto|].
  pose proof (Hb _ _ (proj1 H)) as H0.
  inversion H0 as [|? ? (Hc & Hm) _]; subst.
  destruct (formRule_akin es0 et0 ei v ri r s t H Hc Hm) as (Hf & Ha).
  unfold bind.
  destruct (formRule ei v ri r s) as [rs1 s1],
           (formRule ei v ri r t) as [rt1 t1].
  simpl in Hf, Ha; subst rt1.
  destruct rs1 as [[|]|e]; simpl; auto.
  apply IH; [assumption|].
  intros d d' S; specialize (Hb d d' S); now inversion Hb.
Qed.

Lemma formValidators_akin : forall es0 et0 vs i s t,
  akin es0 et0 s t ->
  Forall classBlind vs ->
  fst (formValidators i vs s) = fst (formValidators i vs t) /\
  akin es0 et0 (snd (formValidators i vs s)) (snd (formValidators i vs t)).
Proof.
  induction vs as [|v vs IH]; intros i s t H Hb; simpl; [auto|].
  inversion Hb as [|? ? Hv Hvs]; subst.
  destruct (formRules_akin es0 et0 (rules v) i v 0 s t H Hv) as (Hf & Ha).
  unfold bind.
  destruct (formRules i v 0 (rules v) s) as [rs1 s1],
           (formRules i v 0 (rules v) t) as [rt1 t1].
  simpl in Hf, Ha; subst rt1.
  destruct rs1 as [[]|e]; simpl; auto.
Qed.

Lemma validateForm_akin : forall s t,
  validators s = validators t ->
  sameButClasses (document s) (document t) ->
  Forall classBlind (validators s) ->
  fst (validateForm s) = fst (validateForm t) /\
  errors (snd (validateForm s)) = errors (snd (validateForm t)).
Proof.
  intros s t Hv Hd Hb.
  assert (H0 : akin [] [] (setErrors (Some []) s) (setErrors (Some []) t)).
  { split; [exact Hd|]. exists []; auto. }
  destruct (formValidators_akin [] [] (validators s) 0 _ _ H0 Hb)
    as (Hf & _ & es & Hes & Het).
  rewrite !validateForm_run; cbv zeta; rewrite <- Hv, <- Hf.
  destruct (formValidators 0 (validators s) (setErrors (Some []) s))
    as [r1 s1].
  destruct (formValidators 0 (validators s) (setErrors (Some []) t))
    as [r2 t1].
  simpl in *.
  destruct r1 as [[]|e]; rewrite ?Hes, ?Het; simpl; rewrite ?Hes, ?Het; auto.
Qed.

Lemma validateForm_document : forall s,
  sameButClasses (document s) (document (snd (validateForm s))).
Proof.
  intros s; rewrite validateForm_run; cbv zeta.
  pose proof (formValidators_document (validators s) 0 (setErrors (Some []) s))
    as H.
  destruct (formValidators 0 (validators s) (setErrors (Some []) s))
    as [[[]|e] s1]; simpl in *; [destruct (errors s1)|]; exact H.
Qed.

(** X3.  When no rule of the registry reads class lists, what
    [validateForm] returns and the error list it builds depend on the
    page only up to class lists; so a second pass on a page nobody
    touched in between returns what the first returned, with the same
    error list, although the first pass has rewritten class lists. *)
Theorem validateForm_idempotent :
  forall s,
    Forall classBlind (validators s) ->
    (forall t,
       validators t = validators s ->
       sameButClasses (document s) (document t) ->
       fst (validateForm t) = fst (validateForm s) /\
       errors (snd (validateForm t)) = errors (snd (validateForm s))) /\
    fst (validateForm (snd (validateForm s))) = fst (validateForm s) /\
    errors (snd (validateForm (snd (validateForm s))))
    = errors (snd (validateForm s)).
Proof.
  intros s Hb.
  assert (H : forall t,
            validators t = validators s ->
            sameButClasses (document s) (document t) ->
            fst (validateForm t) = fst (validateForm s) /\
            errors (snd (validateForm t)) = errors (snd (validateForm s))).
  { intros t Hv Hd.
    destruct (validateForm_akin s t (eq_sym Hv) Hd Hb) as (-> & ->); auto. }
  split; [exact H|].
  apply H; [apply validateForm_validators | apply validateForm_document].
Qed.

(** The rules of the script that read the value of their field, and the
    condition on the payment method, do not read class lists. *)
Lemma valueRules_classBlind : forall id fld rs,
  Forall (fun r =>
            (condition r = None \/ condition r = Some creditCardSelected) /\
            forall d d' x, fieldValue d x = fieldValue d' x ->
                           method r d x = method r d' x)
         rs ->
  classBlind (mkValidator id rs fld).
Proof.
  intros id fld rs H d d' S; simpl.
  eapply Forall_impl; [|exact H].
  intros r ([Hc|Hc] & Hm);
    (split; [|apply Hm, fieldValue_same, S]); intros c Hc'; rewrite Hc in Hc';
    [discriminate | injection Hc' as <-; now apply creditCardSelected_same].
Qed.

(** The rules of the script that read the value of their field. *)
Lemma scriptRules_classBlind : forall id fld rs,
  In rs [nameRules; emailRules; ccNumRules; zipRules; cvvRules] ->
  classBlind (mkValidator id rs fld).
Proof.
  intros id fld rs H; apply valueRules_classBlind.
  simpl in H; decompose [or] H; try contradiction; subst rs;
    repeat (constructor;
            [split; [auto
                    |let E := fresh in
                     intros ? ? ? E;
                     cbv beta iota
                         delta [method valueLength valueString valueTest
                                valueIsNumber];
                     rewrite E; reflexivity]|]);
    constructor.
Qed.

Lemma validateForm_idempotent_witness :
  let s := setValidators [mkValidator "name" nameRules (Some 3);
                          mkValidator "email" emailRules (Some 5);
                          mkValidator "zip" zipRules (Some 14)]
                         Page.submitted in
  (forall t,
     validators t = validators s ->
     sameButClasses (document s) (document t) ->
     fst (validateForm t) = fst (validateForm s) /\
     errors (snd (validateForm t)) = errors (snd (validateForm s))) /\
  fst (validateForm (snd (validateForm s))) = fst (validateForm s) /\
  errors (snd (validateForm (snd (validateForm s))))
  = errors (snd (validateForm s)).
Proof.
  apply (validateForm_idempotent
           (setValidators [mkValidator "name" nameRules (Some 3);
                           mkValidator "email" emailRules (Some 5);
                           mkValidator "zip" zipRules (Some 14)]
                          Page.submitted)).
  repeat (constructor; [apply scriptRules_classBlind; simpl; auto|]).
  constructor.
Defined.

(* ================================================================= *)
(** ** A pass that throws *)

Lemma formRule_throws : forall ei v ri r s e,
  ruleThrows r (field v) (document s) e ->
  exists cs d',
    formRule ei v ri r s
    = (Throw e,
       mkState (form s) (validators s) (errors s) d' (console s)
               (calls s ++ cs)) /\
    sameButClasses (document s) d' /\
    Forall (fun c => callValidator c = ei /\ callRule c = ri) cs.
Proof.
  intros ei v ri r s e [(c & Hc & Hcd) | [(Hc & Hm) | (Hc & Hm & Hs)]].
  - rewrite formRule_body, ruleBody_run, Hc, Hcd.
    exists [ConditionCall ei ri (Throw e)], (document s).
    split; [reflexivity|].
    split; [apply sameButClasses_refl | repeat constructor].
  - rewrite formRule_body, conditionHolds_run, methodStep_run by assumption.
    simpl; rewrite Hm.
    exists (conditionCalls ei ri r ++ [MethodCall ei ri (Throw e)]),
           (document s).
    rewrite <- app_assoc.
    split; [reflexivity|].
    split; [apply sameButClasses_refl|].
    apply Forall_app; split;
      [apply conditionCalls_bounds | repeat constructor].
  - rewrite formRule_body, conditionHolds_run, methodStep_run by assumption.
    simpl; rewrite Hm, formOnPass_run; simpl; rewrite Hs.
    exists (conditionCalls ei ri r ++ [MethodCall ei ri (Ok true)]),
           (snd (showValid (field v) (document s))).
    rewrite <- app_assoc.
    split; [reflexivity|].
    split; [eapply showValid_same; apply surjective_pairing|].
    apply Forall_app; split;
      [apply conditionCalls_bounds | repeat constructor].
Qed.

Lemma formRules_throws : forall fld d before dk,
  noFailure fld d before dk ->
  forall ei v ri rk after s e,
    field v = fld -> document s = d ->
    ruleThrows rk fld dk e ->
    exists cs d',
      formRules ei v ri (before ++ rk :: after) s
      = (Throw e,
         mkState (form s) (validators s) (errors s) d' (console s)
                 (calls s ++ cs)) /\
      sameButClasses dk d' /\
      Forall (fun c => callValidator c = ei /\
                       callRule c <= ri + List.length before) cs.
Proof.
  induction 1 as [d | d r rs d' Hg _ IH | d r rs d1 d' Hc Hm Hs _ IH];
    intros ei v ri rk after s e Hf Hd Hk; subst fld d; simpl.
  - destruct (formRule_throws ei v ri rk s e Hk) as (cs & d' & E & S & B).
    unfold bind; rewrite E.
    exists cs, d'; split; [reflexivity|]. split; [assumption|].
    eapply Forall_impl; [|exact B]. simpl; intros c (-> & ->); split; lia.
  - unfold bind; rewrite (formRule_skip ei v ri r s Hg).
    destruct (IH ei v (S ri) rk after
                 (setCalls (calls s ++ [ConditionCall ei ri (Ok false)]) s)
                 e eq_refl eq_refl Hk) as (cs & d2 & -> & S & B).
    simpl; rewrite <- app_assoc.
    eexists; exists d2; split; [reflexivity|]. split; [assumption|].
    constructor; [simpl; split; [reflexivity | lia]|].
    eapply Forall_impl; [|exact B]. simpl; intros c (? & ?); split; [auto|lia].
  - unfold bind; rewrite (formRule_pass ei v ri r s d1 Hc Hm Hs).
    destruct (IH ei v (S ri) rk after
                 (setDocument d1
                    (setCalls (calls s ++ conditionCalls ei ri r
                               ++ [MethodCall ei ri (Ok true)]) s))
                 e eq_refl eq_refl Hk) as (cs & d2 & -> & S & B).
    simpl; rewrite <- !app_assoc.
    eexists; exists d2; split; [reflexivity|]. split; [assumption|].
    apply Forall_app; split.
    + eapply Forall_impl; [|apply conditionCalls_bounds].
      simpl; intros c (-> & ->); split; [reflexivity | lia].
    + constructor; [simpl; split; [reflexivity | lia]|].
      eapply Forall_impl; [|exact B].
      simpl; intros c (? & ?); split; [auto|lia].
Qed.

(** A pass that reaches a validator with a rule that throws. *)
Lemma validateForm_throws :
  forall s pre v post before rk after dk e,
    validators s = pre ++ v :: post ->
    rules v = before ++ rk :: after ->
    fst (formValidators 0 pre (setErrors (Some []) s)) = Ok tt ->
    noFailure (field v) (documentAt s pre) before dk ->
    ruleThrows rk (field v) dk e ->
    fst (validateForm s) = Throw e /\
    exists es cs,
      errors (snd (validateForm s)) = Some es /\
      Subseq (map errorFieldId es) (map fieldId pre) /\
      calls (snd (validateForm s)) = calls s ++ cs /\
      Forall (fun c => callValidator c < List.length pre \/
                       (callValidator c = List.length pre /\
                        callRule c <= List.length before)) cs.
Proof.
  intros s pre v post before rk after dk e Hvs Hr Hpre Hnf Hk.
  set (s0 := setErrors (Some []) s) in *.
  destruct (formValidators_errors pre 0 s0 [] eq_refl)
    as (cs1 & es1 & Hc1 & He1 & _ & Hs1).
  destruct (formValidators_log pre 0 s0) as (cs1' & Hc1' & L1).
  assert (cs1' = cs1) as ->
    by (rewrite Hc1 in Hc1'; now apply app_inv_head in Hc1').
  destruct (formRules_throws (field v) _ before dk Hnf
              (List.length pre) v 0 rk after
              (snd (formValidators 0 pre s0)) e eq_refl eq_refl Hk)
    as (cs & d' & Hrun & _ & B).
  rewrite <- Hr in Hrun.
  assert (Hout : validateForm s
                 = (Throw e,
                    mkState (form (snd (formValidators 0 pre s0)))
                      (validators (snd (formValidators 0 pre s0)))
                      (errors (snd (formValidators 0 pre s0))) d'
                      (console (snd (formValidators 0 pre s0)))
                      (calls (snd (formValidators 0 pre s0)) ++ cs))).
  { rewrite validateForm_run; cbv zeta; fold s0.
    rewrite Hvs, formValidators_app; unfold bind.
    destruct (formValidators 0 pre s0) as [r1 s1]; simpl in Hpre, Hrun |- *.
    subst r1; simpl formValidators; unfold bind.
    now rewrite Hrun. }
  rewrite Hout; simpl; split; [reflexivity|].
  exists es1, (cs1 ++ cs); repeat split; auto.
  - now rewrite Hc1, app_assoc.
  - apply Forall_app; split.
    + eapply Forall_impl; [|apply (passLog_bounds _ _ _ L1)].
      simpl; intros c (_ & ?); left; assumption.
    + eapply Forall_impl; [|exact B].
      simpl; intros c (? & ?); right; split; assumption.
Qed.

(** X4.  Nothing catches what a rule throws.  When the validators
    registered before [v] return, no rule of [v] before [rk] fails, and
    evaluating [rk] throws [e] (from its condition, from its method, or
    from [showValid] after the method returned true), then
    [validateForm] throws [e].  [this.errors] is left holding the
    records of the validators before [v], and nothing is called after
    [rk]: no later rule of [v], no later validator. *)
Theorem throw_aborts_pass :
  forall s pre v post before rk after dk e,
    validators s = pre ++ v :: post ->
    rules v = before ++ rk :: after ->
    wellBehaved pre (document s) ->
    noFailure (field v) (documentAt s pre) before dk ->
    ruleThrows rk (field v) dk e ->
    fst (validateForm s) = Throw e /\
    exists es cs,
      errors (snd (validateForm s)) = Some es /\
      Subseq (map errorFieldId es) (map fieldId pre) /\
      calls (snd (validateForm s)) = calls s ++ cs /\
      Forall (fun c => callValidator c < List.length pre \/
                       (callValidator c = List.length pre /\
                        callRule c <= List.length before)) cs.
Proof.
  intros s pre v post before rk after dk e Hvs Hr Hw Hnf Hk.
  eapply validateForm_throws; eauto.
  eapply formValidators_returns; [reflexivity | exact Hw].
Qed.

Lemma throw_aborts_pass_witness :
  fst (validateForm Forms.untitled) = Throw TypeError /\
  exists es cs,
    errors (snd (validateForm Forms.untitled)) = Some es /\
    Subseq (map errorFieldId es) ["name"] /\
    calls (snd (validateForm Forms.untitled))
    = calls Forms.untitled ++ cs /\
    Forall (fun c => callValidator c < 1 \/
                     (callValidator c = 1 /\ callRule c <= 0)) cs.
Proof.
  apply (throw_aborts_pass Forms.untitled
           [mkValidator "name" nameRules (Some 3)]
           (mkValidator "title" nameRules None)
           [mkValidator "email" emailRules (Some 5)]
           []
           (mkRule None (valueLength (fun n => Nat.ltb 0 n))
                   "Name is required")
           [mkRule None (valueLength (fun n => Nat.leb 3 n))
                   "Name must be at least 3 characters long";
            mkRule None (valueTest nameRegex)
                   "Name should only contain letters, spaces, hyphens, periods, and apostrophes"]
           (documentAt Forms.untitled
              [mkValidator "name" nameRules (Some 3)])
           TypeError).
  - reflexivity.
  - reflexivity.
  - constructor; [split | constructor].
    + exists 3, (Page.node "INPUT" "name" "user-name" "text" (Some "Al")
                           false (Some 2)).
      split; [reflexivity | split; [reflexivity|]].
      intros _; exists 2, (Page.node "LABEL" EmptyString EmptyString
                                     EmptyString None false (Some 1)).
      split; reflexivity.
    + intros d' S1.
      assert (H : fieldValue d' (Some 3) = Ok (Some "Al"))
        by now rewrite <- (fieldValue_same _ _ _ S1).
      cbn [rules field]; unfold nameRules, handle in *.
      repeat (constructor;
              [split; [intros c Hc; discriminate Hc
                      |cbv beta iota delta [method valueLength valueTest];
                       rewrite H; eexists; reflexivity]|]).
      constructor.
  - constructor.
  - right; left; split; [exact I | reflexivity].
Defined.

(* ================================================================= *)
(** ** What [validateField] leaves alone *)

Lemma errorsBlind_ret : forall A (a : A), errorsBlind (ret a).
Proof. intros A a es s; reflexivity. Qed.

Lemma errorsBlind_bind : forall A B (m : M A) (k : A -> M B),
  errorsBlind m -> (forall a, errorsBlind (k a)) ->
  errorsBlind (bind m k).
Proof.
  intros A B m k Hm Hk es s; unfold bind; rewrite Hm.
  destruct (m s) as [[a|e] s1]; simpl; [apply Hk | reflexivity].
Qed.

Lemma errorsBlind_onDocument : forall A (m : Eff Document A),
  errorsBlind (onDocument m).
Proof. intros A m es s; now rewrite !onDocument_run. Qed.

Lemma errorsBlind_callMethod : forall ei ri r fld,
  errorsBlind (callMethod ei ri r fld).
Proof. intros ei ri r fld es s; now rewrite !callMethod_run. Qed.

Lemma errorsBlind_conditionNotMet : forall ei ri r,
  errorsBlind (conditionNotMet ei ri r).
Proof.
  intros ei ri r es s; destruct (condition r) as [c|] eqn:Hc.
  - now rewrite !(conditionNotMet_some _ _ _ _ _ Hc).
  - now rewrite !(conditionNotMet_none _ _ _ _ Hc).
Qed.

Section FieldFrame.

Variable qsa : Document -> option handle -> string -> Result (list handle).

Lemma fieldRules_setErrors : forall rs id ei v ri,
  errorsBlind (fieldRules qsa id ei v ri rs).
Proof.
  induction rs as [|r rs IH]; intros id ei v ri; simpl;
    [apply errorsBlind_ret|].
  apply errorsBlind_bind.
  - unfold fieldRule.
    apply errorsBlind_bind; [apply errorsBlind_conditionNotMet|].
    intros [|]; [apply errorsBlind_ret|].
    apply errorsBlind_bind; [apply errorsBlind_callMethod|].
    intros [|]; cbv beta iota delta [negb];
      repeat (apply errorsBlind_bind;
              [apply errorsBlind_onDocument | intros _]);
      apply errorsBlind_ret.
  - intros [|]; [apply IH | apply errorsBlind_ret].
Qed.

(** X5.  [validateField] works on the page only.  It never reads or
    writes [this.errors], so the list of the last pass of [validateForm]
    (or its absence, before any pass) is still there afterwards, also
    when a rule fails or throws; it leaves [this.form] as it was; and it
    writes to the console exactly when no validator is registered for
    the identifier. *)
Theorem validateField_frame : forall id s,
  errors (snd (validateField qsa id s)) = errors s /\
  form (snd (validateField qsa id s)) = form s /\
  (forall es, validateField qsa id (setErrors es s)
              = (fst (validateField qsa id s),
                 setErrors es (snd (validateField qsa id s)))) /\
  (console (snd (validateField qsa id s)) = console s <->
   exists v, In v (validators s) /\ fieldId v = id).
Proof.
  intros id s; rewrite validateField_run.
  split; [|split; [|split]].
  - destruct (findValidator id 0 (validators s)) as [[ei v]|];
      [|reflexivity].
    now apply (fieldRules_keeps qsa _ errors).
  - destruct (findValidator id 0 (validators s)) as [[ei v]|];
      [|reflexivity].
    now apply (fieldRules_keeps qsa _ form).
  - intros es; rewrite validateField_run; simpl.
    destruct (findValidator id 0 (validators s)) as [[ei v]|];
      [|reflexivity].
    apply fieldRules_setErrors.
  - destruct (findValidator id 0 (validators s)) as [[ei v]|] eqn:E.
    + split; [intros _ | intros _; now apply (fieldRules_keeps qsa _ console)].
      apply findValidator_some in E.
      destruct E as (pre & post & -> & _ & <- & _).
      exists v; split; [apply in_or_app; right; now left | reflexivity].
    + simpl; split.
      * intros H; exfalso.
        apply (f_equal (@List.length _)) in H.
        rewrite length_app in H; simpl in H; lia.
      * intros (v & Hin & Hid).
        rewrite findValidator_none in E. now elim (E v Hin).
Qed.

End FieldFrame.

(* ================================================================= *)
(** ** The registry of the script when another payment is selected *)

Lemma gated_by_payment : forall d rs,
  creditCardSelected d = Ok false ->
  Forall (fun r => condition r = Some creditCardSelected) rs ->
  Forall (fun r => gatedOff r d) rs.
Proof.
  intros d rs H F; eapply Forall_impl; [|exact F].
  intros r Hr; exists creditCardSelected; auto.
Qed.

Lemma errorsFor_nil : forall f es e,
  errorsFor f es = [] -> In e es -> errorFieldId e <> f.
Proof.
  intros f es e H Hin Hf; unfold errorsFor in H.
  assert (Hin' : In e (filter (fun e => String.eqb (errorFieldId e) f) es)).
  { apply filter_In; split; [assumption | now apply String.eqb_eq]. }
  rewrite H in Hin'; exact Hin'.
Qed.

(** The error list of a pass, whether it returns or throws: records for
    registered fields, in the order of the registry. *)
Lemma validateForm_errors_ids : forall s,
  exists es,
    errors (snd (validateForm s)) = Some es /\
    Subseq (map errorFieldId es) (map fieldId (validators s)).
Proof.
  intros s.
  destruct (formValidators_errors (validators s) 0 (setErrors (Some []) s) [])
    as (cs & es & _ & He & _ & Hsub); [reflexivity|].
  exists es; split; [|assumption].
  rewrite validateForm_run; cbv zeta.
  destruct (formValidators 0 (validators s) (setErrors (Some []) s))
    as [[[]|e] s1]; simpl in *; [rewrite He|]; auto.
Qed.

Section Registry.

Variable qsa : Document -> option handle -> string -> Result (list handle).

(** The registry [addRegFormValidationRules] builds on an empty one: six
    validators in the order of the script, each bound to the control the
    form has for its identifier at that time. *)
Lemma addRegFormValidationRules_validators : forall s,
  validators s = [] ->
  validators (snd (addRegFormValidationRules qsa s))
  = [mkValidator "name" nameRules
       (formElements (document s) (form s) "name");
     mkValidator "email" emailRules
       (formElements (document s) (form s) "email");
     mkValidator "activities" (activitiesRules qsa)
       (formElements (document s) (form s) "activities");
     mkValidator "cc-num" ccNumRules
       (formElements (document s) (form s) "cc-num");
     mkValidator "zip" zipRules
       (formElements (document s) (form s) "zip");
     mkValidator "cvv" cvvRules
       (formElements (document s) (form s) "cvv")].
Proof.
  intros s H; unfold addRegFormValidationRules, addValidator, bind, modify.
  simpl; rewrite H; reflexivity.
Qed.

(** X6.  On the registry of the script, while the payment select holds
    something else than [credit-card], a pass of [validateForm] is decided
    by [name], [email] and [activities] alone: whatever the three card
    fields hold, and whether the form has them at all, every record of
    the error list is for one of the first three fields and no predicate
    of [cc-num], [zip] or [cvv] is called. *)
Theorem other_payment_skips_card : forall s0 s,
  validators s0 = [] ->
  validators s = validators (snd (addRegFormValidationRules qsa s0)) ->
  creditCardSelected (document s) = Ok false ->
  exists es cs,
    errors (snd (validateForm s)) = Some es /\
    Forall (fun e => In (errorFieldId e) ["name"; "email"; "activities"])
           es /\
    calls (snd (validateForm s)) = calls s ++ cs /\
    forall ei ri res, In (MethodCall ei ri res) cs -> ei < 3.
Proof.
  intros s0 s H0 Hvs Hsel.
  rewrite (addRegFormValidationRules_validators s0 H0) in Hvs.
  set (f := formElements (document s0) (form s0)) in Hvs.
  assert (Hg : forall rs,
            Forall (fun r => condition r = Some creditCardSelected) rs ->
            forall d', sameButClasses (document s) d' ->
                       Forall (fun r => gatedOff r d') rs).
  { intros rs F d' S1; apply gated_by_payment; [|exact F].
    now rewrite <- (creditCardSelected_same _ _ S1). }
  destruct (validateForm_failures s) as (cs & Hc & He & L).
  destruct (validateForm_all_gated s
              [mkValidator "name" nameRules (f "name");
               mkValidator "email" emailRules (f "email");
               mkValidator "activities" (activitiesRules qsa)
                           (f "activities")]
              (mkValidator "cc-num" ccNumRules (f "cc-num"))
              [mkValidator "zip" zipRules (f "zip");
               mkValidator "cvv" cvvRules (f "cvv")] Hvs)
    as (es1 & cs1 & He1 & Hn1 & Hc1 & Hm1);
    [apply other_ids; reflexivity
    |apply Hg; repeat constructor|].
  destruct (validateForm_all_gated s
              [mkValidator "name" nameRules (f "name");
               mkValidator "email" emailRules (f "email");
               mkValidator "activities" (activitiesRules qsa)
                           (f "activities");
               mkValidator "cc-num" ccNumRules (f "cc-num")]
              (mkValidator "zip" zipRules (f "zip"))
              [mkValidator "cvv" cvvRules (f "cvv")] Hvs)
    as (es2 & cs2 & He2 & Hn2 & Hc2 & Hm2);
    [apply other_ids; reflexivity
    |apply Hg; repeat constructor|].
  destruct (validateForm_all_gated s
              [mkValidator "name" nameRules (f "name");
               mkValidator "email" emailRules (f "email");
               mkValidator "activities" (activitiesRules qsa)
                           (f "activities");
               mkValidator "cc-num" ccNumRules (f "cc-num");
               mkValidator "zip" zipRules (f "zip")]
              (mkValidator "cvv" cvvRules (f "cvv"))
              [] Hvs)
    as (es3 & cs3 & He3 & Hn3 & Hc3 & Hm3);
    [apply other_ids; reflexivity
    |apply Hg; repeat constructor|].
  rewrite Hc in Hc1, Hc2, Hc3.
  apply app_inv_head in Hc1, Hc2, Hc3; subst cs1 cs2 cs3.
  rewrite He in He1, He2, He3.
  injection He1 as <-; injection He2 as <-; injection He3 as <-.
  simpl in Hn1, Hn2, Hn3, Hm1, Hm2, Hm3.
  exists (failures (validators s) cs), cs.
  split; [assumption|]. split; [|split; [assumption|]].
  - apply Forall_forall; intros e Hin.
    destruct (validateForm_errors_ids s) as (es' & He' & Hsub).
    rewrite He in He'; injection He' as <-.
    pose proof (errorsFor_nil _ _ _ Hn1 Hin) as N1.
    pose proof (errorsFor_nil _ _ _ Hn2 Hin) as N2.
    pose proof (errorsFor_nil _ _ _ Hn3 Hin) as N3.
    assert (Hid : In (errorFieldId e) (map fieldId (validators s))).
    { eapply Subseq_In; [exact Hsub | now apply in_map]. }
    rewrite Hvs in Hid; simpl in Hid |- *.
    intuition congruence.
  - intros ei ri res Hin.
    pose proof (passLog_bounds _ _ _ L) as B; rewrite Forall_forall in B.
    destruct (B _ Hin) as (_ & Hlt); simpl in Hlt.
    rewrite Hvs in Hlt; simpl in Hlt.
    destruct (Nat.lt_ge_cases ei 3) as [|Hge]; [assumption|exfalso].
    assert (ei = 3 \/ ei = 4 \/ ei = 5) as [-> | [-> | ->]] by lia.
    + exact (Hm1 _ _ Hin).
    + exact (Hm2 _ _ Hin).
    + exact (Hm3 _ _ Hin).
Qed.

End Registry.

Lemma other_payment_skips_card_witness :
  exists es cs,
    errors (snd (validateForm Page.submitted)) = Some es /\
    Forall (fun e => In (errorFieldId e) ["name"; "email"; "activities"])
           es /\
    calls (snd (validateForm Page.submitted)) = calls Page.submitted ++ cs /\
    forall ei ri res, In (MethodCall ei ri res) cs -> ei < 3.
Proof.
  apply (other_payment_skips_card Page.selectAll
           (Page.newFormValidator 1
              (Page.page "Al" "a.b@@c.com" false "paypal"
                         EmptyString EmptyString EmptyString))
           Page.submitted).
  - reflexivity.
  - reflexivity.
  - reflexivity.
Defined.

(* ================================================================= *)
(** ** Facts about removing and inserting elements *)

Lemma memH_In : forall h l, memH h l = true <-> In h l.
Proof.
  intros h l; unfold memH; rewrite existsb_exists; split.
  - intros (x & Hin & E); apply Nat.eqb_eq in E; now subst.
  - intros Hin; exists h; split; [assumption | apply Nat.eqb_refl].
Qed.

Lemma subtreeFrom_keeps : forall d acc root h,
  In h acc -> In h (subtreeFrom acc root d).
Proof.
  induction d as [|[h' e] d IH]; intros acc root h Hin; simpl; [assumption|].
  apply IH.
  destruct (Nat.eqb h' root || _); [apply in_or_app; now left | assumption].
Qed.

(** An element of the store is in its own subtree. *)
Lemma subtree_root : forall d h,
  In h (map fst d) -> In h (subtree d h).
Proof.
  unfold subtree; intros d h; generalize (@nil handle).
  induction d as [|[h' e] d IH]; intros acc Hin; simpl in *; [contradiction|].
  destruct Hin as [-> | Hin].
  - rewrite Nat.eqb_refl; simpl.
    apply subtreeFrom_keeps, in_or_app; right; now left.
  - now apply IH.
Qed.

Lemma detached_refl : forall d, detached d d.
Proof.
  induction d as [|he d IH]; constructor; [repeat split; auto | exact IH].
Qed.

Lemma detached_trans : forall d1 d2 d3,
  detached d1 d2 -> detached d2 d3 -> detached d1 d3.
Proof.
  intros d1 d2 d3 H; revert d3.
  induction H as [|he1 he2 d1 d2 (Hf & He & Hc & Hi) _ IH]; intros d3 H3;
    inversion H3 as [|? he3 ? d3' (Hf' & He' & Hc' & Hi') H3']; subst;
    constructor.
  - repeat split; [congruence | congruence | congruence | auto].
  - now apply IH.
Qed.

Lemma detached_keys : forall d d',
  detached d d' -> map fst d = map fst d'.
Proof.
  induction 1 as [|he he' d d' (Hf & _) _ IH]; simpl; congruence.
Qed.

Lemma remove_detached : forall h d, detached d (remove h d).
Proof.
  intros h d; unfold remove, detached.
  generalize (subtree d h) as sub; intros sub.
  induction d as [|[k e] d IH]; simpl; constructor; [|exact IH].
  simpl; destruct (Nat.eqb k h), (memH k sub); simpl; repeat split; auto;
    try discriminate.
Qed.

(** After [el.remove()] no entry of [el] is connected. *)
Lemma remove_disconnects : forall h d he,
  In he (remove h d) -> fst he = h -> isConnected (snd he) = false.
Proof.
  intros h d he Hin Hk; unfold remove in Hin.
  apply in_map_iff in Hin; destruct Hin as ([k e] & <- & Hin); simpl in *.
  subst k.
  assert (Hsub : memH h (subtree d h) = true).
  { apply memH_In, subtree_root, in_map_iff.
    exists (h, e); split; [reflexivity | assumption]. }
  rewrite Hsub; reflexivity.
Qed.

Lemma detached_disconnected : forall d d',
  detached d d' ->
  forall h,
    (forall he, In he d -> fst he = h -> isConnected (snd he) = false) ->
    forall he', In he' d' -> fst he' = h -> isConnected (snd he') = false.
Proof.
  induction 1 as [|he he' d d' (Hf & _ & _ & Hi) _ IH]; intros h Hd x Hin Hk;
    simpl in Hin; [contradiction|].
  destruct Hin as [<- | Hin].
  - destruct (isConnected (snd he')) eqn:E; [|reflexivity].
    rewrite <- (Hd he) ; [symmetry; now apply Hi | now left | congruence].
  - eapply IH; [|exact Hin|exact Hk].
    intros y Hy; apply Hd; now right.
Qed.

(** Removing the elements of a list one after the other. *)
Lemma removeEach_detached : forall els d,
  detached d (fold_left (fun d' h => remove h d') els d).
Proof.
  induction els as [|h els IH]; intros d; simpl; [apply detached_refl|].
  eapply detached_trans; [apply remove_detached | apply IH].
Qed.

Lemma removeEach_disconnects : forall els d he,
  In he (fold_left (fun d' h => remove h d') els d) ->
  In (fst he) els -> isConnected (snd he) = false.
Proof.
  induction els as [|h els IH]; intros d he Hin Hk; simpl in *;
    [contradiction|].
  destruct (Nat.eq_dec h (fst he)) as [E|N].
  - eapply detached_disconnected;
      [apply removeEach_detached | | exact Hin | symmetry; exact E].
    intros y Hy Hky; eapply remove_disconnects; eassumption.
  - destruct Hk as [Hk|Hk]; [contradiction|].
    eapply IH; eassumption.
Qed.

(** Once the elements with a class are removed, none with that class is
    connected. *)
Lemma removeEach_none_shown : forall cls d,
  filter (shownHint cls)
         (fold_left (fun d' h => remove h d')
                    (map fst (filter (shownHint cls) d)) d)
  = [].
Proof.
  intros cls d.
  set (els := map fst (filter (shownHint cls) d)).
  pose proof (removeEach_detached els d) as Hdet.
  assert (Hdis : forall he,
            In he (fold_left (fun d' h => remove h d') els d) ->
            In (fst he) els -> isConnected (snd he) = false)
    by (intros he; apply removeEach_disconnects).
  assert (Hels : forall he, In he d -> shownHint cls he = true ->
                            In (fst he) els).
  { intros he Hin Hs; apply in_map, filter_In; now split. }
  clearbody els; revert Hdis Hels.
  induction Hdet as [|he he' d d' (Hf & _ & Hc & Hi) _ IH]; intros Hdis Hels;
    simpl; [reflexivity|].
  destruct (shownHint cls he') eqn:E.
  - exfalso; unfold shownHint in E.
    apply andb_true_iff in E; destruct E as (E1 & E2).
    assert (Hs : shownHint cls he = true).
    { unfold shownHint; rewrite Hc, E2, (Hi E1); reflexivity. }
    rewrite (Hdis he') in E1; [discriminate | now left|].
    rewrite <- Hf; apply Hels; [now left | exact Hs].
  - apply IH.
    + intros y Hy; apply Hdis; now right.
    + intros y Hy; apply Hels; now right.
Qed.

Lemma detached_no_id : forall d d' id,
  detached d d' -> getElementById d id = None -> getElementById d' id = None.
Proof.
  intros d d' id H; induction H as [|[k e] [k' e'] d d' (_ & He & _ & Hi) _ IH];
    simpl in *; [reflexivity|].
  rewrite <- He.
  destruct (negb (String.eqb id EmptyString) && String.eqb (elemId e) id)
    eqn:E.
  - destruct (isConnected e) eqn:Ec; simpl; rewrite ?E; [discriminate|].
    destruct (isConnected e') eqn:Ec'; [specialize (Hi eq_refl); discriminate Hi|].
    simpl; exact IH.
  - rewrite <- !andb_assoc, E, !andb_false_r; exact IH.
Qed.

Lemma detached_length : forall d d',
  detached d d' -> List.length d' = List.length d.
Proof. intros d d' H; symmetry; eapply Forall2_length; exact H. Qed.
(* ================================================================= *)
(** ** Facts about the tree of the page *)

Lemma deref_map : forall (g : handle * Element -> Element) (d : Document) x,
  deref (map (fun he => (fst he, g he)) d) x
  = option_map (fun e => g (x, e)) (deref d x).
Proof.
  intros g d x; induction d as [|[k e] d IH]; simpl; [reflexivity|].
  destruct (Nat.eqb k x) eqn:E; [|exact IH].
  apply Nat.eqb_eq in E; now subst k.
Qed.

Lemma deref_remove : forall h d x,
  deref (remove h d) x
  = option_map
      (fun e =>
         let e1 := if Nat.eqb x h then setParent None e else e in
         if memH x (subtree d h) then setConnected false e1 else e1)
      (deref d x).
Proof.
  intros h d x; unfold remove.
  now rewrite (deref_map (fun he =>
    let e1 := if Nat.eqb (fst he) h then setParent None (snd he)
              else snd he in
    if memH (fst he) (subtree d h) then setConnected false e1 else e1)).
Qed.

Lemma deref_In : forall (d : Document) x e,
  deref d x = Some e -> In x (map fst d).
Proof.
  induction d as [|[k y] d IH]; intros x e H; simpl in *; [discriminate|].
  destruct (Nat.eqb k x) eqn:E.
  - apply Nat.eqb_eq in E; now left.
  - right; eapply IH; eassumption.
Qed.


Lemma deref_entry : forall (d : Document) x e,
  deref d x = Some e -> In (x, e) d.
Proof.
  induction d as [|[k y] d IH]; intros x e H; simpl in *; [discriminate|].
  destruct (Nat.eqb k x) eqn:E.
  - apply Nat.eqb_eq in E; injection H as <-; subst; now left.
  - right; now apply IH.
Qed.

(** Where no handle names two entries, an entry is what its handle
    refers to. *)
Lemma deref_NoDup : forall (d : Document) k e,
  NoDup (map fst d) -> In (k, e) d -> deref d k = Some e.
Proof.
  induction d as [|[k0 e0] d IH]; intros k e Hnd Hin; simpl in *;
    [contradiction|].
  inversion Hnd as [|? ? Hk Hnd']; subst.
  destruct Hin as [E | Hin].
  - injection E as -> ->; now rewrite Nat.eqb_refl.
  - destruct (Nat.eqb k0 k) eqn:E; [|now apply IH].
    apply Nat.eqb_eq in E; subst k0.
    elim Hk; apply in_map_iff; exists (k, e); split; [reflexivity|assumption].
Qed.

(** The test of well-formedness is sound. *)
Lemma treeOrderb_sound : forall d seen,
  treeOrderb seen d = true ->
  NoDup (map fst seen) ->
  NoDup (map fst (seen ++ d)) /\
  forall l1 k e l2 p,
    d = l1 ++ (k, e) :: l2 ->
    parentElement e = Some p ->
    exists pe,
      In (p, pe) (seen ++ l1) /\
      (isConnected e = true -> isConnected pe = true).
Proof.
  induction d as [|[k e] d IH]; intros seen H Hnd.
  - rewrite app_nil_r; split; [assumption|].
    intros [|a l1] k e l2 p E; discriminate E.
  - cbn [treeOrderb] in H.
    apply andb_true_iff in H; destruct H as (H12 & H3).
    apply andb_true_iff in H12; destruct H12 as (H1 & H2).
    assert (Hk : ~ In k (map fst seen)).
    { intros Hin; apply memH_In in Hin; rewrite Hin in H1; discriminate H1. }
    destruct (IH (seen ++ [(k, e)]) H3) as (Hnd' & Hp').
    { rewrite map_app; cbn [map fst].
      apply NoDup_app; [assumption | repeat constructor; intros [] |].
      intros a Ha [<-|[]]; contradiction. }
    rewrite <- app_assoc in Hnd'; cbn [app] in Hnd'.
    split; [assumption|].
    intros [|a l1] k0 e0 l2 p E Hpar; cbn [app] in E.
    + injection E as <- <- _.
      rewrite Hpar in H2.
      destruct (deref seen p) as [pe|] eqn:Ep; [|discriminate H2].
      exists pe; rewrite app_nil_r; split; [now apply deref_entry|].
      intros Hc; rewrite Hc in H2; exact H2.
    + injection E as <- E2.
      destruct (Hp' l1 k0 e0 l2 p E2 Hpar) as (pe & Hin & Hc).
      exists pe; split; [|assumption].
      now rewrite <- app_assoc in Hin.
Qed.

Lemma wellFormedb_sound : forall d, wellFormedb d = true -> wellFormed d.
Proof.
  intros d H; destruct (treeOrderb_sound d [] H) as (Hnd & Hp);
    [constructor|].
  split; assumption.
Qed.

(** Well-formedness looks at handles, parents and connectedness only. *)
Lemma wellFormed_map : forall (g : handle * Element -> handle * Element) d,
  (forall he, fst (g he) = fst he /\
              parentElement (snd (g he)) = parentElement (snd he) /\
              isConnected (snd (g he)) = isConnected (snd he)) ->
  wellFormed d <-> wellFormed (map g d).
Proof.
  intros g d Hg.
  assert (Hk : map fst (map g d) = map fst d).
  { rewrite map_map; apply map_ext; intros he; apply Hg. }
  split; intros (Hnd & Hp); (split; [congruence|]).
  - intros l1' k e' l2' p E Hpar.
    apply map_eq_app in E; destruct E as (l1 & rest & -> & <- & E).
    destruct rest as [|[k0 e0] l2]; [discriminate E|].
    cbn [map] in E; injection E as E _.
    destruct (Hg (k0, e0)) as (G1 & G2 & G3); rewrite E in G1, G2, G3.
    cbn [fst snd] in G1, G2, G3; subst k0.
    destruct (Hp l1 k e0 l2 p eq_refl) as (pe & Hin & Hc); [congruence|].
    destruct (Hg (p, pe)) as (P1 & P2 & P3); cbn [fst snd] in P1, P3.
    exists (snd (g (p, pe))); split.
    + apply in_map_iff; exists (p, pe); split; [|assumption].
      rewrite <- P1 at 2; apply surjective_pairing.
    + rewrite P3, G3; exact Hc.
  - intros l1 k e l2 p -> Hpar.
    destruct (Hg (k, e)) as (G1 & G2 & G3); cbn [fst snd] in G1, G2, G3.
    destruct (Hp (map g l1) k (snd (g (k, e))) (map g l2) p)
      as (pe' & Hin & Hc).
    + rewrite map_app; cbn [map]; f_equal; f_equal.
      rewrite <- G1 at 2; now destruct (g (k, e)).
    + congruence.
    + apply in_map_iff in Hin; destruct Hin as ([p0 pe] & E & Hin).
      destruct (Hg (p0, pe)) as (P1 & P2 & P3); rewrite E in P1, P3.
      cbn [fst snd] in P1, P3; subst p0.
      exists pe; split; [assumption|].
      rewrite <- P3, <- G3; exact Hc.
Qed.

Lemma wellFormed_same : forall d d',
  sameButClasses d d' -> wellFormed d -> wellFormed d'.
Proof.
  intros d d' E H; unfold sameButClasses, noClasses in E.
  set (g := fun he : handle * Element => (fst he, setClassList [] (snd he)))
    in E.
  assert (Hg : forall he, fst (g he) = fst he /\
                 parentElement (snd (g he)) = parentElement (snd he) /\
                 isConnected (snd (g he)) = isConnected (snd he))
    by (intros [k []]; repeat split).
  apply (wellFormed_map g d' Hg); rewrite <- E.
  now apply (wellFormed_map g d Hg).
Qed.

(** The pass that collects a subtree, in two parts. *)
Lemma subtreeFrom_app : forall l1 l2 acc r,
  subtreeFrom acc r (l1 ++ l2) = subtreeFrom (subtreeFrom acc r l1) r l2.
Proof.
  induction l1 as [|[k e] l1 IH]; intros l2 acc r; simpl; [reflexivity|].
  apply IH.
Qed.

Lemma subtreeFrom_from : forall l acc r k,
  In k (subtreeFrom acc r l) -> In k acc \/ In k (map fst l).
Proof.
  induction l as [|[k0 e0] l IH]; intros acc r k H; simpl in *; [now left|].
  apply IH in H; destruct H as [H | H]; [|now right; right].
  destruct (Nat.eqb k0 r || _); [|now left].
  apply in_app_or in H; destruct H as [H | [<- | []]];
    [now left | right; now left].
Qed.

(** The subtree holds the children of its elements. *)
Lemma subtree_child : forall l1 k e l2 r p,
  NoDup (map fst (l1 ++ (k, e) :: l2)) ->
  parentElement e = Some p ->
  In p (map fst l1) ->
  In p (subtree (l1 ++ (k, e) :: l2) r) ->
  In k (subtree (l1 ++ (k, e) :: l2) r).
Proof.
  intros l1 k e l2 r p Hnd Hpar Hp1 Hin; unfold subtree in *.
  rewrite subtreeFrom_app in *; cbn [subtreeFrom] in *; rewrite Hpar in *.
  set (acc1 := subtreeFrom [] r l1) in *.
  rewrite map_app in Hnd; cbn [map fst] in Hnd.
  assert (Hnot : ~ In p (k :: map fst l2)).
  { intros Hin2; revert Hnd Hp1 Hin2; clear; intros Hnd Hp1 Hin2.
    induction l1 as [|a l1 IH]; simpl in *; [contradiction|].
    inversion Hnd as [|? ? Ha Hnd']; subst.
    destruct Hp1 as [<- | Hp1]; [|now apply IH].
    apply Ha, in_or_app; now right. }
  assert (Hacc : In p acc1).
  { apply subtreeFrom_from in Hin; destruct Hin as [Hin | Hin];
      [|elim Hnot; now right].
    destruct (Nat.eqb k r || memH p acc1); [|assumption].
    apply in_app_or in Hin; destruct Hin as [Hin | [<- | []]];
      [assumption | elim Hnot; now left]. }
  apply memH_In in Hacc; rewrite Hacc, orb_true_r.
  apply subtreeFrom_keeps, in_or_app; right; now left.
Qed.

(** [el.remove()] leaves a well-formed tree. *)
Lemma wellFormed_remove : forall h d,
  wellFormed d -> wellFormed (remove h d).
Proof.
  intros h d (Hnd & Hp); unfold remove.
  set (g := fun he : handle * Element =>
              (fst he,
               if memH (fst he) (subtree d h)
               then setConnected false
                      (if Nat.eqb (fst he) h then setParent None (snd he)
                       else snd he)
               else if Nat.eqb (fst he) h then setParent None (snd he)
                    else snd he)).
  change (wellFormed (map g d)).
  assert (Hk : map fst (map g d) = map fst d)
    by (rewrite map_map; apply map_ext; intros he; reflexivity).
  split; [now rewrite Hk|].
  intros l1' k e' l2' p E Hpar.
  apply map_eq_app in E; destruct E as (l1 & rest & Hd & <- & E).
  destruct rest as [|[k0 e0] l2]; [discriminate E|].
  cbn [map] in E; unfold g at 1 in E; cbn [fst snd] in E.
  injection E as -> E _.
  assert (Hpar0 : parentElement e0 = Some p).
  { rewrite <- Hpar, <- E.
    destruct (memH k (subtree d h)), (Nat.eqb k h) eqn:Ek, e0;
      try reflexivity; rewrite <- E in Hpar; discriminate Hpar. }
  destruct (Hp l1 k e0 l2 p Hd Hpar0) as (pe & Hin & Hc).
  exists (snd (g (p, pe))); split.
  - apply in_map_iff; exists (p, pe); split; [reflexivity | assumption].
  - intros Hc'.
    assert (Hks : memH k (subtree d h) = false).
    { destruct (memH k (subtree d h)); [|reflexivity].
      rewrite <- E in Hc'; destruct (Nat.eqb k h), e0; discriminate Hc'. }
    assert (Hc0 : isConnected e0 = true).
    { rewrite <- Hc', <- E, Hks. now destruct (Nat.eqb k h), e0. }
    assert (Hps : memH p (subtree d h) = false).
    { destruct (memH p (subtree d h)) eqn:Eps; [|reflexivity].
      apply memH_In in Eps; rewrite Hd in Eps, Hnd.
      assert (Hin' : In k (subtree (l1 ++ (k, e0) :: l2) h)).
      { apply (subtree_child l1 k e0 l2 h p Hnd Hpar0); [|assumption].
        apply in_map_iff; exists (p, pe); split; [reflexivity|assumption]. }
      rewrite <- Hd in Hin'; apply memH_In in Hin'; congruence. }
    unfold g; cbn [fst snd]; rewrite Hps.
    rewrite <- (Hc Hc0). now destruct (Nat.eqb p h), pe.
Qed.

Lemma wellFormed_removeEach : forall els d,
  wellFormed d -> wellFormed (fold_left (fun d' h => remove h d') els d).
Proof.
  induction els as [|h els IH]; intros d H; simpl; [assumption|].
  now apply IH, wellFormed_remove.
Qed.

(** In a well-formed tree [getElementById] finds an element in the
    document, and the parent of an element in the document is in the
    document. *)
Lemma wellFormed_found : forall d id h,
  wellFormed d -> getElementById d id = Some h ->
  exists e, deref d h = Some e /\ isConnected e = true.
Proof.
  intros d id h (Hnd & _) H.
  assert (Hin : exists e, In (h, e) d /\ isConnected e = true).
  { clear Hnd; induction d as [|[k e] d IH]; simpl in H; [discriminate|].
    destruct (isConnected e && negb (String.eqb id EmptyString)
              && String.eqb (elemId e) id) eqn:E.
    - injection H as ->; exists e; split; [now left|].
      apply andb_true_iff in E; destruct E as (E & _).
      apply andb_true_iff in E; now destruct E.
    - destruct (IH H) as (e' & Hin & Hc); exists e'; split;
        [now right | assumption]. }
  destruct Hin as (e & Hin & Hc); exists e; split; [|assumption].
  now apply deref_NoDup.
Qed.

Lemma wellFormed_parent : forall d h e p,
  wellFormed d -> deref d h = Some e -> isConnected e = true ->
  parentElement e = Some p ->
  exists pe, deref d p = Some pe /\ isConnected pe = true.
Proof.
  intros d h e p (Hnd & Hp) Hd Hc Hpar.
  apply deref_entry, in_split in Hd; destruct Hd as (l1 & l2 & Hd).
  destruct (Hp l1 h e l2 p Hd Hpar) as (pe & Hin & Hcp).
  exists pe; split; [|auto].
  apply deref_NoDup; [assumption|].
  rewrite Hd; apply in_or_app; now left.
Qed.

(** The element that stands for a field found by its id is in the
    document. *)
Lemma stands_connected : forall d id h t te,
  wellFormed d ->
  getElementById d id = Some h ->
  labelOrSelf (Some h) d = Ok (Some t) ->
  deref d t = Some te ->
  isConnected te = true.
Proof.
  intros d id h t te Hw Hg Hl Ht.
  destruct (wellFormed_found d id h Hw Hg) as (e & He & Hc).
  unfold labelOrSelf in Hl; rewrite He in Hl; injection Hl as Hl.
  destruct (String.eqb (tagName e) "INPUT").
  - destruct (wellFormed_parent d h e t Hw He Hc Hl) as (pe & Hpe & Hcp).
    congruence.
  - injection Hl as <-; congruence.
Qed.

(** Removing the elements of a list, seen from one element. *)
Lemma removeEach_deref : forall els d x ex,
  deref d x = Some ex ->
  exists ex',
    deref (fold_left (fun d' h => remove h d') els d) x = Some ex' /\
    ex' = setConnected (isConnected ex') (setParent (parentElement ex') ex) /\
    (isConnected ex' = true -> isConnected ex = true) /\
    (parentElement ex' = parentElement ex \/ parentElement ex' = None) /\
    (In x els -> isConnected ex' = false /\ parentElement ex' = None).
Proof.
  induction els as [|h els IH]; intros d x ex Hx; simpl.
  - exists ex; split; [assumption|].
    split; [now destruct ex|]. split; [auto|]. split; [now left|].
    intros [].
  - pose proof (deref_remove h d x) as H1; rewrite Hx in H1; simpl in H1.
    destruct (IH (remove h d) x _ H1) as (ex' & Hd & Hsh & Hc & Hp & Hin).
    exists ex'; split; [assumption|].
    set (e1 := if Nat.eqb x h then setParent None ex else ex) in *.
    set (e2 := if memH x (subtree d h) then setConnected false e1 else e1)
      in *.
    assert (Hc2 : isConnected e2 = true -> isConnected ex = true).
    { unfold e2, e1.
      destruct (memH x (subtree d h)), (Nat.eqb x h), ex; simpl; auto;
        discriminate. }
    assert (Hp2 : parentElement e2 = parentElement ex \/
                  parentElement e2 = None).
    { unfold e2, e1.
      destruct (memH x (subtree d h)), (Nat.eqb x h), ex; simpl; auto. }
    split.
    { rewrite Hsh at 1; unfold e2, e1.
      destruct (memH x (subtree d h)), (Nat.eqb x h), ex; reflexivity. }
    split; [auto|]. split.
    { destruct Hp as [Hp | Hp]; [rewrite Hp; exact Hp2 | now right]. }
    intros [<- | Hi]; [|now apply Hin].
    assert (Hsub : memH h (subtree d h) = true)
      by (apply memH_In, subtree_root; eapply deref_In; eassumption).
    assert (He2 : isConnected e2 = false /\ parentElement e2 = None).
    { unfold e2, e1; rewrite Hsub, Nat.eqb_refl. now destruct ex. }
    destruct He2 as (Hc0 & Hp0); split.
    + destruct (isConnected ex') eqn:E; [|reflexivity].
      rewrite <- Hc0; symmetry; now apply Hc.
    + destruct Hp as [Hp | Hp]; [now rewrite Hp | exact Hp].
Qed.

(* ================================================================= *)
(** ** [showHint] *)

Lemma update_keys : forall h f d, map fst (update h f d) = map fst d.
Proof.
  intros h f d; induction d as [|[k e] d IH]; simpl; [reflexivity|].
  destruct (Nat.eqb k h); simpl; [reflexivity | now rewrite IH].
Qed.

Lemma freshHandle_keys : forall d d',
  map fst d = map fst d' -> freshHandle d = freshHandle d'.
Proof.
  assert (H : forall d : Document,
            fold_right (fun he m => Nat.max (fst he) m) 0 d
            = fold_right Nat.max 0 (map fst d)).
  { induction d as [|he d IH]; [reflexivity|].
    cbn [fold_right map]; now rewrite IH. }
  intros d d' E; unfold freshHandle; now rewrite !H, E.
Qed.

Lemma deref_bound : forall d h e,
  deref d h = Some e -> h < freshHandle d.
Proof.
  unfold freshHandle; induction d as [|[k x] d IH]; intros h e H; simpl in *;
    [discriminate|].
  destruct (Nat.eqb k h) eqn:E.
  - apply Nat.eqb_eq in E; subst k; lia.
  - specialize (IH h e H); lia.
Qed.

Lemma deref_fresh : forall d, deref d (freshHandle d) = None.
Proof.
  intros d; destruct (deref d (freshHandle d)) as [e|] eqn:E; [|reflexivity].
  apply deref_bound in E; lia.
Qed.

Lemma deref_placeAfter : forall sub x d y,
  deref d (fst x) = None ->
  deref (placeAfter sub x d) y
  = if Nat.eqb (fst x) y then Some (snd x) else deref d y.
Proof.
  intros sub [n el] d y; simpl; induction d as [|[k e] d IH]; intros Hn;
    simpl in *.
  - reflexivity.
  - destruct (Nat.eqb k n) eqn:Ekn; [discriminate Hn|].
    destruct (existsb _ d); simpl.
    + rewrite (IH Hn).
      destruct (Nat.eqb k y) eqn:Eky; [|reflexivity].
      apply Nat.eqb_eq in Eky; subst k.
      rewrite Nat.eqb_sym, Ekn; reflexivity.
    + destruct (Nat.eqb k y) eqn:Eky; [|reflexivity].
      apply Nat.eqb_eq in Eky; subst k.
      rewrite Nat.eqb_sym, Ekn; reflexivity.
Qed.

Lemma length_placeAfter : forall sub x d,
  List.length (placeAfter sub x d) = S (List.length d).
Proof.
  intros sub x d; induction d as [|he d IH]; simpl; [reflexivity|].
  destruct (existsb _ d); simpl; [now rewrite IH | reflexivity].
Qed.

Lemma filter_placeAfter : forall (p : handle * Element -> bool) sub x d,
  filter p d = [] -> filter p (placeAfter sub x d) = filter p [x].
Proof.
  intros p sub x d; induction d as [|he d IH]; intros H; simpl in *;
    [reflexivity|].
  destruct (p he) eqn:E; [discriminate H|].
  destruct (existsb _ d); simpl; rewrite E.
  - rewrite (IH H); reflexivity.
  - rewrite H; reflexivity.
Qed.

Lemma length_update : forall h f d,
  List.length (update h f d) = List.length d.
Proof.
  intros h f d; rewrite <- (length_map fst), update_keys.
  apply length_map.
Qed.

Lemma filter_update : forall (p : handle * Element -> bool) h f d,
  (forall k e, p (k, f e) = p (k, e)) ->
  map fst (filter p (update h f d)) = map fst (filter p d).
Proof.
  intros p h f d Hp; induction d as [|[k e] d IH]; simpl; [reflexivity|].
  destruct (Nat.eqb k h); simpl.
  - rewrite Hp; now destruct (p (k, e)).
  - destruct (p (k, e)); simpl; now rewrite IH.
Qed.

Lemma length_append : forall s1 s2 : string,
  String.length (s1 ++ s2) = String.length s1 + String.length s2.
Proof.
  induction s1 as [|c s1 IH]; intros s2; simpl; [reflexivity|].
  now rewrite IH.
Qed.

(** The classes of hints are none of the classes the class adds to or
    removes from a field. *)
Lemma hintClass_other : forall id tok,
  In tok ["error"; "valid"; "not-valid"] ->
  String.eqb (hintClass id) tok = false.
Proof.
  intros id tok H; apply String.eqb_neq; intros E; unfold hintClass in E.
  assert (Hl : String.length (id ++ "-hint") = String.length tok)
    by now rewrite E.
  rewrite length_append in Hl; simpl in H, Hl.
  destruct H as [<- | [<- | [<- | []]]]; simpl in Hl.
  - destruct id; [discriminate E | simpl in Hl; lia].
  - destruct id; [discriminate E | simpl in Hl; lia].
  - do 5 (destruct id as [|? id]; simpl in Hl; try lia).
    simpl in E; injection E; intros; discriminate.
Qed.

(** Where [showHint] returns: the elements it found and the document it
    leaves. *)
Lemma showHint_run : forall id r d d',
  showHint id r d = (Ok tt, d') ->
  exists h e t te,
    getElementById d id = Some h /\
    deref d h = Some e /\
    Some t = (if String.eqb (tagName e) "INPUT" then parentElement e
              else Some h) /\
    deref d t = Some te /\
    checkTokens ["hint"; hintClass id] = Ok tt /\
    d' = insertBeforeEnd t
           (hintElement (if String.eqb (tagName te) "FIELDSET"
                         then "P" else "SPAN") id (message r))
           (update t (fun x => setClassList
                                 (addTokens ["not-valid"] (classList x)) x)
              (update t (fun x => setClassList
                                    (removeToken "valid" (classList x)) x)
                 (update h (fun x => setClassList
                                       (addTokens ["error"] (classList x)) x)
                         d))).
Proof.
  intros id r d d' H; unfold showHint, bind, mutate, reads, lift, modify in H.
  destruct (getElementById d id) as [h|] eqn:Hg; [|discriminate H].
  destruct (classListAdd (Some h) ["error"] d) as [d1|] eqn:E1;
    [|discriminate H].
  apply classListAdd_run in E1; destruct E1 as (Hh & ->).
  destruct (deref d h) as [e|] eqn:Hd; [clear Hh | now elim Hh].
  unfold labelOrSelf in H; rewrite deref_update, Nat.eqb_refl, Hd in H.
  cbn [option_map] in H.
  replace (tagName (setClassList (addTokens ["error"] (classList e)) e))
    with (tagName e) in H by now destruct e.
  replace (parentElement (setClassList (addTokens ["error"] (classList e)) e))
    with (parentElement e) in H by now destruct e.
  set (d1 := update h _ d) in H.
  destruct (if String.eqb (tagName e) "INPUT" then parentElement e
            else Some h) as [t|] eqn:Et; [|discriminate H].
  destruct (classListRemove (Some t) "valid" d1) as [d2|] eqn:E2;
    [|discriminate H].
  apply classListRemove_run in E2; destruct E2 as (Ht & ->).
  destruct (classListAdd (Some t) ["not-valid"] _) as [d3|] eqn:E3;
    [|discriminate H].
  apply classListAdd_run in E3; destruct E3 as (_ & ->).
  destruct (checkTokens ["hint"; hintClass id]) as [[]|err] eqn:Ec;
    [|discriminate H].
  injection H as <-.
  assert (Hte : exists te, deref d t = Some te).
  { subst d1; rewrite deref_update in Ht.
    destruct (Nat.eqb h t) eqn:Eht.
    - apply Nat.eqb_eq in Eht; subst t; eauto.
    - destruct (deref d t) as [te|]; [eauto | now elim Ht]. }
  destruct Hte as (te & Hte).
  exists h, e, t, te; repeat split; auto.
  f_equal; f_equal.
  rewrite !deref_update, !Nat.eqb_refl; subst d1; rewrite deref_update.
  destruct (Nat.eqb h t) eqn:Eht.
  - apply Nat.eqb_eq in Eht; subst t.
    rewrite Hd in *; injection Hte as <-. now destruct e.
  - rewrite Hte; now destruct te.
Qed.

(** Where [showHint] returns it has made one element, the last child of
    the element that stands for the field, and changed class lists. *)
Lemma showHint_new : forall id r d d',
  showHint id r d = (Ok tt, d') ->
  exists h t te,
    getElementById d id = Some h /\
    labelOrSelf (Some h) d = Ok (Some t) /\
    deref d t = Some te /\
    List.length d' = S (List.length d) /\
    deref d' (freshHandle d)
    = Some (mkElement (if String.eqb (tagName te) "FIELDSET"
                       then "P" else "SPAN")
              EmptyString EmptyString EmptyString None false
              ["hint"; hintClass id]
              [("role", "status"); ("aria-live", "polite");
               ("style", "display:block")]
              (message r) (Some t) (isConnected te)) /\
    (forall x,
       x <> freshHandle d ->
       deref d' x
       = option_map
           (fun ex => setClassList (shownInvalid h t x (classList ex)) ex)
           (deref d x)) /\
    (filter (shownHint (hintClass id)) d = [] ->
     hintsShown d' id = if isConnected te then [freshHandle d] else []).
Proof.
  intros id r d d' H.
  destruct (showHint_run id r d d' H)
    as (h & e & t & te & Hg & Hd & Et & Hte & Hc & ->).
  set (f1 := fun x => setClassList (addTokens ["error"] (classList x)) x).
  set (f2 := fun x => setClassList (removeToken "valid" (classList x)) x).
  set (f3 := fun x => setClassList (addTokens ["not-valid"] (classList x)) x).
  set (d3 := update t f3 (update t f2 (update h f1 d))).
  assert (Hk : map fst d3 = map fst d)
    by (unfold d3; now rewrite !update_keys).
  assert (Hn : freshHandle d3 = freshHandle d)
    by now apply freshHandle_keys.
  assert (Hx : forall x,
            deref d3 x
            = option_map
                (fun ex => setClassList (shownInvalid h t x (classList ex)) ex)
                (deref d x)).
  { intros x; unfold d3; rewrite !deref_update; unfold shownInvalid.
    destruct (Nat.eqb t x) eqn:Etx.
    - apply Nat.eqb_eq in Etx; subst x.
      rewrite ?Nat.eqb_refl.
      destruct (Nat.eqb h t) eqn:Eht.
      + apply Nat.eqb_eq in Eht; subst t. rewrite ?Nat.eqb_refl, Hd.
        now destruct e.
      + rewrite ?Eht, Hte. now destruct te.
    - destruct (Nat.eqb h x) eqn:Ehx.
      + apply Nat.eqb_eq in Ehx; subst x. now rewrite Hd.
      + now destruct (deref d x) as [[]|]. }
  assert (Ht3 : exists te3, deref d3 t = Some te3 /\
                            isConnected te3 = isConnected te).
  { rewrite Hx, Hte; simpl; eexists; split; [reflexivity|].
    now destruct te. }
  destruct Ht3 as (te3 & Ht3 & Hc3).
  unfold insertBeforeEnd; rewrite Ht3, Hn, Hc3.
  exists h, t, te; split; [assumption|].
  split; [unfold labelOrSelf; now rewrite Hd, <- Et|].
  split; [assumption|].
  split; [rewrite length_placeAfter; unfold d3; now rewrite !length_update|].
  assert (Hf : deref d3 (freshHandle d) = None)
    by (rewrite <- Hn; apply deref_fresh).
  split; [|split].
  - rewrite deref_placeAfter by exact Hf; cbn [fst snd].
    now rewrite Nat.eqb_refl.
  - intros x Hne; rewrite deref_placeAfter by exact Hf; cbn [fst snd].
    destruct (Nat.eqb (freshHandle d) x) eqn:E;
      [apply Nat.eqb_eq in E; now elim Hne | apply Hx].
  - intros Hnone; unfold hintsShown.
    rewrite filter_placeAfter.
    + simpl; unfold shownHint at 1; simpl.
      rewrite String.eqb_refl, orb_true_r.
      destruct (String.eqb (hintClass id) "hint"); simpl;
        now destruct (isConnected te).
    + apply map_eq_nil with (f := fst).
      unfold d3; rewrite !filter_update; [now rewrite Hnone| | |];
        intros k x; unfold shownHint, f1, f2, f3; cbn [snd];
        (replace (isConnected (setClassList _ x)) with (isConnected x)
          by now destruct x);
        f_equal.
      * replace (classList (setClassList
                              (addTokens ["error"] (classList x)) x))
          with (addTokens ["error"] (classList x)) by now destruct x.
        rewrite hasToken_addToken, (hintClass_other id "error")
          by (simpl; auto).
        now rewrite orb_false_r.
      * replace (classList (setClassList
                              (removeToken "valid" (classList x)) x))
          with (removeToken "valid" (classList x)) by now destruct x.
        rewrite hasToken_removeToken, (hintClass_other id "valid")
          by (simpl; auto).
        now rewrite andb_true_r.
      * replace (classList (setClassList
                              (addTokens ["not-valid"] (classList x)) x))
          with (addTokens ["not-valid"] (classList x)) by now destruct x.
        rewrite hasToken_addToken, (hintClass_other id "not-valid")
          by (simpl; auto).
        now rewrite orb_false_r.
Qed.
(** Where [placeAfter] puts the new entry: right after the last entry of
    the subtree. *)
Lemma placeAfter_split : forall sub x d,
  (exists he, In he d /\ memH (fst he) sub = true) ->
  exists l1 last l2,
    d = l1 ++ last :: l2 /\
    memH (fst last) sub = true /\
    Forall (fun he => memH (fst he) sub = false) l2 /\
    placeAfter sub x d = l1 ++ last :: x :: l2.
Proof.
  intros sub x; induction d as [|he d IH]; intros (y & Hin & Hy);
    [contradiction|].
  cbn [placeAfter].
  destruct (existsb (fun he' => memH (fst he') sub) d) eqn:E.
  - apply existsb_exists in E.
    destruct (IH E) as (l1 & last & l2 & -> & Hl & Hf & Hpl).
    exists (he :: l1), last, l2; cbn [app]; rewrite Hpl; auto.
  - assert (Hno : forall z, In z d -> memH (fst z) sub = false).
    { intros z Hz; destruct (memH (fst z) sub) eqn:Ez; [|reflexivity].
      assert (Hex : existsb (fun he' => memH (fst he') sub) d = true)
        by (apply existsb_exists; eauto).
      congruence. }
    exists [], he, d; split; [reflexivity|]. split.
    + destruct Hin as [<- | Hin]; [assumption|].
      rewrite (Hno y Hin) in Hy; discriminate Hy.
    + split; [now apply Forall_forall | reflexivity].
Qed.

Lemma subtreeFrom_update : forall h f d acc r,
  (forall e, parentElement (f e) = parentElement e) ->
  subtreeFrom acc r (update h f d) = subtreeFrom acc r d.
Proof.
  intros h f d; induction d as [|[k e] d IH]; intros acc r Hf; simpl;
    [reflexivity|].
  destruct (Nat.eqb k h); simpl; [now rewrite Hf | now apply IH].
Qed.

(** An element whose parent is the root, stored after the root, is in
    the subtree. *)
Lemma subtree_root_child : forall l1 k e l2 t,
  parentElement e = Some t ->
  In t (map fst l1) ->
  In k (subtree (l1 ++ (k, e) :: l2) t).
Proof.
  intros l1 k e l2 t Hpar Ht; unfold subtree.
  rewrite subtreeFrom_app; cbn [subtreeFrom]; rewrite Hpar.
  pose proof (subtree_root l1 t Ht) as Hacc; unfold subtree in Hacc.
  apply memH_In in Hacc; rewrite Hacc, orb_true_r.
  apply subtreeFrom_keeps, in_or_app; right; now left.
Qed.

(** [insertAdjacentElement('beforeend', el)]: the new entry comes right
    after the last entry of the subtree of the target, and no entry
    after it is in that subtree or a child of the target. *)
Lemma insertBeforeEnd_place : forall t el d te,
  deref d t = Some te ->
  exists l1 last l2,
    d = l1 ++ last :: l2 /\
    insertBeforeEnd t el d
    = l1 ++ last
         :: (freshHandle d,
             setConnected (isConnected te) (setParent (Some t) el)) :: l2 /\
    In t (map fst (l1 ++ [last])) /\
    In (fst last) (subtree d t) /\
    Forall (fun he => ~ In (fst he) (subtree d t) /\
                      parentElement (snd he) <> Some t) l2.
Proof.
  intros t el d te Ht; unfold insertBeforeEnd; rewrite Ht.
  assert (Hroot : In t (subtree d t))
    by (eapply subtree_root, deref_In; exact Ht).
  destruct (placeAfter_split (subtree d t)
              (freshHandle d,
               setConnected (isConnected te) (setParent (Some t) el)) d)
    as (l1 & last & l2 & Hd & Hl & Hf & Hpl).
  { exists (t, te); split; [now apply deref_entry | now apply memH_In]. }
  rewrite Forall_forall in Hf.
  exists l1, last, l2; split; [assumption|]. split; [assumption|].
  assert (Hin : In t (map fst (l1 ++ [last]))).
  { pose proof (deref_In _ _ _ Ht) as H; rewrite Hd, map_app in H.
    rewrite map_app; cbn [map] in *.
    apply in_app_or in H; apply in_or_app.
    destruct H as [H | [H | H]]; [now left | right; now left|].
    apply in_map_iff in H; destruct H as (z & <- & Hz).
    apply memH_In in Hroot; rewrite (Hf z Hz) in Hroot; discriminate Hroot. }
  split; [assumption|]. split; [now apply memH_In|].
  apply Forall_forall; intros [k e] Hke; split.
  - intros Hk; apply memH_In in Hk.
    rewrite (Hf _ Hke) in Hk; discriminate Hk.
  - intros Hpar.
    pose proof (Hf _ Hke) as Hk; cbn [fst] in Hk.
    apply in_split in Hke; destruct Hke as (m1 & m2 & ->).
    assert (Hsub : In k (subtree d t)).
    { rewrite Hd.
      replace (l1 ++ last :: m1 ++ (k, e) :: m2)
        with ((l1 ++ last :: m1) ++ (k, e) :: m2)
        by (rewrite <- app_assoc; reflexivity).
      apply subtree_root_child; [assumption|].
      rewrite map_app in Hin |- *; cbn [map] in *.
      apply in_app_or in Hin; apply in_or_app.
      destruct Hin as [H | [H | []]]; [now left | right; now left]. }
    apply memH_In in Hsub; rewrite Hk in Hsub; discriminate Hsub.
Qed.

(** Where [showHint] puts the element it makes. *)
Lemma showHint_place : forall id r d d',
  showHint id r d = (Ok tt, d') ->
  exists h t te l1 last l2,
    getElementById d id = Some h /\
    labelOrSelf (Some h) d = Ok (Some t) /\
    deref d t = Some te /\
    d' = l1 ++ last
            :: (freshHandle d,
                mkElement (if String.eqb (tagName te) "FIELDSET"
                           then "P" else "SPAN")
                  EmptyString EmptyString EmptyString None false
                  ["hint"; hintClass id]
                  [("role", "status"); ("aria-live", "polite");
                   ("style", "display:block")]
                  (message r) (Some t) (isConnected te)) :: l2 /\
    map fst (l1 ++ last :: l2) = map fst d /\
    In t (map fst (l1 ++ [last])) /\
    In (fst last) (subtree d t) /\
    Forall (fun he => ~ In (fst he) (subtree d t) /\
                      parentElement (snd he) <> Some t) l2.
Proof.
  intros id r d d' H.
  destruct (showHint_run id r d d' H)
    as (h & e & t & te & Hg & Hd & Et & Hte & Hc & ->).
  set (f1 := fun x => setClassList (addTokens ["error"] (classList x)) x).
  set (f2 := fun x => setClassList (removeToken "valid" (classList x)) x).
  set (f3 := fun x => setClassList (addTokens ["not-valid"] (classList x)) x).
  set (d3 := update t f3 (update t f2 (update h f1 d))).
  assert (Hk : map fst d3 = map fst d)
    by (unfold d3; now rewrite !update_keys).
  assert (Hn : freshHandle d3 = freshHandle d)
    by now apply freshHandle_keys.
  assert (Hs : subtree d3 t = subtree d t).
  { unfold subtree, d3.
    rewrite !subtreeFrom_update; [reflexivity| | |]; intros []; reflexivity. }
  assert (Ht3 : exists te3, deref d3 t = Some te3 /\
                            isConnected te3 = isConnected te).
  { unfold d3; rewrite !deref_update, !Nat.eqb_refl.
    destruct (Nat.eqb h t) eqn:Eht.
    - apply Nat.eqb_eq in Eht; subst t; rewrite Hte.
      eexists; split; [reflexivity | now destruct te].
    - rewrite Hte; eexists; split; [reflexivity | now destruct te]. }
  destruct Ht3 as (te3 & Ht3 & Hc3).
  destruct (insertBeforeEnd_place t
              (hintElement (if String.eqb (tagName te) "FIELDSET"
                            then "P" else "SPAN") id (message r)) d3 te3 Ht3)
    as (l1 & last & l2 & Hd3 & Hins & Hin & Hlast & Hf).
  exists h, t, te, l1, last, l2; split; [assumption|].
  split; [unfold labelOrSelf; now rewrite Hd, <- Et|].
  split; [assumption|].
  split; [rewrite Hins, Hn, Hc3; reflexivity|].
  split; [now rewrite <- Hd3|].
  rewrite Hs in Hlast, Hf; auto.
Qed.




Lemma hasToken_shownInvalid : forall h t x tok cl,
  hasToken tok (shownInvalid h t x cl)
  = (Nat.eqb t x && String.eqb tok "not-valid")
    || ((hasToken tok cl || (Nat.eqb h x && String.eqb tok "error"))
        && negb (Nat.eqb t x && String.eqb tok "valid")).
Proof.
  intros h t x tok cl; unfold shownInvalid.
  destruct (Nat.eqb t x), (Nat.eqb h x);
    rewrite ?hasToken_addToken, ?hasToken_removeToken, ?hasToken_addToken;
    cbn [andb negb]; rewrite ?orb_false_r, ?andb_true_r;
    try reflexivity.
  - destruct (String.eqb tok "not-valid"), (String.eqb tok "valid"),
      (String.eqb tok "error"), (hasToken tok cl); reflexivity.
  - destruct (String.eqb tok "not-valid"), (String.eqb tok "valid"),
      (hasToken tok cl); reflexivity.
Qed.

Lemma eff_outcome : forall (S A : Type) (m : Eff S A) (s : S) (a : A),
  fst (m s) = Ok a -> m s = (Ok a, snd (m s)).
Proof. intros S A m s a H; destruct (m s); simpl in *; now subst. Qed.

(** X7.  Where [showHint(fieldId, rule)] returns it has made exactly one
    element and changed class lists, nothing else.  The new element is
    the last child of the element that stands for the field (the element
    with that id, or its parent when it is an [<input>]): its parent is
    that element, it is stored right after the last element of the
    subtree of that element, and no element stored after it is in that
    subtree or a child of that element.  It is a [<p>] inside a fieldset
    and a [<span>] elsewhere, it carries the classes [hint] and
    [fieldId-hint], the three attributes and the message of the rule.
    The field has the class [error], the element that stands for it has
    [not-valid] and has lost [valid]; every other class of every element
    is as it was. *)
Theorem showHint_creates : forall id r d d',
  showHint id r d = (Ok tt, d') ->
  exists h t te hint,
    getElementById d id = Some h /\
    labelOrSelf (Some h) d = Ok (Some t) /\
    deref d t = Some te /\
    hint = mkElement (if String.eqb (tagName te) "FIELDSET"
                      then "P" else "SPAN")
             EmptyString EmptyString EmptyString None false
             ["hint"; hintClass id]
             [("role", "status"); ("aria-live", "polite");
              ("style", "display:block")]
             (message r) (Some t) (isConnected te) /\
    List.length d' = S (List.length d) /\
    deref d (freshHandle d) = None /\
    deref d' (freshHandle d) = Some hint /\
    (exists l1 last l2,
       d' = l1 ++ last :: (freshHandle d, hint) :: l2 /\
       map fst (l1 ++ last :: l2) = map fst d /\
       In t (map fst (l1 ++ [last])) /\
       In (fst last) (subtree d t) /\
       Forall (fun he => ~ In (fst he) (subtree d t) /\
                         parentElement (snd he) <> Some t) l2) /\
    forall x ex,
      deref d x = Some ex ->
      exists ex',
        deref d' x = Some ex' /\
        ex' = setClassList (classList ex') ex /\
        forall tok,
          hasToken tok (classList ex')
          = (Nat.eqb t x && String.eqb tok "not-valid")
            || ((hasToken tok (classList ex)
                 || (Nat.eqb h x && String.eqb tok "error"))
                && negb (Nat.eqb t x && String.eqb tok "valid")).
Proof.
  intros id r d d' H.
  destruct (showHint_new id r d d' H)
    as (h & t & te & Hg & Hl & Hte & Hlen & Hnew & Hold & _).
  destruct (showHint_place id r d d' H)
    as (h' & t' & te' & l1 & last & l2 & Hg' & Hl' & Hte' & Hd' & Hk & Hin
        & Hlast & Hf).
  rewrite Hg in Hg'; injection Hg' as <-.
  rewrite Hl in Hl'; injection Hl' as <-.
  rewrite Hte in Hte'; injection Hte' as <-.
  exists h, t, te; eexists.
  repeat (split; [eassumption|]).
  split; [reflexivity|]. split; [assumption|].
  split; [apply deref_fresh|]. split; [assumption|].
  split; [exists l1, last, l2; auto|].
  intros x ex Hx.
  assert (Hne : x <> freshHandle d).
  { intros ->; rewrite deref_fresh in Hx; discriminate Hx. }
  rewrite (Hold x Hne), Hx; simpl.
  eexists; split; [reflexivity|]. split; [now destruct ex|].
  intros tok.
  replace (classList (setClassList (shownInvalid h t x (classList ex)) ex))
    with (shownInvalid h t x (classList ex)) by now destruct ex.
  apply hasToken_shownInvalid.
Qed.

Lemma showHint_creates_witness :
  let d := document Page.submitted in
  let r := mkRule None (valueLength (fun n => Nat.leb 3 n))
                  "Name must be at least 3 characters long" in
  let d' := snd (showHint "name" r d) in
  exists h t te hint,
    getElementById d "name" = Some h /\
    labelOrSelf (Some h) d = Ok (Some t) /\
    deref d t = Some te /\
    hint = mkElement (if String.eqb (tagName te) "FIELDSET"
                      then "P" else "SPAN")
             EmptyString EmptyString EmptyString None false
             ["hint"; hintClass "name"]
             [("role", "status"); ("aria-live", "polite");
              ("style", "display:block")]
             (message r) (Some t) (isConnected te) /\
    List.length d' = S (List.length d) /\
    deref d (freshHandle d) = None /\
    deref d' (freshHandle d) = Some hint /\
    (exists l1 last l2,
       d' = l1 ++ last :: (freshHandle d, hint) :: l2 /\
       map fst (l1 ++ last :: l2) = map fst d /\
       In t (map fst (l1 ++ [last])) /\
       In (fst last) (subtree d t) /\
       Forall (fun he => ~ In (fst he) (subtree d t) /\
                         parentElement (snd he) <> Some t) l2) /\
    forall x ex,
      deref d x = Some ex ->
      exists ex',
        deref d' x = Some ex' /\
        ex' = setClassList (classList ex') ex /\
        forall tok,
          hasToken tok (classList ex')
          = (Nat.eqb t x && String.eqb tok "not-valid")
            || ((hasToken tok (classList ex)
                 || (Nat.eqb h x && String.eqb tok "error"))
                && negb (Nat.eqb t x && String.eqb tok "valid")).
Proof.
  apply (showHint_creates "name"
           (mkRule None (valueLength (fun n => Nat.leb 3 n))
                   "Name must be at least 3 characters long")
           (document Page.submitted)).
  apply eff_outcome; vm_compute; reflexivity.
Defined.

(** On the submitted page the hint of [name] goes right after the input,
    the one child of its label, and before the label of [email]. *)
Example name_hint_place :
  map fst (snd (showHint "name"
                  (mkRule None (valueLength (fun n => Nat.leb 3 n))
                          "Name must be at least 3 characters long")
                  (document Page.submitted)))
  = firstn 3 (map fst (document Page.submitted))
    ++ freshHandle (document Page.submitted)
    :: skipn 3 (map fst (document Page.submitted)).
Proof. vm_compute; reflexivity. Qed.

(* ================================================================= *)
(** ** The hint of a field after [validateField] *)


Lemma lastMethod_conditionCalls : forall ei ri r,
  lastMethod (conditionCalls ei ri r) = None.
Proof. intros; unfold conditionCalls; now destruct (condition r). Qed.

(** [removeHints] and [removeHint] leave a well-formed tree. *)
Lemma removeAll_wellFormed : forall qsa sel d,
  wellFormed d -> wellFormed (snd (removeAll qsa sel d)).
Proof.
  intros qsa sel d H; unfold removeAll, mutate.
  destruct (qsa d None sel) as [els|e]; [|exact H].
  now apply wellFormed_removeEach.
Qed.

Section Hints.

Variable qsa : Document -> option handle -> string -> Result (list handle).
Variable id : string.
Hypothesis engine : selectsHints qsa id.

(** [removeHint] takes every hint of the field out of the document, and
    does nothing else. *)
Lemma removeHint_clears : forall d,
  exists d1,
    removeHint qsa id d = (Ok tt, d1) /\
    detached d d1 /\
    filter (shownHint (hintClass id)) d1 = [].
Proof.
  intros d; unfold removeHint, removeAll, mutate.
  rewrite (engine d); unfold hintsShown.
  eexists; split; [reflexivity|]. split.
  - apply removeEach_detached.
  - apply removeEach_none_shown.
Qed.

(** A rule has failed: the old hints go and one is made, in the
    document. *)
Lemma hint_after_failure : forall r d d',
  wellFormed d ->
  bind (removeHint qsa id) (fun _ => showHint id r) d = (Ok tt, d') ->
  exists n, oneHint d' id r n.
Proof.
  intros r d d' Hw H; unfold bind in H.
  destruct (removeHint_clears d) as (d1 & E & _ & Hnone).
  assert (Hw1 : wellFormed d1).
  { pose proof (removeAll_wellFormed qsa ("." ++ hintClass id) d Hw) as H1.
    unfold removeHint in E; now rewrite E in H1. }
  rewrite E in H.
  destruct (showHint_new id r d1 d' H)
    as (h & t & te & Hg & Hl & Hte & _ & Hnew & _ & Hs).
  pose proof (stands_connected d1 id h t te Hw1 Hg Hl Hte) as Hc.
  rewrite Hc in Hnew, Hs.
  exists (freshHandle d1); eexists; split; [exact Hnew|].
  repeat split. exact (Hs Hnone).
Qed.

(** A rule has passed: the old hints go. *)
Lemma hint_after_pass : forall fld d d',
  bind (showValid fld) (fun _ => removeHint qsa id) d = (Ok tt, d') ->
  hintsShown d' id = [].
Proof.
  intros fld d d' H; unfold bind in H.
  destruct (showValid fld d) as [[[]|e] d1]; [|discriminate H].
  destruct (removeHint_clears d1) as (d2 & E & _ & Hnone).
  rewrite E in H; injection H as <-.
  unfold hintsShown; now rewrite Hnone.
Qed.

Lemma pass_wellFormed : forall fld d d',
  wellFormed d ->
  bind (showValid fld) (fun _ => removeHint qsa id) d = (Ok tt, d') ->
  wellFormed d'.
Proof.
  intros fld d d' Hw H; unfold bind in H.
  destruct (showValid fld d) as [[[]|e] d1] eqn:Es; [|discriminate H].
  apply showValid_same in Es.
  pose proof (removeAll_wellFormed qsa ("." ++ hintClass id) d1
                (wellFormed_same _ _ Es Hw)) as H1.
  unfold removeHint in H; now rewrite H in H1.
Qed.





End Hints.

(** The engine of the page answers class selectors as specified. *)
Lemma selectAll_hints : forall id,
  Page.cssIdent (hintClass id) = true ->
  String.eqb ("." ++ hintClass id) checkedActivities = false ->
  selectsHints Page.selectAll id.
Proof.
  intros id Hc Hn d; unfold Page.selectAll.
  rewrite Hn; simpl; rewrite Hc. reflexivity.
Qed.


(** On the submitted page, where the name typed is too short, the hint
    of [name] is in the document, with the message of the second rule. *)
Example short_name_hint :
  let d' := document (snd (validateField Page.selectAll "name"
                             Page.submitted)) in
  lastMethod (calls (snd (validateField Page.selectAll "name"
                            Page.submitted)))
  = Some (1, Ok false) /\
  hintsShown d' "name" = [freshHandle (document Page.submitted)] /\
  option_map (fun e => (innerText e, isConnected e, parentElement e))
             (deref d' (freshHandle (document Page.submitted)))
  = Some ("Name must be at least 3 characters long", true, Some 2).
Proof. repeat split; vm_compute; reflexivity. Qed.

(* ================================================================= *)
(** ** [showHints] *)

Lemma showHintsBody_showHint : forall e r,
  message r = errorMessage e ->
  showHintsBody e = showHint (errorFieldId e) r.
Proof. intros e r H; unfold showHintsBody, showHint; now rewrite H. Qed.

Lemma maxKey_placeAfter : forall sub x (d : Document),
  fold_right Nat.max 0 (map fst (placeAfter sub x d))
  = Nat.max (fst x) (fold_right Nat.max 0 (map fst d)).
Proof.
  intros sub x d; induction d as [|he d IH]; simpl; [reflexivity|].
  destruct (existsb _ d); simpl; [rewrite IH|]; lia.
Qed.

Lemma freshHandle_max : forall d : Document,
  freshHandle d = S (fold_right Nat.max 0 (map fst d)).
Proof.
  intros d; unfold freshHandle; f_equal.
  induction d as [|he d IH]; [reflexivity|].
  cbn [fold_right map]; now rewrite IH.
Qed.

Lemma showHint_fresh : forall id r d d',
  showHint id r d = (Ok tt, d') -> freshHandle d' = S (freshHandle d).
Proof.
  intros id r d d' H.
  destruct (showHint_run id r d d' H)
    as (h & e & t & te & _ & _ & _ & Hte & _ & ->).
  set (d3 := update t _ (update t _ (update h _ d))).
  assert (Hk : map fst d3 = map fst d)
    by (unfold d3; now rewrite !update_keys).
  unfold insertBeforeEnd.
  destruct (deref d3 t) as [te3|] eqn:E.
  - rewrite (freshHandle_max (placeAfter _ _ _)), maxKey_placeAfter.
    cbn [fst]; rewrite (freshHandle_max d3), Hk, (freshHandle_max d).
    f_equal; lia.
  - exfalso; unfold d3 in E; rewrite !deref_update, !Nat.eqb_refl in E.
    destruct (Nat.eqb h t) eqn:Eht.
    + apply Nat.eqb_eq in Eht; subst t. now rewrite Hte in E.
    + now rewrite Hte in E.
Qed.

Lemma getElementById_update : forall h f d id,
  (forall e, isConnected (f e) = isConnected e /\ elemId (f e) = elemId e) ->
  getElementById (update h f d) id = getElementById d id.
Proof.
  intros h f d id Hf; induction d as [|[k e] d IH]; simpl; [reflexivity|].
  destruct (Nat.eqb k h); simpl.
  - destruct (Hf e) as (-> & ->); reflexivity.
  - now rewrite IH.
Qed.

Lemma getElementById_placeAfter : forall sub x d id,
  elemId (snd x) = EmptyString ->
  getElementById (placeAfter sub x d) id = getElementById d id.
Proof.
  intros sub [n el] d id Hx; simpl in Hx.
  assert (Hn : isConnected el && negb (String.eqb id EmptyString)
               && String.eqb (elemId el) id = false).
  { rewrite Hx; destruct id; simpl; now destruct (isConnected el). }
  induction d as [|[k e] d IH]; simpl.
  - now rewrite Hn.
  - destruct (existsb _ d); simpl.
    + now rewrite IH.
    + now rewrite Hn.
Qed.

(** [showHint] changes nothing [getElementById] or the choice between an
    element and its parent looks at. *)
Lemma showHint_ids : forall id r d d',
  showHint id r d = (Ok tt, d') ->
  (forall id', getElementById d' id' = getElementById d id') /\
  (forall x, deref d x <> None ->
             labelOrSelf (Some x) d' = labelOrSelf (Some x) d).
Proof.
  intros id r d d' H.
  destruct (showHint_new id r d d' H)
    as (h0 & t0 & te0 & _ & _ & _ & _ & _ & Hold & _).
  destruct (showHint_run id r d d' H)
    as (h & e & t & te & _ & _ & _ & Hte & _ & ->).
  split.
  - intros id'.
    set (d3 := update t _ (update t _ (update h _ d))).
    unfold insertBeforeEnd.
    destruct (deref d3 t) as [te3|];
      [rewrite getElementById_placeAfter by reflexivity|];
      unfold d3; rewrite !getElementById_update; auto;
      intros x; now destruct x.
  - intros x Hx; unfold labelOrSelf.
    assert (Hne : x <> freshHandle d).
    { intros ->; now rewrite deref_fresh in Hx. }
    rewrite (Hold x Hne).
    destruct (deref d x) as [ex|]; [|now elim Hx]; simpl.
    now destruct ex.
Qed.

(** The loop of [showHints], where it returns. *)
Lemma showHintsLoop_run : forall es d d',
  showHintsLoop es d = (Ok tt, d') ->
  List.length d' = List.length d + List.length es /\
  freshHandle d' = freshHandle d + List.length es /\
  (forall x ex,
     deref d x = Some ex ->
     exists ex',
       deref d' x = Some ex' /\
       innerText ex' = innerText ex /\
       parentElement ex' = parentElement ex /\
       forall tok, tok <> "valid" ->
                   hasToken tok (classList ex) = true ->
                   hasToken tok (classList ex') = true) /\
  forall i e,
    nth_error es i = Some e ->
    exists hint,
      deref d' (freshHandle d + i) = Some hint /\
      innerText hint = errorMessage e /\
      hasToken "hint" (classList hint) = true /\
      hasToken (hintClass (errorFieldId e)) (classList hint) = true /\
      exists h,
        getElementById d (errorFieldId e) = Some h /\
        labelOrSelf (Some h) d = Ok (parentElement hint).
Proof.
  induction es as [|e es IH]; intros d d' H.
  - simpl in H; injection H as <-.
    split; [cbn [List.length]; lia|]. split; [cbn [List.length]; lia|]. split.
    + intros x ex Hx; exists ex; auto.
    + intros [|i] e Hi; discriminate Hi.
  - simpl in H; unfold bind in H.
    destruct (showHintsBody e d) as [[[]|err] d1] eqn:E1; [|discriminate H].
    rewrite (showHintsBody_showHint e
               (mkRule None (fun _ _ => Ok false) (errorMessage e)) eq_refl)
      in E1.
    pose proof (showHint_fresh _ _ _ _ E1) as Hf1.
    destruct (showHint_new _ _ _ _ E1)
      as (h & t & te & Hg & Hl & Hte & Hlen & Hnew & Hold & _).
    destruct (IH d1 d' H) as (Hlen' & Hf' & Hkeep & Hhints).
    assert (Hstep : forall x ex,
              deref d x = Some ex ->
              exists ex1,
                deref d1 x = Some ex1 /\
                innerText ex1 = innerText ex /\
                parentElement ex1 = parentElement ex /\
                tagName ex1 = tagName ex /\
                elemId ex1 = elemId ex /\
                isConnected ex1 = isConnected ex /\
                forall tok, tok <> "valid" ->
                            hasToken tok (classList ex) = true ->
                            hasToken tok (classList ex1) = true).
    { intros x ex Hx.
      assert (Hne : x <> freshHandle d).
      { intros ->; rewrite deref_fresh in Hx; discriminate Hx. }
      rewrite (Hold x Hne), Hx; simpl.
      eexists; split; [reflexivity|].
      repeat (split; [now destruct ex|]).
      intros tok Hv Ht.
      replace (classList (setClassList
                            (shownInvalid h t x (classList ex)) ex))
        with (shownInvalid h t x (classList ex)) by now destruct ex.
      rewrite hasToken_shownInvalid, Ht.
      apply String.eqb_neq in Hv; rewrite Hv, andb_false_r; simpl.
      apply orb_true_r. }
    split; [cbn [List.length]; lia|]. split; [cbn [List.length]; lia|]. split.
    + intros x ex Hx.
      destruct (Hstep x ex Hx) as (ex1 & Hx1 & Hi1 & Hp1 & _ & _ & _ & Ht1).
      destruct (Hkeep x ex1 Hx1) as (ex' & Hx' & Hi' & Hp' & Ht').
      exists ex'; split; [assumption|].
      split; [congruence|]. split; [congruence|].
      intros tok Hv Ht; apply Ht'; auto.
    + intros [|i] e' Hi; simpl in Hi.
      * injection Hi as <-; rewrite Nat.add_0_r.
        destruct (Hkeep _ _ Hnew) as (ex' & Hx' & Hi' & Hp' & Ht').
        exists ex'; split; [assumption|]. simpl in Hi', Hp'.
        split; [assumption|].
        split; [apply Ht'; [discriminate | reflexivity]|].
        split.
        -- apply Ht'.
           ++ intros Hv; pose proof (hintClass_other (errorFieldId e) "valid")
                as Hn.
              rewrite Hv in Hn; simpl in Hn.
              specialize (Hn (or_intror (or_introl eq_refl))).
              discriminate Hn.
           ++ simpl; rewrite String.eqb_refl; apply orb_true_r.
        -- exists h; split; [assumption | now rewrite Hp'].
      * destruct (Hhints i e' Hi)
          as (hint & Hd & Hm & H1 & H2 & h' & Hg' & Hl').
        exists hint; rewrite Hf1 in Hd.
        replace (freshHandle d + S i) with (S (freshHandle d) + i) by lia.
        repeat (split; [assumption|]).
        destruct (showHint_ids _ _ _ _ E1) as (Hids & Hlab).
        exists h'; rewrite <- Hids; split; [assumption|].
        rewrite <- Hl'; symmetry; apply Hlab.
        intros Hnone.
        assert (Hne : h' <> freshHandle d).
        { intros ->. rewrite Hids in Hg'.
          clear - Hg'. 
          assert (Hb : forall d0 id0 h0, getElementById d0 id0 = Some h0 ->
                                         deref d0 h0 <> None).
          { induction d0 as [|[k x] d0 IHd]; intros id0 h0 Hq; simpl in *;
              [discriminate|].
            destruct (isConnected x && negb (String.eqb id0 EmptyString)
                      && String.eqb (elemId x) id0).
            - injection Hq as ->; now rewrite Nat.eqb_refl.
            - destruct (Nat.eqb k h0); [discriminate | eapply IHd; eauto]. }
          apply (Hb _ _ _ Hg'), deref_fresh. }
        unfold labelOrSelf in Hl'; rewrite (Hold h' Hne), Hnone in Hl'.
        discriminate Hl'.
Qed.

(** X9.  [showHints] makes one hint for each record of [this.errors], in
    the order of the list.  Where it returns, the document has exactly
    as many elements more as there are records; the hint of record [i]
    is a new element with the message of the record and the classes
    [hint] and [fieldId-hint], placed in the element that stands for the
    field of that id (the field, or its parent for an [<input>]); the
    elements that were there keep their text and their parent, and every
    class but [valid].  [this.errors] is not changed.  Called before any
    [validateForm], when [this.errors] is [undefined], it throws a
    [TypeError] and changes nothing. *)
Theorem showHints_one_per_error :
  (forall s s',
     showHints s = (Ok tt, s') ->
     exists es,
       errors s = Some es /\
       s' = setDocument (document s') s /\
       List.length (document s')
       = List.length (document s) + List.length es /\
       (forall x ex,
          deref (document s) x = Some ex ->
          exists ex',
            deref (document s') x = Some ex' /\
            innerText ex' = innerText ex /\
            parentElement ex' = parentElement ex /\
            forall tok, tok <> "valid" ->
                        hasToken tok (classList ex) = true ->
                        hasToken tok (classList ex') = true) /\
       forall i e,
         nth_error es i = Some e ->
         exists hint,
           deref (document s) (freshHandle (document s) + i) = None /\
           deref (document s') (freshHandle (document s) + i) = Some hint /\
           innerText hint = errorMessage e /\
           hasToken "hint" (classList hint) = true /\
           hasToken (hintClass (errorFieldId e)) (classList hint) = true /\
           exists h,
             getElementById (document s) (errorFieldId e) = Some h /\
             labelOrSelf (Some h) (document s) = Ok (parentElement hint)) /\
  (forall s, errors s = None -> showHints s = (Throw TypeError, s)).
Proof.
  split.
  - intros s s' H; unfold showHints in H.
    destruct (errors s) as [es|] eqn:Ee; [|discriminate H].
    rewrite onDocument_run in H.
    destruct (showHintsLoop es (document s)) as [[[]|err] d'] eqn:El;
      simpl in H; [|discriminate H].
    injection H as <-; cbn [document setDocument].
    destruct (showHintsLoop_run es _ _ El) as (Hlen & _ & Hkeep & Hhints).
    exists es; split; [reflexivity|]. split; [reflexivity|].
    split; [assumption|]. split; [assumption|].
    intros i e Hi.
    destruct (Hhints i e Hi) as (hint & Hd & Hrest).
    exists hint; split; [|split; assumption].
    destruct (deref (document s) (freshHandle (document s) + i))
      as [x|] eqn:Ex; [|reflexivity].
    apply deref_bound in Ex; exfalso; lia.
  - intros s H; unfold showHints; now rewrite H.
Qed.

Lemma showHints_one_per_error_witness :
  let s := snd (validateForm Page.submitted) in
  let s' := snd (showHints s) in
  exists es,
    errors s = Some es /\
    s' = setDocument (document s') s /\
    List.length (document s')
    = List.length (document s) + List.length es /\
    (forall x ex,
       deref (document s) x = Some ex ->
       exists ex',
         deref (document s') x = Some ex' /\
         innerText ex' = innerText ex /\
         parentElement ex' = parentElement ex /\
         forall tok, tok <> "valid" ->
                     hasToken tok (classList ex) = true ->
                     hasToken tok (classList ex') = true) /\
    forall i e,
      nth_error es i = Some e ->
      exists hint,
        deref (document s) (freshHandle (document s) + i) = None /\
        deref (document s') (freshHandle (document s) + i) = Some hint /\
        innerText hint = errorMessage e /\
        hasToken "hint" (classList hint) = true /\
        hasToken (hintClass (errorFieldId e)) (classList hint) = true /\
        exists h,
          getElementById (document s) (errorFieldId e) = Some h /\
          labelOrSelf (Some h) (document s) = Ok (parentElement hint).
Proof.
  apply (proj1 showHints_one_per_error (snd (validateForm Page.submitted))).
  apply run_outcome; vm_compute; reflexivity.
Defined.

(** The hints of the submitted form: for [name], [email] and
    [activities], the last one a paragraph in the fieldset. *)
Example submitted_hints :
  let d := document (snd (showHints (snd (validateForm Page.submitted)))) in
  map (fun h => option_map (fun e => (tagName e, parentElement e,
                                      innerText e))
                           (deref d h)) [17; 18; 19]
  = [Some ("SPAN", Some 2, "Name must be at least 3 characters long");
     Some ("SPAN", Some 4,
           "The 'at' symbol must be before the 'dot' symbol.");
     Some ("P", Some 6, "Choose at least one activity")].
Proof. vm_compute; reflexivity. Qed.

(* ================================================================= *)
(** ** What [validateField] throws from the presentation *)

Section FieldThrows.

Variable qsa : Document -> option handle -> string -> Result (list handle).

(** X10.  A validator is bound to its control by [form.elements[id]],
    which also finds a control by its [name]; the hint is placed by
    [document.getElementById(id)], which does not.  So when no element
    of the document has the identifier of the validator, a failing rule
    makes [validateField] throw a [TypeError] (from [showHint], reading
    [classList] of [null]).  What it leaves is the document with the
    elements the selector found removed, one after the other, and
    nothing else done: each of them is out of the document and has no
    parent, no hint is made and no class is changed. *)
Theorem hint_needs_element_id :
  forall id s pre v post before rk after els,
    validators s = pre ++ v :: post ->
    (forall u, In u pre -> fieldId u <> id) ->
    fieldId v = id ->
    rules v = before ++ rk :: after ->
    Forall (fun r => gatedOff r (document s)) before ->
    predicateFails rk (field v) (document s) ->
    getElementById (document s) id = None ->
    qsa (document s) None ("." ++ hintClass id)%string = Ok els ->
    fst (validateField qsa id s) = Throw TypeError /\
    document (snd (validateField qsa id s))
    = fold_left (fun d h => remove h d) els (document s) /\
    (forall x ex,
       In x els -> deref (document s) x = Some ex ->
       exists ex',
         deref (document (snd (validateField qsa id s))) x = Some ex' /\
         isConnected ex' = false /\ parentElement ex' = None) /\
    detached (document s) (document (snd (validateField qsa id s))).
Proof.
  intros id s pre v post before rk after els Hvs Hpre Hid Hr Hg Hf Hn Hq.
  rewrite (validateField_fails qsa id s pre v post before rk after)
    by assumption.
  unfold bind, removeHint, removeAll, mutate; rewrite Hq.
  set (d1 := fold_left _ els (document s)).
  assert (Hd : detached (document s) d1) by apply removeEach_detached.
  unfold showHint, bind, reads, mutate.
  rewrite (detached_no_id _ _ id Hd Hn); simpl.
  split; [reflexivity|]. split; [reflexivity|]. split; [|exact Hd].
  intros x ex Hin Hx.
  destruct (removeEach_deref els (document s) x ex Hx)
    as (ex' & Hx' & _ & _ & _ & Hout).
  exists ex'; split; [exact Hx' | exact (Hout Hin)].
Qed.

(** X11.  The selectors of [removeHint] are built from the identifier,
    [.id-hint], and nothing catches what the selector engine throws.  So
    for an identifier that makes no valid class selector (one that
    starts with a digit, or has a dot or a space in it) [validateField]
    throws what the engine throws, whether the first rule let through
    fails or passes, and makes no hint. *)
Theorem bad_selector_throws :
  forall id e s pre v post before rk after b,
    (forall d, qsa d None ("." ++ hintClass id)%string = Throw e) ->
    validators s = pre ++ v :: post ->
    (forall u, In u pre -> fieldId u <> id) ->
    fieldId v = id ->
    rules v = before ++ rk :: after ->
    Forall (fun r => gatedOff r (document s)) before ->
    conditionHolds rk (document s) ->
    method rk (document s) (field v) = Ok b ->
    (b = true -> presentable (document s) (field v)) ->
    fst (validateField qsa id s) = Throw e /\
    sameButClasses (document s) (document (snd (validateField qsa id s))).
Proof.
  intros id e s pre v post before rk after b Hq Hvs Hpre Hid Hr Hg Hc Hm Hp.
  assert (Hrm : forall d, removeHint qsa id d = (Throw e, d)).
  { intros d; unfold removeHint, removeAll, mutate; now rewrite Hq. }
  destruct b.
  - destruct (showValid_ok _ _ (Hp eq_refl)) as (d1 & Hs).
    assert (Hrun : validateField qsa id s
                   = (Throw e,
                      setDocument d1
                        (setCalls
                           (calls s ++ (skipCalls (List.length pre) 0 before
                            ++ conditionCalls (List.length pre)
                                 (List.length before) rk)
                            ++ [MethodCall (List.length pre)
                                  (List.length before) (Ok true)]) s))).
    { rewrite validateField_run, Hvs.
      rewrite (findValidator_first id pre v post 0 Hpre Hid); simpl.
      rewrite Hr, fieldRules_reach by assumption.
      unfold bind at 1; rewrite methodStep_run; cbv zeta.
      cbn [document setCalls]; rewrite Hm.
      rewrite fieldOnPass_doc; cbn [document setCalls calls].
      unfold bind; rewrite Hs, Hrm; simpl.
      rewrite <- !app_assoc; reflexivity. }
    rewrite Hrun; simpl.
    split; [reflexivity|]. eapply showValid_same; exact Hs.
  - rewrite (validateField_fails qsa id s pre v post before rk after)
      by (try assumption; now split).
    unfold bind; rewrite Hrm; simpl.
    split; reflexivity.
Qed.

End FieldThrows.

Lemma hint_needs_element_id_witness :
  let s := Forms.byNameHinted in
  let s' := snd (validateField Page.selectAll "user-name" s) in
  fst (validateField Page.selectAll "user-name" s) = Throw TypeError /\
  document s' = fold_left (fun d h => remove h d) [17] (document s) /\
  (forall x ex,
     In x [17] -> deref (document s) x = Some ex ->
     exists ex',
       deref (document s') x = Some ex' /\
       isConnected ex' = false /\ parentElement ex' = None) /\
  detached (document s) (document s').
Proof.
  apply (hint_needs_element_id Page.selectAll "user-name" Forms.byNameHinted
           [] (mkValidator "user-name" nameRules (Some 3)) []
           [] (mkRule None (valueLength (fun n => Nat.ltb 0 n))
                      "Name is required")
           [mkRule None (valueLength (fun n => Nat.leb 3 n))
                   "Name must be at least 3 characters long";
            mkRule None (valueTest nameRegex)
                   "Name should only contain letters, spaces, hyphens, periods, and apostrophes"]
           [17]).
  - reflexivity.
  - intros u [].
  - reflexivity.
  - reflexivity.
  - constructor.
  - split; [exact I | reflexivity].
  - reflexivity.
  - reflexivity.
Defined.

(** On that page the hint the markup came with is in the document
    before the call and out of it after, and nothing takes its place. *)
Example stale_hint_removed :
  hintsShown (document Forms.byNameHinted) "user-name" = [17] /\
  hintsShown
    (document (snd (validateField Page.selectAll "user-name"
                      Forms.byNameHinted))) "user-name" = [] /\
  List.length
    (document (snd (validateField Page.selectAll "user-name"
                      Forms.byNameHinted)))
  = List.length (document Forms.byNameHinted).
Proof. repeat split; vm_compute; reflexivity. Qed.

Lemma bad_selector_throws_witness :
  fst (validateField Page.selectAll "2fa" Forms.digitId) = Throw SyntaxError /\
  sameButClasses (document Forms.digitId)
    (document (snd (validateField Page.selectAll "2fa" Forms.digitId))).
Proof.
  apply (bad_selector_throws Page.selectAll "2fa" SyntaxError Forms.digitId
           [] (mkValidator "2fa" nameRules (Some 3)) []
           [] (mkRule None (valueLength (fun n => Nat.ltb 0 n))
                      "Name is required")
           [mkRule None (valueLength (fun n => Nat.leb 3 n))
                   "Name must be at least 3 characters long";
            mkRule None (valueTest nameRegex)
                   "Name should only contain letters, spaces, hyphens, periods, and apostrophes"]
           true).
  - intros d; reflexivity.
  - reflexivity.
  - intros u [].
  - reflexivity.
  - reflexivity.
  - constructor.
  - exact I.
  - reflexivity.
  - intros _.
    exists 3, (Page.node "INPUT" "name" "user-name" "text" (Some "Al") false
                         (Some 2)).
    split; [reflexivity | split; [reflexivity|]].
    intros _; exists 2, (Page.node "LABEL" EmptyString EmptyString
                                   EmptyString None false (Some 1)).
    split; reflexivity.
Defined.

(* ================================================================= *)
(** ** The matcher *)

Lemma append_nil_r : forall s : string, (s ++ EmptyString)%string = s.
Proof. induction s as [|c s IH]; simpl; [reflexivity | now rewrite IH]. Qed.

Lemma append_assoc : forall s1 s2 s3 : string,
  ((s1 ++ s2) ++ s3)%string = (s1 ++ (s2 ++ s3))%string.
Proof.
  induction s1 as [|c s1 IH]; intros; simpl; [reflexivity | now rewrite IH].
Qed.

Lemma append_eq_nil : forall s1 s2 : string,
  (s1 ++ s2)%string = EmptyString -> s1 = EmptyString /\ s2 = EmptyString.
Proof. intros [|c s1] s2 H; simpl in H; [auto | discriminate H]. Qed.

Lemma Lang_seq_inv : forall r1 r2 s,
  Lang (Seq r1 r2) s ->
  exists s1 s2, s = (s1 ++ s2)%string /\ Lang r1 s1 /\ Lang r2 s2.
Proof. intros r1 r2 s H; inversion H; subst; eauto. Qed.

Lemma Lang_alt_inv : forall r1 r2 s,
  Lang (Alt r1 r2) s -> Lang r1 s \/ Lang r2 s.
Proof. intros r1 r2 s H; inversion H; subst; auto. Qed.

Lemma Lang_epsilon_inv : forall s, Lang Epsilon s -> s = EmptyString.
Proof. intros s H; now inversion H. Qed.

Lemma Lang_class_inv : forall p s,
  Lang (Class p) s -> exists c, s = String c EmptyString /\ p c = true.
Proof. intros p s H; inversion H; subst; eauto. Qed.

Lemma nullable_spec : forall r, nullable r = true <-> Lang r EmptyString.
Proof.
  induction r as [| |p|r1 IH1 r2 IH2|r1 IH1 r2 IH2|r IH]; simpl.
  - split; [discriminate | intros H; inversion H].
  - split; [constructor | reflexivity].
  - split; [discriminate | intros H; inversion H].
  - rewrite andb_true_iff, IH1, IH2; split.
    + intros (H1 & H2).
      change EmptyString with (EmptyString ++ EmptyString)%string.
      now constructor.
    + intros H; apply Lang_seq_inv in H.
      destruct H as (s1 & s2 & E & H1 & H2).
      symmetry in E; apply append_eq_nil in E; destruct E as (-> & ->); auto.
  - rewrite orb_true_iff, IH1, IH2; split.
    + intros [H|H]; [now apply LangAltL | now apply LangAltR].
    + intros H; inversion H; subst; auto.
  - split; [constructor | reflexivity].
Qed.

(** A non-empty word of [r*] starts with a non-empty word of [r]. *)
Lemma star_head : forall r c s,
  Lang (Star r) (String c s) ->
  exists s1 s2,
    s = (s1 ++ s2)%string /\ Lang r (String c s1) /\ Lang (Star r) s2.
Proof.
  intros r c s H.
  remember (Star r) as r' eqn:Er; remember (String c s) as w eqn:Ew.
  revert c s Ew.
  induction H as [|p0 c0 Hp| | | | |r0 s1 s2 H1 _ H2 IH2]; intros a w Ew;
    try discriminate Er; [discriminate Ew|].
  injection Er as ->.
  destruct s1 as [|c1 s1]; simpl in Ew.
  - now apply IH2.
  - injection Ew as -> <-. now exists s1, s2.
Qed.

Lemma deriv_spec : forall r c s,
  Lang (deriv c r) s <-> Lang r (String c s).
Proof.
  induction r as [| |p|r1 IH1 r2 IH2|r1 IH1 r2 IH2|r IH]; intros c s; simpl.
  - split; intros H; inversion H.
  - split; intros H; inversion H.
  - destruct (p c) eqn:E; split; intros H.
    + inversion H; subst. now constructor.
    + inversion H; subst. constructor.
    + inversion H.
    + inversion H; subst. congruence.
  - assert (Hseq : Lang (Seq (deriv c r1) r2) s ->
                   Lang (Seq r1 r2) (String c s)).
    { intros H; apply Lang_seq_inv in H.
      destruct H as (s1 & s2 & -> & H1 & H2).
      change (String c (s1 ++ s2)) with (String c s1 ++ s2)%string.
      constructor; [now apply IH1 | assumption]. }
    assert (Hinv : Lang (Seq r1 r2) (String c s) ->
                   (exists s1 s2, s = (s1 ++ s2)%string /\
                                  Lang r1 (String c s1) /\ Lang r2 s2) \/
                   (Lang r1 EmptyString /\ Lang r2 (String c s))).
    { intros H; apply Lang_seq_inv in H.
      destruct H as (s1 & s2 & E & H1 & H2).
      destruct s1 as [|c1 s1]; simpl in E.
      - right; subst; auto.
      - injection E as <- ->. left; now exists s1, s2. }
    destruct (nullable r1) eqn:En; split; intros H.
    + apply Lang_alt_inv in H; destruct H as [H|H]; [now apply Hseq|].
      change (String c s) with (EmptyString ++ String c s)%string.
      constructor; [now apply nullable_spec | now apply IH2].
    + destruct (Hinv H) as [(s1 & s2 & -> & H1 & H2) | (H1 & H2)].
      * apply LangAltL; constructor; [now apply IH1 | assumption].
      * apply LangAltR; now apply IH2.
    + now apply Hseq.
    + destruct (Hinv H) as [(s1 & s2 & -> & H1 & H2) | (H1 & H2)].
      * constructor; [now apply IH1 | assumption].
      * apply nullable_spec in H1; congruence.
  - split; intros H; apply Lang_alt_inv in H; destruct H as [H|H];
      solve [apply LangAltL; now apply IH1 | apply LangAltR; now apply IH2].
  - split; intros H.
    + apply Lang_seq_inv in H; destruct H as (s1 & s2 & -> & H1 & H2).
      change (String c (s1 ++ s2)) with (String c s1 ++ s2)%string.
      constructor; [now apply IH | assumption].
    + destruct (star_head r c s H) as (s1 & s2 & -> & H1 & H2).
      constructor; [now apply IH | assumption].
Qed.

(** [matches] is sound and complete. *)
Lemma matches_spec : forall s r, matches r s = true <-> Lang r s.
Proof.
  induction s as [|c s IH]; intros r; simpl.
  - apply nullable_spec.
  - rewrite IH; apply deriv_spec.
Qed.

(** Words of a class, starred, repeated. *)
Lemma allChars_app : forall p s1 s2,
  Page.allChars p (s1 ++ s2) = Page.allChars p s1 && Page.allChars p s2.
Proof.
  intros p; induction s1 as [|c s1 IH]; intros s2; simpl; [reflexivity|].
  now rewrite IH, andb_assoc.
Qed.

Lemma Lang_class : forall p s,
  Lang (Class p) s <-> exists c, s = String c EmptyString /\ p c = true.
Proof.
  intros p s; split.
  - apply Lang_class_inv.
  - intros (c & -> & H); now constructor.
Qed.

Lemma Lang_star_class : forall p s,
  Lang (Star (Class p)) s <-> Page.allChars p s = true.
Proof.
  intros p s; split.
  - intros H; remember (Star (Class p)) as r eqn:Er.
    induction H as [| | | | | |r0 s1 s2 H1 _ H2 IH2]; try discriminate Er;
      [reflexivity|].
    injection Er as ->.
    rewrite allChars_app, (IH2 eq_refl), andb_true_r.
    apply Lang_class_inv in H1; destruct H1 as (c & -> & Hc); simpl.
    now rewrite Hc.
  - induction s as [|c s IH]; simpl; intros H; [constructor|].
    apply andb_true_iff in H; destruct H as (Hc & Hs).
    change (String c s) with (String c EmptyString ++ s)%string.
    constructor; [now constructor | now apply IH].
Qed.

Lemma Lang_plus_class : forall p s,
  Lang (Plus (Class p)) s <-> s <> EmptyString /\ Page.allChars p s = true.
Proof.
  intros p s; unfold Plus; split.
  - intros H; apply Lang_seq_inv in H.
    destruct H as (s1 & s2 & -> & H1 & H2).
    apply Lang_class_inv in H1; destruct H1 as (c & -> & Hc); simpl.
    split; [discriminate|].
    rewrite Hc; simpl. now apply Lang_star_class.
  - intros (Hn & H); destruct s as [|c s]; [now elim Hn|].
    simpl in H; apply andb_true_iff in H; destruct H as (Hc & Hs).
    change (String c s) with (String c EmptyString ++ s)%string.
    constructor; [now constructor | now apply Lang_star_class].
Qed.

Lemma Lang_times_class : forall p n s,
  Lang (Times n (Class p)) s
  <-> String.length s = n /\ Page.allChars p s = true.
Proof.
  intros p; induction n as [|n IH]; intros s; simpl; split.
  - intros H; apply Lang_epsilon_inv in H; subst; auto.
  - intros (Hl & _); destruct s; [constructor | discriminate Hl].
  - intros H; apply Lang_seq_inv in H.
    destruct H as (s1 & s2 & -> & H1 & H2).
    apply Lang_class_inv in H1; destruct H1 as (c & -> & Hc); simpl.
    apply IH in H2; destruct H2 as (-> & ->).
    now rewrite Hc.
  - intros (Hl & H); destruct s as [|c s]; [discriminate Hl|].
    simpl in *; injection Hl as Hl.
    apply andb_true_iff in H; destruct H as (Hc & Hs).
    change (String c s) with (String c EmptyString ++ s)%string.
    constructor; [now constructor | now apply IH].
Qed.

Lemma Lang_upTo_class : forall p k s,
  Lang (UpTo k (Class p)) s
  <-> String.length s <= k /\ Page.allChars p s = true.
Proof.
  intros p; induction k as [|k IH]; intros s; simpl; split.
  - intros H; apply Lang_epsilon_inv in H; subst; auto.
  - intros (Hl & _); destruct s; [constructor | simpl in Hl; lia].
  - unfold Opt; intros H; apply Lang_alt_inv in H; destruct H as [Ha|Ha].
    + apply Lang_epsilon_inv in Ha; subst; simpl; split; [lia | reflexivity].
    + apply Lang_seq_inv in Ha; destruct Ha as (s1 & s2 & -> & H1 & H2).
      apply Lang_class_inv in H1; destruct H1 as (c & -> & Hc); simpl.
      apply IH in H2; destruct H2 as (Hl & ->).
      rewrite Hc; split; [lia | reflexivity].
  - intros (Hl & H); unfold Opt; destruct s as [|c s].
    + apply LangAltL; constructor.
    + simpl in *.
      apply andb_true_iff in H; destruct H as (Hc & Hs).
      apply LangAltR.
      change (String c s) with (String c EmptyString ++ s)%string.
      constructor; [now constructor | apply IH; split; [lia | assumption]].
Qed.

Lemma substring_split : forall n (s : string),
  n <= String.length s ->
  exists s1 s2, s = (s1 ++ s2)%string /\ String.length s1 = n.
Proof.
  induction n as [|n IH]; intros s Hl.
  - exists EmptyString, s; auto.
  - destruct s as [|c s]; simpl in Hl; [lia|].
    destruct (IH s) as (s1 & s2 & -> & Hn); [lia|].
    exists (String c s1), s2; simpl; auto.
Qed.

Lemma Lang_between_class : forall p n m s,
  n <= m ->
  (Lang (Between n m (Class p)) s
   <-> (n <= String.length s <= m) /\ Page.allChars p s = true).
Proof.
  intros p n m s Hnm; unfold Between; split.
  - intros H; apply Lang_seq_inv in H.
    destruct H as (s1 & s2 & -> & H1 & H2).
    apply Lang_times_class in H1; destruct H1 as (Hl1 & Ha1).
    apply Lang_upTo_class in H2; destruct H2 as (Hl2 & Ha2).
    rewrite length_append, allChars_app, Ha1, Ha2.
    split; [lia | reflexivity].
  - intros (Hl & Ha).
    destruct (substring_split n s) as (s1 & s2 & -> & Hn); [lia|].
    rewrite allChars_app in Ha; apply andb_true_iff in Ha.
    destruct Ha as (Ha1 & Ha2).
    rewrite length_append in Hl.
    constructor.
    + apply Lang_times_class; auto.
    + apply Lang_upTo_class; split; [lia | assumption].
Qed.

(* ================================================================= *)
(** ** The verdict of a rule list *)

Section Verdict.

Variable fld : option handle.
Variable d0 : Document.
Hypothesis shown : presentable d0 fld.

Lemma firstFailure_accepts : forall rs d,
  Forall (steady fld d0) rs -> sameButClasses d0 d ->
  firstFailure rs d0 fld = Ok None ->
  accepts rs fld d.
Proof.
  induction rs as [|r rs IH]; intros d Hs S1 H.
  - exists d; constructor.
  - inversion Hs as [|? ? Hr Hrs]; subst.
    simpl in H; destruct (Hr d S1) as (Hm & Hc).
    destruct (method r d0 fld) as [[|]|e] eqn:E; try discriminate H.
    destruct (showValid_ok fld d) as (d1 & Hv);
      [eapply presentable_same; eassumption|].
    destruct (IH d1 Hrs) as (d' & Hn); [|assumption|].
    + eapply sameButClasses_trans; [exact S1|].
      eapply showValid_same; exact Hv.
    + exists d'; eapply noFailure_pass; eassumption.
Qed.

Lemma firstFailure_rejects : forall rs d m,
  Forall (steady fld d0) rs -> sameButClasses d0 d ->
  firstFailure rs d0 fld = Ok (Some m) ->
  rejectsWith rs fld d m.
Proof.
  induction rs as [|r rs IH]; intros d m Hs S1 H; [discriminate H|].
  inversion Hs as [|? ? Hr Hrs]; subst.
  simpl in H; destruct (Hr d S1) as (Hm & Hc).
  destruct (method r d0 fld) as [[|]|e] eqn:E; try discriminate H.
  - destruct (showValid_ok fld d) as (d1 & Hv);
      [eapply presentable_same; eassumption|].
    destruct (IH d1 m Hrs) as (before & rk & after & dk & -> & Hn & Hf & Hmsg);
      [|assumption|].
    + eapply sameButClasses_trans; [exact S1|].
      eapply showValid_same; exact Hv.
    + exists (r :: before), rk, after, dk; repeat split; try assumption.
      * eapply noFailure_pass; eassumption.
      * apply Hf.
      * apply Hf.
  - injection H as <-.
    exists [], r, rs, d; repeat split; [constructor | assumption | assumption].
Qed.

Lemma noFailure_steady : forall rs d d',
  noFailure fld d rs d' ->
  Forall (steady fld d0) rs -> sameButClasses d0 d ->
  sameButClasses d0 d' /\ firstFailure rs d0 fld = Ok None.
Proof.
  induction 1 as [d | d r rs d' Hg _ IH | d r rs d1 d' Hc Hm Hv _ IH];
    intros Hs S1.
  - split; [assumption | reflexivity].
  - exfalso; inversion Hs as [|? ? Hr Hrs]; subst.
    destruct (Hr d S1) as (_ & Hc); destruct Hg as (c & Ec & Ecd).
    unfold conditionHolds in Hc; rewrite Ec in Hc; congruence.
  - inversion Hs as [|? ? Hr Hrs]; subst.
    destruct (Hr d S1) as (Hm0 & _).
    assert (S2 : sameButClasses d0 d1).
    { eapply sameButClasses_trans; [exact S1|].
      eapply showValid_same; exact Hv. }
    destruct (IH Hrs S2) as (S3 & Hf).
    split; [assumption|].
    simpl; rewrite <- Hm0, Hm; exact Hf.
Qed.

Lemma accepts_firstFailure : forall rs,
  Forall (steady fld d0) rs ->
  (accepts rs fld d0 <-> firstFailure rs d0 fld = Ok None).
Proof.
  intros rs Hs; split.
  - intros (d' & Hn).
    apply (noFailure_steady _ _ _ Hn Hs (sameButClasses_refl d0)).
  - apply firstFailure_accepts; [assumption | apply sameButClasses_refl].
Qed.

Lemma firstFailure_app : forall before rk after,
  firstFailure before d0 fld = Ok None ->
  method rk d0 fld = Ok false ->
  firstFailure (before ++ rk :: after) d0 fld = Ok (Some (message rk)).
Proof.
  induction before as [|r before IH]; intros rk after H Hm; simpl in *.
  - now rewrite Hm.
  - destruct (method r d0 fld) as [[|]|e]; try discriminate H.
    now apply IH.
Qed.

Lemma rejectsWith_firstFailure : forall rs m,
  Forall (steady fld d0) rs ->
  (rejectsWith rs fld d0 m <-> firstFailure rs d0 fld = Ok (Some m)).
Proof.
  intros rs m Hs; split.
  - intros (before & rk & after & dk & -> & Hn & (Hc & Hf) & <-).
    apply Forall_app in Hs; destruct Hs as (Hb & Hk).
    inversion Hk as [|? ? Hr _]; subst.
    destruct (noFailure_steady _ _ _ Hn Hb (sameButClasses_refl d0))
      as (S1 & Hff).
    apply firstFailure_app; [assumption|].
    destruct (Hr dk S1) as (<- & _); assumption.
  - apply firstFailure_rejects; [assumption | apply sameButClasses_refl].
Qed.

End Verdict.

(* ================================================================= *)
(** ** The values the rule set accepts *)

Lemma matches_plus_class : forall p s,
  matches (Plus (Class p)) s
  = negb (String.eqb s EmptyString) && Page.allChars p s.
Proof.
  intros p s; apply eq_true_iff_eq.
  rewrite matches_spec, Lang_plus_class, andb_true_iff, negb_true_iff.
  now rewrite String.eqb_neq.
Qed.

Lemma matches_between_class : forall p n m s,
  n <= m ->
  matches (Between n m (Class p)) s
  = Nat.leb n (String.length s) && Nat.leb (String.length s) m
    && Page.allChars p s.
Proof.
  intros p n m s Hnm; apply eq_true_iff_eq.
  rewrite matches_spec, (Lang_between_class p n m s Hnm).
  rewrite !andb_true_iff, !Nat.leb_le; tauto.
Qed.

(** Digits make a number. *)
Lemma Lang_decimalDigits : forall w,
  w <> EmptyString -> Page.allChars digit w = true -> Lang decimalDigits w.
Proof. intros w Hn Hd; apply Lang_plus_class; auto. Qed.

Lemma Lang_unsigned_digits : forall w,
  w <> EmptyString -> Page.allChars digit w = true ->
  Lang strUnsignedDecimalLiteral w.
Proof.
  intros w Hn Hd; unfold strUnsignedDecimalLiteral.
  do 3 apply LangAltR.
  rewrite <- (append_nil_r w).
  constructor; [now apply Lang_decimalDigits|].
  apply LangAltL; constructor.
Qed.

Lemma Lang_unsigned_point : forall w1 w2,
  w1 <> EmptyString -> Page.allChars digit w1 = true ->
  Page.allChars digit w2 = true ->
  Lang strUnsignedDecimalLiteral (w1 ++ "." ++ w2).
Proof.
  intros w1 w2 Hn H1 H2; unfold strUnsignedDecimalLiteral.
  apply LangAltR, LangAltL.
  constructor; [now apply Lang_decimalDigits|].
  constructor; [now constructor|].
  rewrite <- (append_nil_r w2).
  constructor; [now apply Lang_star_class|].
  apply LangAltL; constructor.
Qed.

Lemma Lang_numeric : forall sign u,
  sign = EmptyString \/ sign = "+" \/ sign = "-" ->
  Lang strUnsignedDecimalLiteral u ->
  matches stringNumericLiteral (sign ++ u) = true.
Proof.
  intros sign u Hs Hu; apply matches_spec; unfold stringNumericLiteral.
  change (sign ++ u)%string with (EmptyString ++ (sign ++ u))%string.
  constructor; [constructor|].
  rewrite <- (append_nil_r (sign ++ u)).
  constructor; [|constructor].
  apply LangAltR, LangAltL; unfold strDecimalLiteral.
  constructor; [|assumption].
  destruct Hs as [-> | [-> | ->]].
  - apply LangAltL; constructor.
  - apply LangAltR; now constructor.
  - apply LangAltR; now constructor.
Qed.

Lemma digits_numeric : forall w,
  w <> EmptyString -> Page.allChars digit w = true ->
  isNaN (Some w) = false.
Proof.
  intros w Hn Hd; unfold isNaN.
  change w with (EmptyString ++ w)%string.
  rewrite (Lang_numeric EmptyString w); auto.
  now apply Lang_unsigned_digits.
Qed.

(** Rules that read the value of the field. *)
Lemma steady_value : forall fld d0 r,
  condition r = None \/
  (condition r = Some creditCardSelected /\ creditCardSelected d0 = Ok true) ->
  (forall d d' x, fieldValue d x = fieldValue d' x ->
                  method r d x = method r d' x) ->
  steady fld d0 r.
Proof.
  intros fld d0 r Hc Hm d S1; split.
  - apply Hm; symmetry; now apply fieldValue_same.
  - unfold conditionHolds.
    destruct Hc as [-> | (-> & Hs)]; [exact I|].
    now rewrite <- (creditCardSelected_same _ _ S1).
Qed.

Lemma steady_scriptRules : forall fld d0 rs,
  In rs [nameRules; emailRules] \/
  (In rs [ccNumRules; zipRules; cvvRules] /\
   creditCardSelected d0 = Ok true) ->
  Forall (steady fld d0) rs.
Proof.
  intros fld d0 rs H.
  assert (Hv : forall (p : Predicate) c m,
            (forall d d' x, fieldValue d x = fieldValue d' x ->
                            p d x = p d' x) ->
            c = None \/
            (c = Some creditCardSelected /\ creditCardSelected d0 = Ok true) ->
            steady fld d0 (mkRule c p m)).
  { intros p c m Hp Hc; apply steady_value; assumption. }
  assert (H1 : forall p d d' x, fieldValue d x = fieldValue d' x ->
                                valueLength p d x = valueLength p d' x)
    by (intros p d d' x E; unfold valueLength; now rewrite E).
  assert (H2 : forall p d d' x, fieldValue d x = fieldValue d' x ->
                                valueString p d x = valueString p d' x)
    by (intros p d d' x E; unfold valueString; now rewrite E).
  assert (H3 : forall p d d' x, fieldValue d x = fieldValue d' x ->
                                valueTest p d x = valueTest p d' x)
    by (intros p d d' x E; unfold valueTest; now rewrite E).
  assert (H4 : forall d d' x, fieldValue d x = fieldValue d' x ->
                              valueIsNumber d x = valueIsNumber d' x)
    by (intros d d' x E; unfold valueIsNumber; now rewrite E).
  destruct H as [H | (H & Hs)]; simpl in H; decompose [or] H;
    try contradiction; subst rs;
    repeat (constructor; [apply Hv; auto|]); constructor.
Qed.

Lemma nameRules_verdict : forall d fld v,
  fieldValue d fld = Ok (Some v) ->
  firstFailure nameRules d fld
  = Ok (if Nat.eqb (String.length v) 0 then Some "Name is required"
        else if Nat.ltb (String.length v) 3
             then Some "Name must be at least 3 characters long"
             else if Page.allChars nameChar v then None
                  else Some "Name should only contain letters, spaces, hyphens, periods, and apostrophes").
Proof.
  intros d fld v Hv; unfold nameRules.
  cbn [firstFailure method message]; unfold valueLength, valueTest.
  rewrite Hv; cbn [andThen Js.length]; unfold test, toString.
  change nameRegex with (Plus (Class nameChar)).
  rewrite matches_plus_class.
  destruct v as [|a [|b [|c v]]]; try reflexivity.
  cbn [String.length Nat.ltb Nat.leb Nat.eqb String.eqb negb andb].
  now destruct (Page.allChars nameChar _).
Qed.

(** X12.  The names the rule set accepts.  For a name field that holds
    the string [v], the three rules of [name] accept it exactly when it
    has at least three characters, all of them letters, hyphens,
    periods, apostrophes or white space; otherwise the message is that
    of the first of: empty, shorter than three, a character outside the
    class. *)
Theorem name_rule_set : forall d fld v,
  presentable d fld ->
  fieldValue d fld = Ok (Some v) ->
  (accepts nameRules fld d
   <-> 3 <= String.length v /\ Page.allChars nameChar v = true) /\
  (forall m,
     rejectsWith nameRules fld d m
     <-> Some m
         = if Nat.eqb (String.length v) 0 then Some "Name is required"
           else if Nat.ltb (String.length v) 3
                then Some "Name must be at least 3 characters long"
                else if Page.allChars nameChar v then None
                     else Some "Name should only contain letters, spaces, hyphens, periods, and apostrophes").
Proof.
  intros d fld v Hp Hv.
  assert (Hs : Forall (steady fld d) nameRules)
    by (apply steady_scriptRules; left; simpl; auto).
  pose proof (nameRules_verdict d fld v Hv) as Hf.
  split.
  - rewrite (accepts_firstFailure fld d Hp nameRules Hs), Hf.
    destruct (Nat.eqb (String.length v) 0) eqn:E0;
      [apply Nat.eqb_eq in E0; split; [discriminate | lia]|].
    destruct (Nat.ltb (String.length v) 3) eqn:E3;
      [apply Nat.ltb_lt in E3; split; [discriminate | lia]|].
    apply Nat.ltb_ge in E3.
    destruct (Page.allChars nameChar v); split; auto; try discriminate.
    intros (_ & H); discriminate H.
  - intros m; rewrite (rejectsWith_firstFailure fld d Hp nameRules m Hs), Hf.
    split; [intros H; injection H as <-; reflexivity | intros <-; reflexivity].
Qed.

Lemma name_rule_set_witness :
  (accepts nameRules (Some 3) (document Page.submitted)
   <-> 3 <= String.length "Al" /\ Page.allChars nameChar "Al" = true) /\
  (forall m,
     rejectsWith nameRules (Some 3) (document Page.submitted) m
     <-> Some m
         = if Nat.eqb (String.length "Al") 0 then Some "Name is required"
           else if Nat.ltb (String.length "Al") 3
                then Some "Name must be at least 3 characters long"
                else if Page.allChars nameChar "Al" then None
                     else Some "Name should only contain letters, spaces, hyphens, periods, and apostrophes").
Proof.
  apply (name_rule_set (document Page.submitted) (Some 3) "Al").
  - exists 3, (Page.node "INPUT" "name" "user-name" "text" (Some "Al") false
                         (Some 2)).
    split; [reflexivity | split; [reflexivity|]].
    intros _; exists 2, (Page.node "LABEL" EmptyString EmptyString
                                   EmptyString None false (Some 1)).
    split; reflexivity.
  - reflexivity.
Defined.

Lemma ccNumRules_verdict : forall d fld v,
  fieldValue d fld = Ok (Some v) ->
  firstFailure ccNumRules d fld
  = Ok (if Nat.eqb (String.length v) 0
        then Some "Credit card number is required"
        else if isNaN (Some v)
             then Some "Credit card number must be a number"
             else if Nat.leb 13 (String.length v)
                     && Nat.leb (String.length v) 16
                     && Page.allChars digit v
                  then None
                  else Some "Credit card number must be between 13 - 16 digits").
Proof.
  intros d fld v Hv; unfold ccNumRules.
  cbn [firstFailure method message];
    unfold valueLength, valueTest, valueIsNumber.
  rewrite Hv; cbn [andThen Js.length]; unfold test, toString.
  unfold ccNumRegex; rewrite matches_between_class by lia.
  destruct (String.length v) as [|n] eqn:El; [reflexivity|].
  cbn [Nat.ltb Nat.leb Nat.eqb].
  destruct (isNaN (Some v)); cbn [negb]; [reflexivity|].
  now destruct (_ && _ && _).
Qed.

(** X13.  The card numbers the rule set accepts.  While the payment
    select holds [credit-card], the three rules of [cc-num] accept a
    value exactly when it is 13 to 16 characters, all digits: the second
    rule, [!isNaN], adds nothing to that, since digits make a number.
    Otherwise the message is that of the first of: empty, not a number,
    not 13 to 16 digits; so a number that is not a digit string, or is
    too short or too long, gets the third message. *)
Theorem cc_num_rule_set : forall d fld v,
  presentable d fld ->
  fieldValue d fld = Ok (Some v) ->
  creditCardSelected d = Ok true ->
  (accepts ccNumRules fld d
   <-> (13 <= String.length v <= 16) /\ Page.allChars digit v = true) /\
  (forall m,
     rejectsWith ccNumRules fld d m
     <-> Some m
         = if Nat.eqb (String.length v) 0
           then Some "Credit card number is required"
           else if isNaN (Some v)
                then Some "Credit card number must be a number"
                else if Nat.leb 13 (String.length v)
                        && Nat.leb (String.length v) 16
                        && Page.allChars digit v
                     then None
                     else Some "Credit card number must be between 13 - 16 digits").
Proof.
  intros d fld v Hp Hv Hc.
  assert (Hs : Forall (steady fld d) ccNumRules)
    by (apply steady_scriptRules; right; simpl; auto).
  pose proof (ccNumRules_verdict d fld v Hv) as Hf.
  split.
  - rewrite (accepts_firstFailure fld d Hp ccNumRules Hs), Hf.
    split.
    + destruct (Nat.eqb (String.length v) 0); [discriminate|].
      destruct (isNaN (Some v)); [discriminate|].
      destruct (Nat.leb 13 (String.length v)) eqn:E1; [|discriminate].
      destruct (Nat.leb (String.length v) 16) eqn:E2; [|discriminate].
      destruct (Page.allChars digit v); [|discriminate].
      apply Nat.leb_le in E1, E2; auto.
    + intros ((H1 & H2) & Hd).
      assert (Hn : v <> EmptyString) by (intros ->; simpl in H1; lia).
      rewrite (digits_numeric v Hn Hd), Hd.
      destruct (Nat.eqb (String.length v) 0) eqn:E0;
        [apply Nat.eqb_eq in E0; lia|].
      apply Nat.leb_le in H1, H2; now rewrite H1, H2.
  - intros m; rewrite (rejectsWith_firstFailure fld d Hp ccNumRules m Hs), Hf.
    split; [intros H; injection H as <-; reflexivity | intros <-; reflexivity].
Qed.

Lemma cc_num_rule_set_witness :
  (accepts ccNumRules (Some 12) Forms.byCard
   <-> (13 <= String.length "4111111111111111" <= 16) /\
       Page.allChars digit "4111111111111111" = true) /\
  (forall m,
     rejectsWith ccNumRules (Some 12) Forms.byCard m
     <-> Some m
         = if Nat.eqb (String.length "4111111111111111") 0
           then Some "Credit card number is required"
           else if isNaN (Some "4111111111111111")
                then Some "Credit card number must be a number"
                else if Nat.leb 13 (String.length "4111111111111111")
                        && Nat.leb (String.length "4111111111111111") 16
                        && Page.allChars digit "4111111111111111"
                     then None
                     else Some "Credit card number must be between 13 - 16 digits").
Proof.
  apply (cc_num_rule_set Forms.byCard (Some 12) "4111111111111111").
  - exists 12, (Page.node "INPUT" "cc-num" "user-cc-num" "text"
                          (Some "4111111111111111") false (Some 11)).
    split; [reflexivity | split; [reflexivity|]].
    intros _; exists 11, (Page.node "LABEL" EmptyString EmptyString
                                    EmptyString None false (Some 1)).
    split; reflexivity.
  - reflexivity.
  - reflexivity.
Defined.

(** The rules of [zip] and [cvv] have one shape: not empty, a number, of
    a given length. *)
Lemma numberRules_verdict : forall d fld v n m1 m2 m3,
  fieldValue d fld = Ok (Some v) ->
  firstFailure
    [mkRule (Some creditCardSelected) (valueLength (fun k => Nat.ltb 0 k)) m1;
     mkRule (Some creditCardSelected) valueIsNumber m2;
     mkRule (Some creditCardSelected) (valueLength (fun k => Nat.eqb k n)) m3]
    d fld
  = Ok (if Nat.eqb (String.length v) 0 then Some m1
        else if isNaN (Some v) then Some m2
             else if Nat.eqb (String.length v) n then None else Some m3).
Proof.
  intros d fld v n m1 m2 m3 Hv.
  cbn [firstFailure method message]; unfold valueLength, valueIsNumber.
  rewrite Hv; cbn [andThen Js.length].
  destruct (String.length v) as [|k] eqn:El; [reflexivity|].
  cbn [Nat.ltb Nat.leb Nat.eqb].
  destruct (isNaN (Some v)); cbn [negb]; [reflexivity|].
  now destruct n as [|n']; [|destruct (Nat.eqb k n')].
Qed.

Lemma numberRules_accepts : forall d fld v rs n,
  presentable d fld ->
  fieldValue d fld = Ok (Some v) ->
  creditCardSelected d = Ok true ->
  (rs = zipRules /\ n = 5) \/ (rs = cvvRules /\ n = 3) ->
  (accepts rs fld d <-> String.length v = n /\ isNaN (Some v) = false).
Proof.
  intros d fld v rs n Hp Hv Hc Hrs.
  assert (Hs : Forall (steady fld d) rs).
  { apply steady_scriptRules; right; split; [|assumption].
    destruct Hrs as [(-> & _) | (-> & _)]; simpl; auto. }
  rewrite (accepts_firstFailure fld d Hp rs Hs).
  assert (Hf : firstFailure rs d fld = Ok None
               <-> (if Nat.eqb (String.length v) 0 then false
                    else if isNaN (Some v) then false
                         else Nat.eqb (String.length v) n) = true).
  { destruct Hrs as [(-> & ->) | (-> & ->)];
      [unfold zipRules | unfold cvvRules];
      rewrite (numberRules_verdict d fld v _ _ _ _ Hv);
      destruct (Nat.eqb (String.length v) 0);
      try (split; discriminate);
      destruct (isNaN (Some v)); try (split; discriminate);
      destruct (Nat.eqb (String.length v) _); split;
        try discriminate; reflexivity. }
  rewrite Hf.
  destruct (Nat.eqb (String.length v) 0) eqn:E0.
  - apply Nat.eqb_eq in E0; split; [discriminate|].
    intros (Hl & _).
    destruct Hrs as [(_ & ->) | (_ & ->)]; lia.
  - destruct (isNaN (Some v)); [split; [discriminate | intros (_ & H); discriminate H]|].
    rewrite Nat.eqb_eq; tauto.
Qed.

(** X14.  The zip codes and CVVs the rule set accepts.  While the
    payment select holds [credit-card], the rules of [zip] accept a
    value exactly when it has five characters and converts to a number,
    those of [cvv] when it has three.  Every string of five (three)
    digits is accepted; but the rules do not ask for digits, so a sign
    followed by four (two) digits, or digits around a decimal point,
    are accepted as well. *)
Theorem zip_cvv_rule_set : forall d fld v rs n,
  presentable d fld ->
  fieldValue d fld = Ok (Some v) ->
  creditCardSelected d = Ok true ->
  (rs = zipRules /\ n = 5) \/ (rs = cvvRules /\ n = 3) ->
  (accepts rs fld d <-> String.length v = n /\ isNaN (Some v) = false) /\
  (String.length v = n -> Page.allChars digit v = true -> accepts rs fld d) /\
  (forall sign w,
     sign = "+" \/ sign = "-" ->
     Page.allChars digit w = true ->
     v = (sign ++ w)%string -> String.length v = n ->
     accepts rs fld d) /\
  (forall w1 w2,
     w1 <> EmptyString ->
     Page.allChars digit w1 = true -> Page.allChars digit w2 = true ->
     v = (w1 ++ "." ++ w2)%string -> String.length v = n ->
     accepts rs fld d).
Proof.
  intros d fld v rs n Hp Hv Hc Hrs.
  pose proof (numberRules_accepts d fld v rs n Hp Hv Hc Hrs) as Ha.
  assert (Hn : 3 <= n) by (destruct Hrs as [(_ & ->) | (_ & ->)]; lia).
  split; [exact Ha|]. split; [|split].
  - intros Hl Hd; apply Ha; split; [assumption|].
    apply digits_numeric; [|assumption].
    intros ->; simpl in Hl; lia.
  - intros sign w Hs Hd -> Hl; apply Ha; split; [assumption|].
    unfold isNaN; rewrite Lang_numeric; auto.
    apply Lang_unsigned_digits; [|assumption].
    intros ->; destruct Hs as [-> | ->]; simpl in Hl; lia.
  - intros w1 w2 Hw1 H1 H2 -> Hl; apply Ha; split; [assumption|].
    unfold isNaN.
    change (w1 ++ "." ++ w2)%string
      with (EmptyString ++ (w1 ++ "." ++ w2))%string.
    rewrite Lang_numeric; auto.
    now apply Lang_unsigned_point.
Qed.

Lemma zip_cvv_rule_set_witness :
  (accepts zipRules (Some 14) Forms.byCard
   <-> String.length "-1234" = 5 /\ isNaN (Some "-1234") = false) /\
  (String.length "-1234" = 5 -> Page.allChars digit "-1234" = true ->
   accepts zipRules (Some 14) Forms.byCard) /\
  (forall sign w,
     sign = "+" \/ sign = "-" ->
     Page.allChars digit w = true ->
     "-1234" = (sign ++ w)%string -> String.length "-1234" = 5 ->
     accepts zipRules (Some 14) Forms.byCard) /\
  (forall w1 w2,
     w1 <> EmptyString ->
     Page.allChars digit w1 = true -> Page.allChars digit w2 = true ->
     "-1234" = (w1 ++ "." ++ w2)%string -> String.length "-1234" = 5 ->
     accepts zipRules (Some 14) Forms.byCard).
Proof.
  apply (zip_cvv_rule_set Forms.byCard (Some 14) "-1234" zipRules 5).
  - exists 14, (Page.node "INPUT" "zip" "user-zip" "text"
                          (Some "-1234") false (Some 13)).
    split; [reflexivity | split; [reflexivity|]].
    intros _; exists 13, (Page.node "LABEL" EmptyString EmptyString
                                    EmptyString None false (Some 1)).
    split; reflexivity.
  - reflexivity.
  - reflexivity.
  - left; split; reflexivity.
Defined.

(** On the form filled in for payment by card, with the zip code
    [-1234] and the CVV [1.5], a pass finds nothing wrong. *)
Example byCard_valid :
  fst (validateForm (Page.regFormValidator Forms.byCard)) = Ok true.
Proof. vm_compute; reflexivity. Qed.

(* ================================================================= *)
(** ** [indexOf] and [lastIndexOf] of one character *)

Lemma prefix_char : forall c s,
  String.prefix (String c EmptyString) s
  = match s with
    | EmptyString => false
    | String a _ => Ascii.eqb c a
    end.
Proof.
  intros c [|a s]; simpl; [reflexivity|].
  destruct (ascii_dec c a) as [->|N].
  - rewrite Ascii.eqb_refl; now destruct s.
  - symmetry; now apply Ascii.eqb_neq.
Qed.

Lemma indexOfFrom_hit : forall c rest i,
  indexOfFrom i (String c rest) (String c EmptyString) = i.
Proof.
  intros c rest i; unfold indexOfFrom.
  now rewrite prefix_char, Ascii.eqb_refl.
Qed.

Lemma indexOfFrom_skip : forall c l rest i,
  Page.allChars (fun a => negb (isChar c a)) l = true ->
  indexOfFrom i (l ++ rest) (String c EmptyString)
  = indexOfFrom (i + Z.of_nat (String.length l)) rest (String c EmptyString).
Proof.
  intros c; induction l as [|a l IH]; intros rest i H.
  - simpl; f_equal; lia.
  - simpl in H; apply andb_true_iff in H; destruct H as (Ha & Hl).
    change (String a l ++ rest)%string with (String a (l ++ rest)).
    cbn [indexOfFrom]; rewrite prefix_char.
    unfold isChar in Ha; apply negb_true_iff in Ha; rewrite Ha.
    rewrite (IH rest (i + 1)%Z Hl); f_equal.
    cbn [String.length]; lia.
Qed.

Lemma indexOfFrom_before : forall c l rest i,
  Page.allChars (fun a => negb (isChar c a)) l = false ->
  (i <= indexOfFrom i (l ++ rest) (String c EmptyString)
   < i + Z.of_nat (String.length l))%Z.
Proof.
  intros c; induction l as [|a l IH]; intros rest i H; [discriminate H|].
  change (String a l ++ rest)%string with (String a (l ++ rest)).
  cbn [indexOfFrom]; rewrite prefix_char.
  simpl in H; unfold isChar in H.
  destruct (Ascii.eqb c a); simpl in H.
  - cbn [String.length]; lia.
  - specialize (IH rest (i + 1)%Z H); cbn [String.length]; lia.
Qed.

Lemma lastIndexOfFrom_none : forall c s i best,
  Page.allChars (fun a => negb (isChar c a)) s = true ->
  lastIndexOfFrom i best s (String c EmptyString) = best.
Proof.
  intros c; induction s as [|a s IH]; intros i best H.
  - reflexivity.
  - simpl in H; apply andb_true_iff in H; destruct H as (Ha & Hs).
    cbn [lastIndexOfFrom]; rewrite prefix_char.
    unfold isChar in Ha; apply negb_true_iff in Ha; rewrite Ha.
    now apply IH.
Qed.

Lemma lastIndexOfFrom_last : forall c l rest i best,
  Page.allChars (fun a => negb (isChar c a)) rest = true ->
  lastIndexOfFrom i best (l ++ String c rest) (String c EmptyString)
  = (i + Z.of_nat (String.length l))%Z.
Proof.
  intros c; induction l as [|a l IH]; intros rest i best H.
  - cbn [append lastIndexOfFrom]; rewrite prefix_char, Ascii.eqb_refl.
    rewrite lastIndexOfFrom_none by assumption. simpl; lia.
  - change (String a l ++ String c rest)%string
      with (String a (l ++ String c rest)).
    cbn [lastIndexOfFrom]; rewrite (IH rest (i + 1)%Z _ H).
    cbn [String.length]; lia.
Qed.

Lemma allChars_impl : forall (p q : ascii -> bool) s,
  (forall a, p a = true -> q a = true) ->
  Page.allChars p s = true -> Page.allChars q s = true.
Proof.
  intros p q s Hpq; induction s as [|a s IH]; simpl; [reflexivity|].
  intros H; apply andb_true_iff in H; destruct H as (Ha & Hs).
  now rewrite (Hpq a Ha), IH.
Qed.

(* ================================================================= *)
(** ** The addresses the rule set accepts *)

Lemma Lang_emailRegex : forall v,
  Lang emailRegex v
  <-> exists l dom tld,
        v = (l ++ "@" ++ dom ++ "." ++ tld)%string /\
        l <> EmptyString /\
        Page.allChars (fun c => negb (isChar "@" c)) l = true /\
        dom <> EmptyString /\ Page.allChars plainChar dom = true /\
        tld <> EmptyString /\ Page.allChars letter tld = true.
Proof.
  intros v; unfold emailRegex; split.
  - intros H.
    apply Lang_seq_inv in H; destruct H as (l & s1 & -> & Hl & H).
    apply Lang_seq_inv in H; destruct H as (a & s2 & -> & Ha & H).
    apply Lang_seq_inv in H; destruct H as (dom & s3 & -> & Hd & H).
    apply Lang_seq_inv in H; destruct H as (b & tld & -> & Hb & Ht).
    apply Lang_plus_class in Hl, Hd, Ht.
    apply Lang_class_inv in Ha, Hb.
    destruct Ha as (ca & -> & Ea); destruct Hb as (cb & -> & Eb).
    unfold isChar in Ea, Eb; apply Ascii.eqb_eq in Ea, Eb; subst ca cb.
    exists l, dom, tld; intuition.
  - intros (l & dom & tld & -> & Hl & Hla & Hd & Hda & Ht & Hta).
    constructor; [now apply Lang_plus_class|].
    change ("@" ++ dom ++ "." ++ tld)%string
      with (String "@" EmptyString ++ (dom ++ "." ++ tld))%string.
    constructor; [constructor; reflexivity|].
    constructor; [now apply Lang_plus_class|].
    change ("." ++ tld)%string with (String "." EmptyString ++ tld)%string.
    constructor; [constructor; reflexivity|].
    now apply Lang_plus_class.
Qed.

Lemma letter_plain : forall c, letter c = true -> plainChar c = true.
Proof.
  intros c H; unfold plainChar, isChar.
  destruct (Ascii.eqb "@" c) eqn:E1;
    [apply Ascii.eqb_eq in E1; subst c; discriminate H|].
  destruct (Ascii.eqb "." c) eqn:E2;
    [apply Ascii.eqb_eq in E2; subst c; discriminate H|].
  reflexivity.
Qed.

Lemma plain_not : forall x,
  x = "@"%char \/ x = "."%char ->
  forall c, plainChar c = true -> negb (isChar x c) = true.
Proof.
  intros x Hx c H; unfold plainChar in H.
  apply negb_true_iff, orb_false_iff in H; destruct H as (H1 & H2).
  destruct Hx as [-> | ->]; apply negb_true_iff; assumption.
Qed.

Lemma allChars_both : forall s,
  Page.allChars (fun c => negb (isChar "@" c)) s = true ->
  Page.allChars (fun c => negb (isChar "." c)) s = true ->
  Page.allChars plainChar s = true.
Proof.
  induction s as [|a s IH]; cbn [Page.allChars]; [reflexivity|].
  intros H1 H2; apply andb_true_iff in H1, H2.
  destruct H1 as (A1 & S1); destruct H2 as (A2 & S2).
  rewrite (IH S1 S2), andb_true_r; unfold plainChar.
  apply negb_true_iff in A1, A2; now rewrite A1, A2.
Qed.

Lemma emailRules_verdict : forall d fld v,
  fieldValue d fld = Ok (Some v) ->
  firstFailure emailRules d fld
  = Ok (if Nat.eqb (String.length v) 0 then Some "Email is required"
        else if negb (Z.ltb (-1) (indexOf v "@"))
        then Some "Enter the 'at' symbol in the email address."
        else if Z.eqb (indexOf v "@") 0
        then Some "The 'at' symbol should not appear at the beginning."
        else if negb (Z.ltb (-1) (indexOf v "."))
        then Some "Enter the 'dot' symbol in the email address."
        else if negb (Z.ltb (indexOf v "@") (indexOf v "."))
        then Some "The 'at' symbol must be before the 'dot' symbol."
        else if negb (Z.eqb (indexOf v "@") (lastIndexOf v "@"))
        then Some "The 'at' symbol should only appear once."
        else if matches emailRegex v then None
        else Some "Email address must be formatted correctly").
Proof.
  intros d fld v Hv; unfold emailRules.
  cbn [firstFailure method message];
    unfold valueLength, valueString, valueTest.
  rewrite Hv; cbn [andThen Js.length receiver]; unfold test, toString.
  destruct (String.length v) as [|n]; [reflexivity|].
  cbn [Nat.ltb Nat.leb Nat.eqb].
  destruct (Z.ltb (-1) (indexOf v "@")); cbn [negb]; [|reflexivity].
  destruct (Z.eqb (indexOf v "@") 0); cbn [negb]; [reflexivity|].
  destruct (Z.ltb (-1) (indexOf v ".")); cbn [negb]; [|reflexivity].
  destruct (Z.ltb (indexOf v "@") (indexOf v ".")); cbn [negb];
    [|reflexivity].
  destruct (Z.eqb (indexOf v "@") (lastIndexOf v "@")); cbn [negb];
    [|reflexivity].
  now destruct (matches emailRegex v).
Qed.

(** Where the first [@] and the first dot of an address are. *)
Lemma indexOf_at : forall l rest,
  Page.allChars (fun c => negb (isChar "@" c)) l = true ->
  indexOf (l ++ "@" ++ rest) "@" = Z.of_nat (String.length l).
Proof.
  intros l rest H; unfold indexOf.
  rewrite (indexOfFrom_skip "@" l _ 0 H).
  change ("@" ++ rest)%string with (String "@" rest).
  now rewrite indexOfFrom_hit.
Qed.

Lemma lastIndexOf_at : forall l rest,
  Page.allChars (fun c => negb (isChar "@" c)) rest = true ->
  lastIndexOf (l ++ "@" ++ rest) "@" = Z.of_nat (String.length l).
Proof.
  intros l rest H; unfold lastIndexOf.
  change ("@" ++ rest)%string with (String "@" rest).
  now rewrite (lastIndexOfFrom_last "@" l rest 0 (-1) H).
Qed.

(** X15.  The addresses the rule set accepts.  For an email field that
    holds the string [v], the seven rules of [email] accept it exactly
    when it is [local@domain.tld] with a local part and a domain that
    are not empty and hold neither [@] nor a dot, and a top-level part
    of one or more letters.  The regular expression of the last rule
    would let a dot into the local part; the rule that the first [@]
    come before the first dot does not.  So an address whose local part
    has a dot is rejected, with the message of that rule. *)
Theorem email_rule_set : forall d fld v,
  presentable d fld ->
  fieldValue d fld = Ok (Some v) ->
  (accepts emailRules fld d
   <-> exists l dom tld,
         v = (l ++ "@" ++ dom ++ "." ++ tld)%string /\
         l <> EmptyString /\ Page.allChars plainChar l = true /\
         dom <> EmptyString /\ Page.allChars plainChar dom = true /\
         tld <> EmptyString /\ Page.allChars letter tld = true) /\
  (forall l rest,
     v = (l ++ "@" ++ rest)%string ->
     Page.allChars (fun c => negb (isChar "@" c)) l = true ->
     Page.allChars (fun c => negb (isChar "." c)) l = false ->
     rejectsWith emailRules fld d
       "The 'at' symbol must be before the 'dot' symbol.").
Proof.
  intros d fld v Hp Hv.
  assert (Hs : Forall (steady fld d) emailRules)
    by (apply steady_scriptRules; left; simpl; auto).
  pose proof (emailRules_verdict d fld v Hv) as Hf.
  split; [split|].
  - (* accepted: the shape of the address *)
    intros Ha; apply (accepts_firstFailure fld d Hp emailRules Hs) in Ha.
    rewrite Hf in Ha.
    destruct (Nat.eqb (String.length v) 0); [discriminate Ha|].
    destruct (Z.ltb (-1) (indexOf v "@")); [|discriminate Ha].
    destruct (Z.eqb (indexOf v "@") 0); [discriminate Ha|].
    destruct (Z.ltb (-1) (indexOf v ".")); [|discriminate Ha].
    destruct (Z.ltb (indexOf v "@") (indexOf v ".")) eqn:E5;
      [|discriminate Ha].
    destruct (Z.eqb (indexOf v "@") (lastIndexOf v "@")); [|discriminate Ha].
    destruct (matches emailRegex v) eqn:E7; [|discriminate Ha].
    apply matches_spec, Lang_emailRegex in E7.
    destruct E7 as (l & dom & tld & -> & Hl & Hla & Hd & Hda & Ht & Hta).
    exists l, dom, tld.
    split; [reflexivity|]. split; [assumption|].
    split; [|repeat split; assumption].
    apply allChars_both; [assumption|].
    destruct (Page.allChars (fun c => negb (isChar "." c)) l) eqn:El;
      [reflexivity|exfalso].
    rewrite indexOf_at in E5 by assumption.
    pose proof (indexOfFrom_before "." l ("@" ++ dom ++ "." ++ tld) 0 El)
      as Hb.
    unfold indexOf in E5; apply Z.ltb_lt in E5; lia.
  - (* an address of that shape is accepted *)
    intros (l & dom & tld & -> & Hl & Hla & Hd & Hda & Ht & Hta).
    apply (accepts_firstFailure fld d Hp emailRules Hs); rewrite Hf.
    assert (Hat : Page.allChars (fun c => negb (isChar "@" c)) l = true)
      by (eapply allChars_impl; [apply (plain_not "@"); auto | exact Hla]).
    assert (Hlen : 0 < String.length l)
      by (destruct l; [now elim Hl | simpl; lia]).
    rewrite indexOf_at by assumption.
    rewrite lastIndexOf_at.
    2:{ rewrite !allChars_app; cbn [Page.allChars].
        rewrite (allChars_impl _ _ dom (plain_not "@" (or_introl eq_refl)) Hda).
        rewrite (allChars_impl _ _ tld
                   (fun c H => plain_not "@" (or_introl eq_refl) c
                                 (letter_plain c H)) Hta).
        reflexivity. }
    assert (Hdot : indexOf (l ++ "@" ++ dom ++ "." ++ tld) "."
                   = Z.of_nat (String.length (l ++ "@" ++ dom))).
    { unfold indexOf.
      replace (l ++ "@" ++ dom ++ "." ++ tld)%string
        with ((l ++ "@" ++ dom) ++ String "." tld)%string
        by (rewrite !append_assoc; reflexivity).
      rewrite indexOfFrom_skip, indexOfFrom_hit; [reflexivity|].
      rewrite !allChars_app; cbn [Page.allChars].
      rewrite (allChars_impl _ _ l (plain_not "." (or_intror eq_refl)) Hla).
      rewrite (allChars_impl _ _ dom (plain_not "." (or_intror eq_refl)) Hda).
      reflexivity. }
    rewrite Hdot, !length_append.
    assert (E7 : matches emailRegex (l ++ "@" ++ dom ++ "." ++ tld) = true).
    { apply matches_spec, Lang_emailRegex.
      exists l, dom, tld.
      split; [reflexivity|]. repeat split; assumption. }
    rewrite E7, Z.eqb_refl.
    destruct (Nat.eqb (String.length l + _) 0) eqn:E0;
      [apply Nat.eqb_eq in E0; lia|].
    replace (Z.ltb (-1) (Z.of_nat (String.length l))) with true
      by (symmetry; apply Z.ltb_lt; lia).
    replace (Z.eqb (Z.of_nat (String.length l)) 0) with false
      by (symmetry; apply Z.eqb_neq; lia).
    replace (Z.ltb (-1) (Z.of_nat (String.length l + _))) with true
      by (symmetry; apply Z.ltb_lt; lia).
    replace (Z.ltb (Z.of_nat (String.length l))
                   (Z.of_nat (String.length l + _))) with true
      by (symmetry; apply Z.ltb_lt; cbn [String.length]; lia).
    reflexivity.
  - (* a dot in the local part *)
    intros l rest -> Hat Hdot.
    apply (rejectsWith_firstFailure fld d Hp emailRules _ Hs); rewrite Hf.
    assert (Hlen : 0 < String.length l)
      by (destruct l; [discriminate Hdot | simpl; lia]).
    rewrite indexOf_at by assumption.
    pose proof (indexOfFrom_before "." l ("@" ++ rest) 0 Hdot) as Hb.
    fold (indexOf (l ++ "@" ++ rest) ".") in Hb.
    rewrite length_append.
    destruct (Nat.eqb (String.length l + _) 0) eqn:E0;
      [apply Nat.eqb_eq in E0; lia|].
    replace (Z.ltb (-1) (Z.of_nat (String.length l))) with true
      by (symmetry; apply Z.ltb_lt; lia).
    replace (Z.eqb (Z.of_nat (String.length l)) 0) with false
      by (symmetry; apply Z.eqb_neq; lia).
    replace (Z.ltb (-1) (indexOf (l ++ "@" ++ rest) ".")) with true
      by (symmetry; apply Z.ltb_lt; lia).
    replace (Z.ltb (Z.of_nat (String.length l))
                   (indexOf (l ++ "@" ++ rest) ".")) with false
      by (symmetry; apply Z.ltb_ge; lia).
    reflexivity.
Qed.

Lemma email_rule_set_witness :
  (accepts emailRules (Some 5) (document Page.submitted)
   <-> exists l dom tld,
         "a.b@@c.com" = (l ++ "@" ++ dom ++ "." ++ tld)%string /\
         l <> EmptyString /\ Page.allChars plainChar l = true /\
         dom <> EmptyString /\ Page.allChars plainChar dom = true /\
         tld <> EmptyString /\ Page.allChars letter tld = true) /\
  (forall l rest,
     "a.b@@c.com" = (l ++ "@" ++ rest)%string ->
     Page.allChars (fun c => negb (isChar "@" c)) l = true ->
     Page.allChars (fun c => negb (isChar "." c)) l = false ->
     rejectsWith emailRules (Some 5) (document Page.submitted)
       "The 'at' symbol must be before the 'dot' symbol.").
Proof.
  apply (email_rule_set (document Page.submitted) (Some 5) "a.b@@c.com").
  - exists 5, (Page.node "INPUT" "email" "user-email" "email"
                         (Some "a.b@@c.com") false (Some 4)).
    split; [reflexivity | split; [reflexivity|]].
    intros _; exists 4, (Page.node "LABEL" EmptyString EmptyString
                                   EmptyString None false (Some 1)).
    split; reflexivity.
  - reflexivity.
Defined.

(* ================================================================= *)
(** ** The two evaluators on one field *)

Lemma fieldValue_remove : forall h d fld,
  fieldValue (remove h d) fld = fieldValue d fld.
Proof.
  intros h d [x|]; [|reflexivity]; unfold fieldValue, remove.
  rewrite deref_map; destruct (deref d x) as [e|]; [|reflexivity].
  cbn [option_map fst snd].
  destruct (Nat.eqb x h), (memH x (subtree d h)); now destruct e.
Qed.

Lemma fieldValue_removeAll : forall qsa sel d fld,
  fieldValue (snd (removeAll qsa sel d)) fld = fieldValue d fld.
Proof.
  intros qsa sel d fld; unfold removeAll, mutate.
  destruct (qsa d None sel) as [els|e]; [|reflexivity].
  cbn [snd]; revert d; induction els as [|h els IH]; intros d; simpl;
    [reflexivity|].
  now rewrite IH, fieldValue_remove.
Qed.

Lemma firstFailure_valueOnly : forall rs d d' fld,
  Forall (fun r => condition r = None /\ valueOnly r) rs ->
  fieldValue d fld = fieldValue d' fld ->
  firstFailure rs d fld = firstFailure rs d' fld.
Proof.
  induction rs as [|r rs IH]; intros d d' fld H E; [reflexivity|].
  inversion H as [|? ? (_ & Hr) Hrs]; subst; simpl.
  rewrite (Hr d d' fld E), (IH d d' fld Hrs E); reflexivity.
Qed.

Lemma steady_valueOnly : forall fld d0 rs,
  Forall (fun r => condition r = None /\ valueOnly r) rs ->
  Forall (steady fld d0) rs.
Proof.
  intros fld d0 rs H; eapply Forall_impl; [|exact H].
  intros r (Hc & Hv); apply steady_value; auto.
Qed.

(** A pass seen from a validator whose rules accept its field. *)
Lemma validateForm_accepts : forall s pre v post,
  validators s = pre ++ v :: post ->
  (forall u, In u (pre ++ post) -> fieldId u <> fieldId v) ->
  accepts (rules v) (field v) (documentAt s pre) ->
  exists es,
    errors (snd (validateForm s)) = Some es /\
    errorsFor (fieldId v) es = [].
Proof.
  intros s pre v post Hvs Hu (d' & Hn).
  set (s0 := setErrors (Some []) s).
  destruct (formValidators_split pre v post 0 s0 [] eq_refl)
    as (es1 & es2 & es3 & cs1 & cs2 & cs3 & He1 & Hc1 & Hes & Hcs & Hs1
        & Hs3 & B1 & B3 & Hreach & Hnot & _).
  simpl in He1, Hc1, Hes, Hcs, B1, B3, Hreach, Hnot.
  assert (Hcase : es2 = []).
  { destruct (fst (formValidators 0 pre s0)) as [[]|err] eqn:E1.
    - destruct (Hreach eq_refl) as (He2 & _).
      destruct (formRules_no_failure _ _ _ _ Hn (List.length pre) v 0
                  (snd (formValidators 0 pre s0)) eq_refl eq_refl)
        as (cs & Hrun).
      rewrite Hrun in He2; simpl in He2.
      rewrite He1 in He2; injection He2 as He2.
      rewrite <- (app_nil_r es1) in He2 at 1.
      now apply app_inv_head in He2.
    - now destruct Hnot as (-> & ->). }
  subst es2; exists (es1 ++ es3); split.
  - rewrite validateForm_run; cbv zeta; rewrite Hvs; fold s0.
    destruct (formValidators 0 (pre ++ v :: post) s0) as [[[]|err] s3];
      simpl in *; [rewrite Hes|]; auto.
  - rewrite errorsFor_app; unfold errorsFor.
    rewrite (filter_others _ pre), (filter_others _ post); auto.
    + intros u Hin; apply Hu, in_or_app; now right.
    + intros u Hin; apply Hu, in_or_app; now left.
Qed.

Section Agree.

Variable qsa : Document -> option handle -> string -> Result (list handle).
Variable id : string.
Hypothesis engine : selectsHints qsa id.

(** The loop of [validateField] over rules without conditions that read
    the value of the field: what it shows is the verdict of the rules. *)
Lemma fieldRules_verdict : forall rs ei v ri s s',
  Forall (fun r => condition r = None /\ valueOnly r) rs ->
  wellFormed (document s) ->
  fieldRules qsa id ei v ri rs s = (Ok tt, s') ->
  match firstFailure rs (document s) (field v) with
  | Ok (Some m) =>
      exists r n, In r rs /\ message r = m /\ oneHint (document s') id r n
  | Ok None => rs = [] \/ hintsShown (document s') id = []
  | Throw _ => False
  end.
Proof.
  induction rs as [|r rs IH]; intros ei v ri s s' Hrs Hw H.
  - simpl; now left.
  - inversion Hrs as [|? ? (Hc & Hv) Hrs']; subst.
    cbn [fieldRules] in H; unfold bind at 1 in H.
    rewrite fieldRule_body, ruleBody_run, Hc, methodStep_run in H.
    cbv zeta in H; cbn [firstFailure].
    destruct (method r (document s) (field v)) as [[|]|e] eqn:Em.
    + rewrite fieldOnPass_doc in H.
      destruct (bind (showValid (field v)) (fun _ => removeHint qsa id)
                     (document (setCalls
                        (calls s ++ [MethodCall ei ri (Ok true)]) s)))
        as [[[]|e] d1] eqn:Ep; simpl in H; [|discriminate H].
      assert (Hval : fieldValue d1 (field v)
                     = fieldValue (document s) (field v)).
      { cbn [document setCalls] in Ep; unfold bind in Ep.
        destruct (showValid (field v) (document s)) as [[[]|e] d2] eqn:Es;
          [|discriminate Ep].
        apply showValid_same in Es.
        rewrite (fieldValue_same _ _ (field v) Es).
        unfold removeHint in Ep.
        pose proof (fieldValue_removeAll qsa ("." ++ hintClass id) d2
                      (field v)) as Hr.
        now rewrite Ep in Hr. }
      pose proof (hint_after_pass qsa id engine _ _ _ Ep) as Hnone.
      cbn [document setCalls] in Ep.
      pose proof (pass_wellFormed qsa id _ _ _ Hw Ep) as Hw1.
      specialize ((fun W => IH ei v (S ri) _ s' Hrs' W H) Hw1) as IH1.
      clear IH; rename IH1 into IH; cbn [document setDocument] in IH.
      rewrite (firstFailure_valueOnly rs d1 (document s) (field v) Hrs' Hval)
        in IH.
      destruct (firstFailure rs (document s) (field v)) as [[m|]|e].
      * destruct IH as (r' & n & Hin & Hm & Hh).
        exists r', n; split; [now right | auto].
      * right; destruct IH as [-> | IH]; [|exact IH].
        simpl in H; injection H as <-; exact Hnone.
      * exact IH.
    + rewrite fieldOnFail_doc in H.
      destruct (bind (removeHint qsa id) (fun _ => showHint id r)
                     (document (setCalls
                        (calls s ++ [MethodCall ei ri (Ok false)]) s)))
        as [[[]|e] d1] eqn:Ef; simpl in H; [|discriminate H].
      injection H as <-.
      apply (hint_after_failure qsa id engine) in Ef; [|exact Hw].
      destruct Ef as (n & Hn).
      exists r, n; split; [now left | split; [reflexivity | exact Hn]].
    + discriminate H.
Qed.

(** X16.  The two evaluators agree on a field.  Take a validator, the
    only one for its identifier, with at least one rule, whose rules
    have no condition and read nothing but the value of the field, as
    those of [name] and [email] do, the two fields the script validates
    while the user types; let its field be an element [showValid] can
    run on (an element of the page, with a parent on the page when it is
    an [<input>]), the page be well-formed and the selector engine
    answer the selector of [removeHint] as specified.  On the same page,
    where both return: either [validateForm] has no record for the field
    and [validateField] leaves no hint for it in the document, or
    [validateForm] has exactly one record for it and [validateField]
    leaves exactly one hint for it in the document, and the two carry
    the message of the same rule. *)
Theorem evaluators_agree : forall s pre v post b sF sV,
  validators s = pre ++ v :: post ->
  fieldId v = id ->
  (forall u, In u (pre ++ post) -> fieldId u <> id) ->
  rules v <> [] ->
  Forall (fun r => condition r = None /\ valueOnly r) (rules v) ->
  presentable (document s) (field v) ->
  wellFormed (document s) ->
  validateForm s = (Ok b, sF) ->
  validateField qsa id s = (Ok tt, sV) ->
  exists es,
    errors sF = Some es /\
    ((errorsFor id es = [] /\ hintsShown (document sV) id = []) \/
     (exists r n hint,
        In r (rules v) /\
        errorsFor id es = [mkError id (message r)] /\
        deref (document sV) n = Some hint /\
        innerText hint = message r /\
        classList hint = ["hint"; hintClass id] /\
        isConnected hint = true /\
        hintsShown (document sV) id = [n])).
Proof.
  intros s pre v post b sF sV Hvs Hid Hu Hne Hrs Hp Hw HF HV.
  assert (Hu' : forall u, In u (pre ++ post) -> fieldId u <> fieldId v)
    by now rewrite Hid.
  rewrite validateField_run, Hvs in HV.
  rewrite (findValidator_first id pre v post 0) in HV;
    [|intros u Hin; apply Hu, in_or_app; now left | assumption].
  pose proof (fieldRules_verdict _ _ _ _ _ _ Hrs Hw HV) as Hfield.
  pose proof (steady_valueOnly (field v) (document s) _ Hrs) as Hst.
  assert (Hdoc : sameButClasses (document s) (documentAt s pre))
    by apply (formValidators_document pre 0 (setErrors (Some []) s)).
  destruct (firstFailure (rules v) (document s) (field v))
    as [[m|]|e] eqn:Ef; [| |contradiction].
  - destruct Hfield as (r & n & Hin & Hm & hint & Hh).
    destruct (firstFailure_rejects (field v) (document s) Hp (rules v)
                (documentAt s pre) m Hst Hdoc Ef)
      as (before & rk & after & dk & Hr & Hn & Hk & Hmsg).
    destruct (validateForm_first_failure s pre v post before rk after dk
                b sF Hvs Hr Hu' Hn Hk HF)
      as (_ & es & cs & He & Herr & _).
    exists es; split; [assumption|]. right.
    exists r, n, hint; split; [assumption|]. split; [|assumption].
    now rewrite <- Hid, Hm, <- Hmsg.
  - destruct (validateForm_accepts s pre v post Hvs Hu')
      as (es & He & Herr).
    { apply (firstFailure_accepts (field v) (document s) Hp); assumption. }
    rewrite HF in He; simpl in He.
    exists es; split; [assumption|]. left.
    split; [now rewrite <- Hid|].
    destruct Hfield as [Hnil | Hh]; [contradiction | exact Hh].
Qed.

End Agree.

Lemma valueOnly_scriptRules : forall rs,
  In rs [nameRules; emailRules] ->
  Forall (fun r => condition r = None /\ valueOnly r) rs.
Proof.
  intros rs H; simpl in H; decompose [or] H; try contradiction; subst rs;
    repeat (constructor;
            [split; [reflexivity
                    |let E := fresh in
                     intros ? ? ? E;
                     cbv beta iota
                         delta [method valueLength valueString valueTest];
                     rewrite E; reflexivity]|]);
    constructor.
Qed.

Lemma evaluators_agree_witness :
  let sV := snd (validateField Page.selectAll "name" Page.submitted) in
  exists es,
    errors (snd (validateForm Page.submitted)) = Some es /\
    ((errorsFor "name" es = [] /\ hintsShown (document sV) "name" = []) \/
     (exists r n hint,
        In r (rules (mkValidator "name" nameRules (Some 3))) /\
        errorsFor "name" es = [mkError "name" (message r)] /\
        deref (document sV) n = Some hint /\
        innerText hint = message r /\
        classList hint = ["hint"; hintClass "name"] /\
        isConnected hint = true /\
        hintsShown (document sV) "name" = [n])).
Proof.
  apply (evaluators_agree Page.selectAll "name"
           (selectAll_hints "name" eq_refl eq_refl)
           Page.submitted []
           (mkValidator "name" nameRules (Some 3))
           (skipn 1 (validators Page.submitted)) false).
  - reflexivity.
  - reflexivity.
  - apply other_ids; vm_compute; reflexivity.
  - discriminate.
  - apply valueOnly_scriptRules; simpl; auto.
  - apply presentableb_spec; reflexivity.
  - apply wellFormedb_sound; vm_compute; reflexivity.
  - apply run_outcome; vm_compute; reflexivity.
  - apply run_outcome; vm_compute; reflexivity.
Defined.

(** On the submitted page the evaluators agree on the second rule of
    [name]: one record from [validateForm], one hint in the document
    from [validateField], with one message. *)
Example short_name_agreement :
  option_map (errorsFor "name")
             (errors (snd (validateForm Page.submitted)))
  = Some [mkError "name" "Name must be at least 3 characters long"] /\
  map (fun he => innerText (snd he))
      (filter (shownHint (hintClass "name"))
         (document (snd (validateField Page.selectAll "name"
                           Page.submitted))))
  = ["Name must be at least 3 characters long"].
Proof. split; vm_compute; reflexivity. Qed.

(* ================================================================= *)
(** ** The listener of the activity checkboxes *)

Lemma getAttribute_put : forall name val name' attrs,
  getAttribute name' (putAttribute name val attrs)
  = if String.eqb name name' then Some val else getAttribute name' attrs.
Proof.
  intros name val name' attrs; induction attrs as [|[n v] attrs IH]; simpl.
  - reflexivity.
  - destruct (String.eqb n name) eqn:E; simpl.
    + apply String.eqb_eq in E; subst n.
      now destruct (String.eqb name name').
    + destruct (String.eqb n name') eqn:E'; [|exact IH].
      apply String.eqb_eq in E'; subst n.
      rewrite String.eqb_sym, E; reflexivity.
Qed.

Lemma getAttribute_drop : forall name name' attrs,
  getAttribute name' (dropAttribute name attrs)
  = if String.eqb name name' then None else getAttribute name' attrs.
Proof.
  intros name name' attrs; unfold dropAttribute.
  induction attrs as [|[n v] attrs IH]; simpl.
  - now destruct (String.eqb name name').
  - destruct (String.eqb n name) eqn:E; simpl.
    + apply String.eqb_eq in E; subst n. rewrite IH.
      now destruct (String.eqb name name').
    + rewrite IH.
      destruct (String.eqb n name') eqn:E'; [|reflexivity].
      apply String.eqb_eq in E'; subst n.
      rewrite String.eqb_sym, E; reflexivity.
Qed.

Lemma getAttribute_toggled : forall on name' attrs,
  getAttribute name' (toggled on attrs)
  = if String.eqb "disabled" name'
    then (if on then Some EmptyString else None)
    else getAttribute name' attrs.
Proof.
  intros [|] name' attrs; unfold toggled;
    [apply getAttribute_put | apply getAttribute_drop].
Qed.

Lemma putAttribute_twice : forall name val attrs,
  putAttribute name val (putAttribute name val attrs)
  = putAttribute name val attrs.
Proof.
  intros name val attrs; induction attrs as [|[n v] attrs IH]; simpl.
  - now rewrite String.eqb_refl.
  - destruct (String.eqb n name) eqn:E; simpl; rewrite E; [reflexivity|].
    now rewrite IH.
Qed.

Lemma dropAttribute_twice : forall name attrs,
  dropAttribute name (dropAttribute name attrs) = dropAttribute name attrs.
Proof.
  intros name attrs; unfold dropAttribute.
  induction attrs as [|[n v] attrs IH]; simpl; [reflexivity|].
  destruct (String.eqb n name) eqn:E; simpl; [exact IH|].
  now rewrite E, IH.
Qed.

Lemma toggled_twice : forall on attrs,
  toggled on (toggled on attrs) = toggled on attrs.
Proof.
  intros [|] attrs; unfold toggled;
    [apply putAttribute_twice | apply dropAttribute_twice].
Qed.

Lemma toggledClass_twice : forall on cl,
  toggledClass on (toggledClass on cl) = toggledClass on cl.
Proof.
  intros [|] cl; unfold toggledClass.
  - simpl; destruct (hasToken "disabled" cl) eqn:E; [now rewrite E|].
    now rewrite hasToken_app, E; simpl.
  - unfold removeToken; induction cl as [|t cl IH]; simpl; [reflexivity|].
    destruct (String.eqb t "disabled") eqn:E; simpl; [exact IH|].
    now rewrite E, IH.
Qed.

(** One round of the inner loop. *)
Lemma conflictBody_run : forall c a d d1,
  conflictBody c a d = (Ok tt, d1) ->
  exists ae ce,
    deref d a = Some ae /\ deref d c = Some ce /\
    forall x,
      deref d1 x
      = option_map (afterChange d [a] c (checked ce) x) (deref d x).
Proof.
  intros c a d d1 H; unfold conflictBody in H.
  destruct (deref d a) as [ae|] eqn:Ea; [|discriminate H].
  destruct (deref d c) as [ce|] eqn:Ec; [|discriminate H].
  exists ae, ce; split; [reflexivity|]. split; [reflexivity|].
  assert (Hcl : clash d c a
                = negb (Nat.eqb a c) && sameDayAndTime ae ce)
    by (unfold clash; now rewrite Ea, Ec).
  assert (Hconf : forall x, conflicting d [a] c x
                            = Nat.eqb a x && clash d c a).
  { intros x; unfold conflicting, memH; simpl.
    rewrite orb_false_r, (Nat.eqb_sym x a).
    destruct (Nat.eqb a x) eqn:E; [|reflexivity].
    apply Nat.eqb_eq in E; now subst x. }
  assert (Hpar : forall x, conflictParent d [a] c x
                           = clash d c a && parentIs d a x).
  { intros x; unfold conflictParent; simpl; now rewrite orb_false_r. }
  rewrite <- Hcl in H.
  intros x; unfold afterChange; rewrite Hconf, Hpar.
  destruct (clash d c a) eqn:Eclash.
  - assert (Hrun : exists p,
              parentElement ae = Some p /\
              d1 = update p (fun e => setClassList
                                        (toggledClass (checked ce)
                                                      (classList e)) e)
                     (update a (fun e => setAttributes
                                           (toggled (checked ce)
                                                    (attributes e)) e) d)).
    { unfold bind, mutate, removeAttribute, setAttribute in H.
      rewrite Ea in H; unfold toggled, toggledClass.
      destruct (checked ce); cbn [negb] in H.
      - destruct (classListAdd (parentElement ae) ["disabled"] _)
          as [d2|e] eqn:E2; [|discriminate H].
        injection H as <-.
        destruct (parentElement ae) as [p|]; [|discriminate E2].
        apply classListAdd_run in E2; destruct E2 as (_ & ->).
        exists p; split; reflexivity.
      - destruct (classListRemove (parentElement ae) "disabled" _)
          as [d2|e] eqn:E2; [|discriminate H].
        injection H as <-.
        destruct (parentElement ae) as [p|]; [|discriminate E2].
        apply classListRemove_run in E2; destruct E2 as (_ & ->).
        exists p; split; reflexivity. }
    destruct Hrun as (p & Hp & ->).
    unfold parentIs; rewrite Ea, Hp, !deref_update.
    rewrite andb_true_r; cbn [andb].
    destruct (Nat.eqb p x) eqn:Epx.
    + apply Nat.eqb_eq in Epx; subst x.
      destruct (Nat.eqb a p) eqn:Eap.
      * apply Nat.eqb_eq in Eap; subst p. rewrite Ea; simpl.
        now destruct ae.
      * destruct (deref d p) as [pe|]; [|reflexivity]; simpl.
        now destruct pe.
    + destruct (Nat.eqb a x) eqn:Eax.
      * apply Nat.eqb_eq in Eax; subst x. rewrite Ea; simpl.
        now destruct ae.
      * destruct (deref d x) as [ex|]; [|reflexivity]; simpl.
        now destruct ex.
  - injection H as <-. rewrite andb_false_r; cbn [andb].
    destruct (deref d x) as [ex|]; [|reflexivity]; simpl.
    now destruct ex.
Qed.

Lemma afterChange_fields : forall d boxes c on x ex,
  parentElement (afterChange d boxes c on x ex) = parentElement ex /\
  checked (afterChange d boxes c on x ex) = checked ex /\
  getAttribute "data-day-and-time"
    (attributes (afterChange d boxes c on x ex))
  = getAttribute "data-day-and-time" (attributes ex).
Proof.
  intros d boxes c on x ex; unfold afterChange.
  destruct ex; cbn [setAttributes setClassList parentElement checked
                    attributes classList].
  unfold setAttributes, setClassList; simpl.
  repeat split.
  destruct (conflicting d boxes c x); [|reflexivity].
  now rewrite getAttribute_toggled.
Qed.

Lemma afterChange_nil : forall d c on x ex, afterChange d [] c on x ex = ex.
Proof. intros d c on x ex; unfold afterChange; now destruct ex. Qed.

Lemma afterChange_cons : forall d a rest c on x ex,
  afterChange d rest c on x (afterChange d [a] c on x ex)
  = afterChange d (a :: rest) c on x ex.
Proof.
  intros d a rest c on x ex; unfold afterChange.
  assert (Hc : conflicting d (a :: rest) c x
               = conflicting d [a] c x || conflicting d rest c x).
  { unfold conflicting, memH; simpl.
    destruct (Nat.eqb x a), (existsb (Nat.eqb x) rest), (clash d c x);
      reflexivity. }
  assert (Hp : conflictParent d (a :: rest) c x
               = conflictParent d [a] c x || conflictParent d rest c x).
  { unfold conflictParent; simpl; now rewrite orb_false_r. }
  rewrite Hc, Hp; clear Hc Hp.
  generalize (conflicting d [a] c x), (conflicting d rest c x),
    (conflictParent d [a] c x), (conflictParent d rest c x).
  intros b1 b2 p1 p2.
  destruct ex; unfold setAttributes, setClassList;
    cbn [tagName elemId elemName elemType value checked classList
         attributes innerText parentElement isConnected].
  destruct b1, b2, p1, p2; cbn [orb];
    rewrite ?toggled_twice, ?toggledClass_twice; reflexivity.
Qed.

(** The listener, element by element. *)
Lemma onActivityChange_run : forall boxes c d d' ce,
  deref d c = Some ce ->
  onActivityChange boxes c d = (Ok tt, d') ->
  forall x,
    deref d' x = option_map (afterChange d boxes c (checked ce) x) (deref d x).
Proof.
  unfold onActivityChange.
  induction boxes as [|a rest IH]; intros c d d' ce Hc H x.
  - simpl in H; injection H as <-.
    destruct (deref d x) as [ex|]; [|reflexivity]; simpl.
    now rewrite afterChange_nil.
  - cbn [forEach] in H; unfold bind in H.
    destruct (conflictBody c a d) as [[[]|e] d1] eqn:E1; [|discriminate H].
    destruct (conflictBody_run c a d d1 E1) as (ae & ce0 & Ha & Hc0 & H1).
    rewrite Hc in Hc0; injection Hc0 as <-.
    assert (Hc1 : deref d1 c
                  = Some (afterChange d [a] c (checked ce) c ce))
      by now rewrite H1, Hc.
    rewrite (IH c d1 d' _ Hc1 H x), H1.
    destruct (afterChange_fields d [a] c (checked ce) c ce) as (_ & -> & Hdt).
    assert (Hclash : forall y, clash d1 c y = clash d c y).
    { intros y; unfold clash; rewrite !H1, Hc; cbn [option_map].
      destruct (deref d y) as [ey|]; [|reflexivity]; cbn [option_map].
      destruct (afterChange_fields d [a] c (checked ce) y ey)
        as (_ & _ & Hdy).
      unfold sameDayAndTime; now rewrite Hdt, Hdy. }
    assert (Hpar : forall y z, parentIs d1 y z = parentIs d y z).
    { intros y z; unfold parentIs; rewrite H1.
      destruct (deref d y) as [ey|]; [|reflexivity]; cbn [option_map].
      now destruct (afterChange_fields d [a] c (checked ce) y ey) as (-> & _). }
    assert (Hsame : forall e,
              afterChange d1 rest c (checked ce) x e
              = afterChange d rest c (checked ce) x e).
    { intros e; unfold afterChange, conflicting, conflictParent.
      rewrite Hclash.
      replace (existsb (fun a0 => clash d1 c a0 && parentIs d1 a0 x) rest)
        with (existsb (fun a0 => clash d c a0 && parentIs d a0 x) rest);
        [reflexivity|].
      clear - Hclash Hpar; induction rest as [|y rest IHr]; [reflexivity|].
      cbn [existsb]; now rewrite Hclash, Hpar, IHr. }
    destruct (deref d x) as [ex|]; [|reflexivity]; cbn [option_map].
    now rewrite Hsame, (afterChange_cons d a rest c (checked ce) x ex).
Qed.

(** X17.  The [change] listener of the activity checkboxes.  When the
    checkbox [c] has changed and the listener returns, every other
    checkbox of the list in the time slot of [c] (the same
    [data-day-and-time], or none on either) has the attribute [disabled]
    if [c] is now checked and has lost it if not, and the parent of each
    has got or lost the class [disabled] with it.  Nothing else is
    changed: not [c] itself, not a checkbox of another time slot, no
    value, no checked state, no other attribute or class. *)
Theorem conflict_listener : forall boxes c d d' ce,
  deref d c = Some ce ->
  onActivityChange boxes c d = (Ok tt, d') ->
  (forall x, deref d x = None -> deref d' x = None) /\
  forall x ex,
    deref d x = Some ex ->
    exists ex',
      deref d' x = Some ex' /\
      ex' = setAttributes (attributes ex') (setClassList (classList ex') ex) /\
      attributes ex'
      = (if conflicting d boxes c x
         then toggled (checked ce) (attributes ex) else attributes ex) /\
      classList ex'
      = (if conflictParent d boxes c x
         then toggledClass (checked ce) (classList ex) else classList ex) /\
      (conflicting d boxes c x = true ->
       getAttribute "disabled" (attributes ex')
       = if checked ce then Some EmptyString else None) /\
      (forall name, name <> "disabled" ->
                    getAttribute name (attributes ex')
                    = getAttribute name (attributes ex)).
Proof.
  intros boxes c d d' ce Hc H.
  pose proof (onActivityChange_run boxes c d d' ce Hc H) as Hrun.
  split.
  - intros x Hx; now rewrite Hrun, Hx.
  - intros x ex Hx; rewrite Hrun, Hx; cbn [option_map].
    eexists; split; [reflexivity|].
    unfold afterChange.
    set (A := if conflicting d boxes c x then _ else attributes ex).
    set (C := if conflictParent d boxes c x then _ else classList ex).
    assert (Ha : attributes (setAttributes A (setClassList C ex)) = A)
      by now destruct ex.
    assert (Hl : classList (setAttributes A (setClassList C ex)) = C)
      by now destruct ex.
    rewrite Ha, Hl.
    split; [now destruct ex|]. split; [reflexivity|]. split; [reflexivity|].
    subst A; split.
    + intros ->; now rewrite getAttribute_toggled.
    + intros name Hn; destruct (conflicting d boxes c x); [|reflexivity].
      rewrite getAttribute_toggled.
      destruct (String.eqb "disabled" name) eqn:E; [|reflexivity].
      apply String.eqb_eq in E; now elim Hn.
Qed.

Lemma conflict_listener_witness :
  let d := Forms.activities in
  let d' := snd (onActivityChange [4; 6; 8] 4 d) in
  (forall x, deref d x = None -> deref d' x = None) /\
  forall x ex,
    deref d x = Some ex ->
    exists ex',
      deref d' x = Some ex' /\
      ex' = setAttributes (attributes ex') (setClassList (classList ex') ex) /\
      attributes ex'
      = (if conflicting d [4; 6; 8] 4 x
         then toggled (checked (Forms.activity "Tuesday 9am-12pm" true 3))
                      (attributes ex)
         else attributes ex) /\
      classList ex'
      = (if conflictParent d [4; 6; 8] 4 x
         then toggledClass
                (checked (Forms.activity "Tuesday 9am-12pm" true 3))
                (classList ex)
         else classList ex) /\
      (conflicting d [4; 6; 8] 4 x = true ->
       getAttribute "disabled" (attributes ex')
       = if checked (Forms.activity "Tuesday 9am-12pm" true 3)
         then Some EmptyString else None) /\
      (forall name, name <> "disabled" ->
                    getAttribute name (attributes ex')
                    = getAttribute name (attributes ex)).
Proof.
  apply (conflict_listener [4; 6; 8] 4 Forms.activities
           (snd (onActivityChange [4; 6; 8] 4 Forms.activities))
           (Forms.activity "Tuesday 9am-12pm" true 3)).
  - reflexivity.
  - apply eff_outcome; vm_compute; reflexivity.
Defined.

(** On that form: the other workshop of Tuesday morning is disabled and
    its label greyed, the one of Wednesday is not. *)
Example activities_disabled :
  let d' := snd (onActivityChange [4; 6; 8] 4 Forms.activities) in
  map (fun h => option_map (fun e => getAttribute "disabled" (attributes e))
                           (deref d' h)) [4; 6; 8]
  = [Some None; Some (Some EmptyString); Some None] /\
  map (fun h => option_map classList (deref d' h)) [3; 5; 7]
  = [Some []; Some ["disabled"]; Some []].
Proof. vm_compute; split; reflexivity. Qed.

(* ================================================================= *)
(** ** [removeHints] and [removeHint] *)

(** X18.  [removeHints] and [removeHint] take elements out of the tree
    and change nothing else.  Where the selector engine returns the
    list [els], every element of the store is still there with its tag,
    id, value, classes and text; each element of [els] has no parent and
    is not connected any more; no element is connected that was not.
    When the engine answers the class selector as specified, no
    connected element with that class is left.  What the engine throws,
    the method throws, with the document untouched. *)
Theorem removeAll_detaches : forall qsa sel d,
  (forall els,
     qsa d None sel = Ok els ->
     exists d',
       removeAll qsa sel d = (Ok tt, d') /\
       List.length d' = List.length d /\
       (forall x, deref d x = None -> deref d' x = None) /\
       forall x ex,
         deref d x = Some ex ->
         exists ex',
           deref d' x = Some ex' /\
           ex' = setConnected (isConnected ex')
                   (setParent (parentElement ex') ex) /\
           (isConnected ex' = true -> isConnected ex = true) /\
           (parentElement ex' = parentElement ex \/
            parentElement ex' = None) /\
           (In x els -> isConnected ex' = false /\
                        parentElement ex' = None)) /\
  (forall e, qsa d None sel = Throw e ->
             removeAll qsa sel d = (Throw e, d)) /\
  (forall id,
     selectsHints qsa id ->
     exists d', removeHint qsa id d = (Ok tt, d') /\ hintsShown d' id = []).
Proof.
  intros qsa sel d; split; [|split].
  - intros els Hq; unfold removeAll, mutate; rewrite Hq.
    eexists; split; [reflexivity|].
    pose proof (removeEach_detached els d) as Hdet.
    split; [now apply detached_length|]. split.
    + intros x Hx.
      destruct (deref (fold_left _ els d) x) as [e|] eqn:E; [|reflexivity].
      apply deref_In in E.
      rewrite <- (detached_keys _ _ Hdet) in E.
      clear - E Hx; exfalso.
      induction d as [|[k y] d IH]; simpl in *; [contradiction|].
      destruct (Nat.eqb k x) eqn:Ek; [discriminate|].
      destruct E as [-> | E]; [now rewrite Nat.eqb_refl in Ek | auto].
    + intros x ex Hx; now apply removeEach_deref.
  - intros e Hq; unfold removeAll, mutate; now rewrite Hq.
  - intros id Hs.
    destruct (removeHint_clears qsa id Hs d) as (d1 & Hr & _ & Hn).
    exists d1; split; [assumption|].
    unfold hintsShown; now rewrite Hn.
Qed.

Lemma removeAll_detaches_witness :
  let d := document (snd (showHints (snd (validateForm Page.submitted)))) in
  exists d',
    removeAll Page.selectAll ".hint" d = (Ok tt, d') /\
    List.length d' = List.length d /\
    (forall x, deref d x = None -> deref d' x = None) /\
    forall x ex,
      deref d x = Some ex ->
      exists ex',
        deref d' x = Some ex' /\
        ex' = setConnected (isConnected ex')
                (setParent (parentElement ex') ex) /\
        (isConnected ex' = true -> isConnected ex = true) /\
        (parentElement ex' = parentElement ex \/
         parentElement ex' = None) /\
        (In x [17; 18; 19] -> isConnected ex' = false /\
                              parentElement ex' = None).
Proof.
  apply (proj1 (removeAll_detaches Page.selectAll ".hint"
                  (document (snd (showHints
                                    (snd (validateForm Page.submitted))))))
               [17; 18; 19]).
  vm_compute; reflexivity.
Defined.

(* ================================================================= *)
(** ** A field is marked valid as soon as one of its rules passes *)

Lemma keepsValid_refl : forall d, keepsValid d d.
Proof. intros d; split; [apply sameButClasses_refl | eauto]. Qed.

Lemma keepsValid_trans : forall d1 d2 d3,
  keepsValid d1 d2 -> keepsValid d2 d3 -> keepsValid d1 d3.
Proof.
  intros d1 d2 d3 (S1 & K1) (S2 & K2); split.
  - eapply sameButClasses_trans; eassumption.
  - intros x ex Hx Hv.
    destruct (K1 x ex Hx Hv) as (ex2 & Hx2 & Hv2); eauto.
Qed.

Lemma labelOrSelf_same : forall d d' fld,
  sameButClasses d d' -> labelOrSelf fld d = labelOrSelf fld d'.
Proof.
  intros d d' [h|] S1; [|reflexivity]; unfold labelOrSelf.
  destruct (deref d h) as [e|] eqn:E.
  - destruct (deref_same d d' h e S1 E) as (e' & -> & He).
    assert (Ht : tagName e' = tagName e)
      by (destruct e, e'; unfold setClassList in He; simpl in He;
          now injection He).
    assert (Hp : parentElement e' = parentElement e)
      by (destruct e, e'; unfold setClassList in He; simpl in He;
          now injection He).
    now rewrite Ht, Hp.
  - now rewrite (deref_same_none d d' h S1 E).
Qed.

Lemma markedValid_keeps : forall fld d d',
  keepsValid d d' -> markedValid fld d -> markedValid fld d'.
Proof.
  intros fld d d' (S1 & K) (t & et & Hl & Ht & Hv).
  destruct (K t et Ht Hv) as (et' & Ht' & Hv').
  exists t, et'; split; [|split; assumption].
  now rewrite <- (labelOrSelf_same d d' fld S1).
Qed.

Lemma showValid_valid : forall fld d d',
  showValid fld d = (Ok tt, d') ->
  keepsValid d d' /\ markedValid fld d'.
Proof.
  intros fld d d' H.
  pose proof (showValid_same _ _ _ _ H) as S1.
  destruct fld as [h|];
    [|unfold showValid, bind, mutate in H; simpl in H; discriminate H].
  destruct (showValid_deref h d d' H) as (e & t & Hh & Et & Ht & Hx).
  assert (Hvalid : forall x cl,
            hasToken "valid" (shownValid h t x cl)
            = Nat.eqb t x || hasToken "valid" cl).
  { intros x cl; rewrite hasToken_shownValid.
    destruct (Nat.eqb t x), (Nat.eqb h x), (hasToken "valid" cl);
      reflexivity. }
  split; [split; [assumption|]|].
  - intros x ex Hd Hv; rewrite Hx, Hd; simpl.
    eexists; split; [reflexivity|].
    replace (classList (setClassList (shownValid h t x (classList ex)) ex))
      with (shownValid h t x (classList ex)) by now destruct ex.
    rewrite Hvalid, Hv; apply orb_true_r.
  - destruct (deref d t) as [et|] eqn:Edt; [|now elim Ht].
    exists t, (setClassList (shownValid h t t (classList et)) et).
    split; [|split].
    + rewrite <- (labelOrSelf_same d d' (Some h) S1).
      unfold labelOrSelf; now rewrite Hh, Et.
    + now rewrite Hx, Edt.
    + replace (classList (setClassList (shownValid h t t (classList et)) et))
        with (shownValid h t t (classList et)) by now destruct et.
      now rewrite Hvalid, Nat.eqb_refl.
Qed.

Lemma formRule_valid : forall ei v ri r s flow s1,
  formRule ei v ri r s = (Ok flow, s1) ->
  keepsValid (document s) (document s1) /\
  exists cs,
    calls s1 = calls s ++ cs /\
    Forall (fun c => callValidator c = ei) cs /\
    (forall ej rj, In (MethodCall ej rj (Ok true)) cs ->
                   markedValid (field v) (document s1)).
Proof.
  intros ei v ri r s flow s1 H.
  rewrite formRule_body, ruleBody_run in H.
  assert (Hstep : forall s0 cs0,
            calls s0 = calls s ++ cs0 -> document s0 = document s ->
            Forall (fun c => callValidator c = ei) cs0 ->
            (forall ej rj, ~ In (MethodCall ej rj (Ok true)) cs0) ->
            bind (callMethod ei ri r (field v))
                 (fun ok => if negb ok then formOnFail v r
                            else formOnPass v r) s0 = (Ok flow, s1) ->
            keepsValid (document s) (document s1) /\
            exists cs,
              calls s1 = calls s ++ cs /\
              Forall (fun c => callValidator c = ei) cs /\
              (forall ej rj, In (MethodCall ej rj (Ok true)) cs ->
                             markedValid (field v) (document s1))).
  { intros s0 cs0 Hc0 Hd0 Hb0 Hn0 H0.
    rewrite methodStep_run in H0; cbv zeta in H0.
    destruct (method r (document s0) (field v)) as [[|]|e] eqn:Em.
    - rewrite formOnPass_run in H0; cbn [document setCalls] in H0.
      destruct (showValid (field v) (document s0)) as [[[]|e] d1] eqn:Es;
        simpl in H0; [|discriminate H0].
      injection H0 as <- <-; cbn [document setDocument calls setCalls].
      rewrite Hd0 in Es; destruct (showValid_valid _ _ _ Es) as (K & M).
      split; [assumption|].
      exists (cs0 ++ [MethodCall ei ri (Ok true)]).
      rewrite Hc0, <- app_assoc; split; [reflexivity|]. split.
      + apply Forall_app; split; [assumption | repeat constructor].
      + intros; assumption.
    - unfold formOnFail, bind, pushError in H0; cbn [errors setCalls] in H0.
      destruct (errors s0) as [es|]; [|discriminate H0].
      injection H0 as <- <-;
        cbn [document setDocument setErrors calls setCalls].
      rewrite Hd0; split; [apply keepsValid_refl|].
      exists (cs0 ++ [MethodCall ei ri (Ok false)]).
      rewrite Hc0, <- app_assoc; split; [reflexivity|]. split.
      + apply Forall_app; split; [assumption | repeat constructor].
      + intros ej rj Hin; exfalso; apply in_app_or in Hin.
        destruct Hin as [Hin | [Hin | []]];
          [eapply Hn0; eassumption | discriminate Hin].
    - discriminate H0. }
  destruct (condition r) as [c|] eqn:Ec.
  - cbv zeta in H.
    destruct (c (document s)) as [[|]|e] eqn:Ecd.
    + apply (Hstep (setCalls (calls s ++ [ConditionCall ei ri (Ok true)]) s)
                   [ConditionCall ei ri (Ok true)]);
        [reflexivity | reflexivity | repeat constructor | | exact H].
      intros ej rj [Hin | []]; discriminate Hin.
    + injection H as <- <-; cbn [document calls setCalls].
      split; [apply keepsValid_refl|].
      exists [ConditionCall ei ri (Ok false)].
      split; [reflexivity|]. split; [repeat constructor|].
      intros ej rj [Hin | []]; discriminate Hin.
    + discriminate H.
  - apply (Hstep s []);
      [now rewrite app_nil_r | reflexivity | constructor | | exact H].
    intros ej rj [].
Qed.

Lemma formRules_valid : forall rs ei v ri s s2,
  formRules ei v ri rs s = (Ok tt, s2) ->
  keepsValid (document s) (document s2) /\
  exists cs,
    calls s2 = calls s ++ cs /\
    Forall (fun c => callValidator c = ei) cs /\
    (forall ej rj, In (MethodCall ej rj (Ok true)) cs ->
                   markedValid (field v) (document s2)).
Proof.
  induction rs as [|r rs IH]; intros ei v ri s s2 H.
  - simpl in H; injection H as <-.
    split; [apply keepsValid_refl|].
    exists []; rewrite app_nil_r.
    split; [reflexivity|]. split; [constructor | intros ej rj []].
  - cbn [formRules] in H; unfold bind at 1 in H.
    destruct (formRule ei v ri r s) as [[flow|e] s1] eqn:E1;
      [|discriminate H].
    destruct (formRule_valid _ _ _ _ _ _ _ E1) as (K1 & cs1 & Hc1 & B1 & M1).
    destruct flow.
    + destruct (IH ei v (S ri) s1 s2 H) as (K2 & cs2 & Hc2 & B2 & M2).
      split; [eapply keepsValid_trans; eassumption|].
      exists (cs1 ++ cs2); rewrite Hc2, Hc1, <- app_assoc.
      split; [reflexivity|]. split; [now apply Forall_app|].
      intros ej rj Hin; apply in_app_or in Hin; destruct Hin as [Hin|Hin].
      * eapply markedValid_keeps; [exact K2 | eapply M1; exact Hin].
      * eapply M2; exact Hin.
    + simpl in H; injection H as <-.
      split; [assumption|]. exists cs1; auto.
Qed.

Lemma formValidators_valid : forall vs i s s',
  formValidators i vs s = (Ok tt, s') ->
  keepsValid (document s) (document s').
Proof.
  induction vs as [|v vs IH]; intros i s s' H.
  - simpl in H; injection H as <-; apply keepsValid_refl.
  - cbn [formValidators] in H; unfold bind at 1 in H.
    destruct (formRules i v 0 (rules v) s) as [[[]|e] s1] eqn:E1;
      [|discriminate H].
    destruct (formRules_valid _ _ _ _ _ _ E1) as (K1 & _).
    eapply keepsValid_trans; [exact K1 | eapply IH; exact H].
Qed.

(** X19.  [validateForm] marks a field valid as soon as one of its rules
    passes, and nothing in the pass takes the mark back.  In a pass that
    returns, if a predicate of the validator at index [|pre|] returned
    true, then at the end the element that stands for its field has the
    class [valid], also when a later rule of that validator failed and
    the field has an error record: only [showHints], called afterwards,
    replaces [valid] by [not-valid]. *)
Theorem valid_once_passed : forall s b s' pre v post cs rj,
  validateForm s = (Ok b, s') ->
  validators s = pre ++ v :: post ->
  calls s' = calls s ++ cs ->
  In (MethodCall (List.length pre) rj (Ok true)) cs ->
  markedValid (field v) (document s').
Proof.
  intros s b s' pre v post cs rj H Hvs Hcs Hin.
  apply validateForm_ok in H; destruct H as (Hok & -> & _).
  set (s0 := setErrors (Some []) s) in *.
  rewrite Hvs in *; rewrite formValidators_app in Hok, Hcs |- *.
  unfold bind in Hok, Hcs |- *.
  destruct (formValidators_log pre 0 s0) as (cs1 & Hc1 & L1).
  destruct (formValidators 0 pre s0) as [[[]|e] s1] eqn:E1;
    [|discriminate Hok].
  cbn [formValidators] in Hok, Hcs |- *; unfold bind in Hok, Hcs |- *.
  destruct (formRules (0 + List.length pre) v 0 (rules v) s1)
    as [[[]|e] s2] eqn:E2; [|discriminate Hok].
  destruct (formRules_valid _ _ _ _ _ _ E2) as (_ & cs2 & Hc2 & B2 & M2).
  destruct (formValidators_log post (S (0 + List.length pre)) s2)
    as (cs3 & Hc3 & L3).
  destruct (formValidators (S (0 + List.length pre)) post s2)
    as [[[]|e] s3] eqn:E3; [|discriminate Hok].
  simpl in Hcs, Hc1, Hc3 |- *.
  apply (markedValid_keeps _ (document s2));
    [eapply formValidators_valid; exact E3|].
  apply (M2 (List.length pre) rj).
  rewrite Hc3, Hc2, Hc1 in Hcs; rewrite <- !app_assoc in Hcs.
  apply app_inv_head in Hcs; subst cs.
  apply in_app_or in Hin; destruct Hin as [Hin | Hin].
  - exfalso.
    pose proof (passLog_bounds _ _ _ L1) as F; rewrite Forall_forall in F.
    destruct (F _ Hin) as (_ & Hlt); simpl in Hlt; lia.
  - apply in_app_or in Hin; destruct Hin as [Hin | Hin]; [assumption|].
    exfalso.
    pose proof (passLog_bounds _ _ _ L3) as F; rewrite Forall_forall in F.
    destruct (F _ Hin) as (Hge & _); simpl in Hge; lia.
Qed.

Lemma valid_once_passed_witness :
  markedValid (Some 3) (document (snd (validateForm Page.submitted))).
Proof.
  apply (valid_once_passed Page.submitted false
           (snd (validateForm Page.submitted)) []
           (mkValidator "name" nameRules (Some 3))
           (skipn 1 (validators Page.submitted))
           (calls (snd (validateForm Page.submitted))) 0).
  - apply run_outcome; vm_compute; reflexivity.
  - reflexivity.
  - reflexivity.
  - vm_compute; left; reflexivity.
Defined.

(** On the submitted form the name, [Al], passes the first rule and
    fails the second: after the pass its label has the class [valid],
    and the error list has a record for it. *)
Example name_valid_with_error :
  let s' := snd (validateForm Page.submitted) in
  option_map classList (deref (document s') 2) = Some ["valid"] /\
  option_map (errorsFor "name") (errors s')
  = Some [mkError "name" "Name must be at least 3 characters long"].
Proof. vm_compute; split; reflexivity. Qed.
